(* ===== verification/_CoqProject ===== *)
-Q . S2P
Prelude.v
Runes.v
Status.v
IO.v
Http.v
Negotiate.v
Codec.v
CodecSpec.v
Lexer.v
LexerSpec.v
Base64.v
Json.v
Proto.v
Params.v
Routes.v
RouteTree.v
RouteRules.v
RouteWalk.v
RouteAdd.v
RouteSearch.v
RouteDelete.v
RouteNames.v
RouteHeap.v
HeapSpec.v
Metadata.v
Compress.v
Selector.v
Stream.v
Framing.v
GrpcStream.v
GrpcSpec.v
Mux.v
MuxSpec.v
RoutePrint.v
HttpStream.v
HttpSpec.v
WsStream.v
Web.v
Serve.v
ServeSpec.v
GrpcServe.v
HttpServe.v
WebSpec.v
Conn.v
ProxySpec.v
ConnSpec.v
Concurrent.v
WsSpec.v
Reflection.v
Signal.v
Server.v
Docs.v
