(* ===== verification/Prelude.v ===== *)
(** * larking: a verification development

    larking is a reverse proxy and server in Go: one [http.Handler], the mux, serves
    gRPC methods over gRPC, gRPC-Web, HTTP with JSON or protobuf bodies
    (transcoding by google.api.http rules), and WebSockets.  The methods are those
    of services of the program, or of backends whose descriptors are fetched by
    reflection and to which calls are forwarded.  The code is in src/larking, with one
    function in src/health and the program of the documentation in src/docs.

    ** Parts and files

    Every file from the source has a file here that has its definitions under the
    names of the source, and, where the theorems are long, a second one that has
    those.  A file requires the parts that it calls.

    - Prelude.v, Runes.v: outcomes of Go calls, stateful calls, 64-bit integers,
      Go's strings and their functions, UTF-8 and the tables of unicode.  [st S E A] is a call on a receiver of
      state [S]; [keeps] says what a call does not change.
    - Status.v: errors, gRPC codes, code.go.
    - IO.v, Http.v, Base64.v, Json.v, Proto.v: what the program uses of the Go
      library and of protobuf.  Readers deliver chunks of any size; a response writer
      is a class with the events it sent; descriptors and messages are the classes
      [Protoreflect] and [Messages], with plain data as an instance.
    - Lexer.v, LexerSpec.v: lexer.go, the lexer of templates and of request paths.
    - Params.v: rules.go, the values of parameters and their assignment.
    - Routes.v, RouteTree.v, RouteRules.v, RouteWalk.v, RouteAdd.v, RouteSearch.v,
      RouteDelete.v, RouteNames.v, RoutePrint.v: rules.go, the routing tree.  Routes.v
      has the data and its operations, RouteTree.v well-formedness and growth,
      RouteRules.v [addRule] and templates, RouteWalk.v what [addRule] does on any
      template that the lexer accepts, and the others a theorem group each, with
      [search] and [match] in RouteSearch.v, [delRule] and [clone] in RouteDelete.v, and
      [String] in RoutePrint.v.
    - RouteHeap.v, HeapSpec.v: the same tree as nodes of a heap that point to one
      another.  What [addRule] needs of a tree is the class [RoutingTree] of
      RouteRules.v, of which the tree as a value and the tree in a heap are instances;
      the proofs that relate them are in the separation logic of Iris.
    - Negotiate.v: negotiate.go.  Codec.v, CodecSpec.v: codec.go.  Compress.v:
      compress.go.
    - Metadata.v, GrpcStream.v, GrpcSpec.v: grpc.go, headers and time-outs, the
      stream, its theorems.  What a stream needs of the response writer is the class
      [WriterLaws] of Http.v, with the writer of net/http and that of gRPC-Web as
      instances.
    - Selector.v, Stream.v: mux.go, the rules of a service configuration and the
      options of a mux; log.go and stats.go.  Stream.v also has what the transports
      share: codecs, the class [ServerStream], and handlers, which are programs
      ([prog]) over the calls of a stream and run on every transport ([run]).
    - Framing.v: what a streaming codec promises to a stream, as the class [Framing],
      with the protobuf and the JSON codec as instances.
    - Mux.v, MuxSpec.v: mux.go and handler.go, the state of the mux and registration.
    - HttpStream.v, HttpSpec.v: http.go, the stream.  WsStream.v: websocket.go.
      Web.v: web.go.
    - Serve.v, ServeSpec.v: [ServeHTTP] and what it calls, of grpc.go, web.go, http.go
      and mux.go.  GrpcServe.v, HttpServe.v, WsSpec.v, WebSpec.v: calls over gRPC, over
      HTTP, over a WebSocket and over gRPC-Web from the request to the response.
    - Conn.v, ProxySpec.v, ConnSpec.v: mux.go, connections to backends: the resolver of
      reflected files, [RegisterConn], and the handlers that forward calls.
    - Concurrent.v: mux.go, registrations and requests at the same time, with the mutex
      and the atomic pointer of the mux as steps of a transition system.
    - Reflection.v: proxy.go, the reflection service.
    - Server.v, Signal.v: server.go and health.go.  Docs.v: the program of docs/main.go,
      which puts the parts together.

    A request goes through the parts so: [ServeHTTP] chooses a transport; over HTTP,
    [state_match] lexes the path and searches the tree, [parseQueryParams] reads the
    query, [pickMethodHandler] takes a handler of the state, and the handler runs on a
    stream, whose [RecvMsg] reads a message with the negotiated codec and sets the
    parameters in it.  Registration clones the state, changes the clone and stores it.

    ** Theorems

    - Lexers: they accept exactly the grammar, up to 64 tokens, and always return
      (LexerSpec.v).
    - Routing: whatever the rule, [addRule] ends and loses nothing, and a success leaves
      a well-formed tree with the rule's own method at its node; its additional bindings
      are registered when the method is new, and not otherwise (RouteAdd.v).  [match] is
      sound, complete where one route serves the request, total, and serves what
      [addRule] registered (RouteSearch.v); [delRule] removes one method of a verb, and
      methods for every verb only with the nodes that it prunes (RouteDelete.v).
    - The rules of a service configuration are those whose selectors name a prefix of a
      method's name; a misplaced wildcard panics (Selector.v).
    - Parameters are well typed, and assigning them changes just their fields
      (Params.v).
    - Wire formats: frames of every codec, gRPC messages, metadata and base64 round
      trip however bytes arrive; time-outs and message escapes are described exactly
      (CodecSpec.v, Framing.v, GrpcSpec.v, Metadata.v, Base64.v).
    - Streams: whatever a handler does, a gRPC response is whole frames (GrpcSpec.v);
      a body is one message or the frames of a client stream (HttpSpec.v).  Over gRPC,
      over HTTP and over a WebSocket every handler runs as on an ideal stream, whose
      input and output are lists of messages, and the response is made of that output
      and the outcome (GrpcServe.v, HttpServe.v, WsSpec.v); over gRPC-Web the status is
      the last frame (WebSpec.v).
    - The mux: registration serves each method and keeps the others; the registration
      of a new connection serves every method of the files that the backend reflects
      (MuxSpec.v, ConnSpec.v).  In every mux that is reached a matched request has its
      handler, except where a known connection was registered again and reflected other
      files: of the names that it had, routes may be left without a handler, and the
      theorem says which (ConnSpec.v).  Unary calls from request to response, errors,
      and gRPC statuses (ServeSpec.v).
    - Concurrency: under every schedule, concurrent registrations and requests have the
      results of calls made one at a time in an order that respects their starts and
      ends (Concurrent.v), and dispatch in the state that a request has loaded is that of
      the muxes above; the nodes of a tree that a mux has published are never written
      again, also by a registration that deletes rules and adds others, which is why
      requests need no lock (HeapSpec.v).
    - Forwarding: the two goroutines of a stream are a transition system that the
      handler refines under every schedule; messages are forwarded in order, the call
      ends when both sides do, and never when the backend waits for the end of the
      client's messages (ProxySpec.v).
    - The rest of the program: the lookups of the reflection service agree, and what
      it answers registers nothing (Reflection.v); a server routes its patterns to the
      mux (Server.v); the signal context is cancelled when it should be, and its
      goroutine ends (Signal.v); the program of the documentation serves its health
      service (Docs.v).
    - Behaviour that the source does not mean to have is stated too: panics of the tree
      and of parameters, lengths that become negative, cycles of imports.

    ** Fuel

    Loops without a structural argument have fuel, and [OutOfFuel] is an outcome of
    its own, which the theorems exclude: lexers and scanners take the length of their
    input, readers the number of bytes and chunks that are left, [search] and [delRule]
    the height of the tree, selectors the length of a name.  The resolver takes the
    depth of imports, for which [resolver_ends] gives the bound and [resolver_cycle]
    the case without one.  A forwarded call takes a schedule, and [forward_ends] says
    how many turns are enough.

    ** What is assumed, and what is not modelled

    Code outside src is a class or an argument: descriptors and messages, the
    marshalling of protobuf and JSON, gzip, WebSocket connections, the reflection
    client and the builder of descriptors, calls to a backend, Go's tables of runes,
    the order in which [range] visits a map, and how [append] grows a slice.  Each has
    an instance to evaluate the definitions with.  What a backend reflects is its own at
    each call, so it may change between two.  Reading a WebSocket message may write the
    control frames that answer the client's; writes to a connection succeed.  A gRPC
    call on the ideal stream has a context that is not done and, with a statistics
    handler, messages of five bytes or more: [grpc_recv_safe] states the panic that
    shorter ones have.  The order that [range] and
    [rand.Intn] choose, and Go's scheduler, are arguments.

    Only Concurrent.v and HeapSpec.v have several calls at a time; elsewhere the
    operations on a mux are a sequence.  The bytes of a pooled slice do not show, its
    capacity does.  Deadlines of contexts are data, not time: when a context ends is
    part of its value, except for the signal context.  The JSON of a twirp error is an
    argument.  The case of [ServerReflectionInfo] for each kind of request is a comment
    in the source, and no definition here.  Not modelled are [variable.String], which
    only formats a struct, the wrapper [NewServer] of health.go around grpc/health,
    generated code, benchmarks, and examples, of which the one in Go uses a type that
    the package does not have. *)

From Stdlib Require Export Ascii String ZArith Lia.
From stdpp Require Export base tactics option list gmap strings sorting.
Open Scope string_scope.
Open Scope nat_scope.
Open Scope list_scope.

#[global] Arguments String.append !_ _ / : simpl nomatch.
#[global] Set Default Goal Selector "!".

(** ** Outcomes of a Go call

    A Go function of the program returns a value, returns a non-nil [error],
    or panics.  A loop that a model unrolls with fuel has a fourth outcome,
    which the termination theorems show is never reached. *)

Inductive panic :=
  | IndexOutOfRange
  | SliceOutOfRange
  | NilDereference
  | PanicCall (msg : string).

Inductive outcome (E A : Type) :=
  | Ok (a : A)
  | Err (e : E)
  | Panic (p : panic)
  | OutOfFuel.
Arguments Ok {E A} a.
Arguments Err {E A} e.
Arguments Panic {E A} p.
Arguments OutOfFuel {E A}.

#[export] Instance panic_eq_dec : EqDecision panic.
Proof. solve_decision. Defined.

#[export] Instance outcome_ret E : MRet (outcome E) := fun A a => Ok a.

#[export] Instance outcome_bind E : MBind (outcome E) := fun A B f m =>
  match m with
  | Ok a => f a
  | Err e => Err e
  | Panic p => Panic p
  | OutOfFuel => OutOfFuel
  end.

(** A proposition is decided by deciding an equivalent one. *)
Definition decision_iff {P Q : Prop} (H : P <-> Q) (d : Decision P) : Decision Q :=
  match d with
  | left p => left (proj1 H p)
  | right np => right (fun q => np (proj2 H q))
  end.

Definition is_ok {E A} (o : outcome E A) : bool :=
  match o with Ok _ => true | _ => false end.

Definition is_panic {E A} (o : outcome E A) : bool :=
  match o with Panic _ => true | _ => false end.

(** ** Stateful code: a method with a pointer receiver

    [st S E A] is a call on a receiver of state [S]; the state reached is kept
    on every outcome, as the receiver's mutations are. *)

Definition st (S E A : Type) : Type := S -> S * outcome E A.

#[export] Instance st_ret S E : MRet (st S E) := fun A a s => (s, Ok a).

#[export] Instance st_bind S E : MBind (st S E) := fun A B f m s =>
  match m s with
  | (s', Ok a) => f a s'
  | (s', Err e) => (s', Err e)
  | (s', Panic p) => (s', Panic p)
  | (s', OutOfFuel) => (s', OutOfFuel)
  end.

Definition get {S E} : st S E S := fun s => (s, Ok s).
Definition modify {S E} (f : S -> S) : st S E unit := fun s => (f s, Ok tt).
Definition throw {S E A} (e : E) : st S E A := fun s => (s, Err e).
Definition crash {S E A} (p : panic) : st S E A := fun s => (s, Panic p).
Definition stuck {S E A} : st S E A := fun s => (s, OutOfFuel).

(** Inversion of a successful bind: the tactic that the proofs about stateful
    code use instead of unfolding the monad by hand. *)

Lemma st_bind_ok {S E A B} (m : st S E A) (f : A -> st S E B) s s' b :
  (m ≫= f) s = (s', Ok b) <->
  exists s1 a, m s = (s1, Ok a) /\ f a s1 = (s', Ok b).
Proof.
  unfold mbind, st_bind. split.
  - destruct (m s) as [s1 [a|e|p|]] eqn:?; intros; [eauto | done..].
  - intros (s1 & a & -> & H). exact H.
Qed.

Lemma st_bind_run {S E A B} (m : st S E A) (f : A -> st S E B) s s1 a :
  m s = (s1, Ok a) -> (m ≫= f) s = f a s1.
Proof. unfold mbind, st_bind. by intros ->. Qed.

Lemma st_bind_err {S E A B} (m : st S E A) (f : A -> st S E B) s s1 e :
  m s = (s1, Err e) -> (m ≫= f) s = (s1, Err e).
Proof. unfold mbind, st_bind. by intros ->. Qed.

Lemma st_bind_assoc {S E A B C} (m : st S E A) (f : A -> st S E B) (g : B -> st S E C) s :
  ((m ≫= f) ≫= g) s = (m ≫= (fun a => f a ≫= g)) s.
Proof. unfold mbind, st_bind. by destruct (m s) as [s1 []]. Qed.

Lemma bind_get {S E B} (f : S -> st S E B) s : (get ≫= f) s = f s s.
Proof. done. Qed.

Lemma bind_modify {S E B} (g : S -> S) (k : st S E B) s : (modify g;; k) s = k (g s).
Proof. done. Qed.

(** What a call does not change: [keeps R f] when [R] relates the state before to the
    state after, on every outcome. *)
Section Keeps.
Context {S E : Type} (R : S -> S -> Prop) `{!Reflexive R, !Transitive R}.

Definition keeps {A} (f : st S E A) : Prop := forall s, R s (fst (f s)).

Lemma keeps_ret {A} (a : A) : keeps (mret a).
Proof using Reflexive0. by intros s. Qed.
Lemma keeps_get : keeps get.
Proof using Reflexive0. by intros s. Qed.
Lemma keeps_throw {A} e : keeps (throw (A := A) e).
Proof using Reflexive0. by intros s. Qed.
Lemma keeps_crash {A} p : keeps (crash (A := A) p).
Proof using Reflexive0. by intros s. Qed.
Lemma keeps_modify g : (forall s, R s (g s)) -> keeps (modify g).
Proof using. by intros H s. Qed.
Lemma keeps_bind {A B} (m : st S E A) (f : A -> st S E B) : keeps m -> (forall a, keeps (f a)) -> keeps (m ≫= f).
Proof using Transitive0.
  intros Hm Hf s. specialize (Hm s). unfold mbind, st_bind. destruct (m s) as [s1 [a|e|p|]]; [|done..].
  transitivity s1; [done|apply Hf].
Qed.
Lemma keeps_if {A} (b : bool) (f g : st S E A) : keeps f -> keeps g -> keeps (if b then f else g).
Proof using. by destruct b. Qed.
End Keeps.

Create HintDb keeps.
#[export] Hint Resolve keeps_ret keeps_get keeps_throw keeps_crash keeps_modify keeps_bind keeps_if : keeps.
Ltac keep := auto with keeps typeclass_instances.

(** ** Machine integers *)

Definition wrap64 (z : Z) : Z := (z + 2 ^ 63) `mod` 2 ^ 64 - 2 ^ 63.
Definition wrapu (w : Z) (z : Z) : Z := z `mod` 2 ^ w.
Definition max_int64 : Z := 2 ^ 63 - 1.
Definition min_int64 : Z := - 2 ^ 63.

Lemma wrap64_range z : (min_int64 <= wrap64 z <= max_int64)%Z.
Proof.
  unfold wrap64, min_int64, max_int64.
  pose proof (Z.mod_pos_bound (z + 2 ^ 63) (2 ^ 64) eq_refl). lia.
Qed.

Lemma wrap64_id z : (min_int64 <= z <= max_int64)%Z -> wrap64 z = z.
Proof.
  unfold wrap64, min_int64, max_int64. intros H.
  rewrite Z.mod_small; lia.
Qed.

(** ** Go strings

    A Go string is a sequence of bytes; [string] is the Standard Library's, so
    an [ascii] is one byte.  [strings] functions keep their Go names. *)

Definition byteZ (c : ascii) : Z := Z.of_N (N_of_ascii c).

Lemma byteZ_range c : (0 <= byteZ c < 256)%Z.
Proof. unfold byteZ. pose proof (N_ascii_bounded c). lia. Qed.

Lemma byteZ_inj c d : byteZ c = byteZ d -> c = d.
Proof.
  unfold byteZ. intros H%N2Z.inj.
  by rewrite <-(ascii_N_embedding c), <-(ascii_N_embedding d), H.
Qed.

Fixpoint str_drop (n : nat) (s : string) : string :=
  match n, s with
  | O, _ => s
  | S n, String _ s => str_drop n s
  | S _, EmptyString => EmptyString
  end.

Fixpoint str_take (n : nat) (s : string) : string :=
  match n, s with
  | O, _ => EmptyString
  | S n, String c s => String c (str_take n s)
  | S _, EmptyString => EmptyString
  end.

(** [s[a:b]]; the caller checks [a <= b <= len(s)], as Go does. *)
Definition str_slice (a b : nat) (s : string) : string :=
  str_take (b - a) (str_drop a s).

Definition str_head (s : string) : option ascii :=
  match s with String c _ => Some c | EmptyString => None end.

Fixpoint HasPrefix (s prefix : string) : bool :=
  match prefix, s with
  | EmptyString, _ => true
  | String c prefix, String d s => Ascii.eqb c d && HasPrefix s prefix
  | String _ _, EmptyString => false
  end.

Definition HasSuffix (s suffix : string) : bool :=
  (String.length suffix <=? String.length s) &&
  String.eqb (str_drop (String.length s - String.length suffix) s) suffix.

Definition TrimPrefix (s prefix : string) : string :=
  if HasPrefix s prefix then str_drop (String.length prefix) s else s.

Definition TrimSuffix (s suffix : string) : string :=
  if HasSuffix s suffix
  then str_take (String.length s - String.length suffix) s else s.

(** [strings.Cut] for a one-byte separator. *)
Fixpoint Cut (s : string) (sep : ascii) : string * string * bool :=
  match s with
  | EmptyString => (EmptyString, EmptyString, false)
  | String c s' =>
      if Ascii.eqb c sep then (EmptyString, s', true)
      else let '(before, after, found) := Cut s' sep in
           (String c before, after, found)
  end.

(** [strings.Split] for a one-byte separator: never the empty list. *)
Fixpoint Split (s : string) (sep : ascii) : list string :=
  match s with
  | EmptyString => [EmptyString]
  | String c s' =>
      if Ascii.eqb c sep then EmptyString :: Split s' sep
      else match Split s' sep with
           | [] => [String c EmptyString]
           | w :: ws => String c w :: ws
           end
  end.

Fixpoint ContainsByte (s : string) (c : ascii) : bool :=
  match s with
  | EmptyString => false
  | String d s => Ascii.eqb d c || ContainsByte s c
  end.

Fixpoint str_forallb (p : ascii -> bool) (s : string) : bool :=
  match s with
  | EmptyString => true
  | String c s => p c && str_forallb p s
  end.

Fixpoint str_map (f : ascii -> ascii) (s : string) : string :=
  match s with
  | EmptyString => EmptyString
  | String c s => String (f c) (str_map f s)
  end.

(** [strings.ToLower] on ASCII, and the capitals of ASCII; the program gives
    [strings.ToLower] header names and code names. *)
Definition ascii_upper (c : ascii) : ascii :=
  let n := N_of_ascii c in
  if ((97 <=? n) && (n <=? 122))%N then ascii_of_N (n - 32) else c.
Definition ascii_lower (c : ascii) : ascii :=
  let n := N_of_ascii c in
  if ((65 <=? n) && (n <=? 90))%N then ascii_of_N (n + 32) else c.
Definition ToLower : string -> string := str_map ascii_lower.

Fixpoint str_concat (l : list string) : string :=
  match l with
  | [] => EmptyString
  | s :: l => (s ++ str_concat l)%string
  end.

(** ** Lemmas on strings *)

Lemma str_length_app s t : String.length (s ++ t)%string = String.length s + String.length t.
Proof. induction s; simpl; congruence. Qed.

Lemma str_app_assoc s t u : ((s ++ t) ++ u)%string = (s ++ (t ++ u))%string.
Proof. induction s; simpl; congruence. Qed.

Lemma str_app_nil_r s : (s ++ "")%string = s.
Proof. induction s; simpl; congruence. Qed.

Lemma str_app_inv_head s t u : (s ++ t)%string = (s ++ u)%string -> t = u.
Proof. induction s; simpl; [done|]. intros [= H]. auto. Qed.

Lemma str_app_inv_tail s t u : (s ++ u)%string = (t ++ u)%string -> s = t.
Proof.
  revert t. induction s as [|c s IH]; intros [|d t]; simpl; intros H; try done.
  - apply (f_equal String.length) in H. simpl in H. rewrite str_length_app in H. lia.
  - apply (f_equal String.length) in H. simpl in H. rewrite str_length_app in H. lia.
  - injection H as -> H. f_equal. auto.
Qed.

Lemma str_take_drop n s : (str_take n s ++ str_drop n s)%string = s.
Proof. revert s. induction n; intros [|c s]; simpl; f_equal; auto. Qed.

Lemma str_length_take n s : String.length (str_take n s) = n `min` String.length s.
Proof. revert s. induction n; intros [|c s]; simpl; f_equal; auto. Qed.

Lemma str_length_drop n s : String.length (str_drop n s) = String.length s - n.
Proof. revert s. induction n; intros [|c s]; simpl; auto. Qed.

Lemma str_drop_0 s : str_drop 0 s = s.
Proof. by destruct s. Qed.

Lemma str_take_0 s : str_take 0 s = "".
Proof. by destruct s. Qed.

Lemma str_drop_drop n m s : str_drop n (str_drop m s) = str_drop (m + n) s.
Proof.
  revert s. induction m; intros [|c s]; simpl; rewrite ?str_drop_0; auto.
  by destruct n.
Qed.

Lemma str_drop_app s t : str_drop (String.length s) (s ++ t)%string = t.
Proof. induction s; simpl; rewrite ?str_drop_0; auto. Qed.

Lemma str_take_app s t : str_take (String.length s) (s ++ t)%string = s.
Proof. induction s; simpl; rewrite ?str_take_0; f_equal; auto. Qed.

Lemma str_drop_ge n s : String.length s <= n -> str_drop n s = "".
Proof. revert n. induction s; intros [|n] H; simpl in *; try done; [lia | apply IHs; lia]. Qed.

Lemma str_take_ge n s : String.length s <= n -> str_take n s = s.
Proof. revert n. induction s; intros [|n] H; simpl in *; try done; [lia | f_equal; apply IHs; lia]. Qed.

Lemma str_take_app_drop a n m s :
  (str_take n (str_drop a s) ++ str_take m (str_drop (a + n) s))%string
  = str_take (n + m) (str_drop a s).
Proof.
  rewrite <-str_drop_drop. generalize (str_drop a s). clear.
  induction n as [|n IH]; intros [|c s]; simpl; f_equal; auto.
  by destruct m.
Qed.

Lemma str_slice_app a b c s :
  a <= b <= c -> (str_slice a b s ++ str_slice b c s)%string = str_slice a c s.
Proof.
  intros H. unfold str_slice.
  replace b with (a + (b - a)) at 2 3 by lia.
  rewrite str_take_app_drop. f_equal; lia.
Qed.

Lemma str_slice_nil a s : str_slice a a s = "".
Proof. unfold str_slice. rewrite Nat.sub_diag. by destruct (str_drop a s). Qed.

Lemma str_slice_full s : str_slice 0 (String.length s) s = s.
Proof. unfold str_slice. rewrite Nat.sub_0_r, str_drop_0. by apply str_take_ge. Qed.

Lemma str_length_slice a b s :
  a <= b <= String.length s -> String.length (str_slice a b s) = b - a.
Proof.
  intros H. unfold str_slice. rewrite str_length_take, str_length_drop. lia.
Qed.

Lemma str_slice_mid s t u :
  str_slice (String.length s) (String.length s + String.length t) (s ++ t ++ u)%string = t.
Proof.
  unfold str_slice. rewrite str_drop_app.
  replace (_ + _ - _) with (String.length t) by lia. apply str_take_app.
Qed.

Lemma str_concat_app l1 l2 :
  str_concat (l1 ++ l2) = (str_concat l1 ++ str_concat l2)%string.
Proof. induction l1; simpl; [done|]. by rewrite IHl1, str_app_assoc. Qed.

Lemma str_head_drop n s c :
  str_head (str_drop n s) = Some c -> n < String.length s.
Proof.
  intros H. destruct (decide (n < String.length s)) as [|Hn]; [done|].
  rewrite str_drop_ge in H by lia. done.
Qed.

Lemma HasPrefix_spec s p : HasPrefix s p = true <-> exists t, s = (p ++ t)%string.
Proof.
  revert s. induction p as [|c p IH]; intros [|d s]; simpl.
  - split; eauto.
  - split; eauto.
  - split; [done | by intros [t ?]].
  - destruct (Ascii.eqb_spec c d) as [->|Hne]; simpl.
    + rewrite IH. split; intros [t H]; exists t; congruence.
    + split; [done | intros [t ?]; congruence].
Qed.

Lemma Cut_found s sep a b :
  Cut s sep = (a, b, true) -> s = (a ++ String sep b)%string /\ ContainsByte a sep = false.
Proof.
  revert a b. induction s as [|c s IH]; intros a b; simpl; [done|].
  destruct (Ascii.eqb_spec c sep) as [->|Hne].
  - by intros [= <- <-].
  - destruct (Cut s sep) as [[a' b'] f] eqn:E. intros [= <- <- ->].
    destruct (IH a' b' eq_refl) as [-> Ha]. split; [done|].
    simpl. rewrite Ha. by destruct (Ascii.eqb_spec c sep).
Qed.

Lemma Cut_not_found s sep a b :
  Cut s sep = (a, b, false) -> a = s /\ b = "" /\ ContainsByte s sep = false.
Proof.
  revert a b. induction s as [|c s IH]; intros a b; simpl.
  - by intros [= <- <-].
  - destruct (Ascii.eqb_spec c sep) as [->|Hne]; [done|].
    destruct (Cut s sep) as [[a' b'] f] eqn:E. intros [= <- <- ->].
    by destruct (IH a' b' eq_refl) as (-> & -> & ->).
Qed.

Lemma Cut_length s sep a b f :
  Cut s sep = (a, b, f) -> s <> "" -> String.length b < String.length s.
Proof.
  destruct f; intros H Hs.
  - apply Cut_found in H as [-> _]. rewrite str_length_app. simpl. lia.
  - apply Cut_not_found in H as (-> & -> & _). destruct s; simpl; [done | lia].
Qed.

Lemma Split_not_nil s sep : Split s sep <> [].
Proof. destruct s; simpl; [done|]. destruct (Ascii.eqb _ _); [done|]. by destruct (Split s sep). Qed.

Lemma Split_Cut s sep :
  Split s sep = match Cut s sep with
                | (a, b, true) => a :: Split b sep
                | (a, _, false) => [a]
                end.
Proof.
  induction s as [|c s IH]; simpl; [done|].
  destruct (Ascii.eqb_spec c sep); [done|]. rewrite IH.
  by destruct (Cut s sep) as [[a b] []].
Qed.

(** ** Folds *)

Lemma list_filter_all {A} (Q : A -> Prop) `{!forall x, Decision (Q x)} (l : list A) : Forall Q l -> filter Q l = l.
Proof. induction 1 as [|x l Hx _ IH]; [done|]. by rewrite filter_cons_True, IH. Qed.

Lemma foldl_inv {A B} (I : A -> Prop) (f : A -> B -> A) (l : list B) a :
  I a -> (forall a x, x ∈ l -> I a -> I (f a x)) -> I (foldl f a l).
Proof.
  revert a. induction l as [|x l IH]; intros a Ha Hf; simpl; [done|].
  apply IH; [apply Hf; [left|done]|]. intros a' y Hy. apply Hf. by right.
Qed.

(** ** Reasoning about stateful code

    [wp m R Q s]: from [s], the call [m] neither panics nor runs out of fuel; it
    ends in a state and a value that satisfy [Q], or with an error of [R]. *)

Definition wp {S E A} (m : st S E A) (R : E -> Prop) (Q : A -> S -> Prop) (s : S) : Prop :=
  match m s with
  | (s', Ok a) => Q a s'
  | (_, Err e) => R e
  | (_, Panic _) | (_, OutOfFuel) => False
  end.

Lemma wp_ret {S E A} (a : A) (R : E -> Prop) (Q : A -> S -> Prop) s :
  Q a s -> wp (mret a) R Q s.
Proof. done. Qed.

Lemma wp_bind {S E A B} (m : st S E A) (f : A -> st S E B) R Q s :
  wp m R (fun a s' => wp (f a) R Q s') s -> wp (m ≫= f) R Q s.
Proof. unfold wp, mbind, st_bind. by destruct (m s) as [? []]. Qed.

Lemma wp_mono {S E A} (m : st S E A) R (Q Q' : A -> S -> Prop) s :
  wp m R Q s -> (forall a s', Q a s' -> Q' a s') -> wp m R Q' s.
Proof. unfold wp. destruct (m s) as [? []]; auto. Qed.

Lemma wp_throw {S E A} (e : E) (R : E -> Prop) (Q : A -> S -> Prop) s :
  R e -> wp (throw e) R Q s.
Proof. done. Qed.

Lemma wp_get {S E} (R : E -> Prop) (Q : S -> S -> Prop) s : Q s s -> wp get R Q s.
Proof. done. Qed.

Lemma wp_modify {S E} f (R : E -> Prop) (Q : unit -> S -> Prop) s :
  Q tt (f s) -> wp (modify f) R Q s.
Proof. done. Qed.

(** ** Ranging over a map

    [for k, v := range m] visits every entry once, in an order the language does
    not fix: an instance chooses one, and the theorems hold for all. *)

Class GoRange := {
  range {A} : gmap string A -> list (string * A);
  range_perm {A} (m : gmap string A) : range m ≡ₚ map_to_list m;
}.

#[export] Instance sorted_range : GoRange :=
  {| range A m := map_to_list m; range_perm A m := reflexivity _ |}.

Lemma elem_of_range `{GoRange} {A} (m : gmap string A) k v :
  (k, v) ∈ range m <-> m !! k = Some v.
Proof. by rewrite range_perm, elem_of_map_to_list. Qed.
