(* ===== verification/Runes.v ===== *)
(** Runes: the decoding of UTF-8 that the lexer reads its input with
    ([utf8.DecodeRuneInString]) and the character classes of the [unicode]
    package, and [strings.ToUpper].  The large tables of [unicode] are the fields of
    the class [Unicode]; everything else is concrete and evaluates. *)

From S2P Require Import Prelude.
Local Open Scope Z_scope.

Definition RuneError : Z := 65533.
Definition RuneSelf : Z := 128.

(** A continuation byte in the closed interval given. *)
Definition between (lo hi x : Z) : bool := (lo <=? x) && (x <=? hi).

(** [first] and [acceptRanges] of unicode/utf8: for a leading byte, the length of
    the sequence and the interval of the second byte. *)
Definition utf8_first (x : Z) : option (nat * Z * Z) :=
  if between 194 223 x then Some (2%nat, 128, 191)
  else if x =? 224 then Some (3%nat, 160, 191)
  else if between 225 236 x then Some (3%nat, 128, 191)
  else if x =? 237 then Some (3%nat, 128, 159)
  else if between 238 239 x then Some (3%nat, 128, 191)
  else if x =? 240 then Some (4%nat, 144, 191)
  else if between 241 243 x then Some (4%nat, 128, 191)
  else if x =? 244 then Some (4%nat, 128, 143)
  else None.

(** The low [k] bits of [x], moved up by [n]. *)
Definition bits (x k n : Z) : Z := Z.shiftl (Z.land x (Z.ones k)) n.

(** [utf8.DecodeRuneInString]: the rune and its width in bytes. *)
Definition DecodeRune (s : string) : Z * nat :=
  match s with
  | EmptyString => (RuneError, 0%nat)
  | String c0 s1 =>
      let x := byteZ c0 in
      if x <? RuneSelf then (x, 1%nat) else
      match utf8_first x with
      | None => (RuneError, 1%nat)
      | Some (sz, lo, hi) =>
          match s1 with
          | EmptyString => (RuneError, 1%nat)
          | String c1 s2 =>
              if (String.length s <? sz)%nat then (RuneError, 1%nat) else
              if negb (between lo hi (byteZ c1)) then (RuneError, 1%nat) else
              if (sz <=? 2)%nat
              then (Z.lor (bits x 5 6) (bits (byteZ c1) 6 0), 2%nat) else
              match s2 with
              | EmptyString => (RuneError, 1%nat)
              | String c2 s3 =>
                  if negb (between 128 191 (byteZ c2)) then (RuneError, 1%nat) else
                  if (sz <=? 3)%nat
                  then (Z.lor (Z.lor (bits x 4 12) (bits (byteZ c1) 6 6))
                              (bits (byteZ c2) 6 0), 3%nat) else
                  match s3 with
                  | EmptyString => (RuneError, 1%nat)
                  | String c3 _ =>
                      if negb (between 128 191 (byteZ c3)) then (RuneError, 1%nat) else
                      (Z.lor (Z.lor (Z.lor (bits x 3 18) (bits (byteZ c1) 6 12))
                                    (bits (byteZ c2) 6 6))
                             (bits (byteZ c3) 6 0), 4%nat)
                  end
              end
          end
      end
  end.

(** The tables [unicode.Letter] and [unicode.Number] above Latin-1, which Go
    searches for a rune greater than U+00FF; neither holds U+FFFD. *)
Class Unicode := {
  letter_table : Z -> bool;
  number_table : Z -> bool;
  (** [unicode.ToUpper] of a rune that is not ASCII *)
  upper_table : Z -> Z;
  letter_table_range r : letter_table r = true -> 255 < r <= 1114111 /\ r <> RuneError;
  number_table_range r : number_table r = true -> 255 < r <= 1114111 /\ r <> RuneError;
}.

Section Classes.
Context `{U : Unicode}.

(** [unicode.IsLetter]: the Latin-1 properties, or the table. *)
Definition IsLetter (r : Z) : bool :=
  if between 0 255 r
  then between 65 90 r || between 97 122 r || (r =? 170) || (r =? 181) || (r =? 186)
       || between 192 214 r || between 216 246 r || between 248 255 r
  else letter_table r.

(** [unicode.IsNumber]. *)
Definition IsNumber (r : Z) : bool :=
  if between 0 255 r
  then between 48 57 r || (r =? 178) || (r =? 179) || (r =? 185) || between 188 190 r
  else number_table r.
End Classes.

(** All runes of a string, decoded from left to right as [range s] does. *)
Fixpoint runes_fuel (fuel : nat) (s : string) : list Z :=
  match fuel, s with
  | S fuel, String _ _ =>
      let '(r, w) := DecodeRune s in r :: runes_fuel fuel (str_drop w s)
  | _, _ => []
  end.
Definition runes (s : string) : list Z := runes_fuel (String.length s) s.

(** [utf8.AppendRune], for one rune: the bytes of a rune, or of the rune of an error. *)
Definition byte_of (x : Z) : ascii := ascii_of_N (Z.to_N x).
Definition EncodeRune (r : Z) : string :=
  let r := if ((0 <=? r) && (r <=? 1114111) && negb (between 55296 57343 r))%bool then r else RuneError in
  if r <? RuneSelf then String (byte_of r) ""
  else if r <=? 2047 then String (byte_of (192 + Z.shiftr r 6)) (String (byte_of (128 + bits r 6 0)) "")
  else if r <=? 65535 then
    String (byte_of (224 + Z.shiftr r 12)) (String (byte_of (128 + bits (Z.shiftr r 6) 6 0))
      (String (byte_of (128 + bits r 6 0)) ""))
  else
    String (byte_of (240 + Z.shiftr r 18)) (String (byte_of (128 + bits (Z.shiftr r 12) 6 0))
      (String (byte_of (128 + bits (Z.shiftr r 6) 6 0)) (String (byte_of (128 + bits r 6 0)) ""))).

Fixpoint is_ascii (s : string) : bool :=
  match s with EmptyString => true | String c s => (byteZ c <? RuneSelf) && is_ascii s end.

(** [unicode.ToUpper] and [strings.ToUpper]: a string that is not ASCII is mapped
    rune by rune, and a byte that is no part of a rune becomes the rune of an error. *)
Definition unicode_ToUpper `{U : Unicode} (r : Z) : Z :=
  if r <? RuneSelf then if between 97 122 r then r - 32 else r else upper_table r.
Definition ToUpper `{U : Unicode} (s : string) : string :=
  if is_ascii s then str_map ascii_upper s
  else str_concat ((fun r => EncodeRune (unicode_ToUpper r)) <$> runes s).

(** Tables holding the small Greek letters only: an instance to evaluate with. *)
#[export, program] Instance greek_tables : Unicode := {|
  letter_table := between 945 969;
  number_table := fun _ => false;
  upper_table := fun r => if r =? 962 then 931 else if between 945 969 r then r - 32 else r;
|}.
Next Obligation. unfold between, RuneError. intros r. lia. Qed.
Next Obligation. done. Qed.

(** ** Lemmas *)

Lemma DecodeRune_width s : (snd (DecodeRune s) <= 4)%nat /\
  (s <> "" -> (1 <= snd (DecodeRune s) <= String.length s)%nat).
Proof.
  unfold DecodeRune. destruct s as [|c0 s1]; [simpl; split; [lia | done]|].
  repeat case_match; simpl in *; split; intros; lia.
Qed.

Lemma DecodeRune_ascii c s :
  byteZ c < RuneSelf -> DecodeRune (String c s) = (byteZ c, 1%nat).
Proof. intros H. unfold DecodeRune. by apply Z.ltb_lt in H as ->. Qed.

Lemma land_upper_r a b : 0 <= b -> Z.land a b <= b.
Proof.
  intros Hb. pose proof (Z.add_lor_land (Z.ldiff b a) (Z.land b a)) as H.
  rewrite Z.lor_ldiff_and in H.
  replace (Z.land (Z.ldiff b a) (Z.land b a)) with 0 in H.
  - rewrite (Z.land_comm a b). enough (0 <= Z.ldiff b a) by lia.
    apply Z.ldiff_nonneg. by left.
  - symmetry. rewrite (Z.land_comm b a), Z.land_assoc, Z.land_ldiff. apply Z.land_0_l.
Qed.

Lemma lor_lower a b m : m <= a \/ m <= b -> 0 <= a -> 0 <= b -> m <= Z.lor a b.
Proof.
  intros Hm Ha Hb. pose proof (Z.add_lor_land a b).
  pose proof (land_upper_r a b Hb). pose proof (land_upper_r b a Ha).
  rewrite (Z.land_comm b a) in *. lia.
Qed.

Lemma bits_eq x k n : 0 <= k -> 0 <= n -> bits x k n = (x mod 2 ^ k) * 2 ^ n.
Proof. intros. unfold bits. by rewrite Z.shiftl_mul_pow2, Z.land_ones by lia. Qed.

Lemma bits_nonneg x k n : 0 <= k -> 0 <= n -> 0 <= bits x k n.
Proof.
  intros. rewrite bits_eq by lia. pose proof (Z.mod_pos_bound x (2 ^ k)). nia.
Qed.

Ltac solve_bits :=
  rewrite ?bits_eq by lia; change (2 ^ 3) with 8; change (2 ^ 4) with 16;
  change (2 ^ 5) with 32; change (2 ^ 6) with 64; change (2 ^ 12) with 4096;
  change (2 ^ 18) with 262144; change (2 ^ 0) with 1;
  Z.to_euclidean_division_equations; lia.

Ltac lor_side tac :=
  apply lor_lower; [tac | rewrite ?Z.lor_nonneg; repeat split; apply bits_nonneg; lia ..].
Ltac lor_left := lor_side ltac:(left).
Ltac lor_right := lor_side ltac:(right).

(** A rune whose first byte is not ASCII is not an ASCII character: the
    delimiters of a path never hide inside a multi-byte sequence. *)
Lemma DecodeRune_multi c s :
  RuneSelf <= byteZ c -> RuneSelf <= fst (DecodeRune (String c s)).
Proof.
  intros H. pose proof (byteZ_range c) as Hc. unfold DecodeRune, RuneSelf, RuneError in *.
  rewrite (proj2 (Z.ltb_ge _ _)) by lia.
  destruct (utf8_first (byteZ c)) as [[[sz lo] hi]|] eqn:E; [|simpl; lia].
  destruct s as [|c1 s2]; [simpl; lia|]. pose proof (byteZ_range c1).
  case_match; [simpl; lia|]. case_match eqn:Hb1; [simpl; lia|].
  apply negb_false_iff in Hb1. unfold between in Hb1.
  assert (Hlo : (sz = 2%nat /\ 194 <= byteZ c <= 223) \/
    (sz = 3%nat /\ ((byteZ c = 224 /\ lo = 160 /\ hi = 191) \/ 225 <= byteZ c <= 239)) \/
    (sz = 4%nat /\ ((byteZ c = 240 /\ lo = 144 /\ hi = 191) \/ 241 <= byteZ c <= 244))).
  { unfold utf8_first, between in E. repeat case_match; simplify_eq; lia. }
  assert (Hpos : forall x k n, 0 <= k -> 0 <= n -> 0 <= bits x k n) by apply bits_nonneg.
  repeat case_match; simplify_eq; simpl; try lia.
  all: destruct Hlo as [[? ?]|[[? [(?&?&?)|?]]|[? [(?&?&?)|?]]]]; try lia; simplify_eq.
  - lor_left; solve_bits.
  - lor_left; lor_right; solve_bits.
  - lor_left; lor_left; solve_bits.
  - lor_left; lor_left; lor_right; solve_bits.
  - lor_left; lor_left; lor_left; solve_bits.
Qed.

(** A valid sequence is decoded the same whatever follows it. *)
Lemma DecodeRune_prefix s t r w :
  DecodeRune s = (r, w) -> r <> RuneError -> DecodeRune (str_take w s ++ t) = (r, w).
Proof.
  destruct s as [|c0 s1]; [intros [= <- <-]; done|]. intros H Hr. unfold DecodeRune in H.
  destruct (byteZ c0 <? RuneSelf) eqn:E0.
  { simplify_eq. simpl. apply DecodeRune_ascii. lia. }
  destruct (utf8_first (byteZ c0)) as [[[sz lo] hi]|] eqn:E1; [|by simplify_eq].
  destruct s1 as [|c1 s2]; [by simplify_eq|]. destruct (_ <? sz)%nat eqn:E2; [by simplify_eq|].
  destruct (negb (between lo hi _)) eqn:E3; [by simplify_eq|].
  assert (Hgo : forall s', (sz <= String.length (String c0 (String c1 s')))%nat ->
    DecodeRune (String c0 (String c1 s')) =
    if (sz <=? 2)%nat then (Z.lor (bits (byteZ c0) 5 6) (bits (byteZ c1) 6 0), 2%nat)
    else match s' with
    | EmptyString => (RuneError, 1%nat)
    | String c2 s3 => if negb (between 128 191 (byteZ c2)) then (RuneError, 1%nat) else
       if (sz <=? 3)%nat
       then (Z.lor (Z.lor (bits (byteZ c0) 4 12) (bits (byteZ c1) 6 6)) (bits (byteZ c2) 6 0), 3%nat)
       else match s3 with
       | EmptyString => (RuneError, 1%nat)
       | String c3 _ => if negb (between 128 191 (byteZ c3)) then (RuneError, 1%nat) else
         (Z.lor (Z.lor (Z.lor (bits (byteZ c0) 3 18) (bits (byteZ c1) 6 12))
                       (bits (byteZ c2) 6 6)) (bits (byteZ c3) 6 0), 4%nat)
       end
    end).
  { intros s' Hs'. unfold DecodeRune. rewrite E0, E1.
    by rewrite (proj2 (Nat.ltb_ge _ _) Hs'), E3. }
  assert (Hsz : (2 <= sz <= 4)%nat).
  { unfold utf8_first in E1. repeat case_match; simplify_eq; lia. }
  destruct (sz <=? 2)%nat eqn:E4.
  { simplify_eq. change (str_take 2 _ ++ t)%string with (String c0 (String c1 t)).
    apply Nat.leb_le in E4. by rewrite Hgo by (simpl; lia). }
  destruct s2 as [|c2 s3]; [by simplify_eq|]. destruct (negb (between 128 191 (byteZ c2))) eqn:E5; [by simplify_eq|].
  destruct (sz <=? 3)%nat eqn:E6.
  { simplify_eq. change (str_take 3 _ ++ t)%string with (String c0 (String c1 (String c2 t))).
    apply Nat.leb_le in E6. rewrite Hgo by (simpl; lia). by rewrite E5. }
  destruct s3 as [|c3 s4]; [by simplify_eq|].
  destruct (negb (between 128 191 (byteZ c3))) eqn:E7; [by simplify_eq|]. simplify_eq.
  change (str_take 4 _ ++ t)%string with (String c0 (String c1 (String c2 (String c3 t)))).
  rewrite Hgo by (simpl; lia). by rewrite E5, E7.
Qed.

(** [strings.ToUpper("aλ")], and of a byte that is no rune. *)
Example ToUpper_greek : ToUpper "aλ" = "AΛ". Proof. reflexivity. Qed.
Example ToUpper_invalid : ToUpper (String "255" "b") = (EncodeRune RuneError ++ "B")%string. Proof. reflexivity. Qed.
