(* ===== verification/Status.v ===== *)
(** Errors and status codes: the [error] values the program builds and
    compares, and the code tables of larking/code.go.  A message is kept as its
    format and its arguments; rendering it is [fmt]'s business. *)

From S2P Require Import Prelude.
Local Open Scope Z_scope.

(** ** Errors *)

(** [codes.Code] is a [uint32] of google.golang.org/grpc/codes. *)
Module codes.
Definition OK : Z := 0.
Definition Canceled : Z := 1.
Definition Unknown : Z := 2.
Definition InvalidArgument : Z := 3.
Definition DeadlineExceeded : Z := 4.
Definition NotFound : Z := 5.
Definition Unimplemented : Z := 12.
Definition Internal : Z := 13.
Definition Unavailable : Z := 14.
End codes.

(** [StatusError] is [status.Errorf]; [Errorf] is [fmt.Errorf]; [External] is an
    error made by code outside the repository. *)
Inductive error :=
  | StatusError (c : Z) (fmt : string) (args : list arg)
  | Errorf (fmt : string) (args : list arg)
  | EOF
  | ErrUnexpectedEOF
  | ErrShortWrite
  | ContextCanceled
  | ContextDeadlineExceeded
  | SizeTooLargeError (size maxSize : Z)
  | External (what : string)
with arg :=
  | AInt (z : Z)
  | AStr (s : string)
  | ARune (r : Z)
  | AStrs (l : list string)
  | AErr (e : error).

Abbreviation go A := (outcome error A).

(** [status.FromError(err).Code()]: OK for nil, the code of a status error, and
    Unknown for any other error. *)
Definition FromError (err : option error) : Z :=
  match err with
  | None => codes.OK
  | Some (StatusError c _ _) => c
  | Some _ => codes.Unknown
  end.

(** ** larking/code.go *)

Module http.
Definition StatusOK : Z := 200.
Definition StatusBadRequest : Z := 400.
Definition StatusUnauthorized : Z := 401.
Definition StatusForbidden : Z := 403.
Definition StatusNotFound : Z := 404.
Definition StatusRequestTimeout : Z := 408.
Definition StatusConflict : Z := 409.
Definition StatusUnsupportedMediaType : Z := 415.
Definition StatusTooManyRequests : Z := 429.
Definition StatusInternalServerError : Z := 500.
Definition StatusNotImplemented : Z := 501.
Definition StatusServiceUnavailable : Z := 503.
Definition StatusGatewayTimeout : Z := 504.
End http.

(** The close codes of github.com/gobwas/ws (RFC 6455, section 7.4.1). *)
Module ws.
Definition StatusNormalClosure : Z := 1000.
Definition StatusGoingAway : Z := 1001.
Definition StatusUnsupportedData : Z := 1003.
Definition StatusPolicyViolation : Z := 1008.
Definition StatusInternalServerError : Z := 1011.
End ws.

Definition codeToHTTPStatus : list Z :=
  [ http.StatusOK; http.StatusRequestTimeout; http.StatusInternalServerError;
    http.StatusBadRequest; http.StatusGatewayTimeout; http.StatusNotFound;
    http.StatusConflict; http.StatusForbidden; http.StatusTooManyRequests;
    http.StatusBadRequest; http.StatusConflict; http.StatusBadRequest;
    http.StatusNotImplemented; http.StatusInternalServerError;
    http.StatusServiceUnavailable; http.StatusInternalServerError;
    http.StatusUnauthorized ].

Definition codeToWSStatus : list Z :=
  [ ws.StatusNormalClosure; ws.StatusGoingAway; ws.StatusInternalServerError;
    ws.StatusUnsupportedData; ws.StatusGoingAway; ws.StatusInternalServerError;
    ws.StatusGoingAway; ws.StatusInternalServerError; ws.StatusInternalServerError;
    ws.StatusInternalServerError; ws.StatusInternalServerError;
    ws.StatusInternalServerError; ws.StatusUnsupportedData;
    ws.StatusInternalServerError; ws.StatusInternalServerError;
    ws.StatusInternalServerError; ws.StatusPolicyViolation ].

(** [a[i]] on an array: out of range is a run-time panic. *)
Definition array_index (a : list Z) (i : Z) : go Z :=
  if i <? 0 then Panic IndexOutOfRange else
  match a !! Z.to_nat i with
  | Some v => Ok v
  | None => Panic IndexOutOfRange
  end.

Definition HTTPStatusCode (c : Z) : go Z :=
  if Z.of_nat (length codeToHTTPStatus) <? c then Ok http.StatusInternalServerError
  else array_index codeToHTTPStatus c.

Definition WSStatusCode (c : Z) : go Z :=
  if Z.of_nat (length codeToHTTPStatus) <? c then Ok ws.StatusInternalServerError
  else array_index codeToWSStatus c.

(** ** Theorems *)

Lemma array_index_lookup a i :
  0 <= i < Z.of_nat (length a) -> exists v, array_index a i = Ok v /\ v ∈ a.
Proof.
  intros Hi. unfold array_index. rewrite (proj2 (Z.ltb_ge _ _)) by lia.
  destruct (lookup_lt_is_Some_2 a (Z.to_nat i)) as [v Hv]; [lia|].
  rewrite Hv. exists v. split; [done | by eapply list_elem_of_lookup_2].
Qed.

Lemma table_code (table : list Z) (lo hi c : Z) :
  Forall (fun v => lo <= v <= hi) table -> 0 <= c < Z.of_nat (length table) ->
  exists v, array_index table c = Ok v /\ lo <= v <= hi.
Proof.
  intros Ht Hc. destruct (array_index_lookup table c Hc) as (v & Hv & Hin).
  exists v. split; [done|]. by eapply Forall_forall in Ht.
Qed.

(** Every gRPC code answers with a defined HTTP status and WebSocket close
    code, except 17: the guard [int(c) > len(...)] lets the length through. *)
Theorem status_code_defined c :
  0 <= c ->
  (c <> 17 -> exists h w, HTTPStatusCode c = Ok h /\ WSStatusCode c = Ok w /\
     200 <= h <= 504 /\ 1000 <= w <= 1011) /\
  (c = 17 -> HTTPStatusCode c = Panic IndexOutOfRange /\
             WSStatusCode c = Panic IndexOutOfRange).
Proof.
  intros Hc. split; [|by intros ->].
  intros Hne. unfold HTTPStatusCode, WSStatusCode.
  change (Z.of_nat (length codeToHTTPStatus)) with 17.
  destruct (Z.ltb_spec 17 c).
  { exists 500, 1011. repeat split; try done; lia. }
  destruct (table_code codeToHTTPStatus 200 504 c) as (h & -> & Hh).
  { repeat constructor; done. } { simpl; lia. }
  destruct (table_code codeToWSStatus 1000 1011 c) as (w & -> & Hw).
  { repeat constructor; done. } { simpl; lia. }
  eauto 10.
Qed.

Lemma status_code_defined_witness :
  0 <= 5 /\ exists h w, HTTPStatusCode 5 = Ok h /\ WSStatusCode 5 = Ok w /\
     200 <= h <= 504 /\ 1000 <= w <= 1011.
Proof. split; [lia|]. apply (status_code_defined 5); lia. Defined.
