(* ===== verification/IO.v ===== *)
(** Byte slices and readers: the parts of Go's slices and of package io that the
    codecs and the streams use.  A slice is its bytes and its capacity; a reader is
    the script of its answers, so a theorem for all scripts holds for all readers. *)

From S2P Require Import Prelude Status.

(** ** Readers

    One answer of [Read]: some bytes, possibly none, and possibly an error with
    them.  When the caller's slice is shorter than the bytes, what is left of the
    answer comes with the next calls.  After the last answer there is [io.EOF]. *)

Record chunk := Chunk { c_data : string; c_err : option error }.
Definition reader := list chunk.

Definition Read (r : reader) (k : nat) : reader * string * option error :=
  match r with
  | [] => ([], "", Some EOF)
  | Chunk d e :: r =>
      if String.length d <=? k then (r, d, e)
      else (Chunk (str_drop k d) e :: r, str_take k d, None)
  end.

(** All the bytes of the answers, and a measure that every call for one byte or
    more decreases, until the script ends. *)
Definition reader_data (r : reader) : string := str_concat (c_data <$> r).
Definition reader_size (r : reader) : nat :=
  foldr (fun c n => S (String.length (c_data c)) + n) 0 r.

(** The reader that has no error before its end. *)
Definition no_error (r : reader) : Prop := Forall (fun c => c_err c = None) r.

(** [io.ReadFull]: exactly [k] bytes, or [io.EOF] for none and
    [io.ErrUnexpectedEOF] for fewer. *)
Fixpoint ReadFull_loop (fuel : nat) (r : reader) (got : string) (k : nat) :
    reader * go string :=
  match fuel with
  | O => (r, OutOfFuel)
  | S fuel =>
      if k <=? String.length got then (r, Ok got) else
      match Read r (k - String.length got) with
      | (r, d, None) => ReadFull_loop fuel r (got ++ d) k
      | (r, d, Some e) =>
          let got := (got ++ d)%string in
          if k <=? String.length got then (r, Ok got)
          else if negb (String.eqb got "") && match e with EOF => true | _ => false end
          then (r, Err ErrUnexpectedEOF) else (r, Err e)
      end
  end.

Definition ReadFull (r : reader) (k : nat) : reader * go string :=
  ReadFull_loop (S (S (reader_size r))) r "" k.

(** ** Slices that grow

    The runtime's [append] to a full slice picks a larger capacity. *)
Class GoAppend := {
  append_cap : nat -> nat;
  append_cap_lt c : c < append_cap c;
}.

#[export] Instance doubling_append : GoAppend.
Proof. refine {| append_cap c := S (2 * c) |}. intros c. lia. Defined.

(** The slice [b] that a [ReadNext] fills from its reader. *)
Record rbuf := RBuf { bytes : string; cap : nat; src : reader }.

Section Fill.
Context `{G : GoAppend}.

(** [if len(b) == cap(b) { b = append(b, 0)[:len(b)] };
     n, err := r.Read(b[len(b):cap(b)]); b = b[:len(b)+n]] *)
Definition read_some (s : rbuf) : rbuf * option error :=
  let c := if String.length (bytes s) =? cap s then append_cap (cap s) else cap s in
  let '(r, d, e) := Read (src s) (c - String.length (bytes s)) in
  (RBuf (bytes s ++ d) c r, e).

(** The loop [for i >= len(b)]. *)
Fixpoint fill (fuel i : nat) : st rbuf error unit := fun s =>
  match fuel with
  | O => (s, OutOfFuel)
  | S fuel =>
      if i <? String.length (bytes s) then (s, Ok tt) else
      match read_some s with
      | (s, Some e) => (s, Err e)
      | (s, None) => fill fuel i s
      end
  end.

Definition fill_fuel (s : rbuf) : nat := S (reader_size (src s)).

(** [b[i]] once the slice holds it. *)
Definition byte_at (i : nat) : st rbuf error Z := fun s =>
  (match fill (fill_fuel s) i s with
   | (s, Ok _) => (s, match str_head (str_drop i (bytes s)) with
                      | Some c => Ok (byteZ c)
                      | None => Panic IndexOutOfRange
                      end)
   | (s, Err e) => (s, Err e)
   | (s, Panic p) => (s, Panic p)
   | (s, OutOfFuel) => (s, OutOfFuel)
   end).
End Fill.

(** ** Lemmas *)

(** A slice never holds more than its capacity. *)
Definition buf_ok (s : rbuf) : Prop := String.length (bytes s) <= cap s.

(** All that the slice and the reader still hold. *)
Definition stream (s : rbuf) : string := (bytes s ++ reader_data (src s))%string.

Lemma Read_spec r k r' d e :
  Read r k = (r', d, e) ->
  reader_data r = (d ++ reader_data r')%string /\ String.length d <= k /\
  (0 < k -> e = None -> reader_size r' < reader_size r) /\ reader_size r' <= reader_size r /\
  (no_error r -> no_error r' /\ (e = None \/ e = Some EOF /\ r = [] /\ d = "")).
Proof.
  destruct r as [|[d0 e0] r]; simpl.
  - intros [= <- <- <-]. split_and!; simpl; [done|lia|by intros _ [=]|lia|]. intros _. split; [constructor|by right].
  - destruct (Nat.leb_spec (String.length d0) k); intros [= <- <- <-].
    + split_and!; simpl; [done|lia|lia|lia|]. intros [H1 H2]%Forall_cons. split; [done|by left].
    + unfold reader_data. simpl. rewrite str_length_take, str_length_drop.
      split_and!; [|lia|lia|lia|].
      * by rewrite <-str_app_assoc, str_take_drop.
      * intros [H1 H2]%Forall_cons. split; [by constructor|by left].
Qed.

Lemma reader_data_no_size r : reader_size r = 0 -> r = [].
Proof. destruct r; simpl; [done|lia]. Qed.

Lemma reader_data_length r : String.length (reader_data r) <= reader_size r.
Proof.
  induction r as [|[d e] r IH]; [done|].
  change (reader_data (Chunk d e :: r)) with (d ++ reader_data r)%string.
  rewrite str_length_app. simpl. lia.
Qed.

(** [io.ReadFull] ends, with exactly the next [k] bytes when the reader has them
    before its first error. *)
Lemma ReadFull_loop_spec fuel r got k :
  reader_size r + 1 < fuel ->
  match ReadFull_loop fuel r got k with
  | (r', Ok d) => exists d', d = (got ++ d')%string /\ reader_data r = (d' ++ reader_data r')%string /\
      (String.length got <= k -> String.length d = k)
  | (r', Err e) => no_error r -> String.length got + String.length (reader_data r) < k
  | (_, Panic _) | (_, OutOfFuel) => False
  end.
Proof.
  revert r got. induction fuel as [|fuel IH]; intros r got Hf; [lia|]. cbn [ReadFull_loop].
  destruct (Nat.leb_spec k (String.length got)) as [Hk|Hk].
  { exists "". rewrite str_app_nil_r. split_and!; [done|done|lia]. }
  destruct (Read r (k - String.length got)) as [[r' d] e] eqn:E.
  destruct (Read_spec _ _ _ _ _ E) as (Hd & Hl & Hdec & Hle & Hne).
  destruct e as [e|].
  - destruct (Nat.leb_spec k (String.length (got ++ d))) as [Hk'|Hk'].
    + exists d. split_and!; [done|done|]. rewrite str_length_app in *. lia.
    + rewrite str_length_app in Hk'.
      assert (Hshort : no_error r -> String.length got + String.length (reader_data r) < k).
      { intros [_ [?|(_ & -> & ->)]]%Hne; [done|]. simpl in Hk'. unfold reader_data. simpl. lia. }
      by destruct (_ && _).
  - specialize (IH r' (got ++ d)%string ltac:(specialize (Hdec ltac:(lia) eq_refl); lia)).
    rewrite str_length_app in IH.
    destruct (ReadFull_loop fuel r' (got ++ d) k) as [r'' [x|e|q|]]; [| |done|done].
    + destruct IH as (d' & -> & Hd' & Hlen). exists (d ++ d')%string.
      rewrite Hd, Hd', !str_app_assoc. split_and!; [done|done|]. intros. rewrite <-!str_app_assoc. apply Hlen. lia.
    + intros Hn. destruct (Hne Hn) as [Hn' _]. specialize (IH Hn'). rewrite Hd, str_length_app. lia.
Qed.

Lemma ReadFull_spec r k :
  match ReadFull r k with
  | (r', Ok d) => reader_data r = (d ++ reader_data r')%string /\ String.length d = k
  | (r', Err e) => no_error r -> String.length (reader_data r) < k
  | (_, Panic _) | (_, OutOfFuel) => False
  end.
Proof.
  unfold ReadFull. pose proof (ReadFull_loop_spec (S (S (reader_size r))) r "" k ltac:(lia)) as H.
  destruct (ReadFull_loop _ r "" k) as [r' [d|e|q|]]; [|exact H|done|done].
  destruct H as (d' & -> & Hd & Hl). split; [done|]. simpl in *. apply Hl. lia.
Qed.

Lemma ReadFull_no_error fuel r got k : no_error r -> no_error (fst (ReadFull_loop fuel r got k)).
Proof.
  revert r got. induction fuel as [|fuel IH]; intros r got Hn; [done|]. cbn [ReadFull_loop].
  destruct (k <=? String.length got); [done|]. destruct (Read r _) as [[r' d] e] eqn:E.
  destruct (Read_spec _ _ _ _ _ E) as (_ & _ & _ & _ & Hne). destruct (Hne Hn) as [Hn' _].
  destruct e as [e|]; [|by apply IH]. destruct (_ <=? _); [done|]. by destruct (_ && _).
Qed.

(** A reader without errors that has the bytes gives them. *)
Lemma ReadFull_ok r d rest :
  no_error r -> reader_data r = (d ++ rest)%string ->
  exists r', ReadFull r (String.length d) = (r', Ok d) /\ reader_data r' = rest /\ no_error r'.
Proof.
  intros Hn Hd. pose proof (ReadFull_spec r (String.length d)) as H.
  pose proof (ReadFull_no_error (S (S (reader_size r))) r "" (String.length d) Hn) as Hn'.
  fold (ReadFull r (String.length d)) in Hn'.
  destruct (ReadFull r (String.length d)) as [r' [x|e|q|]]; [| |done|done].
  - destruct H as [H1 H2]. rewrite Hd in H1.
    assert (x = d) as ->.
    { pose proof (str_take_app d rest) as Ht. rewrite H1, <-H2 in Ht. by rewrite str_take_app in Ht. }
    apply str_app_inv_head in H1. by exists r'.
  - specialize (H Hn). rewrite Hd, str_length_app in H. lia.
Qed.

(** Fewer bytes than asked for are an error. *)
Lemma ReadFull_short r k : no_error r -> String.length (reader_data r) < k -> exists r' e, ReadFull r k = (r', Err e).
Proof.
  intros Hn Hl. pose proof (ReadFull_spec r k) as H. destruct (ReadFull r k) as [r' [x|e|q|]]; [|eauto|done|done].
  destruct H as [H1 H2]. rewrite H1, str_length_app in Hl. lia.
Qed.

(** At the end of the data there is [io.EOF]. *)
Lemma ReadFull_end r k : no_error r -> reader_data r = "" -> 0 < k -> exists r', ReadFull r k = (r', Err EOF) /\ no_error r' /\ reader_data r' = "".
Proof.
  unfold ReadFull. intros Hn Hd Hk. assert (Hs : S (S (reader_size r)) > S (reader_size r)) by lia. revert Hs.
  generalize (S (S (reader_size r))) as fuel. intros fuel. revert fuel Hn Hd.
  induction r as [|[d e] r IH]; intros [|fuel] Hn Hd Hf; try lia; cbn [ReadFull_loop String.length Nat.leb];
    replace (k <=? 0) with false by (symmetry; apply Nat.leb_gt; lia).
  - cbn. replace (k <=? 0) with false by (symmetry; apply Nat.leb_gt; lia). by exists [].
  - apply Forall_cons in Hn as [He Hn]. cbn in He. subst e. unfold reader_data in Hd. cbn in Hd.
    destruct d as [|c d]; [|done]. cbn in Hd. cbn [Read String.length Nat.leb append].
    change (reader_size (Chunk "" None :: r)) with (S (reader_size r)) in Hf. apply IH; [done..|lia].
Qed.

Section FillSpec.
Context `{G : GoAppend}.

Lemma read_some_spec s s' e :
  buf_ok s -> read_some s = (s', e) ->
  stream s' = stream s /\ buf_ok s' /\ String.length (bytes s) <= String.length (bytes s') /\
  cap s <= cap s' /\
  (e = None -> reader_size (src s') < reader_size (src s)) /\
  (no_error (src s) -> no_error (src s') /\ (e = None \/ e = Some EOF /\ stream s = bytes s)).
Proof.
  intros Hok. unfold read_some.
  set (c := if String.length (bytes s) =? cap s then append_cap (cap s) else cap s).
  assert (Hc : String.length (bytes s) < c /\ cap s <= c).
  { unfold c, buf_ok in *. pose proof (append_cap_lt (cap s)).
    destruct (Nat.eqb_spec (String.length (bytes s)) (cap s)); lia. }
  destruct (Read (src s) _) as [[r d] e'] eqn:E. intros [= <- <-].
  destruct (Read_spec _ _ _ _ _ E) as (Hd & Hl & Hdec & _ & Hne). unfold stream, buf_ok. simpl.
  rewrite str_length_app. split_and!; [by rewrite Hd, str_app_assoc|lia|lia|lia| |].
  - intros ->. apply Hdec; [lia|done].
  - intros Hn. destruct (Hne Hn) as [? [?|(-> & Hs & ->)]]; (split; [done|]); [by left|right].
    split; [done|]. rewrite Hs. unfold reader_data. simpl. by rewrite str_app_nil_r.
Qed.

(** [fill] ends; it keeps the stream, and fails only for want of bytes when the
    reader has no error of its own. *)
Lemma fill_spec fuel i s :
  buf_ok s -> reader_size (src s) < fuel ->
  match fill fuel i s with
  | (s', Ok _) => i < String.length (bytes s') /\ stream s' = stream s /\ buf_ok s' /\
      reader_size (src s') <= reader_size (src s) /\ (no_error (src s) -> no_error (src s')) /\
      String.length (bytes s) <= String.length (bytes s')
  | (s', Err e) => stream s' = stream s /\ buf_ok s' /\
      (no_error (src s) -> e = EOF /\ String.length (stream s) <= i)
  | (_, Panic _) | (_, OutOfFuel) => False
  end.
Proof.
  revert s. induction fuel as [|fuel IH]; intros s Hok Hf; [lia|]. cbn [fill].
  destruct (Nat.ltb_spec i (String.length (bytes s))) as [Hi|Hi]; [by split_and!|].
  destruct (read_some s) as [s1 e] eqn:E.
  destruct (read_some_spec _ _ _ Hok E) as (Hs & Hok1 & Hl & _ & Hdec & Hne). destruct e as [e|].
  - split_and!; [done|done|]. intros Hn. destruct (Hne Hn) as [_ [?|[[= ->] Hb]]]; [done|].
    split; [done|]. by rewrite Hb.
  - specialize (IH s1 Hok1 ltac:(specialize (Hdec eq_refl); lia)). specialize (Hdec eq_refl).
    destruct (fill fuel i s1) as [s2 [u|e|q|]]; [| |done|done].
    + destruct IH as (? & ? & ? & ? & Hn2 & ?). split_and!; [done|congruence|done|lia| |lia].
      intros Hn. apply Hn2, Hne, Hn.
    + destruct IH as (? & ? & Hn2). split_and!; [congruence|done|].
      intros Hn. rewrite <-Hs. apply Hn2, Hne, Hn.
Qed.

Lemma byte_at_spec i s :
  buf_ok s ->
  match byte_at i s with
  | (s', Ok c) => exists b, str_head (str_drop i (stream s)) = Some b /\ c = byteZ b /\
      i < String.length (bytes s') /\ stream s' = stream s /\ buf_ok s' /\
      (no_error (src s) -> no_error (src s'))
  | (s', Err e) => stream s' = stream s /\ buf_ok s' /\
      (no_error (src s) -> e = EOF /\ String.length (stream s) <= i)
  | (_, Panic _) | (_, OutOfFuel) => False
  end.
Proof.
  intros Hok. unfold byte_at. pose proof (fill_spec (fill_fuel s) i s Hok (Nat.lt_succ_diag_r _)) as H.
  destruct (fill _ i s) as [s' [u|e|q|]]; [|exact H|done|done].
  destruct H as (Hi & Hs & Hok' & _ & Hn & _).
  assert (Hh : exists b, str_head (str_drop i (bytes s')) = Some b /\ str_head (str_drop i (stream s)) = Some b).
  { rewrite <-Hs. unfold stream. revert Hi. generalize (bytes s') (reader_data (src s')). clear.
    intros t u. revert i. induction t as [|c t IH]; intros [|i] Hi; simpl in *; try lia; [by exists c|].
    apply IH. lia. }
  destruct Hh as (b & Hb & Hb'). rewrite Hb. exists b. by split_and!.
Qed.
End FillSpec.
