(* ===== verification/Http.v ===== *)
(** What the program uses of net/http and net/textproto: header maps with their
    canonical keys, requests, and the [http.ResponseWriter], whose record keeps in
    order what it was told to send. *)

From S2P Require Import Prelude Status IO.

(** ** Header maps *)

(** [http.Header], and [metadata.MD] of gRPC: the values of each key. *)
Abbreviation Header := (gmap string (list string)).
Abbreviation MD := (gmap string (list string)).

(** The characters of a field name (RFC 7230, tchar). *)
Definition validHeaderFieldByte (c : ascii) : bool :=
  let x := byteZ c in
  ((97 <=? x) && (x <=? 122) || (65 <=? x) && (x <=? 90) || (48 <=? x) && (x <=? 57))%Z
  || ContainsByte "!#$%&'*+-.^_`|~" c.

(** Upper case at the start and after a hyphen, lower case elsewhere. *)
Fixpoint canonical_from (upper : bool) (s : string) : string :=
  match s with
  | EmptyString => EmptyString
  | String c s =>
      let c := if upper then ascii_upper c else ascii_lower c in
      String c (canonical_from (Ascii.eqb c "-") s)
  end.

Definition CanonicalMIMEHeaderKey (s : string) : string :=
  if str_forallb validHeaderFieldByte s then canonical_from true s else s.

Definition header_values (h : Header) (key : string) : list string := default [] (h !! key).

Definition header_Get (h : Header) (key : string) : string :=
  default "" (head (header_values h (CanonicalMIMEHeaderKey key))).
Definition header_Set (key v : string) (h : Header) : Header :=
  <[CanonicalMIMEHeaderKey key := [v]]> h.
Definition header_Add (key v : string) (h : Header) : Header :=
  <[CanonicalMIMEHeaderKey key := header_values h (CanonicalMIMEHeaderKey key) ++ [v]]> h.
Definition header_Del (key : string) (h : Header) : Header := delete (CanonicalMIMEHeaderKey key) h.

(** ** Text *)

(** [fmt.Sprintf] and [err.Error()], which render the messages that the model keeps
    as a format and its arguments. *)
Class Fmt := {
  Sprintf : string -> list arg -> string;
  error_text : error -> string;
}.

#[export] Instance plain_fmt : Fmt := {| Sprintf f _ := f; error_text _ := "error" |}.

(** ** Contexts and requests *)

(** A [context.Context]: the incoming metadata, the time-outs that
    [context.WithTimeout] put on it, and how its [Err] answers each time it is
    asked, nil from the end of the list on. *)
Record context := MkContext {
  incoming : option MD;
  timeouts : list Z;
  ctx_errs : list (option error);
}.

Record Request := MkRequest {
  req_Method : string;
  URL_Path : string;
  URL_Query : gmap string (list string);
  ProtoMajor : Z;
  ProtoMinor : Z;
  req_Header : Header;
  req_Body : reader;
  ContentLength : Z;
  RemoteAddr : string;
  req_Context : context;
}.

(** ** Response writers *)

Inductive wevent :=
  | EvHeader (code : Z) (h : Header)
  | EvBody (data : string)
  | EvFlush.

(** The header map, whether the header was sent, what was sent, the outcome of the
    writes to come (all in full from the end of the list on), and whether the value
    is an [http.Flusher]. *)
Record response := Response {
  rs_header : Header;
  rs_sent : bool;
  rs_events : list wevent;
  rs_answers : list (nat * option error);
  rs_flusher : bool;
}.

Definition new_response : response := Response ∅ false [] [] true.

Definition rs_set_header (f : Header -> Header) (w : response) : response :=
  Response (f (rs_header w)) (rs_sent w) (rs_events w) (rs_answers w) (rs_flusher w).
Definition rs_emit (e : wevent) (w : response) : response :=
  Response (rs_header w) (rs_sent w) (rs_events w ++ [e]) (rs_answers w) (rs_flusher w).

(** The header goes out once, with a code of three digits. *)
Definition WriteHeader (code : Z) : st response error unit := fun w =>
  if ((code <? 100) || (999 <? code))%Z then (w, Panic (PanicCall "invalid WriteHeader code"))
  else if rs_sent w then (w, Ok tt)
  else (Response (rs_header w) true (rs_events w ++ [EvHeader code (rs_header w)])
          (rs_answers w) (rs_flusher w), Ok tt).

Definition send_header (w : response) : response := fst (WriteHeader http.StatusOK w).

Definition response_Write (b : string) : st response error nat := fun w =>
  let w := send_header w in
  match rs_answers w with
  | [] => (rs_emit (EvBody b) w, Ok (String.length b))
  | (n, e) :: rest =>
      let w := Response (rs_header w) (rs_sent w) (rs_events w ++ [EvBody (str_take n b)]) rest (rs_flusher w) in
      (w, match e with Some e => Err e | None => Ok (n `min` String.length b) end)
  end.

Definition response_Flush (w : response) : response := rs_emit EvFlush (send_header w).

(** A response writer as the streams and [http.Error] use one: the header map, and
    its three methods. *)
Class ResponseWriter (W : Type) := {
  w_header : W -> Header;
  w_set_header : (Header -> Header) -> W -> W;
  w_WriteHeader : Z -> st W error unit;
  w_Write : string -> st W error nat;
  w_is_flusher : W -> bool;
  w_Flush : W -> W;
}.

#[export] Instance response_writer : ResponseWriter response := {|
  w_header := rs_header;
  w_set_header := rs_set_header;
  w_WriteHeader := WriteHeader;
  w_Write := response_Write;
  w_is_flusher := rs_flusher;
  w_Flush := response_Flush;
|}.

(** [http.Error]: plain text, and the message with a newline.  Its [Fprintln]
    ignores the error of the write. *)
Definition ignore {S E A} (m : st S E A) : st S E unit := fun s =>
  match m s with
  | (s, Panic p) => (s, Panic p)
  | (s, OutOfFuel) => (s, OutOfFuel)
  | (s, _) => (s, Ok tt)
  end.

Definition http_Error {W} `{ResponseWriter W} (msg : string) (code : Z) : st W error unit :=
  modify (w_set_header (header_Set "Content-Type" "text/plain; charset=utf-8"));;
  modify (w_set_header (header_Set "X-Content-Type-Options" "nosniff"));;
  w_WriteHeader code;;
  ignore (w_Write (msg ++ String "010" "")).

(** The bytes that a response sent. *)
Definition event_body (e : wevent) : string := match e with EvBody d => d | _ => "" end.
Definition sent_body (w : response) : string := str_concat (event_body <$> rs_events w).

(** ** Lemmas *)

Lemma ascii_lower_upper c : ascii_lower (ascii_upper c) = ascii_lower c.
Proof. destruct c as [[] [] [] [] [] [] [] []]; reflexivity. Qed.

Lemma ascii_lower_lower c : ascii_lower (ascii_lower c) = ascii_lower c.
Proof. destruct c as [[] [] [] [] [] [] [] []]; reflexivity. Qed.

Lemma ToLower_canonical_from u s : ToLower (canonical_from u s) = ToLower s.
Proof.
  unfold ToLower. revert u. induction s as [|c s IH]; intros u; [done|].
  cbn [canonical_from str_map]. rewrite IH.
  f_equal. destruct u; [apply ascii_lower_upper|apply ascii_lower_lower].
Qed.

(** A canonical key and its lower case name the same field. *)
Lemma ToLower_CanonicalMIMEHeaderKey s : ToLower (CanonicalMIMEHeaderKey s) = ToLower s.
Proof.
  unfold CanonicalMIMEHeaderKey. destruct (str_forallb _ s); [apply ToLower_canonical_from|done].
Qed.

Lemma send_header_sent w : rs_sent (send_header w) = true.
Proof. unfold send_header, WriteHeader. simpl. by destruct (rs_sent w) eqn:E. Qed.

Lemma send_header_body w : sent_body (send_header w) = sent_body w.
Proof.
  unfold send_header, WriteHeader, sent_body. simpl. destruct (rs_sent w); [done|].
  simpl. rewrite fmap_app, str_concat_app. simpl. by rewrite str_app_nil_r.
Qed.

Lemma sent_body_emit e w : sent_body (rs_emit e w) = (sent_body w ++ event_body e)%string.
Proof. unfold sent_body. simpl. rewrite fmap_app, str_concat_app. simpl. by rewrite str_app_nil_r. Qed.

Lemma send_header_answers w : rs_answers (send_header w) = rs_answers w.
Proof. unfold send_header, WriteHeader. simpl. by destruct (rs_sent w). Qed.

(** A writer whose writes all succeed sends what it is given. *)
Lemma response_Write_ok b w :
  rs_answers w = [] ->
  exists w', response_Write b w = (w', Ok (String.length b)) /\ rs_answers w' = [] /\
    sent_body w' = (sent_body w ++ b)%string.
Proof.
  intros Hw. unfold response_Write. rewrite send_header_answers, Hw. eexists. split; [done|].
  split; [simpl; by rewrite send_header_answers|]. by rewrite sent_body_emit, send_header_body.
Qed.

Lemma response_Flush_body w : sent_body (response_Flush w) = sent_body w.
Proof. unfold response_Flush. rewrite sent_body_emit, send_header_body. apply str_app_nil_r. Qed.

(** ** What a writer promises

    The streams are proved correct over every response writer with these laws: one
    that is up takes all that is written to it, its body is what it was given, and
    the header map has what it was set to. *)
Class WriterLaws (W : Type) `{RW : ResponseWriter W} := {
  w_up : W -> Prop;
  w_body : W -> string;
  up_Write b w : w_up w -> exists w', w_Write b w = (w', Ok (String.length b)) /\ w_up w' /\ w_body w' = (w_body w ++ b)%string;
  up_set_header f w : w_up w -> w_up (w_set_header f w);
  body_set_header f w : w_body (w_set_header f w) = w_body w;
  header_set_header f w : w_header (w_set_header f w) = f (w_header w);
  up_is_flusher w : w_up w -> w_is_flusher w = true;
  up_Flush w : w_up w -> w_up (w_Flush w);
  body_Flush w : w_body (w_Flush w) = w_body w;
  header_Flush w : w_header (w_Flush w) = w_header w;
}.

Lemma send_header_flusher w : rs_flusher (send_header w) = rs_flusher w.
Proof. unfold send_header, WriteHeader. simpl. by destruct (rs_sent w). Qed.

#[export] Instance response_laws : WriterLaws response.
Proof.
  refine {| w_up w := rs_answers w = [] /\ rs_flusher w = true; w_body := sent_body |}.
  - intros b w [Ha Hf]. destruct (response_Write_ok b w Ha) as (w' & E & Ha' & Hb). exists w'. split_and!; [done|done| |done].
    revert E. unfold response_Write. rewrite send_header_answers, Ha. intros [= <-]. simpl. by rewrite send_header_flusher.
  - by intros f w.
  - by intros f w.
  - by intros f w.
  - by intros w [_ ?].
  - intros w [Ha Hf]. simpl. by rewrite send_header_answers, send_header_flusher.
  - exact response_Flush_body.
  - intros w. simpl. unfold send_header, WriteHeader. simpl. by destruct (rs_sent w).
Defined.
