(* ===== verification/Negotiate.v ===== *)
(** Content negotiation, larking/negotiate.go: the parser of Accept headers and
    the choice of an offer.  Qualities are Go's float64, [spec_float] with 53 bits
    of precision; the digits of a quality are added up in a 64-bit int. *)

From Stdlib Require Import SpecFloat.
From S2P Require Import Prelude Http.

(** ** float64 *)

Definition f64_of_int (z : Z) : spec_float := binary_normalize 53 1024 z 0 false.
Definition f64_add : spec_float -> spec_float -> spec_float := SFadd 53 1024.
Definition f64_div : spec_float -> spec_float -> spec_float := SFdiv 53 1024.

(** ** Octets *)

Record octetType := OctetType { isToken : bool; isSpace : bool }.

Definition octetTypes (c : ascii) : octetType :=
  let n := byteZ c in
  let isCtl := ((n <=? 31) || (n =? 127))%Z in
  let isChar := (n <=? 127)%Z in
  let quote := ascii_of_nat 34 in
  let isSeparator := ContainsByte (String quote (String "009" " (),/:;<=>?@[]\{}")) c in
  let space := ContainsByte (String "009" (String "013" (String "010" " "))) c in
  OctetType (isChar && negb isCtl && negb isSeparator) space.

(** ** The parser *)

(** The fraction: [n] and [d] wrap around as int does. *)
Fixpoint quality_digits (s : string) (n d : Z) : Z * Z * string :=
  match s with
  | String c s' =>
      if ((48 <=? byteZ c) && (byteZ c <=? 57))%Z
      then quality_digits s' (wrap64 (wrap64 (n * 10 + byteZ c) - 48)) (wrap64 (d * 10))
      else (n, d, s)
  | EmptyString => (n, d, s)
  end.

Definition expectQuality (s : string) : spec_float * string :=
  match s with
  | String c s =>
      if Ascii.eqb c "0" || Ascii.eqb c "1" then
        let q := f64_of_int (if Ascii.eqb c "0" then 0 else 1) in
        match s with
        | String "." s =>
            let '(n, d, rest) := quality_digits s 0 1 in
            (f64_add q (f64_div (f64_of_int n) (f64_of_int d)), rest)
        | _ => (q, s)
        end
      else (f64_of_int (-1), "")
  | EmptyString => (f64_of_int (-1), "")
  end.

Fixpoint skipSpace (s : string) : string :=
  match s with
  | String c s' => if isSpace (octetTypes c) then skipSpace s' else s
  | EmptyString => s
  end.

Fixpoint expectTokenSlash (s : string) : string * string :=
  match s with
  | String c s' =>
      if negb (isToken (octetTypes c)) && negb (Ascii.eqb c "/") then (EmptyString, s)
      else let '(token, rest) := expectTokenSlash s' in (String c token, rest)
  | EmptyString => (EmptyString, EmptyString)
  end.

Record acceptSpec := AcceptSpec { Value : string; Q : spec_float }.

(** The parameter of a value: its quality and what follows, or none to go on with
    the next header. *)
Definition parse_quality (s : string) : option (spec_float * string) :=
  if HasPrefix s ";" then
    let s := skipSpace (str_drop 1 s) in
    if HasPrefix s "q=" then
      let '(q, s) := expectQuality (str_drop 2 s) in
      if SFltb q (f64_of_int 0) then None else Some (q, s)
    else None
  else Some (f64_of_int 1, s).

(** One header value; each round consumes a token. *)
Fixpoint parse_value (fuel : nat) (s : string) : outcome unit (list acceptSpec) :=
  match fuel with
  | O => OutOfFuel
  | S fuel =>
      let '(value, s) := expectTokenSlash s in
      if String.eqb value "" then Ok [] else
      match parse_quality (skipSpace s) with
      | None => Ok []
      | Some (q, s) =>
          let s := skipSpace s in
          if HasPrefix s "," then
            specs ← parse_value fuel (skipSpace (str_drop 1 s)); Ok (AcceptSpec value q :: specs)
          else Ok [AcceptSpec value q]
      end
  end.

Fixpoint parseAccept (values : list string) : outcome unit (list acceptSpec) :=
  match values with
  | [] => Ok []
  | s :: values =>
      specs ← parse_value (S (String.length s)) s;
      specs' ← parseAccept values;
      Ok (specs ++ specs')
  end.

(** ** Accept-Encoding *)

Definition encoding_step (offer : string) (best : string * spec_float) (spec : acceptSpec) :
    string * spec_float :=
  let '(bestOffer, bestQ) := best in
  if SFltb bestQ (Q spec) && (String.eqb (Value spec) "*" || String.eqb (Value spec) offer)
  then (offer, Q spec) else best.

Definition bestEncoding (specs : list acceptSpec) (offers : list string) : string :=
  let '(bestOffer, bestQ) :=
    foldl (fun best offer => foldl (encoding_step offer) best specs)
      ("identity", f64_of_int (-1)) offers in
  if SFeqb bestQ (f64_of_int 0) then "" else bestOffer.

Definition negotiateContentEncoding (header : Header) (offers : list string) : outcome unit string :=
  specs ← parseAccept (header_values header "Accept-Encoding"); Ok (bestEncoding specs offers).

(** ** Accept *)

Definition type_step (offer : string) (best : string * spec_float * nat) (spec : acceptSpec) :
    string * spec_float * nat :=
  let '(bestOffer, bestQ, bestWild) := best in
  if SFeqb (Q spec) (f64_of_int 0) then best
  else if SFltb (Q spec) bestQ then best
  else if String.eqb (Value spec) "*/*" then
    if SFltb bestQ (Q spec) || (2 <? bestWild) then (offer, Q spec, 2) else best
  else if HasSuffix (Value spec) "/*" then
    if HasPrefix offer (str_take (String.length (Value spec) - 1) (Value spec)) &&
       (SFltb bestQ (Q spec) || (1 <? bestWild)) then (offer, Q spec, 1) else best
  else
    if String.eqb (Value spec) offer && (SFltb bestQ (Q spec) || (0 <? bestWild))
    then (offer, Q spec, 0) else best.

Definition bestType (specs : list acceptSpec) (offers : list string) (defaultOffer : string) : string :=
  let '(bestOffer, _, _) :=
    foldl (fun best offer => foldl (type_step offer) best specs)
      (defaultOffer, f64_of_int (-1), 3) offers in bestOffer.

Definition negotiateContentType (header : Header) (offers : list string) (defaultOffer : string) :
    outcome unit string :=
  specs ← parseAccept (header_values header "Accept"); Ok (bestType specs offers defaultOffer).

(** ** The order of qualities

    Numbers that are not NaN are ordered as the triples [rank]. *)

Definition not_nan (x : spec_float) : Prop := x <> S754_nan.

Definition rank (x : spec_float) : Z * Z * Z :=
  match x with
  | S754_infinity true => (-2, 0, 0)
  | S754_finite true m e => (-1, - e, Zneg m)
  | S754_zero _ | S754_nan => (0, 0, 0)
  | S754_finite false m e => (1, e, Zpos m)
  | S754_infinity false => (2, 0, 0)
  end%Z.

Definition rank_lt (x y : spec_float) : Prop :=
  let '(a, b, c) := rank x in
  let '(a', b', c') := rank y in
  (a < a' \/ a = a' /\ (b < b' \/ b = b' /\ c < c'))%Z.

Lemma rank_lt_trans x y z : rank_lt x y -> rank_lt y z -> rank_lt x z.
Proof. unfold rank_lt. destruct (rank x) as [[??]?], (rank y) as [[??]?], (rank z) as [[??]?]. lia. Qed.

Lemma rank_lt_irrefl x : ~ rank_lt x x.
Proof. unfold rank_lt. destruct (rank x) as [[??]?]. lia. Qed.

Lemma rank_lt_eq_l x y z : rank x = rank y -> rank_lt y z -> rank_lt x z.
Proof. unfold rank_lt. by intros ->. Qed.

Lemma rank_lt_eq_r x y z : rank y = rank z -> rank_lt x y -> rank_lt x z.
Proof. unfold rank_lt. by intros ->. Qed.

Lemma rank_total x y : rank_lt x y \/ rank x = rank y \/ rank_lt y x.
Proof.
  unfold rank_lt. destruct (rank x) as [[a b] c], (rank y) as [[a' b'] c'].
  destruct (Z.lt_trichotomy a a') as [?|[->|?]]; [tauto| |tauto].
  destruct (Z.lt_trichotomy b b') as [?|[->|?]]; [tauto| |tauto].
  destruct (Z.lt_trichotomy c c') as [?|[->|?]]; tauto.
Qed.

Lemma SFcompare_rank x y :
  not_nan x -> not_nan y ->
  match SFcompare x y with
  | Some Lt => rank_lt x y
  | Some Eq => rank x = rank y
  | Some Gt => rank_lt y x
  | None => False
  end.
Proof.
  unfold not_nan, rank_lt.
  destruct x as [s|s| |s m e], y as [s'|s'| |s' m' e']; try done; intros _ _;
    destruct s, s'; simpl; try done; try lia.
  - destruct (Z.compare_spec e e') as [->| |]; simpl; [|lia..].
    change (Pos.compare_cont Eq m m') with (Pos.compare m m').
    destruct (Pos.compare_spec m m') as [->| |]; simpl; [done|lia..].
  - destruct (Z.compare_spec e e') as [->| |]; simpl; [|lia..].
    change (Pos.compare_cont Eq m m') with (Pos.compare m m').
    destruct (Pos.compare_spec m m') as [->| |]; simpl; [done|lia..].
Qed.

Lemma SFltb_rank x y : not_nan x -> not_nan y -> SFltb x y = true <-> rank_lt x y.
Proof.
  intros Hx Hy. pose proof (SFcompare_rank x y Hx Hy) as H. unfold SFltb.
  destruct (SFcompare x y) as [[]|]; [| |split; [done|]|done].
  - split; [done|]. intros Hlt. exfalso. exact (rank_lt_irrefl _ (rank_lt_eq_l _ _ _ (eq_sym H) Hlt)).
  - by split.
  - intros Hlt. exfalso. exact (rank_lt_irrefl _ (rank_lt_trans _ _ _ Hlt H)).
Qed.

Lemma SFltb_rank_false x y : not_nan x -> not_nan y -> SFltb x y = false <-> ~ rank_lt x y.
Proof. intros Hx Hy. rewrite <-SFltb_rank by done. by destruct (SFltb x y). Qed.

(** ** What the parser promises *)

Lemma skipSpace_length s : String.length (skipSpace s) <= String.length s.
Proof. induction s as [|c s IH]; simpl; [done|]. case_match; simpl; lia. Qed.

Lemma expectTokenSlash_app s t r : expectTokenSlash s = (t, r) -> s = (t ++ r)%string.
Proof.
  revert t. induction s as [|c s IH]; simpl; intros t; [by intros [= <- <-]|].
  destruct (_ && _); [by intros [= <- <-]|].
  destruct (expectTokenSlash s) as [t' r'] eqn:E. intros [= <- <-]. simpl. by rewrite (IH t' eq_refl).
Qed.

Lemma quality_digits_length s n d n' d' r :
  quality_digits s n d = (n', d', r) -> String.length r <= String.length s.
Proof.
  revert n d. induction s as [|c s IH]; simpl; intros n d; [by intros [= _ _ <-]|].
  destruct (_ && _); [intros H%IH; lia | intros [= _ _ <-]; simpl; lia].
Qed.

Lemma expectQuality_length s q r : expectQuality s = (q, r) -> String.length r <= String.length s.
Proof.
  destruct s as [|c s]; simpl; [by intros [= _ <-]|].
  destruct (_ || _); [|intros [= _ <-]; simpl; lia].
  destruct s as [|b s]; [intros [= _ <-]; simpl; lia|].
  assert (Hplain : forall x, (x, String b s) = (q, r) -> String.length r <= S (String.length (String b s))).
  { intros x [= _ <-]. lia. }
  destruct (Ascii.eqb_spec b ".") as [->|Hne].
  - destruct (quality_digits s 0 1) as [[n d] rest] eqn:E. intros [= _ <-].
    apply quality_digits_length in E. simpl. lia.
  - intros H. apply (Hplain (f64_of_int (if Ascii.eqb c "0" then 0 else 1))).
    rewrite <-H. clear -Hne. destruct b as [[] [] [] [] [] [] [] []]; try reflexivity. by destruct Hne.
Qed.

Lemma parse_quality_spec s q r :
  parse_quality s = Some (q, r) ->
  String.length r <= String.length s /\ SFltb q (f64_of_int 0) = false.
Proof.
  unfold parse_quality. destruct (HasPrefix s ";").
  - destruct (HasPrefix _ "q="); [|done].
    destruct (expectQuality _) as [q' s'] eqn:E. destruct (SFltb q' _) eqn:Hq; [done|].
    intros [= <- <-]. split; [|done]. apply expectQuality_length in E.
    pose proof (skipSpace_length (str_drop 1 s)). rewrite !str_length_drop in *. lia.
  - intros [= <- <-]. split; [done|]. reflexivity.
Qed.

Lemma parse_value_ok fuel s :
  String.length s < fuel ->
  exists specs, parse_value fuel s = Ok specs /\
    Forall (fun spec => SFltb (Q spec) (f64_of_int 0) = false) specs.
Proof.
  revert s. induction fuel as [|fuel IH]; intros s Hs; [lia|]. cbn [parse_value].
  destruct (expectTokenSlash s) as [v r] eqn:Ev.
  destruct (String.eqb_spec v "") as [->|Hv]; [by exists []|].
  apply expectTokenSlash_app in Ev as ->. rewrite str_length_app in Hs.
  assert (Hpos : 0 < String.length v) by (destruct v; simpl; [done|lia]).
  destruct (parse_quality _) as [[q r']|] eqn:Eq; [|by exists []].
  apply parse_quality_spec in Eq as [Hl Hq]. pose proof (skipSpace_length r) as Hr.
  destruct (HasPrefix _ ","); [|eexists; split; [done|by repeat constructor]].
  destruct (IH (skipSpace (str_drop 1 (skipSpace r')))) as (specs & -> & Hspecs).
  - pose proof (skipSpace_length (str_drop 1 (skipSpace r'))). rewrite str_length_drop in *.
    pose proof (skipSpace_length r'). lia.
  - eexists. split; [done|]. by constructor.
Qed.

Lemma parseAccept_ok values :
  exists specs, parseAccept values = Ok specs /\
    Forall (fun spec => SFltb (Q spec) (f64_of_int 0) = false) specs.
Proof.
  induction values as [|s values IH]; cbn [parseAccept]; [by exists []|]. destruct IH as (specs' & -> & H').
  destruct (parse_value_ok (S (String.length s)) s (Nat.lt_succ_diag_r _)) as (specs & -> & H).
  simpl. eexists. split; [done|]. by apply Forall_app.
Qed.

(** ** The best offer

    A candidate is an offer with the quality of a specification that matches it
    and, for content types, how wild the match is. *)

Record candidate := Candidate { c_offer : string; c_q : spec_float; c_wild : nat }.

Definition better (x y : candidate) : Prop :=
  rank_lt (c_q y) (c_q x) \/ rank (c_q x) = rank (c_q y) /\ c_wild x < c_wild y.

(** The first of the best candidates. *)
Definition first_best (cs : list candidate) (c : candidate) : Prop :=
  exists c1 c2, cs = c1 ++ c :: c2 /\ Forall (better c) c1 /\ Forall (fun x => ~ better x c) c2.

Lemma better_weak x y z : better x z -> better x y \/ better y z.
Proof.
  unfold better, rank_lt. destruct (rank (c_q x)) as [[??]?], (rank (c_q y)) as [[??]?], (rank (c_q z)) as [[??]?].
  rewrite !pair_equal_spec. lia.
Qed.

Lemma better_asym x y : better x y -> ~ better y x.
Proof.
  unfold better, rank_lt. destruct (rank (c_q x)) as [[??]?], (rank (c_q y)) as [[??]?].
  rewrite !pair_equal_spec. lia.
Qed.

Lemma better_trans x y z : better x y -> better y z -> better x z.
Proof. intros H1 H2. destruct (better_weak y x z H2) as [H|H]; [by destruct (better_asym _ _ H1)|done]. Qed.

Lemma first_best_snoc cs c x :
  first_best cs c -> (better x c -> first_best (cs ++ [x]) x) /\ (~ better x c -> first_best (cs ++ [x]) c).
Proof.
  intros (c1 & c2 & -> & H1 & H2). split; intros Hx.
  - exists (c1 ++ c :: c2), []. split_and!; [done| |constructor].
    apply Forall_app. split; [|constructor; [done|]].
    + eapply Forall_impl; [exact H1|]. intros y. by apply better_trans.
    + eapply Forall_impl; [exact H2|]. intros y Hy. by destruct (better_weak x y c Hx).
  - exists c1, (c2 ++ [x]). rewrite <-app_assoc. split_and!; [done..|].
    apply Forall_app. split; [done|]. by constructor.
Qed.

Lemma first_best_singleton c : first_best [c] c.
Proof. exists [], []. by repeat constructor. Qed.

(** The offers and specifications in the order of the two loops. *)
Definition pairs (specs : list acceptSpec) (offers : list string) : list (string * acceptSpec) :=
  offers ≫= (fun offer => pair offer <$> specs).

Lemma foldl_pairs {A} (f : string -> A -> acceptSpec -> A) specs offers a :
  foldl (fun best offer => foldl (f offer) best specs) a offers =
  foldl (fun best os => f (fst os) best (snd os)) a (pairs specs offers).
Proof.
  revert a. induction offers as [|o offers IH]; intros a; [done|].
  unfold pairs. csimpl. rewrite foldl_app. fold (pairs specs offers). rewrite <-IH. f_equal.
  revert a. clear. induction specs as [|s specs IH]; intros a; [done|]. apply IH.
Qed.

(** The loop keeps the first best candidate of the pairs it has seen. *)
Section Best.
Context {S : Type} (step : S -> string * acceptSpec -> S) (init : S) (view : S -> option candidate)
  (cand : string * acceptSpec -> option candidate) (ok : string * acceptSpec -> Prop).
Context (step_none : forall s x, ok x -> cand x = None -> step s x = s).
Context (step_init : forall x c, ok x -> cand x = Some c -> view (step init x) = Some c).
Context (step_some : forall s x c b, ok x -> cand x = Some c -> view s = Some b ->
  (better c b /\ view (step s x) = Some c) \/ (~ better c b /\ view (step s x) = Some b)).

Lemma fold_first_best l :
  Forall ok l ->
  match omap cand l with
  | [] => foldl step init l = init
  | cs => exists c, view (foldl step init l) = Some c /\ first_best cs c
  end.
Proof using All.
  induction l as [|x l IH] using rev_ind; intros Hl; [done|].
  apply Forall_app in Hl as [Hl [Hx _]%Forall_cons]. specialize (IH Hl).
  rewrite foldl_snoc, omap_app. simpl. destruct (cand x) as [c|] eqn:Ec; simpl.
  2:{ rewrite app_nil_r. destruct (omap cand l) as [|c0 cs].
      - by rewrite IH, step_none.
      - destruct IH as (c & Hc & Hb). exists c. by rewrite step_none. }
  destruct (omap cand l) as [|c0 cs]; simpl.
  - rewrite IH. exists c. split; [by apply step_init|apply first_best_singleton].
  - destruct IH as (b & Hb & Hfb). pose proof (first_best_snoc _ _ c Hfb) as [Hnew Hold].
    destruct (step_some _ x c b Hx Ec Hb) as [[Hc Hv]|[Hc Hv]]; rewrite Hv; eauto.
Qed.
End Best.

Definition usable (x : string * acceptSpec) : Prop :=
  not_nan (Q x.2) /\ SFltb (Q x.2) (f64_of_int 0) = false.

Lemma usable_pairs specs offers :
  Forall (fun spec => SFltb (Q spec) (f64_of_int 0) = false) specs ->
  Forall (fun spec => not_nan (Q spec)) specs -> Forall usable (pairs specs offers).
Proof.
  intros H1 H2. apply Forall_forall. intros [o s] (o' & Ho' & _)%list_elem_of_bind.
  apply list_elem_of_fmap in Ho' as (s' & [= -> ->] & Hs). split.
  - exact (proj1 (Forall_forall _ _) H2 _ Hs).
  - exact (proj1 (Forall_forall _ _) H1 _ Hs).
Qed.

(** The first candidate beats the start, whose quality is -1. *)
Lemma usable_above x : usable x -> SFltb (f64_of_int (-1)) (Q x.2) = true /\ SFltb (Q x.2) (f64_of_int (-1)) = false.
Proof.
  intros [Hn H0]. assert (Hm : not_nan (f64_of_int (-1))) by (by vm_compute).
  apply SFltb_rank_false in H0; [|done|by vm_compute].
  assert (Hlt : rank_lt (f64_of_int (-1)) (Q x.2)).
  { revert H0. unfold rank_lt. change (rank (f64_of_int (-1))) with (-1, 52, Zneg 4503599627370496)%Z.
    change (rank (f64_of_int 0)) with (0, 0, 0)%Z. destruct (rank (Q x.2)) as [[??]?]. lia. }
  rewrite SFltb_rank, SFltb_rank_false by done. split; [done|].
  intros H. exact (rank_lt_irrefl _ (rank_lt_trans _ _ _ Hlt H)).
Qed.

(** *** Encodings *)

Definition encoding_candidate (x : string * acceptSpec) : option candidate :=
  if String.eqb (Value x.2) "*" || String.eqb (Value x.2) x.1
  then Some (Candidate x.1 (Q x.2) 0) else None.

Definition encoding_view (s : string * spec_float) : option candidate :=
  match s.2 with S754_nan => None | _ => Some (Candidate s.1 s.2 0) end.

Lemma encoding_view_some o q : not_nan q -> encoding_view (o, q) = Some (Candidate o q 0).
Proof. by destruct q. Qed.

Lemma encoding_view_inv s b : encoding_view s = Some b -> not_nan s.2 /\ b = Candidate s.1 s.2 0.
Proof. destruct s as [o []]; simpl; try done; intros [= <-]; done. Qed.

Lemma encoding_step_candidate s x :
  encoding_step x.1 s x.2 =
    match encoding_candidate x with
    | Some c => if SFltb s.2 (c_q c) then (c_offer c, c_q c) else s
    | None => s
    end.
Proof.
  destruct s as [o q]. unfold encoding_step, encoding_candidate. simpl.
  destruct (_ || _); [by rewrite andb_true_r | by rewrite andb_false_r].
Qed.

Lemma encoding_candidate_q x c : encoding_candidate x = Some c -> c = Candidate x.1 (Q x.2) 0.
Proof. unfold encoding_candidate. destruct (_ || _); [by intros [= <-]|done]. Qed.

Lemma bestEncoding_first_best specs offers :
  Forall usable (pairs specs offers) ->
  let s := foldl (fun best offer => foldl (encoding_step offer) best specs)
    ("identity", f64_of_int (-1)) offers in
  match omap encoding_candidate (pairs specs offers) with
  | [] => s = ("identity", f64_of_int (-1))
  | cs => exists c, first_best cs c /\ s = (c_offer c, c_q c)
  end.
Proof.
  intros Hok s. unfold s. rewrite foldl_pairs.
  pose proof (fold_first_best (fun best os => encoding_step os.1 best os.2)
    ("identity", f64_of_int (-1)) encoding_view encoding_candidate usable) as H.
  eassert (H' := H _ _ _ _ Hok). clear H.
  destruct (omap encoding_candidate _) as [|c0 cs]; [exact H'|].
  destruct H' as (c & Hv & Hb). exists c. split; [done|].
  apply encoding_view_inv in Hv as [_ ->]. apply surjective_pairing.
  Unshelve.
  - intros s' x _ E. cbv beta. by rewrite encoding_step_candidate, E.
  - intros x c Hx E. cbv beta. rewrite encoding_step_candidate, E. apply encoding_candidate_q in E as ->. cbn [fst snd c_q c_offer c_wild].
    destruct (usable_above x Hx) as [-> _]. apply encoding_view_some, Hx.
  - intros s' x c b Hx E Hv. cbv beta. rewrite encoding_step_candidate, E. apply encoding_candidate_q in E as ->. cbn [fst snd c_q c_offer c_wild].
    pose proof (encoding_view_inv _ _ Hv) as [Hn ->]. unfold better. cbn [c_q c_wild].
    destruct (SFltb s'.2 (Q x.2)) eqn:Hlt.
    + left. rewrite SFltb_rank in Hlt by (done || apply Hx). split; [by left|]. apply encoding_view_some, Hx.
    + right. rewrite SFltb_rank_false in Hlt by (done || apply Hx). split; [|done]. intros [?|[_ ?]]; [done|lia].
Qed.

(** *** Types *)

Definition wild (offer value : string) : option nat :=
  if String.eqb value "*/*" then Some 2
  else if HasSuffix value "/*" then
    if HasPrefix offer (str_take (String.length value - 1) value) then Some 1 else None
  else if String.eqb value offer then Some 0 else None.

Definition type_candidate (x : string * acceptSpec) : option candidate :=
  if SFeqb (Q x.2) (f64_of_int 0) then None
  else Candidate x.1 (Q x.2) <$> wild x.1 (Value x.2).

Definition type_view (s : string * spec_float * nat) : option candidate :=
  match s.1.2 with S754_nan => None | _ => Some (Candidate s.1.1 s.1.2 s.2) end.

Lemma type_view_some o q w : not_nan q -> type_view (o, q, w) = Some (Candidate o q w).
Proof. by destruct q. Qed.

Lemma type_view_inv s b : type_view s = Some b -> not_nan s.1.2 /\ b = Candidate s.1.1 s.1.2 s.2.
Proof. destruct s as [[o []] w]; simpl; try done; intros [= <-]; done. Qed.

Lemma type_step_candidate s x :
  type_step x.1 s x.2 =
    match type_candidate x with
    | Some c => if SFltb (c_q c) s.1.2 then s
                else if SFltb s.1.2 (c_q c) || (c_wild c <? s.2) then (c_offer c, c_q c, c_wild c) else s
    | None => s
    end.
Proof.
  destruct s as [[o q] w]. unfold type_step, type_candidate, wild. simpl.
  destruct (SFeqb _ _); [done|]. destruct (String.eqb (Value x.2) "*/*"); [done|].
  destruct (HasSuffix _ _).
  - destruct (HasPrefix _ _); [done|]. simpl. by destruct (SFltb _ _).
  - destruct (String.eqb _ _); [done|]. simpl. by destruct (SFltb _ _).
Qed.

Lemma type_candidate_q x c :
  type_candidate x = Some c -> exists w, w < 3 /\ c = Candidate x.1 (Q x.2) w.
Proof.
  unfold type_candidate, wild. intros H. repeat case_match; simpl in H; simplify_eq; eexists; (split; [|done]); lia.
Qed.

Lemma bestType_first_best specs offers d :
  Forall usable (pairs specs offers) ->
  match omap type_candidate (pairs specs offers) with
  | [] => bestType specs offers d = d
  | cs => exists c, first_best cs c /\ bestType specs offers d = c_offer c
  end.
Proof.
  intros Hok. unfold bestType. rewrite foldl_pairs.
  pose proof (fold_first_best (fun best os => type_step os.1 best os.2)
    (d, f64_of_int (-1), 3) type_view type_candidate usable) as H.
  eassert (H' := H _ _ _ _ Hok). clear H.
  destruct (omap type_candidate _) as [|c0 cs]; [by rewrite H'|].
  destruct H' as (c & Hv & Hb). exists c. split; [done|].
  apply type_view_inv in Hv as [_ ->]. cbn [c_offer].
  match goal with |- context [foldl ?f ?a ?l] => by destruct (foldl f a l) as [[??]?] end.
  Unshelve.
  - intros s' x _ E. cbv beta. by rewrite type_step_candidate, E.
  - intros x c Hx E. cbv beta. rewrite type_step_candidate, E. apply type_candidate_q in E as (w & Hw & ->). cbn [fst snd c_q c_offer c_wild].
    destruct (usable_above x Hx) as [-> ->]. apply type_view_some, Hx.
  - intros s' x c b Hx E Hv. cbv beta. rewrite type_step_candidate, E. apply type_candidate_q in E as (w & Hw & ->). cbn [fst snd c_q c_offer c_wild].
    pose proof (type_view_inv _ _ Hv) as [Hn ->]. unfold better. cbn [c_q c_wild].
    destruct Hx as [Hx _]. destruct (SFltb (Q x.2) s'.1.2) eqn:Hlt.
    + apply SFltb_rank in Hlt; [|done..]. right. split; [|done]. intros [Hb|[Hb _]].
      * exact (rank_lt_irrefl _ (rank_lt_trans _ _ _ Hb Hlt)).
      * exact (rank_lt_irrefl _ (rank_lt_eq_l _ _ _ (eq_sym Hb) Hlt)).
    + apply SFltb_rank_false in Hlt; [|done..].
      destruct (SFltb s'.1.2 (Q x.2)) eqn:Hgt; simpl.
      * apply SFltb_rank in Hgt; [|done..]. left. split; [by left|]. by apply type_view_some.
      * apply SFltb_rank_false in Hgt; [|done..].
        assert (Heq : rank (Q x.2) = rank s'.1.2) by (destruct (rank_total (Q x.2) s'.1.2) as [?|[?|?]]; done).
        destruct (Nat.ltb_spec w s'.2).
        -- left. split; [by right|]. by apply type_view_some.
        -- right. split; [|done]. intros [?|[_ ?]]; [done|lia].
Qed.

(** ** The theorems *)

(** Accept: every header is parsed to the end, and when no quality is NaN (which
    only 64 digits or more can make) the choice is the first offer of the best
    quality, and among equal qualities of the most specific match; without a match
    of a quality above zero it is the default. *)
Theorem negotiateContentType_best header offers d :
  exists specs, parseAccept (header_values header "Accept") = Ok specs /\
    (Forall (fun spec => not_nan (Q spec)) specs ->
     exists r, negotiateContentType header offers d = Ok r /\
       match omap type_candidate (pairs specs offers) with
       | [] => r = d
       | cs => exists c, first_best cs c /\ r = c_offer c
       end).
Proof.
  destruct (parseAccept_ok (header_values header "Accept")) as (specs & E & H0).
  exists specs. split; [done|]. intros Hn. unfold negotiateContentType. rewrite E.
  eexists. split; [done|]. by apply bestType_first_best, usable_pairs.
Qed.

(** Accept-Encoding: the choice is the first offer of the best quality; the
    empty string when that quality is zero, and "identity" when nothing matches,
    where the comment says "". *)
Theorem negotiateContentEncoding_best header offers :
  exists specs, parseAccept (header_values header "Accept-Encoding") = Ok specs /\
    (Forall (fun spec => not_nan (Q spec)) specs ->
     exists r, negotiateContentEncoding header offers = Ok r /\
       match omap encoding_candidate (pairs specs offers) with
       | [] => r = "identity"
       | cs => exists c, first_best cs c /\
           r = if SFeqb (c_q c) (f64_of_int 0) then "" else c_offer c
       end).
Proof.
  destruct (parseAccept_ok (header_values header "Accept-Encoding")) as (specs & E & H0).
  exists specs. split; [done|]. intros Hn. unfold negotiateContentEncoding. rewrite E.
  eexists. split; [done|]. unfold bestEncoding.
  pose proof (bestEncoding_first_best specs offers (usable_pairs _ _ H0 Hn)) as H. cbv zeta in H.
  destruct (omap encoding_candidate _) as [|c0 cs]; [by rewrite H|].
  destruct H as (c & Hb & ->). by exists c.
Qed.
