(* ===== verification/Codec.v ===== *)
(** The codecs of larking/codec.go: how they frame messages on a stream.  Package
    protowire is not part of the program: its varints are the class [Protowire],
    with the laws its documentation states, and [leb128] is an instance. *)

From S2P Require Import Prelude Status IO.

(** ** growcap *)

Fixpoint growcap_loop (fuel : nat) (newcap wantcap : Z) : option Z :=
  match fuel with
  | O => None
  | S fuel =>
      if ((0 <? newcap) && (newcap <? wantcap))%Z
      then growcap_loop fuel (wrap64 (newcap + newcap `div` 4)) wantcap
      else Some newcap
  end.

(** From 1024 on, 220 rounds exceed every int. *)
Definition growcap_fuel : nat := 220.

Definition growcap (oldcap wantcap : Z) : go Z :=
  if (wrap64 (oldcap * 2) <? wantcap)%Z then Ok wantcap
  else if (oldcap <? 1024)%Z then Ok (wrap64 (oldcap * 2))
  else match growcap_loop growcap_fuel oldcap wantcap with
       | Some newcap => Ok (if (newcap <=? 0)%Z then wantcap else newcap)
       | None => OutOfFuel
       end.

(** ** protowire *)

Class Protowire := {
  (** the value and the length of a varint; none for a negative length *)
  ConsumeVarint : string -> option (Z * nat);
  AppendVarint : string -> Z -> string;

  AppendVarint_app b v : AppendVarint b v = (b ++ AppendVarint "" v)%string;
  (** one to ten bytes; all but the last have the high bit *)
  AppendVarint_shape v : (0 <= v < 2 ^ 64)%Z ->
    exists init last, AppendVarint "" v = (init ++ String last "")%string /\
      String.length init < 10 /\ str_forallb (fun c => 128 <=? byteZ c)%Z init = true /\ (byteZ last < 128)%Z;
  ConsumeVarint_append v b : (0 <= v < 2 ^ 64)%Z ->
    ConsumeVarint (AppendVarint "" v ++ b)%string = Some (v, String.length (AppendVarint "" v));
  ConsumeVarint_bounds b v n : ConsumeVarint b = Some (v, n) -> (0 <= v < 2 ^ 64)%Z /\ n <= String.length b;
}.

Definition MaxVarintLen64 : nat := 10.

Section Codecs.
Context `{G : GoAppend} `{W : Protowire}.

(** ** CodecProto *)

(** The first loop: to the byte that ends the varint, ten at most. *)
Fixpoint varint_loop (n i : nat) : st rbuf error unit :=
  match n with
  | O => mret tt
  | S n => c ← byte_at i; if (c <? 128)%Z then mret tt else varint_loop n (S i)
  end.

(** [b = b[n:]] *)
Definition consume (n : nat) (s : rbuf) : rbuf :=
  RBuf (str_drop n (bytes s)) (cap s - n) (src s).

(** The rest of a message of [n] bytes, of which the slice holds a part. *)
Definition read_rest (n : Z) : st rbuf error Z := fun s =>
  let len := String.length (bytes s) in
  match (if (Z.of_nat (cap s) <? n)%Z then growcap (Z.of_nat (cap s)) n else Ok (Z.of_nat (cap s)) : go Z) with
  | Ok c =>
      if (c <? n)%Z then (s, Panic SliceOutOfRange) else
      let c := Z.to_nat c in
      match ReadFull (src s) (Z.to_nat n - len) with
      | (r, Ok d) => (RBuf (bytes s ++ d) c r, Ok n)
      | (r, Err EOF) => (RBuf (bytes s) c r, Err ErrUnexpectedEOF)
      | (r, Err e) => (RBuf (bytes s) c r, Err e)
      | (r, Panic p) => (RBuf (bytes s) c r, Panic p)
      | (r, OutOfFuel) => (RBuf (bytes s) c r, OutOfFuel)
      end
  | Err e => (s, Err e)
  | Panic p => (s, Panic p)
  | OutOfFuel => (s, OutOfFuel)
  end.

Definition CodecProto_ReadNext (limit : Z) : st rbuf error Z :=
  varint_loop MaxVarintLen64 0;;
  s ← get;
  match ConsumeVarint (bytes s) with
  | None => throw (External "protowire")
  | Some (size, n) =>
      if ((0 <? limit) && (limit <? wrap64 size))%Z
      then throw (SizeTooLargeError size limit)
      else
        modify (consume n);;
        s ← get;
        if (Z.of_nat (String.length (bytes s)) <? wrap64 size)%Z
        then read_rest (wrap64 size)
        else mret (wrap64 size)
  end.

(** [w.Write] of an [io.Writer] of state [T]. *)
Definition writer (T : Type) : Type := string -> st T error nat.

Definition CodecProto_WriteNext {T} (Write : writer T) (b : string) : st T error nat :=
  Write (AppendVarint "" (Z.of_nat (String.length b)));;
  Write b.

(** ** CodecJSON *)

(** The locals of the scanner. *)
Record scan := Scan { braceCount : Z; isString : bool; isEscaped : bool }.
Inductive scanned := More (st : scan) | Closed | Unbalanced.

(** The switch on one byte. *)
Definition scan_byte (s : scan) (c : Z) : scanned :=
  if isEscaped s then More (Scan (braceCount s) (isString s) false)
  else if isString s then
    if (c =? 92)%Z then More (Scan (braceCount s) true true)
    else if (c =? 34)%Z then More (Scan (braceCount s) false false)
    else More s
  else if (c =? 123)%Z then More (Scan (braceCount s + 1) false false)
  else if (c =? 125)%Z then
    let n := (braceCount s - 1)%Z in
    if (n =? 0)%Z then Closed else if (n <? 0)%Z then Unbalanced else More (Scan n false false)
  else if (c =? 34)%Z then More (Scan (braceCount s) true false)
  else More s.

Definition scan_start : scan := Scan 0 false false.

Fixpoint json_loop (n i : nat) (sc : scan) (limit : Z) : st rbuf error Z :=
  match n with
  | O => s ← get; throw (SizeTooLargeError (Z.of_nat (String.length (bytes s))) limit)
  | S n =>
      c ← byte_at i;
      match scan_byte sc c with
      | More sc => json_loop n (S i) sc limit
      | Closed => mret (Z.of_nat (S i))
      | Unbalanced => throw (Errorf "unbalanced braces" [])
      end
  end.

Definition CodecJSON_ReadNext (limit : Z) : st rbuf error Z :=
  json_loop (Z.to_nat limit) 0 scan_start limit.

Definition CodecJSON_WriteNext {T} (Write : writer T) (b : string) : st T error nat := Write b.

(** ** codecHTTPBody: all that comes, up to the limit *)

Fixpoint body_loop (fuel : nat) (limit total : Z) (s : rbuf) : rbuf * outcome error (Z * option error) :=
  match fuel with
  | O => (s, OutOfFuel)
  | S fuel =>
      let len := String.length (bytes s) in
      let '(s, err) := read_some s in
      let total := (total + Z.of_nat (String.length (bytes s) - len))%Z in
      let total := if (limit <? total)%Z then limit else total in
      if match err with Some _ => true | None => (total =? limit)%Z end
      then (s, Ok (total, err))
      else body_loop fuel limit total s
  end.

Definition codecHTTPBody_ReadNext (limit : Z) (s : rbuf) : rbuf * outcome error (Z * option error) :=
  body_loop (S (reader_size (src s))) limit 0 s.

Definition codecHTTPBody_WriteNext {T} (Write : writer T) (b : string) : st T error nat := Write b.
End Codecs.

(** A [bytes.Buffer] as a writer. *)
Definition buffer_Write : writer string := fun b t => ((t ++ b)%string, Ok (String.length b)).

(** ** Marshalling

    Both codecs check that the value is a [proto.Message] before they hand it to
    the libraries. *)

Section Marshal.
Context {Msg : Type}.
Inductive any := AnyMessage (m : Msg) | AnyOther (typ : string).

Definition errInvalidType (v : any) : error :=
  Errorf "marshal invalid type %T" [AStr (match v with AnyMessage _ => "proto.Message" | AnyOther t => t end)].

(** [c.MarshalOptions.Marshal] and [MarshalAppend], [Unmarshal] of a library. *)
Context (marshal : Msg -> go string) (marshalAppend : string -> Msg -> go string)
  (unmarshal : string -> Msg -> go Msg).

Definition Codec_Marshal (v : any) : go string :=
  match v with AnyMessage m => marshal m | _ => Err (errInvalidType v) end.
Definition Codec_MarshalAppend (b : string) (v : any) : go string :=
  match v with AnyMessage m => marshalAppend b m | _ => Err (errInvalidType v) end.
Definition Codec_Unmarshal (data : string) (v : any) : go any :=
  match v with AnyMessage m => m' ← unmarshal data m; Ok (AnyMessage m') | _ => Err (errInvalidType v) end.

(** [CodecJSON] has the same methods over protojson. *)
Definition CodecJSON_Marshal : any -> go string := Codec_Marshal.
Definition CodecJSON_MarshalAppend : string -> any -> go string := Codec_MarshalAppend.
Definition CodecJSON_Unmarshal : string -> any -> go any := Codec_Unmarshal.
End Marshal.

(** The [Name] of the three codecs. *)
Inductive codec_kind := KProto | KJSON | KBody.
Definition codecName (c : codec_kind) : string :=
  match c with KProto => "proto" | KJSON => "json" | KBody => "body" end.

Definition notImplemented {A} : go A := Panic (PanicCall "not implemented").
Definition codecHTTPBody_Marshal {Msg} (v : @any Msg) : go string := notImplemented.
Definition codecHTTPBody_MarshalAppend {Msg} (b : string) (v : @any Msg) : go string := notImplemented.
Definition codecHTTPBody_Unmarshal {Msg} (data : string) (v : @any Msg) : go any := @notImplemented (@any Msg).

(** ** An instance of protowire: base 128, low group first *)

Fixpoint leb128 (fuel : nat) (v : Z) : string :=
  match fuel with
  | O => ""
  | S fuel =>
      if (v <? 128)%Z then String (ascii_of_N (Z.to_N v)) ""
      else String (ascii_of_N (Z.to_N (v `mod` 128 + 128))) (leb128 fuel (v `div` 128))
  end.

(** The tenth byte has one bit left. *)
Fixpoint unleb128 (fuel : nat) (b : string) : option (Z * nat) :=
  match fuel, b with
  | S fuel, String c b =>
      if (byteZ c <? 128)%Z
      then match fuel with
           | O => if (byteZ c <? 2)%Z then Some (byteZ c, 1) else None
           | _ => Some (byteZ c, 1)
           end
      else '(v, n) ← unleb128 fuel b; Some (byteZ c - 128 + 128 * v, S n)%Z
  | _, _ => None
  end.

(** ** Lemmas *)

Lemma byteZ_of_Z z : (0 <= z < 256)%Z -> byteZ (ascii_of_N (Z.to_N z)) = z.
Proof. intros H. unfold byteZ. rewrite N_ascii_embedding; lia. Qed.

Lemma leb128_shape fuel v :
  (0 <= v < 128 ^ Z.of_nat fuel)%Z -> 0 < fuel ->
  exists init last, leb128 fuel v = (init ++ String last "")%string /\
    String.length init < fuel /\ str_forallb (fun c => 128 <=? byteZ c)%Z init = true /\ (byteZ last < 128)%Z.
Proof.
  revert v. induction fuel as [|fuel IH]; intros v Hv Hf; [lia|]. cbn [leb128].
  destruct (Z.ltb_spec v 128) as [Hs|Hs].
  - exists "", (ascii_of_N (Z.to_N v)). rewrite byteZ_of_Z by lia. split_and!; [done|simpl; lia|done|done].
  - rewrite Nat2Z.inj_succ, Z.pow_succ_r in Hv by lia.
    assert (Hf' : 0 < fuel) by (destruct fuel; [simpl in Hv; lia|lia]).
    assert (Hd : (0 <= v `div` 128 < 128 ^ Z.of_nat fuel)%Z).
    { split; [apply Z.div_pos; lia|apply Z.div_lt_upper_bound; lia]. }
    destruct (IH (v `div` 128)%Z Hd Hf') as (init & last & -> & Hl & Hi & Hlast).
    exists (String (ascii_of_N (Z.to_N (v `mod` 128 + 128))) init), last.
    pose proof (Z.mod_pos_bound v 128 eq_refl).
    split_and!; [done|simpl; lia| |done]. simpl. rewrite byteZ_of_Z by lia. rewrite Hi.
    destruct (Z.leb_spec 128 (v `mod` 128 + 128)); [done|lia].
Qed.

Lemma unleb128_leb128 fuel v b :
  (0 <= v < 2 * 128 ^ (Z.of_nat fuel - 1))%Z -> 0 < fuel ->
  unleb128 fuel (leb128 fuel v ++ b) = Some (v, String.length (leb128 fuel v)).
Proof.
  revert v. induction fuel as [|fuel IH]; intros v Hv Hf; [lia|]. cbn [leb128].
  rewrite Nat2Z.inj_succ in Hv. replace (Z.succ (Z.of_nat fuel) - 1)%Z with (Z.of_nat fuel) in Hv by lia.
  destruct (Z.ltb_spec v 128) as [Hs|Hs].
  - cbn [unleb128 append]. rewrite byteZ_of_Z by lia. destruct (Z.ltb_spec v 128); [|lia].
    destruct fuel; [|done]. destruct (Z.ltb_spec v 2); [done|simpl in Hv; lia].
  - destruct fuel as [|fuel]; [simpl in Hv; lia|].
    pose proof (Z.mod_pos_bound v 128 eq_refl) as Hm. remember (S fuel) as k eqn:Ek.
    cbn [append unleb128]. rewrite byteZ_of_Z by lia. destruct (Z.ltb_spec (v `mod` 128 + 128) 128); [lia|].
    rewrite IH; [|split; [apply Z.div_pos; lia|apply Z.div_lt_upper_bound; [lia|]]|lia].
    + cbn [mbind option_bind String.length]. f_equal. f_equal.
      pose proof (Z.div_mod v 128 ltac:(lia)). lia.
    + subst k. rewrite Nat2Z.inj_succ in *. replace (Z.succ (Z.of_nat fuel) - 1)%Z with (Z.of_nat fuel) by lia.
      rewrite Z.pow_succ_r in Hv by lia. lia.
Qed.

Lemma unleb128_bounds fuel b v n :
  unleb128 fuel b = Some (v, n) -> 0 < fuel ->
  (0 <= v < 2 * 128 ^ (Z.of_nat fuel - 1))%Z /\ n <= String.length b.
Proof.
  revert b v n. induction fuel as [|fuel IH]; intros [|c b] v n; simpl; try done; try lia.
  intros H _. replace (Z.of_nat (S fuel) - 1)%Z with (Z.of_nat fuel) by lia.
  pose proof (byteZ_range c) as Hc. destruct (Z.ltb_spec (byteZ c) 128) as [Hs|Hs].
  - destruct fuel as [|fuel].
    + destruct (Z.ltb_spec (byteZ c) 2); [|done]. injection H as <- <-. simpl. lia.
    + injection H as <- <-. pose proof (Z.pow_pos_nonneg 128 (Z.of_nat fuel)).
      rewrite Nat2Z.inj_succ, Z.pow_succ_r by lia. lia.
  - destruct (unleb128 fuel b) as [[v' n']|] eqn:E; simpl in H; [|done]. injection H as <- <-.
    destruct fuel as [|fuel]; [done|].
    destruct (IH _ _ _ E ltac:(lia)) as [Hv Hn]. rewrite Nat2Z.inj_succ in *.
    replace (Z.succ (Z.of_nat fuel) - 1)%Z with (Z.of_nat fuel) in Hv by lia.
    rewrite Z.pow_succ_r by lia. split; [|lia]. lia.
Qed.

#[export, program] Instance leb128_protowire : Protowire := {|
  ConsumeVarint := unleb128 10;
  AppendVarint b v := (b ++ leb128 10 v)%string;
|}.
Next Obligation. done. Qed.
Next Obligation. intros v Hv. apply (leb128_shape 10 v); simpl; lia. Qed.
Next Obligation. intros v b Hv. apply (unleb128_leb128 10 v b); simpl; lia. Qed.
Next Obligation. intros b v n H. destruct (unleb128_bounds 10 b v n H); simpl in *; lia. Qed.

(** ** growcap *)

Definition grow_step (c : Z) : Z := (c + c `div` 4)%Z.

Lemma grow_step_mono a b : (0 <= a <= b)%Z -> (grow_step a <= grow_step b)%Z.
Proof. intros H. unfold grow_step. pose proof (Z.div_le_mono a b 4). lia. Qed.

Fixpoint grow_steps (n : nat) (c : Z) : Z :=
  match n with O => c | S n => grow_steps n (grow_step c) end.

Lemma growcap_loop_spec fuel c want low :
  (0 <= low <= c)%Z -> (c <= max_int64)%Z -> (0 <= want <= max_int64)%Z ->
  (max_int64 < grow_steps fuel low)%Z ->
  exists r, growcap_loop (S fuel) c want = Some r /\ (r <= 0 \/ want <= r <= max_int64)%Z.
Proof.
  revert c low. induction fuel as [|fuel IH]; intros c low Hlow Hc Hw Hf.
  { simpl in Hf. lia. }
  cbn [growcap_loop]. destruct (Z.ltb_spec 0 c) as [Hpos|]; [|exists c; split; [done|lia]].
  destruct (Z.ltb_spec c want) as [Hlt|]; [|exists c; split; [done|lia]].
  cbn [andb]. fold (grow_step c). destruct (Z_le_gt_dec (grow_step c) max_int64) as [Hle|Hgt].
  - rewrite wrap64_id by (unfold grow_step, min_int64 in *; pose proof (Z.div_pos c 4); lia).
    apply (IH (grow_step c) (grow_step low)); [|done|done|exact Hf].
    split; [|by apply grow_step_mono]. unfold grow_step. pose proof (Z.div_pos low 4). lia.
  - assert (Hneg : (wrap64 (grow_step c) <= 0)%Z).
    { unfold wrap64, grow_step, max_int64 in *. pose proof (Z.div_le_upper_bound c 4 (2 ^ 62)).
      assert (Hr : ((c + c `div` 4 + 2 ^ 63) `mod` 2 ^ 64 = c + c `div` 4 + 2 ^ 63 - 2 ^ 64)%Z).
      { symmetry. apply (Z.mod_unique_pos _ _ 1); lia. }
      rewrite Hr. lia. }
    exists (wrap64 (grow_step c)). split; [|by left]. destruct fuel; cbn [growcap_loop];
      (destruct (Z.ltb_spec 0 (wrap64 (grow_step c))); [lia|done]).
Qed.

Lemma growcap_enough' oldcap wantcap :
  (0 <= oldcap <= max_int64)%Z -> (0 <= wantcap <= max_int64)%Z ->
  exists c, growcap oldcap wantcap = Ok c /\ (wantcap <= c <= max_int64)%Z.
Proof.
  intros Ho Hw. unfold growcap. pose proof (wrap64_range (oldcap * 2)).
  destruct (Z.ltb_spec (wrap64 (oldcap * 2)) wantcap) as [|Hge]; [exists wantcap; split; [done|lia]|].
  destruct (Z.ltb_spec oldcap 1024) as [|Hbig]; [eexists; split; [done|lia]|].
  destruct (growcap_loop_spec 219 oldcap wantcap 1024) as (r & Hr & Hcase); [lia|lia|lia|by vm_compute|].
  unfold growcap_fuel. rewrite Hr. destruct (Z.leb_spec r 0); eexists; (split; [done|lia]).
Qed.

(** [growcap] returns, for every two ints, a capacity that is enough; the loop
    ends although its sum may wrap around, because it then stops below zero and
    the wanted capacity is taken. *)
Theorem growcap_enough oldcap wantcap :
  (0 <= oldcap <= max_int64)%Z -> (0 <= wantcap <= max_int64)%Z ->
  exists c, growcap oldcap wantcap = Ok c /\ (wantcap <= c <= max_int64)%Z.
Proof. apply growcap_enough'. Qed.

Lemma growcap_enough_witness : exists c, growcap 2000 3000 = Ok c /\ (3000 <= c <= max_int64)%Z.
Proof. apply (growcap_enough 2000 3000); unfold max_int64; lia. Defined.
