(* ===== verification/CodecSpec.v ===== *)
(** The framing of messages on a stream: what [ReadNext] of each codec reads from
    any reader, in whatever pieces the bytes come. *)

From S2P Require Import Prelude Status IO Codec.

(** ** References

    The JSON scanner on the whole text, and JSON texts as far as the scanner looks
    at them: braces, strings and everything else. *)

Inductive json_result := Found (n : nat) | NotBalanced | TooLarge | Short.

Fixpoint json_scan (n i : nat) (sc : scan) (t : string) : json_result :=
  match n, t with
  | O, _ => TooLarge
  | S _, EmptyString => Short
  | S n, String c t =>
      match scan_byte sc (byteZ c) with
      | More sc => json_scan n (S i) sc t
      | Closed => Found (S i)
      | Unbalanced => NotBalanced
      end
  end.

Definition quote_char : ascii := "034".
Definition backslash : ascii := "092".

Definition plain (c : ascii) : bool :=
  negb (Ascii.eqb c "{" || Ascii.eqb c "}" || Ascii.eqb c quote_char).

Inductive json_string : string -> Prop :=
  | json_string_end : json_string (String quote_char "")
  | json_string_char c t : c <> quote_char -> c <> backslash -> json_string t -> json_string (String c t)
  | json_string_escape c t : json_string t -> json_string (String backslash (String c t)).

Inductive json_text : string -> Prop :=
  | json_text_nil : json_text ""
  | json_text_plain c t : plain c = true -> json_text t -> json_text (String c t)
  | json_text_string u t : json_string u -> json_text t -> json_text (String quote_char (u ++ t))
  | json_text_object u t : json_text u -> json_text t -> json_text (String "{" (u ++ String "}" t)).

Section Spec.
Context `{G : GoAppend} `{W : Protowire}.

(** The bytes that [WriteNext] puts on the wire. *)
Definition proto_frame (m : string) : string := fst (CodecProto_WriteNext buffer_Write m "").

Lemma proto_frame_eq m : proto_frame m = (AppendVarint "" (Z.of_nat (String.length m)) ++ m)%string.
Proof. done. Qed.

(** ** Varints *)

Lemma str_head_app s t i c :
  str_head (str_drop i (s ++ t)) = Some c -> i < String.length s -> str_head (str_drop i s) = Some c.
Proof.
  revert i. induction s as [|d s IH]; intros [|i] H Hi; simpl in *; try lia; [done|].
  apply IH; [done|lia].
Qed.

Lemma str_forallb_head p s i c : str_forallb p s = true -> str_head (str_drop i s) = Some c -> p c = true.
Proof.
  revert i. induction s as [|d s IH]; intros i; simpl.
  - intros _. by destruct i.
  - intros [Hd Hs]%andb_true_iff. destruct i as [|i]; simpl; [by intros [= <-]|by apply IH].
Qed.

Lemma str_head_last s c t : str_head (str_drop (String.length s) (s ++ String c t)) = Some c.
Proof. by rewrite str_drop_app. Qed.

Lemma varint_loop_run init last t n i s :
  str_forallb (fun c => 128 <=? byteZ c)%Z init = true -> (byteZ last < 128)%Z ->
  stream s = (init ++ String last t)%string -> i <= String.length init < i + n ->
  buf_ok s -> no_error (src s) ->
  exists s', varint_loop n i s = (s', Ok tt) /\ stream s' = stream s /\ buf_ok s' /\
    no_error (src s') /\ String.length init < String.length (bytes s').
Proof.
  intros Hinit Hlast. revert i s. induction n as [|n IH]; intros i s Hs Hi Hok Hne; [lia|].
  cbn [varint_loop]. unfold mbind at 1, st_bind at 1. pose proof (byte_at_spec i s Hok) as H.
  destruct (byte_at i s) as [s1 [c|e|q|]]; [| |done|done].
  2:{ destruct H as (_ & _ & He). destruct (He Hne) as [_ Hshort].
      rewrite Hs, str_length_app in Hshort. simpl in Hshort. lia. }
  destruct H as (b & Hb & -> & Hlen & Hs1 & Hok1 & Hne1). specialize (Hne1 Hne).
  destruct (decide (i = String.length init)) as [->|Hlt].
  - rewrite Hs, str_head_last in Hb. injection Hb as <-.
    destruct (Z.ltb_spec (byteZ last) 128); [|lia]. exists s1. by split_and!.
  - assert (Hbig : (128 <=? byteZ b)%Z = true).
    { rewrite Hs in Hb. eapply (str_forallb_head (fun c => 128 <=? byteZ c)%Z); [exact Hinit|].
      eapply str_head_app; [exact Hb|lia]. }
    apply Z.leb_le in Hbig. destruct (Z.ltb_spec (byteZ b) 128); [lia|].
    destruct (IH (S i) s1) as (s' & -> & ? & ? & ? & ?); [congruence|lia|done|done|].
    exists s'. split_and!; [done|congruence|done..].
Qed.

Lemma app_eq_length s t u v :
  (s ++ t)%string = (u ++ v)%string -> String.length s <= String.length u ->
  exists w, u = (s ++ w)%string /\ t = (w ++ v)%string.
Proof.
  revert u. induction s as [|c s IH]; intros u H Hl.
  - exists u. by split.
  - destruct u as [|d u]; simpl in *; [lia|]. injection H as -> H.
    destruct (IH u H ltac:(lia)) as (w & -> & ->). by exists w.
Qed.

(** [growcap] gives [read_rest] a slice that is long enough. *)
Lemma read_rest_spec n s :
  buf_ok s -> (Z.of_nat (String.length (bytes s)) < n <= max_int64)%Z ->
  match read_rest n s with
  | (s', Ok n') => n' = n /\ stream s' = stream s /\ Z.of_nat (String.length (bytes s')) = n /\ buf_ok s'
  | (s', Err e) => no_error (src s) -> (Z.of_nat (String.length (stream s)) < n)%Z
  | (_, Panic _) | (_, OutOfFuel) => False
  end.
Proof.
  intros Hok Hn. unfold read_rest.
  assert (Hc : exists c, (if (Z.of_nat (cap s) <? n)%Z then growcap (Z.of_nat (cap s)) n
    else Ok (Z.of_nat (cap s)) : go Z) = Ok c /\ (n <= c)%Z).
  { destruct (Z.ltb_spec (Z.of_nat (cap s)) n) as [Hlt|]; [|eexists; split; [done|lia]].
    destruct (growcap_enough' (Z.of_nat (cap s)) n) as (c & -> & ?); [lia|lia|]. exists c. split; [done|lia]. }
  destruct Hc as (c & -> & Hc). destruct (Z.ltb_spec c n); [lia|].
  pose proof (ReadFull_spec (src s) (Z.to_nat n - String.length (bytes s))) as H'.
  destruct (ReadFull _ _) as [r [d|e|q|]]; [| |done|done].
  - destruct H' as [Hd Hl]. unfold stream, buf_ok. simpl. rewrite Hd, str_length_app.
    split_and!; [done|by rewrite str_app_assoc|lia|lia].
  - assert (Hshort : no_error (src s) -> (Z.of_nat (String.length (stream s)) < n)%Z).
    { intros Hne. specialize (H' Hne). unfold stream. rewrite str_length_app. lia. }
    by destruct e.
Qed.

Lemma read_rest_no_error n s : no_error (src s) -> no_error (src (fst (read_rest n s))).
Proof.
  intros Hn. unfold read_rest. destruct (if (_ <? n)%Z then _ else _) as [c|e|q|]; [|done..].
  destruct (c <? n)%Z; [done|]. pose proof (ReadFull_no_error (S (S (reader_size (src s)))) (src s) ""
    (Z.to_nat n - String.length (bytes s)) Hn) as H. fold (ReadFull (src s) (Z.to_nat n - String.length (bytes s))) in H.
  destruct (ReadFull _ _) as [r [d|[]|q|]]; exact H.
Qed.

Lemma buf_ok_consume n s : buf_ok s -> n <= String.length (bytes s) -> buf_ok (consume n s).
Proof. unfold buf_ok, consume. simpl. rewrite str_length_drop. lia. Qed.

Lemma CodecProto_ReadNext_frame limit s m rest :
  buf_ok s -> no_error (src s) -> (Z.of_nat (String.length m) <= max_int64)%Z ->
  (limit <= 0 \/ Z.of_nat (String.length m) <= limit)%Z ->
  stream s = (proto_frame m ++ rest)%string ->
  exists s', CodecProto_ReadNext limit s = (s', Ok (Z.of_nat (String.length m))) /\
    stream s' = (m ++ rest)%string /\ String.length m <= String.length (bytes s') /\ buf_ok s' /\ no_error (src s').
Proof.
  intros Hok Hne Hmax Hlim Hs. rewrite proto_frame_eq in Hs.
  assert (Hv : (0 <= Z.of_nat (String.length m) < 2 ^ 64)%Z) by (unfold max_int64 in *; lia).
  destruct (AppendVarint_shape _ Hv) as (init & last & Hsh & Hl & Hi & Hlast).
  assert (Hs0 : stream s = (init ++ String last (m ++ rest))%string).
  { rewrite Hs, Hsh, !str_app_assoc. done. }
  destruct (varint_loop_run init last (m ++ rest) MaxVarintLen64 0 s Hi Hlast Hs0)
    as (s1 & Hrun & Hs1 & Hok1 & Hne1 & Hlen1); [unfold MaxVarintLen64; lia|done|done|].
  unfold CodecProto_ReadNext. rewrite (st_bind_run _ _ _ _ _ Hrun), bind_get.
  set (v := AppendVarint "" (Z.of_nat (String.length m))) in *.
  assert (Hvl : String.length v = S (String.length init)) by (rewrite Hsh, str_length_app; simpl; lia).
  destruct (app_eq_length v (m ++ rest) (bytes s1) (reader_data (src s1))) as (w & Hb & Hw).
  { fold (stream s1). rewrite Hs1, Hs. by rewrite str_app_assoc. }
  { lia. }
  rewrite Hb. unfold v. rewrite ConsumeVarint_append by done. fold v.
  rewrite wrap64_id by (unfold min_int64; lia).
  assert (Hlimit : ((0 <? limit) && (limit <? Z.of_nat (String.length m)))%Z = false).
  { destruct (Z.ltb_spec 0 limit), (Z.ltb_spec limit (Z.of_nat (String.length m))); simpl; try done; lia. }
  rewrite Hlimit. rewrite bind_modify, bind_get.
  set (s2 := consume (String.length v) s1).
  assert (Hs2 : stream s2 = (m ++ rest)%string).
  { unfold s2, stream, consume. simpl. rewrite Hb, str_drop_app. by rewrite Hw. }
  assert (Hok2 : buf_ok s2) by (apply buf_ok_consume; [done|rewrite Hb, str_length_app; lia]).
  destruct (Z.ltb_spec (Z.of_nat (String.length (bytes s2))) (Z.of_nat (String.length m))) as [Hlt|Hge].
  - pose proof (read_rest_spec (Z.of_nat (String.length m)) s2 Hok2 ltac:(lia)) as H.
    pose proof (read_rest_no_error (Z.of_nat (String.length m)) s2 Hne1) as Hne2.
    destruct (read_rest _ s2) as [s' [n'|e|q|]]; [| |done|done].
    + destruct H as (-> & Hst & Hlen & Hok'). exists s'. split_and!; [done|congruence|lia|done|done].
    + specialize (H Hne1). rewrite Hs2, str_length_app in H. lia.
  - exists s2. split_and!; [done|done|lia|done|done].
Qed.

(** [ReadNext] on any reader. *)
Lemma varint_loop_safe n i s :
  buf_ok s ->
  match varint_loop n i s with
  | (s', Ok _) => buf_ok s'
  | (_, Err _) => True
  | (_, Panic _) | (_, OutOfFuel) => False
  end.
Proof.
  revert i s. induction n as [|n IH]; intros i s Hok; [done|].
  cbn [varint_loop]. unfold mbind, st_bind. pose proof (byte_at_spec i s Hok) as H.
  destruct (byte_at i s) as [s1 [c|e|q|]]; try done.
  destruct H as (b & _ & _ & _ & _ & Hok1 & _). destruct (c <? 128)%Z; [done|by apply IH].
Qed.

(** ** JSON *)

Lemma json_loop_spec n i sc limit s t :
  buf_ok s -> no_error (src s) -> t = str_drop i (stream s) -> i <= String.length (stream s) ->
  match json_scan n i sc t with
  | Found k => exists s', json_loop n i sc limit s = (s', Ok (Z.of_nat k)) /\ stream s' = stream s /\
      k <= String.length (bytes s') /\ buf_ok s' /\ no_error (src s')
  | NotBalanced => exists s', json_loop n i sc limit s = (s', Err (Errorf "unbalanced braces" []))
  | TooLarge => exists s' size, json_loop n i sc limit s = (s', Err (SizeTooLargeError size limit))
  | Short => exists s', json_loop n i sc limit s = (s', Err EOF)
  end.
Proof.
  revert i sc s t. induction n as [|n IH]; intros i sc s t Hok Hne Ht Hi; [by eexists _, _|].
  cbn [json_scan json_loop]. unfold mbind, st_bind.
  pose proof (byte_at_spec i s Hok) as H. destruct (byte_at i s) as [s1 [c|e|q|]]; [| |done|done].
  2:{ destruct H as (_ & _ & He). destruct (He Hne) as [-> Hl].
      rewrite str_drop_ge in Ht by lia. subst t. by eexists. }
  destruct H as (b & Hb & -> & Hlen & Hs1 & Hok1 & Hne1). specialize (Hne1 Hne).
  rewrite <-Ht in Hb. destruct t as [|b' t]; [done|]. injection Hb as ->.
  assert (Ht' : t = str_drop (S i) (stream s1)).
  { rewrite Hs1, <-Nat.add_1_r, <-str_drop_drop, <-Ht. simpl. by rewrite ?str_drop_0. }
  assert (Hi' : S i <= String.length (stream s1)).
  { apply (f_equal String.length) in Ht. rewrite str_length_drop in Ht. simpl in Ht. rewrite Hs1. lia. }
  destruct (scan_byte sc (byteZ b)) as [sc'| |].
  - specialize (IH (S i) sc' s1 t Hok1 Hne1 Ht' Hi'). by rewrite Hs1 in IH.
  - exists s1. split_and!; [done|done|lia|done|done].
  - by exists s1.
Qed.

(** The scanner passes over a balanced text and over a string. *)
Lemma json_scan_string d u n i t :
  json_string u -> String.length u <= n ->
  json_scan n i (Scan d true false) (u ++ t) =
    json_scan (n - String.length u) (i + String.length u) (Scan d false false) t.
Proof.
  intros Hu. revert n i. induction Hu as [|c u Hq Hb Hu IH|c u Hu IH]; intros [|n] i Hn; simpl in Hn; try lia.
  - cbn [append json_scan]. change (scan_byte _ _) with (More (Scan d false false)). simpl.
    rewrite Nat.sub_0_r. f_equal. lia.
  - cbn [append json_scan].
    assert (scan_byte (Scan d true false) (byteZ c) = More (Scan d true false)) as ->.
    { unfold scan_byte. simpl. change 92%Z with (byteZ backslash). change 34%Z with (byteZ quote_char).
      destruct (Z.eqb_spec (byteZ c) (byteZ backslash)) as [?%byteZ_inj|_]; [done|].
      by destruct (Z.eqb_spec (byteZ c) (byteZ quote_char)) as [?%byteZ_inj|_]. }
    cbv beta iota. rewrite IH by lia. simpl. f_equal; lia.
  - destruct n as [|n]; [lia|]. cbn [append json_scan].
    change (scan_byte (Scan d true false) (byteZ backslash)) with (More (Scan d true true)). cbn [json_scan].
    change (scan_byte (Scan d true true) (byteZ c)) with (More (Scan d true false)).
    cbv beta iota. rewrite IH by lia. simpl. f_equal; lia.
Qed.

Lemma scan_plain d c : plain c = true -> scan_byte (Scan d false false) (byteZ c) = More (Scan d false false).
Proof.
  unfold plain. rewrite negb_true_iff, !orb_false_iff, !Ascii.eqb_neq. intros [[H1 H2] H3].
  unfold scan_byte. simpl. change 123%Z with (byteZ "{"). change 125%Z with (byteZ "}").
  change 34%Z with (byteZ quote_char).
  destruct (Z.eqb_spec (byteZ c) (byteZ "{")) as [?%byteZ_inj|_]; [done|].
  destruct (Z.eqb_spec (byteZ c) (byteZ "}")) as [?%byteZ_inj|_]; [done|].
  by destruct (Z.eqb_spec (byteZ c) (byteZ quote_char)) as [?%byteZ_inj|_].
Qed.

Lemma scan_close d : (1 < d)%Z -> scan_byte (Scan d false false) (byteZ "}") = More (Scan (d - 1) false false).
Proof.
  intros Hd. unfold scan_byte. simpl. destruct (Z.eqb_spec (d - 1) 0); [lia|].
  by destruct (Z.ltb_spec (d - 1) 0); [lia|].
Qed.

Lemma json_scan_text d u n i t :
  json_text u -> (1 <= d)%Z -> String.length u <= n ->
  json_scan n i (Scan d false false) (u ++ t) =
    json_scan (n - String.length u) (i + String.length u) (Scan d false false) t.
Proof.
  intros Hu. revert d n i t. induction Hu as [|c u Hc Hu IH|q u Hq Hu IH|v u Hv IHv Hu IH]; intros d n i t Hd Hn.
  - simpl. by rewrite Nat.sub_0_r, Nat.add_0_r.
  - destruct n as [|n]; simpl in Hn; [lia|]. cbn [append json_scan]. rewrite scan_plain by done.
    cbv beta iota. rewrite IH by (done || lia). simpl. f_equal; lia.
  - destruct n as [|n]; simpl in Hn; [lia|]. rewrite str_length_app in Hn. cbn [append json_scan].
    change (scan_byte (Scan d false false) (byteZ quote_char)) with (More (Scan d true false)).
    cbv beta iota. rewrite str_app_assoc, json_scan_string by (done || lia). rewrite IH by (done || lia).
    simpl. rewrite str_length_app. f_equal; lia.
  - destruct n as [|n]; simpl in Hn; [lia|]. rewrite str_length_app in Hn. simpl in Hn. cbn [append json_scan].
    change (scan_byte (Scan d false false) (byteZ "{")) with (More (Scan (d + 1) false false)).
    cbv beta iota. rewrite str_app_assoc, IHv by lia. destruct (n - String.length v) as [|n'] eqn:En; [lia|].
    cbn [append json_scan]. rewrite scan_close by lia. cbv beta iota. replace (d + 1 - 1)%Z with d by lia.
    rewrite IH by lia. simpl. rewrite str_length_app. simpl. f_equal; lia.
Qed.

Lemma json_scan_object pre u rest n i :
  str_forallb plain pre = true -> json_text u ->
  String.length pre + String.length u + 2 <= n ->
  json_scan n i scan_start (pre ++ String "{" (u ++ String "}" rest)) =
    Found (i + (String.length pre + String.length u + 2)).
Proof.
  intros Hpre Hu. change scan_start with (Scan 0 false false). revert Hpre n i.
  induction pre as [|c pre IH]; simpl; intros Hpre n i Hn.
  - destruct n as [|n]; [lia|]. cbn [json_scan].
    change (scan_byte (Scan 0 false false) (byteZ "{")) with (More (Scan 1 false false)).
    cbv beta iota. rewrite json_scan_text by (done || lia). destruct (n - String.length u) as [|n'] eqn:E; [lia|].
    cbn [json_scan]. change (scan_byte (Scan 1 false false) (byteZ "}")) with Closed. cbv beta iota.
    f_equal. lia.
  - apply andb_true_iff in Hpre as [Hc Hpre]. destruct n as [|n]; [lia|]. cbn [json_scan].
    rewrite scan_plain by done. cbv beta iota. rewrite IH by (done || lia). f_equal. lia.
Qed.

(** ** codecHTTPBody *)

Lemma body_loop_spec fuel limit total s :
  buf_ok s -> reader_size (src s) < fuel -> (0 <= total <= limit)%Z ->
  exists s' n e, body_loop fuel limit total s = (s', Ok (n, e)) /\
    stream s' = stream s /\ buf_ok s' /\ String.length (bytes s) <= String.length (bytes s') /\
    n = Z.min limit (total + Z.of_nat (String.length (bytes s') - String.length (bytes s))) /\
    (e = None -> n = limit).
Proof.
  revert total s. induction fuel as [|fuel IH]; intros total s Hok Hf Ht; [lia|]. cbn [body_loop].
  destruct (read_some s) as [s1 e] eqn:E.
  destruct (read_some_spec _ _ _ Hok E) as (Hs & Hok1 & Hl & _ & Hdec & _).
  set (t1 := (total + Z.of_nat (String.length (bytes s1) - String.length (bytes s)))%Z).
  set (t := if (limit <? t1)%Z then limit else t1).
  assert (Ht' : t = Z.min limit t1) by (unfold t; destruct (Z.ltb_spec limit t1); lia).
  destruct e as [e|].
  - exists s1, t, (Some e). split_and!; [done..|].  done.
  - destruct (Z.eqb_spec t limit) as [Heq|Hne].
    + exists s1, t, None. split_and!; done.
    + destruct (IH t s1 Hok1) as (s' & n & e & -> & ? & ? & ? & -> & ?).
      * specialize (Hdec eq_refl). lia.
      * unfold t1 in *. lia.
      * exists s', (Z.min limit (t + Z.of_nat (String.length (bytes s') - String.length (bytes s1)))), e.
        split_and!; [done|congruence|done|lia| |done]. unfold t1 in *. lia.
Qed.
End Spec.

(** ** The theorems *)

Section Theorems.
Context `{G : GoAppend} `{W : Protowire}.

(** Protobuf frames round trip over any stream: when what the buffer and the
    reader hold starts with what [WriteNext] wrote for [m], [ReadNext] returns the
    length of [m], the message is the first bytes of the buffer, and what follows
    is left in the buffer and the reader, however the reader cuts the bytes. *)
Theorem proto_frame_roundtrip limit s m rest :
  buf_ok s -> no_error (src s) -> (Z.of_nat (String.length m) <= max_int64)%Z ->
  (limit <= 0 \/ Z.of_nat (String.length m) <= limit)%Z ->
  stream s = (fst (CodecProto_WriteNext buffer_Write m "") ++ rest)%string ->
  exists s', CodecProto_ReadNext limit s = (s', Ok (Z.of_nat (String.length m))) /\
    str_take (String.length m) (bytes s') = m /\ stream s' = (m ++ rest)%string.
Proof.
  intros Hok Hne Hmax Hlim Hs.
  destruct (CodecProto_ReadNext_frame limit s m rest Hok Hne Hmax Hlim Hs) as (s' & E & Hs' & Hl & _).
  exists s'. split_and!; [done| |done].
  destruct (app_eq_length m rest (bytes s') (reader_data (src s'))) as (w & -> & _); [by rewrite <-Hs'|done|].
  apply str_take_app.
Qed.

(** Whatever the reader answers, the protobuf [ReadNext] returns: no slice is
    out of range and no loop runs on; a length it returns is at most what the
    buffer holds. *)
Theorem proto_read_safe limit s :
  buf_ok s ->
  (exists s' n, CodecProto_ReadNext limit s = (s', Ok n) /\ (n <= Z.of_nat (String.length (bytes s')))%Z /\ buf_ok s') \/
  (exists s' e, CodecProto_ReadNext limit s = (s', Err e)).
Proof.
  intros Hok. unfold CodecProto_ReadNext. pose proof (varint_loop_safe MaxVarintLen64 0 s Hok) as H.
  destruct (varint_loop MaxVarintLen64 0 s) as [s1 [u|e|q|]] eqn:E; [| |done|done].
  2:{ right. rewrite (st_bind_err _ _ _ _ _ E). by eexists _, _. }
  rewrite (st_bind_run _ _ _ _ _ E).
  rewrite bind_get.
  destruct (ConsumeVarint (bytes s1)) as [[v n]|] eqn:Ev; [|right; eexists _, _; reflexivity].
  apply ConsumeVarint_bounds in Ev as [_ Hn].
  destruct (_ && _); [right; eexists _, _; reflexivity|].
  rewrite bind_modify, bind_get.
  pose proof (buf_ok_consume n s1 H Hn) as Hok2. pose proof (wrap64_range v).
  destruct (Z.ltb_spec (Z.of_nat (String.length (bytes (consume n s1)))) (wrap64 v)).
  - pose proof (read_rest_spec (wrap64 v) _ Hok2 ltac:(lia)) as Hr.
    destruct (read_rest _ _) as [s' [n'|e|q|]]; [left|right; eexists _, _; reflexivity|done|done].
    destruct Hr as (-> & _ & ? & ?). eexists _, _. split_and!; [done|lia|done].
  - left. eexists _, _. split_and!; [done|lia|done].
Qed.

(** JSON objects are framed as they come: an object of balanced braces, whose
    strings may hold braces and escaped quotes, after text without any, is found
    to its last brace, in whatever pieces the reader delivers it; what follows is
    kept. *)
Theorem json_frame limit s pre u rest :
  buf_ok s -> no_error (src s) -> str_forallb plain pre = true -> json_text u ->
  (Z.of_nat (String.length pre + String.length u + 2) <= limit)%Z ->
  stream s = (pre ++ String "{" (u ++ String "}" rest))%string ->
  exists s', CodecJSON_ReadNext limit s = (s', Ok (Z.of_nat (String.length pre + String.length u + 2))) /\
    stream s' = stream s /\ String.length pre + String.length u + 2 <= String.length (bytes s').
Proof.
  intros Hok Hne Hpre Hu Hl Hs. unfold CodecJSON_ReadNext.
  pose proof (json_loop_spec (Z.to_nat limit) 0 scan_start limit s (stream s) Hok Hne) as H.
  rewrite str_drop_0 in H. specialize (H eq_refl ltac:(lia)).
  rewrite Hs, json_scan_object in H by (done || lia). rewrite <-Hs in H.
  destruct H as (s' & ? & ? & ? & _). by exists s'.
Qed.

(** The JSON [ReadNext] is the scanner of the whole stream: the pieces in which
    the bytes arrive change neither the length found nor the error. *)
Theorem json_read_refines limit s :
  buf_ok s -> no_error (src s) ->
  match json_scan (Z.to_nat limit) 0 scan_start (stream s) with
  | Found k => exists s', CodecJSON_ReadNext limit s = (s', Ok (Z.of_nat k)) /\ stream s' = stream s /\
      k <= String.length (bytes s')
  | NotBalanced => exists s', CodecJSON_ReadNext limit s = (s', Err (Errorf "unbalanced braces" []))
  | TooLarge => exists s' size, CodecJSON_ReadNext limit s = (s', Err (SizeTooLargeError size limit))
  | Short => exists s', CodecJSON_ReadNext limit s = (s', Err EOF)
  end.
Proof.
  intros Hok Hne. pose proof (json_loop_spec (Z.to_nat limit) 0 scan_start limit s (stream s) Hok Hne) as H.
  rewrite str_drop_0 in H. specialize (H eq_refl ltac:(lia)). unfold CodecJSON_ReadNext.
  destruct (json_scan _ _ _ _); [|exact H..]. destruct H as (s' & ? & ? & ? & _). by exists s'.
Qed.

(** The body codec reads until the limit or an error: it ends, loses no byte, and
    returns the smaller of the limit and the bytes it read. *)
Theorem body_read limit s :
  buf_ok s -> (0 <= limit)%Z ->
  exists s' n e, codecHTTPBody_ReadNext limit s = (s', Ok (n, e)) /\ stream s' = stream s /\
    String.length (bytes s) <= String.length (bytes s') /\
    n = Z.min limit (Z.of_nat (String.length (bytes s') - String.length (bytes s))) /\ (e = None -> n = limit).
Proof.
  intros Hok Hl. destruct (body_loop_spec (S (reader_size (src s))) limit 0 s Hok ltac:(lia) ltac:(lia))
    as (s' & n & e & H & ? & ? & ? & Hn & ?). exists s', n, e. by split_and!.
Qed.

(** A varint of 2^63 or more passes the size check, because [int(size)] is
    negative, and the negative length is returned to a caller that slices with it. *)
Theorem proto_negative_length v rest limit :
  (2 ^ 63 <= v < 2 ^ 64)%Z -> (0 < limit)%Z ->
  exists s', CodecProto_ReadNext limit (RBuf (AppendVarint "" v ++ rest) (String.length (AppendVarint "" v ++ rest)) [])
    = (s', Ok (v - 2 ^ 64)%Z).
Proof.
  intros Hv Hlim. set (b := (AppendVarint "" v ++ rest)%string).
  destruct (AppendVarint_shape v ltac:(lia)) as (init & last & Hsh & Hl & Hi & Hlast).
  set (s := RBuf b (String.length b) []).
  assert (Hs : stream s = (init ++ String last rest)%string).
  { unfold stream, s, b. simpl. rewrite str_app_nil_r, Hsh. exact (str_app_assoc init (String last "") rest). }
  destruct (varint_loop_run init last rest MaxVarintLen64 0 s Hi Hlast Hs)
    as (s1 & Hrun & Hs1 & _ & _ & Hlen1); [unfold MaxVarintLen64; lia|apply Nat.le_refl|constructor|].
  assert (Hb : exists w, bytes s1 = (AppendVarint "" v ++ w)%string).
  { destruct (app_eq_length (AppendVarint "" v) rest (bytes s1) (reader_data (src s1))) as (w & -> & _); [| |by exists w].
    - fold (stream s1). rewrite Hs1, Hs, Hsh. exact (str_app_assoc init (String last "") rest).
    - rewrite Hsh, str_length_app. simpl. lia. }
  destruct Hb as [w Hb]. unfold CodecProto_ReadNext. rewrite (st_bind_run _ _ _ _ _ Hrun), bind_get, Hb.
  rewrite ConsumeVarint_append by lia.
  assert (Hw : wrap64 v = (v - 2 ^ 64)%Z).
  { unfold wrap64. rewrite <-(Z.mod_unique_pos (v + 2 ^ 63) (2 ^ 64) 1 (v + 2 ^ 63 - 2 ^ 64)); lia. }
  rewrite Hw. destruct (Z.ltb_spec 0 limit), (Z.ltb_spec limit (v - 2 ^ 64)); simpl; try lia.
  rewrite bind_modify, bind_get.
  match goal with |- context [Z.ltb ?a ?b] => destruct (Z.ltb_spec a b); [lia|] end. by eexists.
Qed.
End Theorems.

(** ** Witnesses *)

Definition hello : string := "hello".
Definition three_pieces : reader :=
  [Chunk (String "005" "he") None; Chunk "" None; Chunk "llo wo" None; Chunk "rld" None].

Lemma proto_frame_roundtrip_witness :
  exists s', CodecProto_ReadNext 100 (RBuf "" 0 three_pieces) = (s', Ok 5%Z) /\
    str_take 5 (bytes s') = hello /\ stream s' = (hello ++ " world")%string.
Proof.
  apply (proto_frame_roundtrip 100 (RBuf "" 0 three_pieces) hello " world");
    [unfold buf_ok; simpl; lia|by repeat constructor|unfold max_int64; simpl; lia|right; simpl; lia|reflexivity].
Defined.

Lemma proto_read_safe_witness :
  (exists s' n, CodecProto_ReadNext 100 (RBuf "" 0 [Chunk "" (Some EOF)]) = (s', Ok n) /\
     (n <= Z.of_nat (String.length (bytes s')))%Z /\ buf_ok s') \/
  (exists s' e, CodecProto_ReadNext 100 (RBuf "" 0 [Chunk "" (Some EOF)]) = (s', Err e)).
Proof. apply proto_read_safe. unfold buf_ok. simpl. lia. Defined.

Definition json_pieces : reader := [Chunk " {" None; Chunk "a{}b" None; Chunk "} {" None].

Lemma json_frame_witness :
  exists s', CodecJSON_ReadNext 100 (RBuf "" 0 json_pieces) = (s', Ok 7%Z) /\
    stream s' = stream (RBuf "" 0 json_pieces) /\ 7 <= String.length (bytes s').
Proof.
  apply (json_frame 100 (RBuf "" 0 json_pieces) " " "a{}b" " {");
    [unfold buf_ok; simpl; lia|by repeat constructor|reflexivity| |simpl; lia|reflexivity].
  apply (json_text_plain "a" "{}b"); [done|]. apply (json_text_object "" "b"); [constructor|].
  apply (json_text_plain "b" ""); [done|constructor].
Defined.

Lemma json_read_refines_witness :
  exists s', CodecJSON_ReadNext 100 (RBuf "" 0 json_pieces) = (s', Ok 7%Z) /\
    stream s' = stream (RBuf "" 0 json_pieces) /\ 7 <= String.length (bytes s').
Proof.
  apply (json_read_refines 100 (RBuf "" 0 json_pieces)); [unfold buf_ok; simpl; lia|by repeat constructor].
Defined.

Lemma body_read_witness :
  exists s' n e, codecHTTPBody_ReadNext 4 (RBuf "" 0 json_pieces) = (s', Ok (n, e)) /\
    stream s' = stream (RBuf "" 0 json_pieces) /\ 0 <= String.length (bytes s') /\
    n = Z.min 4 (Z.of_nat (String.length (bytes s') - 0)) /\ (e = None -> n = 4%Z).
Proof. apply (body_read 4 (RBuf "" 0 json_pieces)); [unfold buf_ok; simpl; lia|lia]. Defined.

Lemma proto_negative_length_witness :
  exists s', CodecProto_ReadNext 100
    (RBuf (AppendVarint "" (2 ^ 64 - 1) ++ "x") (String.length (AppendVarint "" (2 ^ 64 - 1) ++ "x")) [])
    = (s', Ok (2 ^ 64 - 1 - 2 ^ 64)%Z).
Proof. apply proto_negative_length; lia. Defined.
