(* ===== verification/Lexer.v ===== *)
(** The lexer of larking/lexer.go: its tokens, its cursor over the input and one
    definition per lexing function, in the state-and-error monad of the
    prelude.  LexerSpec.v holds the grammar and the correctness theorems. *)

From S2P Require Import Prelude Status Runes.

(** ** Tokens *)

Inductive tokenType :=
  | tokenError
  | tokenSlash
  | tokenStar
  | tokenStarStar
  | tokenVariableStart
  | tokenVariableEnd
  | tokenEqual
  | tokenIdent
  | tokenLiteral
  | tokenDot
  | tokenVerb
  | tokenPath
  | tokenEOF.

#[export] Instance tokenType_eq_dec : EqDecision tokenType.
Proof. solve_decision. Defined.

(** [tokenError] is 0; the others are [1 << iota], with [iota] counting from 1. *)
Definition tokenType_code (t : tokenType) : Z :=
  match t with
  | tokenError => 0
  | tokenSlash => 2
  | tokenStar => 4
  | tokenStarStar => 8
  | tokenVariableStart => 16
  | tokenVariableEnd => 32
  | tokenEqual => 64
  | tokenIdent => 128
  | tokenLiteral => 256
  | tokenDot => 512
  | tokenVerb => 1024
  | tokenPath => 2048
  | tokenEOF => 4096
  end%Z.

Record token := Token { typ : tokenType; val : string }.

#[export] Instance token_eq_dec : EqDecision token.
Proof. solve_decision. Defined.

(** [tokens.String] *)
Definition tokens_String (toks : list token) : string := str_concat (val <$> toks).

(** [tokens.index] and [tokens.indexAny]: the first position, or none for -1. *)
Fixpoint tokens_index (toks : list token) (t : tokenType) : option nat :=
  match toks with
  | [] => None
  | tok :: toks =>
      if decide (typ tok = t) then Some 0 else S <$> tokens_index toks t
  end.

Fixpoint tokens_indexAny (toks : list token) (s : Z) : option nat :=
  match toks with
  | [] => None
  | tok :: toks =>
      if (Z.land s (tokenType_code (typ tok)) =? 0)%Z
      then S <$> tokens_indexAny toks s else Some 0
  end.

(** ** The lexer's state

    [toks] and [len] of the code are one list, the prefix [l.toks[:l.len]]. *)

Definition max_tokens : nat := 64.

Record lexer := Lexer {
  input : string;
  toks : list token;
  start : nat;
  pos : nat;
  width : nat;
}.

Definition new_lexer (input : string) : lexer := Lexer input [] 0 0 0.

Definition set_pos (p w : nat) (l : lexer) : lexer :=
  Lexer (input l) (toks l) (start l) p w.

Abbreviation lex A := (st lexer error A).

Definition eof : Z := (-1)%Z.

Definition rune_is (c : ascii) (r : Z) : bool := (r =? byteZ c)%Z.

Definition next : lex Z := fun l =>
  if (String.length (input l) <=? pos l)%nat
  then (set_pos (pos l) 0 l, Ok eof)
  else let '(r, w) := DecodeRune (str_drop (pos l) (input l)) in
       (set_pos (pos l + w) w l, Ok r).

Definition current (l : lexer) : Z :=
  if (width l =? 0)%nat then 0%Z
  else if (width l <? pos l)%nat
  then fst (DecodeRune (str_drop (pos l - width l) (input l)))
  else fst (DecodeRune (input l)).

Definition backup : lex unit := modify (fun l => set_pos (pos l - width l) (width l) l).

(** The loop of [acceptRun] reads at least one byte of the input at each turn. *)
Fixpoint acceptRun_loop (fuel : nat) (isValid : Z -> bool) (i : nat) : lex nat :=
  match fuel with
  | O => stuck
  | S fuel =>
      r ← next;
      if isValid r then acceptRun_loop fuel isValid (S i) else mret i
  end.

Definition acceptRun (isValid : Z -> bool) : lex nat :=
  l ← get;
  i ← acceptRun_loop (S (String.length (input l) - pos l)) isValid 0;
  backup;; mret i.

Definition errTokenLimit : error :=
  StatusError codes.InvalidArgument "path: too many tokens" [].

Definition emit (t : tokenType) : lex unit := fun l =>
  if (max_tokens <=? length (toks l))%nat then (l, Err errTokenLimit)
  else if (start l <=? pos l) && (pos l <=? String.length (input l))
  then (Lexer (input l) (toks l ++ [Token t (str_slice (start l) (pos l) (input l))])
              (pos l) (pos l) (width l), Ok tt)
  else (l, Panic SliceOutOfRange).

Definition lexError {A} (fmt : string) : lex A :=
  emit tokenError;;
  l ← get;
  throw (StatusError codes.InvalidArgument fmt
    [AInt (Z.of_nat (pos l - width l)); AInt (Z.of_nat (pos l)); ARune (current l)]).

Definition errUnexpected {A} : lex A := lexError "path: %v:%v unexpected rune %q".
Definition errShort {A} : lex A := lexError "path: %v:%v short read %q".

Section Lex.
Context `{U : Unicode}.

Definition isIdent (r : Z) : bool :=
  IsLetter r || IsNumber r || rune_is "_" r || rune_is "-" r.

Definition isLiteral (r : Z) : bool := isIdent r || rune_is "." r.

Definition isPath (r : Z) : bool :=
  isLiteral r || rune_is "~" r || rune_is "!" r || rune_is "$" r || rune_is "&" r ||
  rune_is "'" r || rune_is "(" r || rune_is ")" r || rune_is "*" r || rune_is "+" r ||
  rune_is "," r || rune_is ";" r || rune_is "=" r || rune_is "@" r.

Definition lexRun (isValid : Z -> bool) (t : tokenType) : lex unit :=
  i ← acceptRun isValid;
  if (i =? 0)%nat then errShort else emit t.

Definition lexIdent : lex unit := lexRun isIdent tokenIdent.
Definition lexLiteral : lex unit := lexRun isLiteral tokenLiteral.
Definition lexPathSegment : lex unit := lexRun isPath tokenPath.

(** The [for] loop of [lexFieldPath], after the first identifier. *)
Fixpoint lexFieldPath_loop (fuel : nat) : lex unit :=
  match fuel with
  | O => stuck
  | S fuel =>
      r ← next;
      if negb (rune_is "." r) then backup
      else emit tokenDot;; lexIdent;; lexFieldPath_loop fuel
  end.

Definition lexFieldPath : lex unit :=
  lexIdent;;
  l ← get;
  lexFieldPath_loop (S (String.length (input l) - pos l)).

Definition lexVerb : lex unit :=
  lexLiteral;;
  r ← next;
  if (r =? eof)%Z then emit tokenEOF else errUnexpected.

(** [lexVariable] and [lexSegment] call [lexSegments], the parameter, on a
    shorter rest of the input. *)
Definition lexVariable (lexSegments : lex unit) : lex unit :=
  r ← next;
  if negb (rune_is "{" r) then errUnexpected else
  emit tokenVariableStart;;
  lexFieldPath;;
  r ← next;
  r ← (if rune_is "=" r then emit tokenEqual;; lexSegments;; next else mret r);
  if negb (rune_is "}" r) then errUnexpected else emit tokenVariableEnd.

Definition lexSegment (lexSegments : lex unit) : lex unit :=
  r ← next;
  if IsLetter r then lexLiteral
  else if rune_is "*" r then
    rn ← next;
    if rune_is "*" rn then emit tokenStarStar
    else backup;; emit tokenStar
  else if rune_is "{" r then backup;; lexVariable lexSegments
  else errUnexpected.

Fixpoint lexSegments_fuel (fuel : nat) : lex unit :=
  match fuel with
  | O => stuck
  | S fuel =>
      lexSegment (lexSegments_fuel fuel);;
      r ← next;
      if negb (rune_is "/" r) then backup
      else emit tokenSlash;; lexSegments_fuel fuel
  end.

Definition lexSegments : lex unit :=
  l ← get;
  lexSegments_fuel (S (String.length (input l) - pos l)).

Definition lexTemplate : lex unit :=
  r ← next;
  if negb (rune_is "/" r) then errUnexpected else
  emit tokenSlash;;
  lexSegments;;
  r ← next;
  if rune_is ":" r then emit tokenVerb;; lexVerb
  else if (r =? eof)%Z then emit tokenEOF
  else errUnexpected.

Fixpoint lexPath_fuel (fuel : nat) : lex unit :=
  match fuel with
  | O => stuck
  | S fuel =>
      r ← next;
      if rune_is "/" r then emit tokenSlash;; lexPathSegment;; lexPath_fuel fuel
      else if rune_is ":" r then emit tokenVerb;; lexPathSegment;; lexPath_fuel fuel
      else if (r =? eof)%Z then emit tokenEOF
      else errUnexpected
  end.

Definition lexPath : lex unit :=
  l ← get;
  lexPath_fuel (S (String.length (input l) - pos l)).

(** The two entry points on a fresh lexer, with the tokens they leave. *)
Definition run_lexer (f : lex unit) (s : string) : go (list token) :=
  match f (new_lexer s) with
  | (l, Ok _) => Ok (toks l)
  | (_, Err e) => Err e
  | (_, Panic p) => Panic p
  | (_, OutOfFuel) => OutOfFuel
  end.
End Lex.
