(* ===== verification/LexerSpec.v ===== *)
(** The grammar of larking/lexer.go, as inductive predicates on token lists, and
    the correctness of the lexer for it: a string is accepted exactly when it is
    the text of a token list of the grammar of at most 64 tokens, and the lexer
    returns those tokens. *)

From S2P Require Import Prelude Status Runes Lexer.

(** ** The grammar *)

Section Grammar.
Context `{U : Unicode}.

(** A nonempty run of runes of a class. *)
Definition word (p : Z -> bool) (v : string) : Prop :=
  v <> "" /\ Forall (fun r => p r = true) (runes v).

(** A literal segment starts with a letter, and [lexSegment] has already
    consumed it when [lexLiteral] wants at least one rune more. *)
Definition segment_literal (v : string) : Prop :=
  exists r rs, runes v = r :: rs /\ IsLetter r = true /\ rs <> [] /\
    Forall (fun r => isLiteral r = true) rs.

Inductive FieldPath : list token -> Prop :=
  | FieldPath_one v : word isIdent v -> FieldPath [Token tokenIdent v]
  | FieldPath_dot v ts : word isIdent v -> FieldPath ts ->
      FieldPath (Token tokenIdent v :: Token tokenDot "." :: ts).

Inductive Segment : list token -> Prop :=
  | Segment_star : Segment [Token tokenStar "*"]
  | Segment_starstar : Segment [Token tokenStarStar "**"]
  | Segment_literal v : segment_literal v -> Segment [Token tokenLiteral v]
  | Segment_variable ts : Variable_ ts -> Segment ts
with Segments : list token -> Prop :=
  | Segments_one ts : Segment ts -> Segments ts
  | Segments_slash ts1 ts2 : Segment ts1 -> Segments ts2 ->
      Segments (ts1 ++ Token tokenSlash "/" :: ts2)
with Variable_ : list token -> Prop :=
  | Variable_default ts : FieldPath ts ->
      Variable_ (Token tokenVariableStart "{" :: ts ++ [Token tokenVariableEnd "}"])
  | Variable_equal ts ts' : FieldPath ts -> Segments ts' ->
      Variable_ (Token tokenVariableStart "{" :: ts ++
                 Token tokenEqual "=" :: ts' ++ [Token tokenVariableEnd "}"]).

Inductive Template : list token -> Prop :=
  | Template_plain ts : Segments ts ->
      Template (Token tokenSlash "/" :: ts ++ [Token tokenEOF ""])
  | Template_verb ts v : Segments ts -> word isLiteral v ->
      Template (Token tokenSlash "/" :: ts ++
                [Token tokenVerb ":"; Token tokenLiteral v; Token tokenEOF ""]).

(** A request path: each part follows a slash or a colon. *)
Inductive RequestPath : list token -> Prop :=
  | RequestPath_eof : RequestPath [Token tokenEOF ""]
  | RequestPath_slash v ts : word isPath v -> RequestPath ts ->
      RequestPath (Token tokenSlash "/" :: Token tokenPath v :: ts)
  | RequestPath_verb v ts : word isPath v -> RequestPath ts ->
      RequestPath (Token tokenVerb ":" :: Token tokenPath v :: ts).
End Grammar.

Scheme Segment_mut := Minimality for Segment Sort Prop
  with Segments_mut := Minimality for Segments Sort Prop
  with Variable_mut := Minimality for Variable_ Sort Prop.
Combined Scheme grammar_mut from Segment_mut, Segments_mut, Variable_mut.

(** ** The position of the lexer

    [at_ l ts cur rest]: the tokens emitted so far are [ts], their text is the
    part of the input before [start], [cur] is the pending text up to [pos] and
    [rest] is what is left. *)

Definition at_ (l : lexer) (ts : list token) (cur rest : string) : Prop :=
  toks l = ts /\
  input l = (tokens_String ts ++ cur ++ rest)%string /\
  start l = String.length (tokens_String ts) /\
  pos l = start l + String.length cur /\
  length ts <= max_tokens.

(** The errors the lexer returns are all [InvalidArgument] statuses. *)
Definition lex_error (e : error) : Prop :=
  exists fmt args, e = StatusError codes.InvalidArgument fmt args.

(** ** Runes of a string *)

Lemma runes_fuel_enough n m s :
  String.length s <= n -> String.length s <= m -> runes_fuel n s = runes_fuel m s.
Proof.
  revert m s. induction n as [|n IH]; intros m s Hn Hm.
  { destruct s; [|simpl in *; lia]. by destruct m. }
  destruct s as [|c s]; [by destruct m|]. destruct m as [|m]; [simpl in *; lia|].
  cbn [runes_fuel]. destruct (DecodeRune (String c s)) as [r w] eqn:E. f_equal.
  pose proof (proj2 (DecodeRune_width (String c s)) ltac:(done)) as Hw. rewrite E in Hw.
  simpl in *. apply IH; rewrite str_length_drop; simpl; lia.
Qed.

Lemma runes_nil : runes "" = [].
Proof. done. Qed.

Lemma runes_cons s r w :
  s <> "" -> DecodeRune s = (r, w) -> runes s = r :: runes (str_drop w s).
Proof.
  intros Hs E. destruct s as [|c s]; [done|]. unfold runes at 1.
  cbn [runes_fuel String.length]. rewrite E. f_equal. apply runes_fuel_enough; [|done].
  pose proof (proj2 (DecodeRune_width (String c s)) Hs) as Hw. rewrite E in Hw. simpl in Hw.
  rewrite str_length_drop. simpl. lia.
Qed.

Lemma runes_nil_inv s : runes s = [] -> s = "".
Proof.
  destruct s as [|c s]; [done|]. destruct (DecodeRune (String c s)) as [r w] eqn:E.
  by rewrite (runes_cons _ r w).
Qed.

(** Induction on a string, rune by rune. *)
Lemma runes_ind (P : string -> Prop) :
  P "" ->
  (forall s r w, s <> "" -> DecodeRune s = (r, w) -> P (str_drop w s) -> P s) ->
  forall s, P s.
Proof.
  intros H0 H1 s. remember (String.length s) as n eqn:Hn. revert s Hn.
  induction n as [n IH] using lt_wf_ind. intros s ->.
  destruct (decide (s = "")) as [->|Hs]; [done|].
  destruct (DecodeRune s) as [r w] eqn:E. apply (H1 s r w Hs E).
  pose proof (proj2 (DecodeRune_width s) Hs) as Hw. rewrite E in Hw. simpl in Hw.
  apply (IH (String.length (str_drop w s))); [|done]. rewrite str_length_drop. lia.
Qed.

Lemma DecodeRune_app s t r w :
  DecodeRune s = (r, w) -> r <> RuneError -> DecodeRune (s ++ t) = (r, w).
Proof.
  intros E Hr. rewrite <-(str_take_drop w s), str_app_assoc.
  by apply DecodeRune_prefix.
Qed.

Lemma str_drop_app_le n s t :
  n <= String.length s -> str_drop n (s ++ t) = (str_drop n s ++ t)%string.
Proof.
  revert s. induction n as [|n IH]; intros [|c s] Hn; simpl in *; auto; try lia.
  apply IH. lia.
Qed.

Lemma runes_app s t :
  Forall (fun r => r <> RuneError) (runes s) -> runes (s ++ t) = runes s ++ runes t.
Proof.
  revert s. refine (runes_ind _ _ _); [done|]. intros s r w Hs E IH.
  rewrite (runes_cons s r w Hs E). intros [Hr Hf]%Forall_cons.
  pose proof (proj2 (DecodeRune_width s) Hs) as Hw. rewrite E in Hw. simpl in Hw.
  rewrite (runes_cons _ r w); [|by destruct s|by apply DecodeRune_app].
  rewrite str_drop_app_le by lia. by rewrite IH.
Qed.

Lemma runes_take s r w :
  s <> "" -> DecodeRune s = (r, w) -> r <> RuneError -> runes (str_take w s) = [r].
Proof.
  intros Hs E Hr. pose proof (proj2 (DecodeRune_width s) Hs) as Hw. rewrite E in Hw. simpl in Hw.
  rewrite (runes_cons _ r w).
  - rewrite str_drop_ge; [done|]. rewrite str_length_take. lia.
  - intros H. apply (f_equal String.length) in H. rewrite str_length_take in H. simpl in H. lia.
  - rewrite <-(str_app_nil_r (str_take w s)). by apply DecodeRune_prefix.
Qed.

(** ** Classes of runes *)

Class RuneClass (p : Z -> bool) := {
  class_RuneError : p RuneError = false;
  class_eof : p eof = false;
}.

Lemma class_valid p `{!RuneClass p} rs :
  Forall (fun r => p r = true) rs -> Forall (fun r => r <> RuneError) rs.
Proof.
  intros H. eapply Forall_impl; [exact H|]. simpl. intros r Hr ->.
  by rewrite class_RuneError in Hr.
Qed.

Section Classes.
Context `{U : Unicode}.

Lemma IsLetter_range r : IsLetter r = true -> (0 <= r)%Z /\ r <> RuneError.
Proof.
  unfold IsLetter, between. case_match eqn:E; intros H.
  - unfold RuneError. lia.
  - apply letter_table_range in H. lia.
Qed.

Lemma IsNumber_range r : IsNumber r = true -> (0 <= r)%Z /\ r <> RuneError.
Proof.
  unfold IsNumber, between. case_match eqn:E; intros H.
  - unfold RuneError. lia.
  - apply number_table_range in H. lia.
Qed.

Lemma isIdent_bad r : (r < 0)%Z \/ r = RuneError -> isIdent r = false.
Proof.
  intros Hr. unfold isIdent. destruct (IsLetter r) eqn:EL.
  { apply IsLetter_range in EL. lia. }
  destruct (IsNumber r) eqn:EN; [apply IsNumber_range in EN; lia|].
  unfold rune_is. destruct Hr as [Hr| ->]; [|done].
  pose proof (byteZ_range "_"). pose proof (byteZ_range "-"). lia.
Qed.

#[export] Instance IsLetter_class : RuneClass IsLetter.
Proof.
  split; [destruct (IsLetter _) eqn:E|destruct (IsLetter _) eqn:E]; try done;
    apply IsLetter_range in E; unfold eof in *; lia.
Qed.
#[export] Instance isIdent_class : RuneClass isIdent.
Proof. split; apply isIdent_bad; unfold eof; lia. Qed.
#[export] Instance isLiteral_class : RuneClass isLiteral.
Proof. split; unfold isLiteral; by rewrite isIdent_bad by (unfold eof; lia). Qed.
#[export] Instance isPath_class : RuneClass isPath.
Proof.
  split; unfold isPath, isLiteral; by rewrite isIdent_bad by (unfold eof; lia).
Qed.

Lemma IsLetter_isLiteral r : IsLetter r = true -> isLiteral r = true.
Proof. unfold isLiteral, isIdent. by intros ->. Qed.
End Classes.

(** ** The primitive moves *)

Section Moves.
Context (R : error -> Prop).

Lemma at_drop l ts cur rest :
  at_ l ts cur rest -> str_drop (pos l) (input l) = rest.
Proof.
  intros (_ & Hi & Hs & Hp & _). rewrite Hp, Hs, Hi, <-str_app_assoc, <-str_length_app.
  apply str_drop_app.
Qed.

Lemma at_length l ts cur rest :
  at_ l ts cur rest -> String.length (input l) = pos l + String.length rest.
Proof.
  intros (_ & Hi & Hs & Hp & _). rewrite Hi, !str_length_app. lia.
Qed.

(** Where [backup] returns to. *)
Definition back (l : lexer) : lexer := set_pos (pos l - width l) (width l) l.

Lemma wp_next l ts cur rest (Q : Z -> lexer -> Prop) :
  at_ l ts cur rest ->
  (rest = "" -> forall l', at_ l' ts cur "" -> at_ (back l') ts cur "" -> Q eof l') ->
  (forall r w l', rest <> "" -> DecodeRune rest = (r, w) ->
     at_ l' ts (cur ++ str_take w rest)%string (str_drop w rest) ->
     at_ (back l') ts cur rest -> Q r l') ->
  wp next R Q l.
Proof.
  intros Hat H0 H1. unfold wp, next.
  pose proof (at_length _ _ _ _ Hat) as Hlen. pose proof (at_drop _ _ _ _ Hat) as Hdrop.
  destruct Hat as (Ht & Hi & Hs & Hp & Hm). destruct (Nat.leb_spec (String.length (input l)) (pos l)).
  - assert (rest = "") as -> by (apply runes_nil_inv; destruct rest; simpl in *; [done|lia]).
    apply H0; [done|..]; (repeat split; simpl; [done|done|done|lia|done]).
  - rewrite Hdrop. destruct (DecodeRune rest) as [r w] eqn:E.
    assert (Hne : rest <> "") by (intros ->; simpl in *; lia).
    pose proof (proj2 (DecodeRune_width rest) Hne) as Hw. rewrite E in Hw. simpl in Hw.
    apply (H1 r w); try done; repeat split; simpl; try done; try lia.
    + by rewrite Hi, (str_app_assoc cur), str_take_drop.
    + rewrite str_length_app, str_length_take. lia.
Qed.

Lemma wp_backup l ts cur rest (Q : unit -> lexer -> Prop) :
  at_ (back l) ts cur rest -> (forall l', at_ l' ts cur rest -> Q tt l') -> wp backup R Q l.
Proof. intros Hat H. apply wp_modify. by apply H. Qed.

Lemma at_emit l ts cur rest t :
  at_ l ts cur rest -> length ts < max_tokens ->
  at_ (Lexer (input l) (toks l ++ [Token t cur]) (pos l) (pos l) (width l))
      (ts ++ [Token t cur]) "" rest.
Proof.
  intros (Ht & Hi & Hs & Hp & Hm) Hlt. unfold at_, tokens_String. simpl.
  rewrite fmap_app, str_concat_app, length_app. simpl. rewrite str_app_nil_r.
  repeat split; [by rewrite Ht|by rewrite Hi, str_app_assoc| |lia..].
  rewrite str_length_app. unfold tokens_String in Hs. lia.
Qed.

Lemma wp_emit l ts cur rest t (Q : unit -> lexer -> Prop) :
  at_ l ts cur rest ->
  (length ts < max_tokens -> forall l', at_ l' (ts ++ [Token t cur]) "" rest -> Q tt l') ->
  (max_tokens <= length ts -> R errTokenLimit) ->
  wp (emit t) R Q l.
Proof.
  intros Hat H0 H1. unfold wp, emit. pose proof (at_length _ _ _ _ Hat) as Hlen.
  pose proof (at_emit l ts cur rest t Hat) as Hem. destruct Hat as (Ht & Hi & Hs & Hp & Hm).
  rewrite Ht in *. destruct (Nat.leb_spec max_tokens (length ts)); [by apply H1|].
  rewrite (proj2 (Nat.leb_le _ _)), (proj2 (Nat.leb_le _ _)) by lia. simpl.
  apply H0; [done|]. specialize (Hem ltac:(done)).
  replace (str_slice (start l) (pos l) (input l)) with cur; [done|].
  rewrite Hp, Hs, Hi. symmetry. apply str_slice_mid.
Qed.

(** The scan of [acceptRun]: it takes the longest run of the class. *)
Definition stops (p : Z -> bool) (rest : string) : Prop :=
  rest = "" \/ p (fst (DecodeRune rest)) = false.

Lemma wp_acceptRun_loop p `{!RuneClass p} fuel i l ts cur rest (Q : nat -> lexer -> Prop) :
  at_ l ts cur rest -> String.length rest < fuel ->
  (forall v rest' l', rest = (v ++ rest')%string -> Forall (fun r => p r = true) (runes v) ->
     stops p rest' -> at_ (back l') ts (cur ++ v)%string rest' -> Q (i + length (runes v)) l') ->
  wp (acceptRun_loop fuel p i) R Q l.
Proof.
  revert i l cur rest. induction fuel as [|fuel IH]; intros i l cur rest Hat Hf H; [lia|].
  cbn [acceptRun_loop]. apply wp_bind. eapply wp_next; [done|..].
  - intros -> l' _ Hback. rewrite class_eof. apply wp_ret.
    specialize (H "" "" l' eq_refl). simpl in H. rewrite Nat.add_0_r in H. apply H; auto.
    + by left.
    + by rewrite str_app_nil_r.
  - intros r w l' Hne E Hat' Hback. destruct (p r) eqn:Ep.
    + assert (Hr : r <> RuneError) by (intros ->; by rewrite class_RuneError in Ep).
      pose proof (proj2 (DecodeRune_width rest) Hne) as Hw. rewrite E in Hw. simpl in Hw.
      eapply IH; [done|rewrite str_length_drop; lia|].
      intros v rest' l'' Hrest Hv Hstop Hat''.
      specialize (H (str_take w rest ++ v)%string rest' l'').
      rewrite runes_app, (runes_take rest r w) in H; [|done..|].
      2: { by rewrite (runes_take rest r w); repeat constructor. }
      simpl in H. rewrite Nat.add_succ_r in H. apply H.
      * by rewrite str_app_assoc, <-Hrest, str_take_drop.
      * by constructor.
      * done.
      * by rewrite <-str_app_assoc.
    + apply wp_ret. specialize (H "" rest l' eq_refl). simpl in H. rewrite Nat.add_0_r in H.
      apply H; auto; [by right; rewrite E|by rewrite str_app_nil_r].
Qed.

Lemma wp_acceptRun p `{!RuneClass p} l ts cur rest (Q : nat -> lexer -> Prop) :
  at_ l ts cur rest ->
  (forall v rest' l', rest = (v ++ rest')%string -> Forall (fun r => p r = true) (runes v) ->
     stops p rest' -> at_ l' ts (cur ++ v)%string rest' -> Q (length (runes v)) l') ->
  wp (acceptRun p) R Q l.
Proof.
  intros Hat H. unfold acceptRun. apply wp_bind, wp_get, wp_bind.
  eapply (wp_acceptRun_loop p _ 0); [done|pose proof (at_length _ _ _ _ Hat); lia|].
  intros v rest' l' Hrest Hv Hstop Hback. apply wp_bind.
  eapply wp_backup; [exact Hback|]. intros l'' Hat''. apply wp_ret. by eapply H.
Qed.
End Moves.

Create HintDb lex discriminated.
Create Rewrite HintDb toks.

(** ** Soundness: what is accepted is in the grammar *)

Lemma tokens_String_app ts1 ts2 :
  tokens_String (ts1 ++ ts2) = (tokens_String ts1 ++ tokens_String ts2)%string.
Proof. unfold tokens_String. by rewrite fmap_app, str_concat_app. Qed.

Lemma tokens_String_cons t v ts :
  tokens_String (Token t v :: ts) = (v ++ tokens_String ts)%string.
Proof. done. Qed.

Lemma tokens_String_nil : tokens_String [] = "".
Proof. done. Qed.

#[global] Arguments tokens_String : simpl never.
#[export] Hint Rewrite tokens_String_app tokens_String_cons tokens_String_nil
  str_app_assoc str_app_nil_r : toks.

(** Equalities between texts of token lists, and between token lists. *)
Ltac text_eq := repeat (autorewrite with toks; simpl); done.
Ltac toks_lia :=
  repeat match goal with H : at_ _ _ _ _ |- _ => clear H end;
  do 3 (rewrite ?length_app, ?str_length_app in *; simpl in *); lia.
Ltac toks_eq := repeat (simpl; rewrite <-?app_assoc); done.

Lemma lex_error_limit : lex_error errTokenLimit.
Proof. by repeat eexists. Qed.

Lemma wp_lexError {A} fmt l ts cur rest (R : error -> Prop) (Q : A -> lexer -> Prop) :
  at_ l ts cur rest -> (forall e, lex_error e -> R e) -> wp (lexError fmt) R Q l.
Proof.
  intros Hat HR. apply wp_bind. eapply wp_emit; [done| |by intros; apply HR, lex_error_limit].
  intros _ l' _. apply wp_bind, wp_get, wp_throw, HR. by repeat eexists.
Qed.

#[export] Hint Resolve lex_error_limit : lex.

Section Sound.
Context `{U : Unicode}.

Lemma at_ts l ts ts' rest : at_ l ts "" rest -> ts = ts' -> at_ l ts' "" rest.
Proof. by intros ? <-. Qed.


Lemma wp_lexRun p `{!RuneClass p} t l ts cur rest (R : error -> Prop) (Q : unit -> lexer -> Prop) :
  at_ l ts cur rest ->
  (forall v rest' l', rest = (v ++ rest')%string -> word p v -> stops p rest' ->
     length ts < max_tokens -> at_ l' (ts ++ [Token t (cur ++ v)%string]) "" rest' -> Q tt l') ->
  (stops p rest -> forall e, lex_error e -> R e) ->
  (max_tokens <= length ts -> R errTokenLimit) ->
  wp (lexRun p t) R Q l.
Proof.
  intros Hat H0 H1 H2. apply wp_bind. eapply wp_acceptRun; [done..|].
  intros v rest' l' -> Hv Hstop Hat'. destruct (length (runes v)) as [|n] eqn:En; simpl.
  - apply nil_length_inv, runes_nil_inv in En as ->. eapply wp_lexError; [done|]. by apply H1.
  - eapply wp_emit; [exact Hat'| |exact H2]. intros Hlt l'' Hat''.
    eapply H0; eauto. split; [|done]. intros ->. by rewrite runes_nil in En.
Qed.

(** [advances G ts rest l']: the lexer has emitted tokens of [G] after [ts], and
    their text was the beginning of [rest]. *)
Definition advances (G : list token -> Prop) (ts : list token) (rest : string)
    (l' : lexer) : Prop :=
  exists ts' rest', G ts' /\ rest = (tokens_String ts' ++ rest')%string /\
    at_ l' (ts ++ ts') "" rest'.

(** [lex_sound f G]: from a token boundary [f] ends with an error status or
    advances by tokens of [G]. *)
Definition lex_sound (n : nat) (f : lex unit) (G : list token -> Prop) : Prop :=
  forall l ts rest, at_ l ts "" rest -> String.length rest < n ->
    wp f lex_error (fun _ => advances G ts rest) l.

Lemma lexRun_sound n p `{!RuneClass p} t :
  lex_sound n (lexRun p t) (fun ts => exists v, ts = [Token t v] /\ word p v).
Proof.
  intros l ts rest Hat _. eapply wp_lexRun; eauto with lex.
  intros v rest' l' -> Hv _ _ Hat'. exists [Token t v], rest'.
  split; [eauto|]. split; [text_eq|done].
Qed.

Lemma rune_is_ascii c rest r w :
  (byteZ c < RuneSelf)%Z -> DecodeRune rest = (r, w) -> rest <> "" -> rune_is c r = true ->
  rest = String c (str_drop w rest) /\ w = 1.
Proof.
  intros Hc E Hne Hr. apply Z.eqb_eq in Hr as ->. destruct rest as [|d rest]; [done|].
  destruct (Z.ltb_spec (byteZ d) RuneSelf) as [Hd|Hd].
  - rewrite DecodeRune_ascii in E by done. injection E as Ed <-. apply byteZ_inj in Ed as ->.
    done.
  - pose proof (DecodeRune_multi d rest Hd). rewrite E in *. simpl in *. lia.
Qed.

(** Consuming one delimiter and emitting its token. *)
Lemma at_delim l ts c rest r w :
  (byteZ c < RuneSelf)%Z -> DecodeRune rest = (r, w) -> rest <> "" -> rune_is c r = true ->
  at_ l ts ("" ++ str_take w rest)%string (str_drop w rest) ->
  at_ l ts (String c "") (str_drop w rest) /\ rest = String c (str_drop w rest).
Proof.
  intros Hc E Hne Hr Hat. destruct (rune_is_ascii c rest r w) as [Hrest ->]; try done.
  split; [|done]. rewrite Hrest in Hat at 1. simpl in Hat. exact Hat.
Qed.

Lemma rune_is_eof c : rune_is c eof = false.
Proof. unfold rune_is, eof. pose proof (byteZ_range c). lia. Qed.

(** The rune that [next] returns at a position. *)
Definition peek (rest : string) : Z :=
  if decide (rest = "") then eof else fst (DecodeRune rest).

Lemma peek_ascii c rest : (byteZ c < RuneSelf)%Z -> peek (String c rest) = byteZ c.
Proof. intros Hc. unfold peek. case_decide; [done|]. by rewrite DecodeRune_ascii. Qed.

(** [next] at a token boundary: the rune read, what [backup] returns to, and,
    when the rune is a delimiter, the pending text it makes. *)
Lemma wp_next_peek l ts cur rest (R : error -> Prop) (Q : Z -> lexer -> Prop) :
  at_ l ts cur rest ->
  (forall l', at_ (back l') ts cur rest ->
     (exists w, DecodeRune rest = (fst (DecodeRune rest), w) /\
        at_ l' ts (cur ++ str_take w rest)%string (str_drop w rest)) ->
     (forall c, (byteZ c < RuneSelf)%Z -> peek rest = byteZ c ->
        exists rest', rest = String c rest' /\ at_ l' ts (cur ++ String c "")%string rest') ->
     Q (peek rest) l') ->
  wp next R Q l.
Proof.
  intros Hat H. eapply wp_next; [done|..].
  - intros -> l' Hat' Hback. apply H; [done|..].
    { exists 0. split; [done|]. simpl. by rewrite str_app_nil_r. }
    intros c _ Hp. pose proof (byteZ_range c). unfold peek, eof in Hp. simpl in Hp. lia.
  - intros r w l' Hne E Hat' Hback.
    assert (Hr : r = peek rest) by (unfold peek; case_decide; by rewrite ?E).
    subst r. apply H; [done|exists w; by rewrite E|]. intros c Hc Hp.
    destruct (rune_is_ascii c rest (peek rest) w) as [Hrest ->]; try done.
    { by rewrite Hp; apply Z.eqb_refl. }
    exists (str_drop 1 rest). split; [done|]. rewrite Hrest in Hat' at 1. exact Hat'.
Qed.

(** [next] followed by a test for the delimiter [c]. *)
Lemma wp_next_is c l ts rest (R : error -> Prop) (Q : Z -> lexer -> Prop) :
  (byteZ c < RuneSelf)%Z -> at_ l ts "" rest ->
  (forall rest' l', rest = String c rest' -> at_ l' ts (String c "") rest' -> Q (byteZ c) l') ->
  (forall cur rest' l', peek rest <> byteZ c -> at_ l' ts cur rest' ->
     at_ (back l') ts "" rest -> Q (peek rest) l') ->
  wp next R Q l.
Proof.
  intros Hc Hat H0 H1. eapply wp_next_peek; [done|]. intros l' Hback (w & _ & Hat') Hd.
  destruct (decide (peek rest = byteZ c)) as [E|E]; [|by eauto].
  destruct (Hd c Hc E) as (rest'' & -> & Hat''). rewrite E. eauto.
Qed.

Lemma lex_sound_bind n f g G1 G2 (G : list token -> Prop) :
  lex_sound n f G1 -> lex_sound n g G2 ->
  (forall ts1 ts2, G1 ts1 -> G2 ts2 -> G (ts1 ++ ts2)) -> lex_sound n (f;; g) G.
Proof.
  intros Hf Hg HG l ts rest Hat Hn. apply wp_bind. eapply wp_mono; [by apply Hf|].
  intros _ l' (ts1 & rest1 & HG1 & -> & Hat1).
  eapply wp_mono; [apply Hg; [exact Hat1|]; rewrite str_length_app in Hn; lia|].
  intros _ l'' (ts2 & rest2 & HG2 & -> & Hat2). exists (ts1 ++ ts2), rest2.
  split; [auto|]. split; [text_eq|]. eapply at_ts; [exact Hat2|]. toks_eq.
Qed.

(** After a delimiter was read, [emit] closes its token and [k] goes on. *)
Lemma wp_emit_then c t l ts rest G (Q : unit -> lexer -> Prop) (k : lex unit) n :
  at_ l ts (String c "") rest -> String.length rest < n -> lex_sound n k G ->
  (forall l', advances (fun ts' => exists ts'', ts' = Token t (String c "") :: ts'' /\ G ts'')
                ts (String c rest) l' -> Q tt l') ->
  wp (emit t;; k) lex_error Q l.
Proof.
  intros Hat Hn Hk HQ. apply wp_bind. eapply wp_emit; [done| |auto with lex].
  intros _ l' Hat'. eapply wp_mono; [by apply Hk|].
  intros [] l'' (ts2 & rest2 & HG & -> & Hat2). apply HQ.
  exists (Token t (String c "") :: ts2), rest2.
  replace (ts ++ Token t (String c "") :: ts2) with ((ts ++ [Token t (String c "")]) ++ ts2)
    by by rewrite <-app_assoc.
  cbn. eauto.
Qed.

Lemma lexFieldPath_loop_sound n :
  lex_sound n (lexFieldPath_loop n)
    (fun ts => ts = [] \/ exists ts', ts = Token tokenDot "." :: ts' /\ FieldPath ts').
Proof.
  induction n as [|n IH]; intros l ts rest Hat Hn; [lia|]. cbn [lexFieldPath_loop].
  apply wp_bind. apply (wp_next_is "." l ts rest); [done..| |].
  - intros rest' l' -> Hat'. cbn [rune_is negb].
    eapply (wp_emit_then "." _ _ _ rest' FieldPath _ _ n); [done|simpl in Hn; lia| |].
    + eapply lex_sound_bind; [apply lexRun_sound, _|apply IH|].
      intros ? ? (v & -> & Hv) [->|(ts' & -> & Hts)]; by constructor.
    + intros l'' (ts' & rest'' & (ts2 & -> & HG) & E & Hat''). eexists _, _.
      split; [right; eauto|]. eauto.
  - intros cur rest' l' Hne Hat' Hback. unfold rune_is. rewrite (proj2 (Z.eqb_neq _ _)) by done.
    eapply wp_backup; [exact Hback|]. intros l'' Hat''. exists [], rest.
    rewrite app_nil_r. auto.
Qed.

Lemma lexFieldPath_sound n : lex_sound n lexFieldPath FieldPath.
Proof.
  intros l ts rest Hat Hn. apply wp_bind. eapply wp_mono; [by eapply (lexRun_sound n isIdent)|].
  intros _ l1 (ts1 & rest1 & (v & -> & Hv) & -> & Hat1). apply wp_bind, wp_get.
  eapply wp_mono; [eapply lexFieldPath_loop_sound; [exact Hat1|]|].
  { pose proof (at_length _ _ _ _ Hat1). lia. }
  intros _ l2 (ts2 & rest2 & HG & -> & Hat2).
  exists ([Token tokenIdent v] ++ ts2), rest2. rewrite tokens_String_app, app_assoc.
  rewrite str_app_assoc. split; [|done].
  destruct HG as [->|(ts' & -> & HG)]; by constructor.
Qed.

Lemma rune_is_true c : rune_is c (byteZ c) = true.
Proof. apply Z.eqb_refl. Qed.

Lemma rune_is_false c r : r <> byteZ c -> rune_is c r = false.
Proof. apply Z.eqb_neq. Qed.

Lemma lexVariable_sound n segs :
  lex_sound n segs Segments -> lex_sound (S n) (lexVariable segs) Variable_.
Proof.
  intros Hsegs l ts rest Hat Hn. apply wp_bind, (wp_next_is "{" l ts rest); [done..| |].
  2: { intros cur rest' l' Hne Hat' _. rewrite rune_is_false by done.
       eapply wp_lexError; eauto. }
  intros rest1 l1 -> Hat1. rewrite rune_is_true. cbn [negb].
  apply wp_bind. eapply wp_emit; [exact Hat1| |auto with lex]. intros _ l2 Hat2.
  simpl in Hn. apply wp_bind. eapply wp_mono; [apply (lexFieldPath_sound n); [exact Hat2|lia]|].
  intros _ l3 (ts3 & rest3 & HF & -> & Hat3). rewrite str_length_app in Hn.
  apply wp_bind. eapply wp_next_peek; [exact Hat3|].
  intros l4 _ (w & _ & Hat4) Hd. apply wp_bind.
  destruct (rune_is "=" (peek rest3)) eqn:E.
  - apply Z.eqb_eq in E. destruct (Hd "="%char) as (rest4 & -> & Hat4'); [done..|].
    apply wp_bind. eapply wp_emit; [exact Hat4'| |auto with lex]. intros _ l5 Hat5.
    simpl in Hn. apply wp_bind. eapply wp_mono; [apply Hsegs; [exact Hat5|]; lia|].
    intros _ l6 (ts6 & rest6 & HS & -> & Hat6).
    eapply (wp_next_is "}"); [done|exact Hat6|..].
    2: { intros ? ? l' Hne Hat' _. rewrite rune_is_false by done. eapply wp_lexError; eauto. }
    intros rest7 l7 -> Hat7. rewrite rune_is_true. cbn [negb].
    eapply wp_emit; [exact Hat7| |auto with lex]. intros _ l8 Hat8.
    exists (Token tokenVariableStart "{" :: ts3 ++
      Token tokenEqual "=" :: ts6 ++ [Token tokenVariableEnd "}"]), rest7.
    split; [by constructor|]. split.
    + text_eq.
    + eapply at_ts; [exact Hat8|]. toks_eq.
  - apply wp_ret. destruct (rune_is "}" (peek rest3)) eqn:E'; [|by eapply wp_lexError; eauto].
    apply Z.eqb_eq in E'. destruct (Hd "}"%char) as (rest4 & -> & Hat4'); [done..|].
    cbn [negb]. eapply wp_emit; [exact Hat4'| |auto with lex]. intros _ l5 Hat5.
    exists (Token tokenVariableStart "{" :: ts3 ++ [Token tokenVariableEnd "}"]), rest4.
    split; [by constructor|]. split.
    + text_eq.
    + eapply at_ts; [exact Hat5|]. toks_eq.
Qed.

Lemma stops_peek p `{!RuneClass p} rest : stops p rest <-> p (peek rest) = false.
Proof.
  unfold stops, peek. case_decide as E; [|by split; [intros [?|?]|right]].
  rewrite class_eof. by split; [|left].
Qed.

Lemma peek_nonempty rest r : peek rest = r -> (0 <= r)%Z -> rest <> "".
Proof. intros H Hr ->. unfold peek, eof in H. simpl in H. lia. Qed.

Lemma lexSegment_sound n segs :
  lex_sound n segs Segments -> lex_sound (S n) (lexSegment segs) Segment.
Proof.
  intros Hsegs l ts rest Hat Hn. apply wp_bind. eapply wp_next_peek; [exact Hat|].
  intros l1 Hback (w & Ew & Hat1) Hd. destruct (IsLetter (peek rest)) eqn:EL.
  { destruct (IsLetter_range _ EL) as [Hpos Hne]. pose proof (peek_nonempty _ _ eq_refl Hpos) as Hrest.
    unfold peek in *. rewrite decide_False in * by done.
    eapply (wp_lexRun isLiteral); [exact Hat1| |auto with lex..].
    intros v rest' l' Hv [Hv1 Hv2] _ _ Hat'.
    exists [Token tokenLiteral (str_take w rest ++ v)], rest'. split; [|split].
    - apply Segment_literal. eexists _, (runes v).
      rewrite runes_app, (runes_take _ _ _ Hrest Ew Hne); [|by rewrite (runes_take _ _ _ Hrest Ew Hne); repeat constructor].
      split; [done|]. split; [done|]. split; [|done]. intros H. by apply Hv1, runes_nil_inv.
    - autorewrite with toks. by rewrite <-Hv, str_take_drop.
    - exact Hat'. }
  destruct (rune_is "*" (peek rest)) eqn:E.
  { apply Z.eqb_eq in E. destruct (Hd "*"%char) as (rest1 & -> & Hat1'); [done..|].
    apply wp_bind. eapply wp_next_peek; [exact Hat1'|]. intros l2 Hback2 _ Hd2.
    destruct (rune_is "*" (peek rest1)) eqn:E2.
    - apply Z.eqb_eq in E2. destruct (Hd2 "*"%char) as (rest2 & -> & Hat2'); [done..|].
      eapply wp_emit; [exact Hat2'| |auto with lex]. intros _ l3 Hat3.
      exists [Token tokenStarStar "**"], rest2. split; [constructor|]. split; [text_eq|done].
    - apply wp_bind. eapply wp_backup; [exact Hback2|]. intros l3 Hat3.
      eapply wp_emit; [exact Hat3| |auto with lex]. intros _ l4 Hat4.
      exists [Token tokenStar "*"], rest1. split; [constructor|]. split; [text_eq|done]. }
  destruct (rune_is "{" (peek rest)) eqn:E3.
  - apply wp_bind. eapply wp_backup; [exact Hback|]. intros l2 Hat2.
    eapply wp_mono; [by eapply lexVariable_sound|].
    intros _ l3 (ts' & rest' & HG & -> & Hat3). exists ts', rest'. split; [by apply Segment_variable|]. done.
  - eapply wp_lexError; eauto.
Qed.

Lemma lexSegments_fuel_sound n : lex_sound n (lexSegments_fuel n) Segments.
Proof.
  induction n as [|n IH]; intros l ts rest Hat Hn; [lia|]. cbn [lexSegments_fuel].
  apply wp_bind. eapply wp_mono; [by eapply lexSegment_sound|].
  intros _ l1 (ts1 & rest1 & HG & -> & Hat1). rewrite str_length_app in Hn.
  apply wp_bind. eapply (wp_next_is "/"); [done|exact Hat1|..].
  - intros rest2 l2 -> Hat2. rewrite rune_is_true. cbn [negb].
    apply wp_bind. eapply wp_emit; [exact Hat2| |auto with lex]. intros _ l3 Hat3.
    simpl in Hn. eapply wp_mono; [apply IH; [exact Hat3|lia]|].
    intros _ l4 (ts4 & rest4 & HG4 & -> & Hat4).
    exists (ts1 ++ Token tokenSlash "/" :: ts4), rest4. split; [by constructor|].
    split; [text_eq|]. eapply at_ts; [exact Hat4|]. toks_eq.
  - intros cur rest2 l2 Hne Hat2 Hback. rewrite rune_is_false by done.
    eapply wp_backup; [exact Hback|]. intros l3 Hat3. exists ts1, rest1.
    split; [by constructor|]. done.
Qed.

Lemma lexSegments_sound n : lex_sound n lexSegments Segments.
Proof.
  intros l ts rest Hat _. apply wp_bind, wp_get.
  apply lexSegments_fuel_sound; [done|]. pose proof (at_length _ _ _ _ Hat). lia.
Qed.

(** At the end of the input the end-of-file token closes the list. *)
Lemma wp_emit_eof l ts rest (Q : unit -> lexer -> Prop) :
  at_ l ts "" rest -> peek rest = eof ->
  (forall l', rest = "" -> at_ l' (ts ++ [Token tokenEOF ""]) "" "" -> Q tt l') ->
  wp (emit tokenEOF) lex_error Q l.
Proof.
  intros Hat Hp H. assert (rest = "") as ->.
  { unfold peek in Hp. case_decide; [done|]. destruct rest as [|c rest]; [done|].
    destruct (Z.ltb_spec (byteZ c) RuneSelf) as [Hc|Hc].
    - rewrite DecodeRune_ascii in Hp by done. pose proof (byteZ_range c).
      unfold eof in Hp. simpl in Hp. lia.
    - pose proof (DecodeRune_multi c rest Hc). unfold eof, RuneSelf in *. lia. }
  eapply wp_emit; [exact Hat| |auto with lex]. auto.
Qed.

Lemma at_peek_eof l ts rest w :
  DecodeRune rest = (fst (DecodeRune rest), w) -> peek rest = eof ->
  at_ l ts ("" ++ str_take w rest)%string (str_drop w rest) -> at_ l ts "" rest.
Proof.
  intros E Hp Hat. assert (rest = "") as ->; [|by destruct w].
  unfold peek in Hp. case_decide; [done|]. destruct rest as [|c rest]; [done|].
  destruct (Z.ltb_spec (byteZ c) RuneSelf) as [Hc|Hc].
  - rewrite DecodeRune_ascii in Hp by done. pose proof (byteZ_range c).
    unfold eof in Hp. simpl in Hp. lia.
  - pose proof (DecodeRune_multi c rest Hc). unfold eof, RuneSelf in *. lia.
Qed.

(** As [lex_sound], for what reads its input to the end. *)
Definition lex_final (n : nat) (f : lex unit) (G : list token -> Prop) : Prop :=
  forall l ts rest, at_ l ts "" rest -> String.length rest < n ->
    wp f lex_error (fun _ l' =>
      exists ts', G ts' /\ rest = tokens_String ts' /\ at_ l' (ts ++ ts') "" "") l.

Lemma lexVerb_sound n :
  lex_final n lexVerb
    (fun ts => exists v, ts = [Token tokenLiteral v; Token tokenEOF ""] /\ word isLiteral v).
Proof.
  intros l ts rest Hat Hn. apply wp_bind.
  eapply wp_mono; [by eapply (lexRun_sound n isLiteral)|].
  intros _ l1 (ts1 & rest1 & (v & -> & Hv) & -> & Hat1).
  apply wp_bind. eapply wp_next_peek; [exact Hat1|]. intros l2 _ (w & Ew & Hat2) _.
  case_match eqn:E; [|by eapply wp_lexError; eauto]. apply Z.eqb_eq in E.
  eapply wp_emit_eof; [by eapply at_peek_eof|done|]. intros l3 -> Hat3.
  exists [Token tokenLiteral v; Token tokenEOF ""]. split; [eauto|]. split; [text_eq|].
  eapply at_ts; [exact Hat3|]. toks_eq.
Qed.

Lemma lexTemplate_sound n : lex_final n lexTemplate Template.
Proof.
  intros l ts rest Hat Hn. apply wp_bind. eapply (wp_next_is "/"); [done|exact Hat|..].
  2: { intros ? ? l' Hne Hat' _. rewrite rune_is_false by done. eapply wp_lexError; eauto. }
  intros rest1 l1 -> Hat1. rewrite rune_is_true. cbn [negb]. simpl in Hn.
  apply wp_bind. eapply wp_emit; [exact Hat1| |auto with lex]. intros _ l2 Hat2.
  apply wp_bind. eapply wp_mono; [apply (lexSegments_sound n); [exact Hat2|lia]|].
  intros _ l3 (ts3 & rest3 & HG & -> & Hat3). rewrite str_length_app in Hn.
  apply wp_bind. eapply wp_next_peek; [exact Hat3|]. intros l4 _ (w & Ew & Hat4) Hd.
  destruct (rune_is ":" (peek rest3)) eqn:E.
  - apply Z.eqb_eq in E. destruct (Hd ":"%char) as (rest4 & -> & Hat4'); [done..|].
    apply wp_bind. eapply wp_emit; [exact Hat4'| |auto with lex]. intros _ l5 Hat5. simpl in Hn.
    eapply wp_mono; [apply (lexVerb_sound n); [exact Hat5|lia]|].
    intros _ l6 (ts6 & (v & -> & Hv) & -> & Hat6).
    exists (Token tokenSlash "/" :: ts3 ++
            [Token tokenVerb ":"; Token tokenLiteral v; Token tokenEOF ""]).
    split; [by constructor|]. split; [text_eq|].
    eapply at_ts; [exact Hat6|]. toks_eq.
  - case_match eqn:E'; [|by eapply wp_lexError; eauto]. apply Z.eqb_eq in E'.
    eapply wp_emit_eof; [by eapply at_peek_eof|done|]. intros l5 -> Hat5.
    exists (Token tokenSlash "/" :: ts3 ++ [Token tokenEOF ""]).
    split; [by constructor|]. split; [text_eq|].
    eapply at_ts; [exact Hat5|]. toks_eq.
Qed.

(** One part of a request path: its delimiter, its text and what follows. *)
Lemma path_part_sound n c t (G : list token -> Prop) k l ts rest l1 :
  lex_final n k G -> at_ l1 ts (String c "") rest -> String.length rest < n ->
  at_ l ts "" (String c rest) ->
  wp (emit t;; lexPathSegment;; k) lex_error (fun _ l' =>
    exists ts', (exists v ts'', ts' = Token t (String c "") :: Token tokenPath v :: ts'' /\
                   word isPath v /\ G ts'') /\
      String c rest = tokens_String ts' /\ at_ l' (ts ++ ts') "" "") l1.
Proof.
  intros Hk Hat1 Hn _. apply wp_bind. eapply wp_emit; [exact Hat1| |auto with lex].
  intros _ l2 Hat2. apply wp_bind.
  eapply wp_mono; [by eapply (lexRun_sound n isPath)|].
  intros _ l3 (ts3 & rest3 & (v & -> & Hv) & -> & Hat3). rewrite str_length_app in Hn.
  eapply wp_mono; [apply Hk; [exact Hat3|lia]|].
  intros _ l4 (ts4 & HG & -> & Hat4).
  exists (Token t (String c "") :: Token tokenPath v :: ts4). split; [eauto|].
  split; [text_eq|]. eapply at_ts; [exact Hat4|]. toks_eq.
Qed.

Lemma lexPath_fuel_sound n : lex_final n (lexPath_fuel n) RequestPath.
Proof.
  induction n as [|n IH]; intros l ts rest Hat Hn; [lia|]. cbn [lexPath_fuel].
  apply wp_bind. eapply wp_next_peek; [exact Hat|]. intros l1 _ (w & Ew & Hat1) Hd.
  destruct (rune_is "/" (peek rest)) eqn:E.
  { apply Z.eqb_eq in E. destruct (Hd "/"%char) as (rest2 & -> & Hat2); [done..|].
    simpl in Hn. eapply wp_mono; [eapply path_part_sound; [exact IH|exact Hat2|lia|exact Hat]|].
    intros _ l3 (ts' & (v & ts'' & -> & Hv & HG) & Hs & Hat3).
    eexists. split; [by apply RequestPath_slash|]. done. }
  destruct (rune_is ":" (peek rest)) eqn:E2.
  { apply Z.eqb_eq in E2. destruct (Hd ":"%char) as (rest2 & -> & Hat2); [done..|].
    simpl in Hn. eapply wp_mono; [eapply path_part_sound; [exact IH|exact Hat2|lia|exact Hat]|].
    intros _ l3 (ts' & (v & ts'' & -> & Hv & HG) & Hs & Hat3).
    eexists. split; [by apply RequestPath_verb|]. done. }
  case_match eqn:E'; [|by eapply wp_lexError; eauto]. apply Z.eqb_eq in E'.
  eapply wp_emit_eof; [by eapply at_peek_eof|done|]. intros l5 -> Hat5.
  exists [Token tokenEOF ""]. split; [constructor|]. done.
Qed.

Lemma at_new s : at_ (new_lexer s) [] "" s.
Proof. repeat split; simpl; unfold max_tokens; lia. Qed.

Lemma run_lexer_sound f (G : list token -> Prop) s :
  (forall n, lex_final n f G) ->
  match run_lexer f s with
  | Ok ts => G ts /\ tokens_String ts = s /\ length ts <= max_tokens
  | Err e => lex_error e
  | Panic _ | OutOfFuel => False
  end.
Proof.
  intros Hf. pose proof (Hf (S (String.length s)) (new_lexer s) [] s (at_new s)) as H.
  unfold wp in H. unfold run_lexer.
  destruct (f (new_lexer s)) as [l [[]|e|p|]]; simpl; try (by apply H; lia).
  destruct H as (ts' & HG & -> & Ht & _ & _ & _ & Hm); [lia|]. simpl in Ht. by subst.
Qed.

Lemma lexPath_sound n : lex_final n lexPath RequestPath.
Proof.
  intros l ts rest Hat _. apply wp_bind, wp_get. apply lexPath_fuel_sound; [done|].
  pose proof (at_length _ _ _ _ Hat). lia.
Qed.
End Sound.

(** ** Completeness: the text of a token list of the grammar is accepted *)

Section Complete.
Context `{U : Unicode}.

(** The longest run of a class is unique. *)
Lemma run_unique p `{!RuneClass p} v1 v2 rest1 rest2 :
  Forall (fun r => p r = true) (runes v1) -> Forall (fun r => p r = true) (runes v2) ->
  stops p rest1 -> stops p rest2 ->
  (v1 ++ rest1)%string = (v2 ++ rest2)%string -> v1 = v2 /\ rest1 = rest2.
Proof.
  rewrite !stops_peek by done. revert v1 v2.
  assert (Hcase : forall v rest r w, v <> "" -> DecodeRune v = (r, w) ->
    Forall (fun r => p r = true) (runes v) ->
    DecodeRune (v ++ rest) = (r, w) /\ p r = true /\ peek (v ++ rest) = r /\
    Forall (fun r => p r = true) (runes (str_drop w v)) /\
    str_drop w (v ++ rest) = (str_drop w v ++ rest)%string /\
    v = (str_take w (v ++ rest) ++ str_drop w v)%string).
  { intros v rest r w Hne E. rewrite (runes_cons v r w Hne E). intros [Hr Hf]%Forall_cons.
    assert (Hnr : r <> RuneError) by (intros ->; by rewrite class_RuneError in Hr).
    assert (E' := DecodeRune_app v rest r w E Hnr).
    pose proof (proj2 (DecodeRune_width v) Hne) as Hw. rewrite E in Hw. simpl in Hw.
    repeat split; try done.
    - unfold peek. rewrite E'. by destruct v.
    - apply str_drop_app_le. lia.
    - assert (Ht : forall n s t, n <= String.length s -> str_take n (s ++ t) = str_take n s).
      { clear. intros n. induction n; intros [|c s] t Hn; simpl in *; try done; [lia|].
        rewrite IHn by lia. done. }
      by rewrite Ht, str_take_drop by lia. }
  refine (runes_ind _ _ _).
  - intros v2 _ Hv2 H1 _ E. destruct (decide (v2 = "")) as [->|Hne]; [done|].
    destruct (DecodeRune v2) as [r w] eqn:Ev.
    destruct (Hcase v2 rest2 r w) as (_ & Hr & Hp & _); try done. simpl in E. subst rest1.
    congruence.
  - intros v1 r w Hne Ev IH v2 Hv1 Hv2 H1 H2 E.
    destruct (Hcase v1 rest1 r w) as (E1 & Hr & Hp & Hf & Hd & Hv); try done.
    destruct (decide (v2 = "")) as [->|Hne2]; [simpl in E; subst rest2; congruence|].
    destruct (DecodeRune v2) as [r2 w2] eqn:Ev2.
    destruct (Hcase v2 rest2 r2 w2) as (E2 & Hr2 & Hp2 & Hf2 & Hd2 & Hvv); try done.
    rewrite E, E2 in E1. injection E1 as -> ->.
    destruct (IH (str_drop w v2)) as [Hvd ->]; try done; [by rewrite <-Hd, <-Hd2, E|].
    split; [|done]. by rewrite Hv, Hvv, Hvd, E.
Qed.

Lemma lexRun_complete p `{!RuneClass p} t l ts cur v rest :
  at_ l ts cur (v ++ rest) -> word p v -> p (peek rest) = false -> length ts < max_tokens ->
  wp (lexRun p t) (fun _ => False)
     (fun _ l' => at_ l' (ts ++ [Token t (cur ++ v)%string]) "" rest) l.
Proof.
  intros Hat [Hne Hv] Hrest Hlt. apply stops_peek in Hrest; [|done].
  eapply (wp_lexRun p); [exact Hat| | |lia].
  - intros v' rest' l' E [Hne' Hv'] Hstop' _ Hat'.
    by destruct (run_unique p v v' rest rest') as [-> ->].
  - intros Hstop e _.
    destruct (run_unique p "" v (v ++ rest) rest) as [Heq _]; done.
Qed.

(** [lex_complete n f G F]: before a rest of the follow set [F], [f] accepts the
    text of any token list of [G] that fits. *)
Definition lex_complete (n : nat) (f : lex unit) (G : list token -> Prop)
    (F : string -> Prop) : Prop :=
  forall l ts ts' rest, at_ l ts "" (tokens_String ts' ++ rest) -> G ts' -> F rest ->
    length ts + length ts' <= max_tokens -> String.length (tokens_String ts' ++ rest) < n ->
    wp f (fun _ => False) (fun _ l' => at_ l' (ts ++ ts') "" rest) l.

(** [next] on a delimiter that is there, and on another rune. *)
Lemma wp_next_char c l ts cur rest (Q : Z -> lexer -> Prop) :
  (byteZ c < RuneSelf)%Z -> at_ l ts cur (String c rest) ->
  (forall l', at_ l' ts (cur ++ String c "")%string rest ->
     at_ (back l') ts cur (String c rest) -> Q (byteZ c) l') ->
  wp next (fun _ => False) Q l.
Proof.
  intros Hc Hat H. eapply wp_next_peek; [exact Hat|]. intros l' Hback _ Hd.
  destruct (Hd c Hc) as (rest' & [= <-] & Hat'); [by apply peek_ascii|].
  rewrite peek_ascii by done. eauto.
Qed.

Lemma wp_next_back l ts cur rest (Q : Z -> lexer -> Prop) :
  at_ l ts cur rest ->
  (forall l', at_ (back l') ts cur rest -> Q (peek rest) l') ->
  wp next (fun _ => False) Q l.
Proof. intros Hat H. eapply wp_next_peek; [exact Hat|]. eauto. Qed.

Lemma wp_emit_ok t l ts cur rest (Q : unit -> lexer -> Prop) :
  at_ l ts cur rest -> length ts < max_tokens ->
  (forall l', at_ l' (ts ++ [Token t cur]) "" rest -> Q tt l') ->
  wp (emit t) (fun _ => False) Q l.
Proof. intros Hat Hlt H. eapply wp_emit; [exact Hat|auto|lia]. Qed.

Definition field_follow (rest : string) : Prop :=
  peek rest = byteZ "=" \/ peek rest = byteZ "}".

Definition segments_follow (rest : string) : Prop :=
  peek rest = byteZ ":" \/ peek rest = byteZ "}" \/ peek rest = eof.

Definition segment_follow (rest : string) : Prop :=
  peek rest = byteZ "/" \/ segments_follow rest.

Definition field_tail (ts : list token) : Prop :=
  ts = [] \/ exists ts', ts = Token tokenDot "." :: ts' /\ FieldPath ts'.

Lemma FieldPath_cases ts :
  FieldPath ts -> exists v ts', ts = Token tokenIdent v :: ts' /\ word isIdent v /\ field_tail ts'.
Proof. unfold field_tail. destruct 1; eauto 10. Qed.

Lemma field_tail_peek ts rest :
  field_tail ts -> field_follow rest -> isIdent (peek (tokens_String ts ++ rest)) = false.
Proof.
  intros [->|(ts' & -> & _)] HF; autorewrite with toks; simpl.
  - by destruct HF as [-> | ->].
  - by rewrite peek_ascii.
Qed.

Lemma lexFieldPath_loop_complete n :
  lex_complete n (lexFieldPath_loop n) field_tail field_follow.
Proof.
  induction n as [|n IH]; intros l ts ts' rest Hat HG HF Hlen Hn; [lia|].
  cbn [lexFieldPath_loop]. apply wp_bind. destruct HG as [->|(ts1 & -> & HG)].
  - eapply wp_next_back; [exact Hat|]. intros l' Hback. rewrite rune_is_false.
    2: { destruct HF as [E|E]; simpl; rewrite E; done. }
    eapply wp_backup; [exact Hback|]. intros l'' Hat''. by rewrite app_nil_r.
  - autorewrite with toks in *. simpl in *.
    eapply (wp_next_char "."); [done|exact Hat|]. intros l1 Hat1 _. rewrite rune_is_true. simpl.
    apply wp_bind. eapply wp_emit_ok; [exact Hat1|lia|]. intros l2 Hat2.
    destruct (FieldPath_cases _ HG) as (v & ts2 & -> & Hv & Htail).
    autorewrite with toks in Hat2, Hn. apply wp_bind.
    eapply wp_mono; [eapply (lexRun_complete isIdent); [exact Hat2|done| |]|].
    { by apply field_tail_peek. }
    { toks_lia. }
    intros [] l3 Hat3. eapply wp_mono; [eapply (IH l3 _ ts2); [exact Hat3|done|done|..]|].
    + toks_lia.
    + toks_lia.
    + intros [] l4 Hat4. eapply at_ts; [exact Hat4|]. toks_eq.
Qed.

Lemma lexFieldPath_complete n : lex_complete n lexFieldPath FieldPath field_follow.
Proof.
  intros l ts ts' rest Hat HG HF Hlen Hn.
  destruct (FieldPath_cases _ HG) as (v & ts2 & -> & Hv & Htail).
  autorewrite with toks in *. apply wp_bind.
  eapply wp_mono; [eapply (lexRun_complete isIdent); [exact Hat|done| |]|].
  { by apply field_tail_peek. }
  { toks_lia. }
  intros [] l1 Hat1. apply wp_bind, wp_get. pose proof (at_length _ _ _ _ Hat1) as Hl.
  eapply wp_mono; [eapply lexFieldPath_loop_complete; [exact Hat1|done|done|..]|].
  - toks_lia.
  - toks_lia.
  - intros [] l2 Hat2. eapply at_ts; [exact Hat2|]. toks_eq.
Qed.

(** The delimiters are in no class of runes. *)
Lemma segments_follow_classes rest :
  segment_follow rest -> isLiteral (peek rest) = false /\ peek rest <> byteZ "*".
Proof.
  assert (isLiteral eof = false) by apply class_eof.
  by intros [->|[->|[->| ->]]].
Qed.

Lemma lexVariable_complete n segs :
  lex_complete n segs Segments segments_follow ->
  lex_complete (S n) (lexVariable segs) Variable_ (fun _ => True).
Proof.
  intros Hsegs l ts ts' rest Hat HG _ Hlen Hn.
  assert (Hfield : forall l ts1 tail,
    FieldPath ts1 -> field_follow tail ->
    at_ l ts "" (String "{" (tokens_String ts1 ++ tail)) ->
    S (length ts + length ts1) <= max_tokens ->
    forall Q : unit -> lexer -> Prop,
    (forall l', at_ l' (ts ++ Token tokenVariableStart "{" :: ts1) "" tail ->
       wp (r ← next; r ← (if rune_is "=" r then emit tokenEqual;; segs;; next else mret r);
           if negb (rune_is "}" r) then errUnexpected else emit tokenVariableEnd)
          (fun _ => False) Q l') ->
    wp (lexVariable segs) (fun _ => False) Q l).
  { clear -U. intros l ts1 tail HF Hfol Hat Hlen Q HQ. apply wp_bind.
    eapply (wp_next_char "{"); [done|exact Hat|]. intros l1 Hat1 _. rewrite rune_is_true. simpl.
    apply wp_bind. eapply wp_emit_ok; [exact Hat1|lia|]. intros l2 Hat2. apply wp_bind.
    eapply wp_mono; [eapply lexFieldPath_complete; [exact Hat2|done|done|..]|].
    - toks_lia.
    - apply Nat.lt_succ_diag_r.
    - intros [] l3 Hat3. apply HQ. eapply at_ts; [exact Hat3|]. toks_eq. }
  destruct HG as [ts1 HF|ts1 ts2 HF HS]; autorewrite with toks in *; simpl in *.
  - eapply (Hfield l ts1); [done| |exact Hat|toks_lia|].
    { right. by apply peek_ascii. }
    intros l1 Hat1. apply wp_bind. eapply (wp_next_char "}"); [done|exact Hat1|].
    intros l2 Hat2 _. change (rune_is "=" (byteZ "}")) with false.
    apply wp_bind, wp_ret. rewrite rune_is_true. simpl.
    eapply wp_emit_ok; [exact Hat2|toks_lia|]. intros l3 Hat3.
    eapply at_ts; [exact Hat3|]. toks_eq.
  - eapply (Hfield l ts1); [done| |exact Hat|toks_lia|].
    { left. by apply peek_ascii. }
    intros l1 Hat1. apply wp_bind. eapply (wp_next_char "="); [done|exact Hat1|].
    intros l2 Hat2 _. rewrite rune_is_true. apply wp_bind, wp_bind.
    eapply wp_emit_ok; [exact Hat2|toks_lia|]. intros l3 Hat3. apply wp_bind.
    eapply wp_mono; [eapply Hsegs; [exact Hat3|done| | |]|].
    { right; left. by apply peek_ascii. }
    { toks_lia. }
    { toks_lia. }
    intros [] l4 Hat4. eapply (wp_next_char "}"); [done|exact Hat4|].
    intros l5 Hat5 _. rewrite rune_is_true. simpl.
    eapply wp_emit_ok; [exact Hat5|toks_lia|]. intros l6 Hat6.
    eapply at_ts; [exact Hat6|]. toks_eq.
Qed.

Lemma Segment_complete n segs :
  lex_complete n segs Segments segments_follow ->
  lex_complete (S n) (lexSegment segs) Segment segment_follow.
Proof.
  intros Hsegs l ts ts' rest Hat HG HF Hlen Hn.
  destruct (segments_follow_classes rest HF) as [Hlit Hstar].
  destruct HG as [| |v (r & rs & Er & HL & Hrs & Hall)|ts' HV]; autorewrite with toks in *.
  - apply wp_bind. eapply (wp_next_char "*"); [done|exact Hat|]. intros l1 Hat1 _.
    change (IsLetter (byteZ "*")) with false. rewrite rune_is_true. cbn [negb].
    apply wp_bind. eapply wp_next_back; [exact Hat1|]. intros l2 Hback.
    rewrite rune_is_false by done. apply wp_bind. eapply wp_backup; [exact Hback|].
    intros l3 Hat3. eapply wp_emit_ok; [exact Hat3|toks_lia|auto].
  - apply wp_bind. eapply (wp_next_char "*"); [done|exact Hat|]. intros l1 Hat1 _.
    change (IsLetter (byteZ "*")) with false. rewrite rune_is_true. cbn [negb].
    apply wp_bind. eapply (wp_next_char "*"); [done|exact Hat1|]. intros l2 Hat2 _.
    rewrite rune_is_true. eapply wp_emit_ok; [exact Hat2|toks_lia|auto].
  - assert (Hv : v <> "") by (intros ->; done).
    destruct (DecodeRune v) as [r' w] eqn:E. rewrite (runes_cons v r' w) in Er by done.
    injection Er as -> Ers. destruct (IsLetter_range r HL) as [_ Hr].
    assert (E' := DecodeRune_app v rest r w E Hr).
    pose proof (proj2 (DecodeRune_width v) Hv) as Hw. rewrite E in Hw. simpl in Hw.
    apply wp_bind. eapply wp_next; [exact Hat|by destruct v|].
    intros r1 w1 l1 _ E1 Hat1 _. rewrite E' in E1. injection E1 as <- <-. rewrite HL.
    rewrite str_drop_app_le in Hat1 by lia.
    eapply wp_mono; [eapply (lexRun_complete isLiteral); [exact Hat1| |done|toks_lia]|].
    { split; [|by rewrite Ers]. intros Ed. by rewrite Ed in Ers. }
    intros [] l2 Hat2. eapply at_ts; [exact Hat2|]. do 3 f_equal.
    apply (str_app_inv_tail _ _ rest). rewrite !str_app_assoc, <-str_drop_app_le by lia.
    by rewrite str_take_drop.
  - assert (Hb : exists tail, tokens_String ts' = String "{" tail).
    { destruct HV; autorewrite with toks; simpl; eauto. }
    destruct Hb as [tail Hb]. apply wp_bind. rewrite Hb in Hat.
    eapply (wp_next_char "{"); [done|exact Hat|]. intros l1 _ Hback.
    change (IsLetter (byteZ "{")) with false. change (rune_is "*" (byteZ "{")) with false.
    rewrite rune_is_true. cbn [negb]. apply wp_bind. eapply wp_backup; [exact Hback|].
    intros l2 Hat2. eapply (lexVariable_complete n); try done.
    by rewrite Hb.
Qed.

(** The follow sets compose: what ends a segment list ends its last segment. *)
Lemma Segments_fuel_complete n : lex_complete n (lexSegments_fuel n) Segments segments_follow.
Proof.
  induction n as [|n IH]; intros l ts ts' rest Hat HG HF Hlen Hn; [lia|].
  cbn [lexSegments_fuel]. apply wp_bind. destruct HG as [ts' HG|ts1 ts2 HG1 HG2].
  - eapply wp_mono; [eapply (Segment_complete n); [exact IH|exact Hat|done|by right|done|done]|].
    intros [] l1 Hat1. apply wp_bind. eapply wp_next_back; [exact Hat1|]. intros l2 Hback.
    rewrite rune_is_false by (by destruct HF as [->|[->| ->]]).
    eapply wp_backup; [exact Hback|auto].
  - autorewrite with toks in *. simpl in *.
    eapply wp_mono; [eapply (Segment_complete n); [exact IH|exact Hat|done|..]|].
    { left. by apply peek_ascii. }
    { toks_lia. }
    { toks_lia. }
    intros [] l1 Hat1. apply wp_bind. eapply (wp_next_char "/"); [done|exact Hat1|].
    intros l2 Hat2 _. rewrite rune_is_true. cbn [negb]. apply wp_bind.
    eapply wp_emit_ok; [exact Hat2|toks_lia|]. intros l3 Hat3.
    eapply wp_mono; [eapply (IH l3 _ ts2); [exact Hat3|done|done|..]|].
    { toks_lia. }
    { toks_lia. }
    intros [] l4 Hat4. eapply at_ts; [exact Hat4|]. toks_eq.
Qed.

Lemma lexSegments_complete n : lex_complete n lexSegments Segments segments_follow.
Proof.
  intros l ts ts' rest Hat HG HF Hlen Hn. apply wp_bind, wp_get.
  eapply Segments_fuel_complete; try done. pose proof (at_length _ _ _ _ Hat). lia.
Qed.

Lemma wp_end l ts (Q : unit -> lexer -> Prop) :
  at_ l ts "" "" -> length ts < max_tokens ->
  (forall l', at_ l' (ts ++ [Token tokenEOF ""]) "" "" -> Q tt l') ->
  wp (r ← next; if (r =? eof)%Z then emit tokenEOF else errUnexpected)
     (fun _ => False) Q l.
Proof.
  intros Hat Hlt HQ. apply wp_bind. eapply wp_next; [exact Hat| |done].
  intros _ l1 Hat1 _. simpl. by eapply wp_emit_ok.
Qed.

Lemma lexTemplate_complete l ts :
  at_ l [] "" (tokens_String ts) -> Template ts -> length ts <= max_tokens ->
  wp lexTemplate (fun _ => False) (fun _ l' => at_ l' ts "" "") l.
Proof.
  intros Hat HG Hlen.
  assert (Hseg : exists ts1 ts2, ts = Token tokenSlash "/" :: ts1 ++ ts2 /\ Segments ts1 /\
    segments_follow (tokens_String ts2) /\
    (ts2 = [Token tokenEOF ""] \/ exists v, word isLiteral v /\
      ts2 = [Token tokenVerb ":"; Token tokenLiteral v; Token tokenEOF ""])).
  { destruct HG as [ts1 HS|ts1 v HS Hv]; eexists _, _; (split; [done|]); (split; [done|]).
    - split; [by right; right|by left].
    - split; [left; autorewrite with toks; simpl; by apply peek_ascii|eauto]. }
  destruct Hseg as (ts1 & ts2 & -> & HS & Hfol & Hend). clear HG.
  autorewrite with toks in *. simpl in *.
  apply wp_bind. eapply (wp_next_char "/"); [done|exact Hat|]. intros l1 Hat1 _.
  rewrite rune_is_true. cbn [negb]. apply wp_bind.
  eapply wp_emit_ok; [exact Hat1|unfold max_tokens; simpl; lia|]. intros l2 Hat2. apply wp_bind.
  eapply wp_mono; [eapply lexSegments_complete; [exact Hat2|done|done|toks_lia|apply Nat.lt_succ_diag_r]|].
  intros [] l3 Hat3. destruct Hend as [->|(v & Hv & ->)].
  - apply wp_bind. eapply wp_next; [exact Hat3| |done]. intros _ l4 Hat4 _.
    rewrite rune_is_eof. simpl. eapply wp_emit_ok; [exact Hat4|toks_lia|].
    intros l5 Hat5. eapply at_ts; [exact Hat5|]. toks_eq.
  - autorewrite with toks in *. simpl in *. apply wp_bind.
    eapply (wp_next_char ":"); [done|exact Hat3|]. intros l4 Hat4 _. rewrite rune_is_true.
    apply wp_bind. eapply wp_emit_ok; [exact Hat4|toks_lia|]. intros l5 Hat5. apply wp_bind.
    rewrite <-(str_app_nil_r v) in Hat5.
    eapply wp_mono; [eapply (lexRun_complete isLiteral); [exact Hat5|done|apply class_eof|toks_lia]|].
    intros [] l6 Hat6. eapply wp_end; [exact Hat6|toks_lia|].
    intros l7 Hat7. eapply at_ts; [exact Hat7|]. toks_eq.
Qed.

Lemma lexPath_fuel_complete n :
  lex_complete n (lexPath_fuel n) RequestPath (fun rest => rest = "").
Proof.
  induction n as [|n IH]; intros l ts ts' rest Hat HG -> Hlen Hn; [lia|].
  rewrite str_app_nil_r in *. cbn [lexPath_fuel]. apply wp_bind.
  assert (Hpart : forall c t v ts1, (byteZ c < RuneSelf)%Z -> word isPath v -> RequestPath ts1 ->
    isPath (peek (tokens_String ts1)) = false /\ (forall l1,
    at_ l1 ts (String c "") (v ++ tokens_String ts1) ->
    S (length ts + S (length ts1)) <= max_tokens -> String.length (v ++ tokens_String ts1) < n ->
    wp (emit t;; lexPathSegment;; lexPath_fuel n) (fun _ => False)
       (fun _ l' => at_ l' (ts ++ Token t (String c "") :: Token tokenPath v :: ts1) "" "") l1)).
  { clear -U IH. intros c t v ts1 Hc Hv HG.
    assert (Hstop : isPath (peek (tokens_String ts1)) = false).
    { destruct HG; autorewrite with toks; simpl; [apply class_eof|by rewrite peek_ascii..]. }
    split; [done|]. intros l1 Hat1 Hlen Hn. apply wp_bind.
    eapply wp_emit_ok; [exact Hat1|lia|]. intros l2 Hat2. apply wp_bind.
    eapply wp_mono; [eapply (lexRun_complete isPath); [exact Hat2|done|done|toks_lia]|].
    intros [] l3 Hat3. rewrite <-(str_app_nil_r (tokens_String ts1)) in Hat3.
    eapply wp_mono; [eapply IH; [exact Hat3|done|done|toks_lia|]|].
    { rewrite str_app_nil_r. toks_lia. }
    intros [] l4 Hat4. eapply at_ts; [exact Hat4|]. toks_eq. }
  destruct HG as [|v ts1 Hv HG|v ts1 Hv HG]; autorewrite with toks in *; simpl in *.
  - eapply wp_next; [exact Hat| |done]. intros _ l1 Hat1 _. rewrite !rune_is_eof. simpl.
    eapply wp_emit_ok; [exact Hat1|lia|auto].
  - destruct (Hpart "/"%char tokenSlash v ts1) as [_ H]; [done..|].
    eapply (wp_next_char "/"); [done|exact Hat|]. intros l1 Hat1 _. rewrite rune_is_true.
    apply H; [done|lia|lia].
  - destruct (Hpart ":"%char tokenVerb v ts1) as [_ H]; [done..|].
    eapply (wp_next_char ":"); [done|exact Hat|]. intros l1 Hat1 _.
    change (rune_is "/" (byteZ ":")) with false. rewrite rune_is_true.
    apply H; [done|lia|lia].
Qed.

Lemma lexPath_complete l ts :
  at_ l [] "" (tokens_String ts) -> RequestPath ts -> length ts <= max_tokens ->
  wp lexPath (fun _ => False) (fun _ l' => at_ l' ts "" "") l.
Proof.
  intros Hat HG Hlen. apply wp_bind, wp_get. rewrite <-(str_app_nil_r (tokens_String ts)) in Hat.
  eapply wp_mono; [eapply lexPath_fuel_complete; [exact Hat|done|done|done|]|done].
  pose proof (at_length _ _ _ _ Hat). lia.
Qed.

Lemma run_lexer_complete f ts :
  wp f (fun _ => False) (fun _ l' => at_ l' ts "" "") (new_lexer (tokens_String ts)) ->
  run_lexer f (tokens_String ts) = Ok ts.
Proof.
  unfold wp, run_lexer. destruct (f _) as [l [[]| | |]]; try done. by intros [-> _].
Qed.
End Complete.

(** ** The theorems *)

Section Theorems.
Context `{U : Unicode}.

Lemma lexers_total_template s :
  (exists ts, run_lexer lexTemplate s = Ok ts) \/
  (exists e, run_lexer lexTemplate s = Err e /\ lex_error e).
Proof.
  pose proof (run_lexer_sound lexTemplate Template s lexTemplate_sound) as H.
  destruct (run_lexer lexTemplate s); eauto; done.
Qed.

(** A segment list starts with a star, a brace or two bytes of a literal. *)
Lemma Segments_head ts :
  Segments ts ->
  (exists rest, tokens_String ts = String "*" rest) \/
  (exists rest, tokens_String ts = String "{" rest) \/ 2 <= String.length (tokens_String ts).
Proof.
  assert (Hlen : forall v, 2 <= length (runes v) -> 2 <= String.length v).
  { intros v H. destruct v as [|c [|d v]]; simpl; [simpl in H; lia| |lia].
    exfalso. revert H. unfold runes. cbn [runes_fuel String.length].
    destruct (DecodeRune _) as [r w]. simpl. lia. }
  assert (Hone : forall ts, Segment ts ->
    (exists rest, tokens_String ts = String "*" rest) \/
    (exists rest, tokens_String ts = String "{" rest) \/ 2 <= String.length (tokens_String ts)).
  { destruct 1 as [| |v (r & rs & Hr & _ & Hrs & _)|ts' HV].
    - left. by eexists.
    - left. by eexists.
    - right; right. autorewrite with toks. apply Hlen. rewrite Hr.
      destruct rs; simpl; [done|lia].
    - right; left. destruct HV; autorewrite with toks; by eexists. }
  destruct 1 as [ts H|ts1 ts2 H _]; [auto|]. apply Hone in H. autorewrite with toks.
  destruct H as [[rest ->]|[[rest ->]|H]]; simpl; eauto.
  right; right. rewrite str_length_app. lia.
Qed.

Lemma lexTemplate_iff s ts :
  run_lexer lexTemplate s = Ok ts <->
  Template ts /\ tokens_String ts = s /\ length ts <= max_tokens.
Proof.
  split.
  - intros E. pose proof (run_lexer_sound lexTemplate Template s lexTemplate_sound) as H.
    by rewrite E in H.
  - intros (HG & <- & Hlen). apply run_lexer_complete, lexTemplate_complete; auto using at_new.
Qed.

Lemma lexPath_iff s ts :
  run_lexer lexPath s = Ok ts <->
  RequestPath ts /\ tokens_String ts = s /\ length ts <= max_tokens.
Proof.
  split.
  - intros E. pose proof (run_lexer_sound lexPath RequestPath s lexPath_sound) as H.
    by rewrite E in H.
  - intros (HG & <- & Hlen). apply run_lexer_complete, lexPath_complete; auto using at_new.
Qed.

(** C30 [lexTemplate] accepts a string exactly when it is the text of a token list
    of the template grammar of at most 64 tokens, and returns that list: nothing
    is lost, and what is printed is read back. *)
Theorem lexTemplate_correct s ts :
  run_lexer lexTemplate s = Ok ts <->
  Template ts /\ tokens_String ts = s /\ length ts <= max_tokens.
Proof. apply lexTemplate_iff. Qed.

(** C31 [lexPath] accepts a string exactly when it is a sequence of parts, each a
    slash or a colon and a nonempty run of path characters, of at most 64 tokens
    with the closing end-of-file token, and returns those tokens. *)
Theorem lexPath_correct s ts :
  run_lexer lexPath s = Ok ts <->
  RequestPath ts /\ tokens_String ts = s /\ length ts <= max_tokens.
Proof. apply lexPath_iff. Qed.

(** On every input both lexers return: they end within the fuel with tokens or
    with an [InvalidArgument] status, and no slice of the input is out of range. *)
Theorem lexers_total s :
  ((exists ts, run_lexer lexTemplate s = Ok ts) \/
    (exists e, run_lexer lexTemplate s = Err e /\ lex_error e)) /\
  ((exists ts, run_lexer lexPath s = Ok ts) \/
    (exists e, run_lexer lexPath s = Err e /\ lex_error e)).
Proof.
  split; [apply lexers_total_template|].
  pose proof (run_lexer_sound lexPath RequestPath s lexPath_sound) as H2.
  destruct (run_lexer lexPath s); eauto; done.
Qed.

(** A literal segment of one letter is refused: [lexSegment] consumes the letter
    and [lexLiteral] wants another rune, although the grammar in the comment of
    lexer.go has no such limit. *)
Theorem lexTemplate_one_letter c :
  IsLetter (byteZ c) = true ->
  exists e, run_lexer lexTemplate (String "/" (String c "")) = Err e /\ lex_error e.
Proof.
  intros HL. destruct (lexers_total_template (String "/" (String c ""))) as [[ts E]|?]; [|done].
  exfalso. apply lexTemplate_iff in E as (HG & Ht & _).
  assert (Hts : exists ts1 ts2, Segments ts1 /\ (tokens_String ts1 ++ ts2)%string = String c "").
  { destruct HG as [ts1 HS|ts1 v HS Hv]; rewrite tokens_String_cons, tokens_String_app in Ht;
      injection Ht as Ht; eauto. }
  destruct Hts as (ts1 & ts2 & HS & Et). apply Segments_head in HS.
  destruct HS as [[rest Hr]|[[rest Hr]|Hlen]].
  - rewrite Hr in Et. injection Et as <- _. done.
  - rewrite Hr in Et. injection Et as <- _. done.
  - apply (f_equal String.length) in Et. rewrite str_length_app in Et. simpl in Et. lia.
Qed.
End Theorems.

Lemma lexTemplate_one_letter_witness :
  exists e, run_lexer lexTemplate "/v" = Err e /\ lex_error e.
Proof. apply (lexTemplate_one_letter "v"). vm_compute. reflexivity. Defined.
