(* ===== verification/Base64.v ===== *)
(** encoding/base64 as the program uses it: the standard and URL alphabets, with
    and without padding ([parseParam], [encodeBinHeader], [decodeBinHeader], the
    gRPC-Web text framing).  Bytes are the characters of a [string]. *)

From S2P Require Import Prelude.
Local Open Scope Z_scope.

Inductive alphabet := StdAlphabet | URLAlphabet.
Record encoding := Encoding { enc_alphabet : alphabet; enc_padding : bool }.

Definition StdEncoding : encoding := Encoding StdAlphabet true.
Definition URLEncoding : encoding := Encoding URLAlphabet true.
Definition RawStdEncoding : encoding := Encoding StdAlphabet false.

(** [enc.WithPadding(base64.NoPadding)] *)
Definition WithNoPadding (enc : encoding) : encoding := Encoding (enc_alphabet enc) false.

Definition chr (z : Z) : ascii := ascii_of_N (Z.to_N z).

(** The digit of a sextet, and back. *)
Definition digit (a : alphabet) (z : Z) : ascii :=
  if z <? 26 then chr (65 + z)
  else if z <? 52 then chr (71 + z)
  else if z <? 62 then chr (z - 4)
  else match a with
       | StdAlphabet => if z =? 62 then "+"%char else "/"%char
       | URLAlphabet => if z =? 62 then "-"%char else "_"%char
       end.

Definition undigit (a : alphabet) (c : ascii) : option Z :=
  let x := byteZ c in
  if (65 <=? x) && (x <=? 90) then Some (x - 65)
  else if (97 <=? x) && (x <=? 122) then Some (x - 71)
  else if (48 <=? x) && (x <=? 57) then Some (x + 4)
  else match a with
       | StdAlphabet => if x =? 43 then Some 62 else if x =? 47 then Some 63 else None
       | URLAlphabet => if x =? 45 then Some 62 else if x =? 95 then Some 63 else None
       end.

(** Three bytes to four sextets, and back. *)
Definition sextets (b0 b1 b2 : Z) : Z * Z * Z * Z :=
  (b0 / 4, b0 mod 4 * 16 + b1 / 16, b1 mod 16 * 4 + b2 / 64, b2 mod 64).

Definition byte0 (s0 s1 : Z) : Z := s0 * 4 + s1 / 16.
Definition byte1 (s1 s2 : Z) : Z := s1 mod 16 * 16 + s2 / 4.
Definition byte2 (s2 s3 : Z) : Z := s2 mod 4 * 64 + s3.

Definition padded (enc : encoding) (s pad : string) : string :=
  if enc_padding enc then (s ++ pad)%string else s.

(** [enc.EncodeToString] *)
Fixpoint EncodeToString (enc : encoding) (s : string) : string :=
  let d := digit (enc_alphabet enc) in
  match s with
  | EmptyString => EmptyString
  | String c0 EmptyString =>
      let '(s0, s1, _, _) := sextets (byteZ c0) 0 0 in
      padded enc (String (d s0) (String (d s1) "")) "=="
  | String c0 (String c1 EmptyString) =>
      let '(s0, s1, s2, _) := sextets (byteZ c0) (byteZ c1) 0 in
      padded enc (String (d s0) (String (d s1) (String (d s2) ""))) "="
  | String c0 (String c1 (String c2 s)) =>
      let '(s0, s1, s2, s3) := sextets (byteZ c0) (byteZ c1) (byteZ c2) in
      String (d s0) (String (d s1) (String (d s2) (String (d s3) (EncodeToString enc s))))
  end.

(** The decoder ignores carriage returns and line feeds. *)
Fixpoint strip_newlines (s : string) : string :=
  match s with
  | EmptyString => EmptyString
  | String c s =>
      if (byteZ c =? 10) || (byteZ c =? 13) then strip_newlines s
      else String c (strip_newlines s)
  end.

(** One quantum after another: a short last quantum is an error when the encoding
    pads, and the padding must end the input when it does. *)
Fixpoint decode_quanta (enc : encoding) (s : string) : option string :=
  let u := undigit (enc_alphabet enc) in
  match s with
  | EmptyString => Some EmptyString
  | String _ EmptyString => None
  | String c0 (String c1 s') =>
      s0 ← u c0; s1 ← u c1;
      match s' with
      | EmptyString =>
          if enc_padding enc then None else Some (String (chr (byte0 s0 s1)) "")
      | String c2 s'' =>
          match u c2 with
          | None =>
              if enc_padding enc && String.eqb s' "==" then Some (String (chr (byte0 s0 s1)) "")
              else None
          | Some s2 =>
              match s'' with
              | EmptyString =>
                  if enc_padding enc then None
                  else Some (String (chr (byte0 s0 s1)) (String (chr (byte1 s1 s2)) ""))
              | String c3 s =>
                  match u c3 with
                  | None =>
                      if enc_padding enc && String.eqb s'' "="
                      then Some (String (chr (byte0 s0 s1)) (String (chr (byte1 s1 s2)) ""))
                      else None
                  | Some s3 =>
                      rest ← decode_quanta enc s;
                      Some (String (chr (byte0 s0 s1)) (String (chr (byte1 s1 s2))
                             (String (chr (byte2 s2 s3)) rest)))
                  end
              end
          end
      end
  end.

(** [enc.DecodeString]: none for a [CorruptInputError]. *)
Definition DecodeString (enc : encoding) (s : string) : option string :=
  decode_quanta enc (strip_newlines s).

(** ** Theorems *)

Lemma byteZ_chr z : 0 <= z < 256 -> byteZ (chr z) = z.
Proof. intros H. unfold byteZ, chr. rewrite N_ascii_embedding; lia. Qed.

Lemma chr_byteZ c : chr (byteZ c) = c.
Proof. unfold byteZ, chr. by rewrite N2Z.id, ascii_N_embedding. Qed.

Lemma digit_cases a z : 0 <= z < 64 -> undigit a (digit a z) = Some z /\
  byteZ (digit a z) <> 10 /\ byteZ (digit a z) <> 13.
Proof.
  intros H. assert (Hall : forallb (fun n => let z := Z.of_nat n in
    match undigit a (digit a z) with Some y => y =? z | None => false end
    && negb (byteZ (digit a z) =? 10) && negb (byteZ (digit a z) =? 13)) (seq 0 64) = true)
    by (destruct a; vm_compute; reflexivity).
  rewrite forallb_forall in Hall. specialize (Hall (Z.to_nat z)). rewrite in_seq in Hall.
  rewrite Z2Nat.id in Hall by lia. specialize (Hall ltac:(lia)).
  cbn zeta in Hall. destruct (undigit a (digit a z)); [|discriminate Hall]. split; [f_equal|]; lia.
Qed.

(** Induction by groups of three bytes. *)
Lemma string_ind3 (P : string -> Prop) :
  P "" -> (forall a, P (String a "")) -> (forall a b, P (String a (String b ""))) ->
  (forall a b c s, P s -> P (String a (String b (String c s)))) -> forall s, P s.
Proof.
  intros H0 H1 H2 H3. fix IH 1.
  intros [|a [|b [|c s]]]; [exact H0|apply H1|apply H2|apply H3, IH].
Qed.

Lemma sextets_range b0 b1 b2 s0 s1 s2 s3 :
  0 <= b0 < 256 -> 0 <= b1 < 256 -> 0 <= b2 < 256 -> sextets b0 b1 b2 = (s0, s1, s2, s3) ->
  0 <= s0 < 64 /\ 0 <= s1 < 64 /\ 0 <= s2 < 64 /\ 0 <= s3 < 64 /\
  byte0 s0 s1 = b0 /\ byte1 s1 s2 = b1 /\ byte2 s2 s3 = b2.
Proof.
  unfold sextets, byte0, byte1, byte2. intros H0 H1 H2 [= <- <- <- <-].
  repeat split; Z.to_euclidean_division_equations; lia.
Qed.

Definition not_newline (c : ascii) : bool := negb ((byteZ c =? 10) || (byteZ c =? 13)).

Lemma strip_newlines_id s : str_forallb not_newline s = true -> strip_newlines s = s.
Proof.
  induction s as [|c s IH]; simpl; [done|]. unfold not_newline.
  destruct (_ || _); simpl; [done|]. intros H. by rewrite IH.
Qed.

Lemma digit_not_newline a z : 0 <= z < 64 -> not_newline (digit a z) = true.
Proof. intros H. destruct (digit_cases a z H) as (_ & ? & ?). unfold not_newline. lia. Qed.

Lemma undigit_digit a z : 0 <= z < 64 -> undigit a (digit a z) = Some z.
Proof. intros H. apply (digit_cases a z H). Qed.

Ltac sextets c0 c1 c2 :=
  let H := fresh "H" in
  destruct (sextets c0 c1 c2) as [[[s0 s1] s2] s3] eqn:H;
  apply sextets_range in H; [|first [apply byteZ_range | lia]..];
  destruct H as (?&?&?&?&?&?&?).

Lemma encode_no_newline enc s : str_forallb not_newline (EncodeToString enc s) = true.
Proof.
  induction s as [|c0|c0 c1|c0 c1 c2 s IH] using string_ind3; [done|..]; cbn [EncodeToString].
  - sextets (byteZ c0) 0 0. unfold padded.
    destruct (enc_padding enc); simpl; by rewrite !digit_not_newline.
  - sextets (byteZ c0) (byteZ c1) 0. unfold padded.
    destruct (enc_padding enc); simpl; by rewrite !digit_not_newline.
  - sextets (byteZ c0) (byteZ c1) (byteZ c2). simpl. by rewrite !digit_not_newline.
Qed.

Lemma undigit_equal a : undigit a "=" = None.
Proof. by destruct a. Qed.

Lemma chr_byte z c : z = byteZ c -> chr z = c.
Proof. intros ->. apply chr_byteZ. Qed.

(** Decoding an encoded string gives the bytes back, with each of the four
    encodings the program uses. *)
Lemma base64_roundtrip enc s : DecodeString enc (EncodeToString enc s) = Some s.
Proof.
  unfold DecodeString. rewrite strip_newlines_id by apply encode_no_newline.
  induction s as [|c0|c0 c1|c0 c1 c2 s IH] using string_ind3; [done|..]; cbn [EncodeToString].
  - sextets (byteZ c0) 0 0. unfold padded.
    destruct (enc_padding enc) eqn:Ep; cbn; rewrite ?Ep, !undigit_digit by done; cbn.
    + rewrite undigit_equal. cbn. by rewrite (chr_byte _ c0).
    + by rewrite (chr_byte _ c0).
  - sextets (byteZ c0) (byteZ c1) 0. unfold padded.
    destruct (enc_padding enc) eqn:Ep; cbn; rewrite ?Ep, !undigit_digit by done; cbn.
    + rewrite undigit_equal. cbn. by rewrite (chr_byte _ c0), (chr_byte _ c1).
    + by rewrite (chr_byte _ c0), (chr_byte _ c1).
  - sextets (byteZ c0) (byteZ c1) (byteZ c2). cbn.
    rewrite !undigit_digit by done. cbn. rewrite IH. cbn.
    by rewrite (chr_byte _ c0), (chr_byte _ c1), (chr_byte _ c2).
Qed.

(** Whole groups of three bytes are encoded one by one. *)
Lemma EncodeToString_app enc s t :
  (String.length s mod 3 = 0)%nat -> EncodeToString enc (s ++ t) = (EncodeToString enc s ++ EncodeToString enc t)%string.
Proof.
  induction s as [|c0|c0 c1|c0 c1 c2 s IH] using string_ind3; [done..|]. intros H. cbn [append EncodeToString].
  destruct (sextets _ _ _) as [[[s0 s1] s2] s3]. cbn [append]. do 4 f_equal. apply IH. revert H. cbn [String.length].
  replace (S (S (S (String.length s)))) with (String.length s + 1 * 3)%nat by lia. by rewrite Nat.Div0.mod_add.
Qed.
