(* ===== verification/Json.v ===== *)
(** encoding/json and strconv as [parseParam] uses them: [json.Unmarshal] of one
    scalar into a bool, an integer of a width or a float.  A JSON [null] leaves
    the zero value and is no error, as Go documents. *)

From S2P Require Import Prelude.
From Stdlib Require Export SpecFloat.
Local Open Scope Z_scope.

Definition is_space (c : ascii) : bool :=
  let x := byteZ c in (x =? 32) || (x =? 9) || (x =? 13) || (x =? 10).

Definition is_digit (c : ascii) : bool := (48 <=? byteZ c) && (byteZ c <=? 57).

Fixpoint trim_left (s : string) : string :=
  match s with
  | String c s' => if is_space c then trim_left s' else s
  | EmptyString => EmptyString
  end.

Fixpoint trim_right (s : string) : string :=
  match s with
  | EmptyString => EmptyString
  | String c s =>
      match trim_right s with
      | EmptyString => if is_space c then EmptyString else String c EmptyString
      | t => String c t
      end
  end.

Definition json_value (raw : string) : string := trim_right (trim_left raw).

Fixpoint span_digits (s : string) : string * string :=
  match s with
  | String c s' =>
      if is_digit c then let '(d, r) := span_digits s' in (String c d, r)
      else (EmptyString, s)
  | EmptyString => (EmptyString, EmptyString)
  end.

(** The decimal number that a string of digits denotes. *)
Fixpoint digits_acc (acc : Z) (s : string) : Z :=
  match s with
  | EmptyString => acc
  | String c s => digits_acc (acc * 10 + (byteZ c - 48)) s
  end.
Definition digits_value (s : string) : Z := digits_acc 0 s.

(** A number literal of JSON: sign, integer part, fraction, exponent. *)
Record number := Number {
  num_neg : bool;
  num_int : string;
  num_frac : option string;
  num_exp : option (bool * string);
}.

Definition scan_exp (s : string) : option (option (bool * string)) :=
  match s with
  | EmptyString => Some None
  | String c s =>
      if Ascii.eqb c "e" || Ascii.eqb c "E" then
        let '(neg, s) := match s with
                         | String "-" s' => (true, s')
                         | String "+" s' => (false, s')
                         | _ => (false, s)
                         end in
        match span_digits s with
        | (String _ _ as d, EmptyString) => Some (Some (neg, d))
        | _ => None
        end
      else None
  end.

Definition scan_frac (s : string) : option (option string * string) :=
  match s with
  | String "." s =>
      match span_digits s with
      | (EmptyString, _) => None
      | (d, r) => Some (Some d, r)
      end
  | _ => Some (None, s)
  end.

Definition scan_number (s : string) : option number :=
  let '(neg, s) := match s with String "-" s' => (true, s') | _ => (false, s) end in
  let '(d, r) := span_digits s in
  match d with
  | EmptyString => None
  | String "0" (String _ _) => None
  | _ =>
      '(frac, r) ← scan_frac r;
      exp ← scan_exp r;
      Some (Number neg d frac exp)
  end.

Definition signed_value (neg : bool) (z : Z) : Z := if neg then - z else z.

(** The literal of an integer type: no fraction and no exponent. *)
Definition number_int (n : number) : option Z :=
  match num_frac n, num_exp n with
  | None, None => Some (signed_value (num_neg n) (digits_value (num_int n)))
  | _, _ => None
  end.

Definition unmarshal_bool (raw : string) : option bool :=
  let v := json_value raw in
  if String.eqb v "true" then Some true
  else if String.eqb v "false" then Some false
  else if String.eqb v "null" then Some false
  else None.

(** [w] bits, two's complement. *)
Definition unmarshal_int (w : Z) (raw : string) : option Z :=
  let v := json_value raw in
  if String.eqb v "null" then Some 0 else
  n ← scan_number v; z ← number_int n;
  if (- 2 ^ (w - 1) <=? z) && (z <? 2 ^ (w - 1)) then Some z else None.

(** [strconv.ParseUint] takes no sign. *)
Definition unmarshal_uint (w : Z) (raw : string) : option Z :=
  let v := json_value raw in
  if String.eqb v "null" then Some 0 else
  n ← scan_number v; z ← number_int n;
  if num_neg n then None else if z <? 2 ^ w then Some z else None.

(** [strconv.ParseFloat]: the correctly rounded value; overflow is an error. *)
Definition number_float (prec emax : Z) (n : number) : option spec_float :=
  let frac := default EmptyString (num_frac n) in
  let m := digits_value (num_int n ++ frac)%string in
  let e10 := match num_exp n with
             | None => 0
             | Some (neg, d) => signed_value neg (digits_value d)
             end - Z.of_nat (String.length frac) in
  let x := match m with
           | Zpos p =>
               if 0 <=? e10
               then binary_normalize prec emax (signed_value (num_neg n) (m * 10 ^ e10)) 0 false
               else SFdiv prec emax (S754_finite (num_neg n) p 0)
                          (S754_finite false (Z.to_pos (10 ^ (- e10))) 0)
           | _ => S754_zero (num_neg n)
           end in
  match x with S754_infinity _ | S754_nan => None | _ => Some x end.

Definition unmarshal_float (prec emax : Z) (raw : string) : option spec_float :=
  let v := json_value raw in
  if String.eqb v "null" then Some (S754_zero false) else
  n ← scan_number v; number_float prec emax n.

Definition unmarshal_float32 := unmarshal_float 24 128.
Definition unmarshal_float64 := unmarshal_float 53 1024.

(** ** Lemmas *)

Lemma unmarshal_int_range w raw z :
  1 <= w -> unmarshal_int w raw = Some z -> - 2 ^ (w - 1) <= z < 2 ^ (w - 1).
Proof.
  unfold unmarshal_int. intros Hw. destruct (String.eqb _ _).
  - intros [= <-]. pose proof (Z.pow_pos_nonneg 2 (w - 1)). lia.
  - destruct (scan_number _) as [n|]; [|done]. simpl. destruct (number_int n) as [z'|]; [|done].
    simpl. case_match eqn:E; [|done]. intros [= <-]. lia.
Qed.

Lemma digits_acc_nonneg acc s : 0 <= acc -> str_forallb is_digit s = true -> 0 <= digits_acc acc s.
Proof.
  revert acc. induction s as [|c s IH]; intros acc; simpl; [done|].
  intros Ha [Hc Hs]%andb_prop. apply IH; [|done]. unfold is_digit in Hc. lia.
Qed.

Lemma span_digits_spec s d r :
  span_digits s = (d, r) -> s = (d ++ r)%string /\ str_forallb is_digit d = true.
Proof.
  revert d r. induction s as [|c s IH]; intros d r; simpl; [by intros [= <- <-]|].
  destruct (is_digit c) eqn:Ec; [|by intros [= <- <-]].
  destruct (span_digits s) as [d' r'] eqn:E. intros [= <- <-].
  destruct (IH d' r' eq_refl) as [-> Hd]. simpl. by rewrite Ec.
Qed.

Lemma scan_number_digits s n :
  scan_number s = Some n -> str_forallb is_digit (num_int n) = true.
Proof.
  unfold scan_number. destruct (match s with String "-" s' => _ | _ => _ end) as [neg s'].
  destruct (span_digits s') as [d r] eqn:E. apply span_digits_spec in E as [_ Hd].
  intros H. enough (num_int n = d) by congruence.
  destruct d as [|c d]; [done|].
  repeat (case_match; simplify_eq; try done);
    destruct (scan_frac r) as [[frac r']|]; simpl in H; try done;
    destruct (scan_exp r') as [e|]; simpl in H; by simplify_eq.
Qed.

Lemma unmarshal_uint_range w raw z :
  0 <= w -> unmarshal_uint w raw = Some z -> 0 <= z < 2 ^ w.
Proof.
  unfold unmarshal_uint. intros Hw. destruct (String.eqb _ _).
  - intros [= <-]. pose proof (Z.pow_pos_nonneg 2 w). lia.
  - destruct (scan_number _) as [n|] eqn:E; [|done]. simpl.
    unfold number_int. destruct (num_frac n), (num_exp n); try done. simpl.
    destruct (num_neg n) eqn:En; [done|]. case_match eqn:Ez; [|done]. intros [= <-].
    apply scan_number_digits in E. pose proof (digits_acc_nonneg 0 _ (Z.le_refl 0) E).
    unfold signed_value, digits_value in *. lia.
Qed.
