(* ===== verification/Proto.v ===== *)
(** What the program uses of google.golang.org/protobuf and of the
    google.api.http annotations: descriptors, dynamic messages and the JSON
    decoder are the fields of the class [Protoreflect], as none of them is code of
    the repository; an HTTP rule is the data its generated Go type carries. *)

#[local] Set Warnings "-register-all".
From S2P Require Import Prelude Status Json.

(** ** Rules *)

Record CustomHttpPattern := MkCustomHttpPattern { CustomKind : string; CustomPath : string }.

(** The cases of the [pattern] oneof of google.api.HttpRule; the custom pattern is
    a pointer, which may be nil. *)
Inductive Pattern :=
  | HttpRule_Get (path : string)
  | HttpRule_Put (path : string)
  | HttpRule_Post (path : string)
  | HttpRule_Delete (path : string)
  | HttpRule_Patch (path : string)
  | HttpRule_Custom (custom : option CustomHttpPattern)
  | HttpRule_None.

Inductive HttpRule := Rule {
  Selector : string;
  rulePattern : Pattern;
  Body : string;
  ResponseBody : string;
  AdditionalBindings : list HttpRule;
}.

(** ** Descriptors and messages *)

(** [protoreflect.Kind] *)
Inductive Kind :=
  | BoolKind | EnumKind
  | Int32Kind | Sint32Kind | Uint32Kind
  | Int64Kind | Sint64Kind | Uint64Kind
  | Sfixed32Kind | Fixed32Kind | FloatKind
  | Sfixed64Kind | Fixed64Kind | DoubleKind
  | StringKind | BytesKind | MessageKind | GroupKind.

#[export] Instance Kind_eq_dec : EqDecision Kind.
Proof. solve_decision. Defined.

(** What [FindDescriptorByName] finds: a service, a descriptor of another kind, or
    nothing. *)
Inductive found_descriptor (SD OD : Type) :=
  | FoundService (sd : SD)
  | FoundOther (od : OD)
  | FoundNothing (e : error).
#[global] Arguments FoundService {SD OD} sd.
#[global] Arguments FoundOther {SD OD} od.
#[global] Arguments FoundNothing {SD OD} e.

Class Protoreflect := {
  FieldDescriptor : Type;
  FieldDescriptors : Type;
  MessageDescriptor : Type;
  MethodDescriptor : Type;
  ServiceDescriptor : Type;
  FileDescriptor : Type;
  (** the descriptors that are no services, and the names of their Go types *)
  OtherDescriptor : Type;
  OtherType : OtherDescriptor -> string;
  Message : Type;
  (** [protoregistry.Files] and a [MessageTypeResolver] *)
  Files : Type;
  Types : Type;

  (** FieldDescriptors *)
  ByJSONName : FieldDescriptors -> string -> option FieldDescriptor;
  ByName : FieldDescriptors -> string -> option FieldDescriptor;

  (** FieldDescriptor *)
  FieldKind : FieldDescriptor -> Kind;
  IsList : FieldDescriptor -> bool;
  IsMap : FieldDescriptor -> bool;
  FieldMessage : FieldDescriptor -> option MessageDescriptor;
  (** the full name of the enum type of an enum field, and its values *)
  FieldEnum : FieldDescriptor -> option string;
  EnumByName : FieldDescriptor -> string -> option Z;

  (** MessageDescriptor *)
  Fields : MessageDescriptor -> FieldDescriptors;
  MessageFullName : MessageDescriptor -> string;

  (** MethodDescriptor *)
  Input : MethodDescriptor -> MessageDescriptor;
  Output : MethodDescriptor -> MessageDescriptor;
  MethodFullName : MethodDescriptor -> string;
  IsStreamingClient : MethodDescriptor -> bool;
  IsStreamingServer : MethodDescriptor -> bool;
  MethodName : MethodDescriptor -> string;
  (** the google.api.http extension of its options *)
  MethodHTTP : MethodDescriptor -> option HttpRule;

  (** ServiceDescriptor, FileDescriptor *)
  ServiceFullName : ServiceDescriptor -> string;
  ServiceMethods : ServiceDescriptor -> list MethodDescriptor;
  MethodByName : ServiceDescriptor -> string -> option MethodDescriptor;
  FilePath : FileDescriptor -> string;
  FileServices : FileDescriptor -> list ServiceDescriptor;

  (** [protoregistry.Files] *)
  FindDescriptorByName : Files -> string -> found_descriptor ServiceDescriptor OtherDescriptor;
  FindFileByPath : Files -> string -> option FileDescriptor;
  RegisterFile : Files -> FileDescriptor -> outcome error Files;

  (** [protojson.Unmarshal] of the text of a well-known type *)
  protojson_Unmarshal : string -> string -> option Message;
  (** [strconv.Quote], whose table of printable runes is Go's *)
  strconv_Quote : string -> string;
}.

(** [protoreflect.Value], by the constructor that made it. *)
Inductive Value `{P : Protoreflect} :=
  | ValueOfBool (b : bool)
  | ValueOfInt32 (z : Z)
  | ValueOfInt64 (z : Z)
  | ValueOfUint32 (z : Z)
  | ValueOfUint64 (z : Z)
  | ValueOfFloat32 (f : spec_float)
  | ValueOfFloat64 (f : spec_float)
  | ValueOfString (s : string)
  | ValueOfBytes (s : string)
  | ValueOfEnum (z : Z)
  | ValueOfMessage (m : Message).

(** ** Messages

    A field holds one value or a list of them.  [Put] is [Set], and what [Mutable]
    leaves when its result is changed. *)

Inductive content `{P : Protoreflect} :=
  | Single (v : Value)
  | Repeated (l : list Value).

(** A field that holds one message. *)
Definition is_message `{P : Protoreflect} (fd : FieldDescriptor) : bool :=
  match FieldKind fd with MessageKind | GroupKind => negb (IsList fd) && negb (IsMap fd) | _ => false end.

(** The shape of a field's content; [Set] with another panics. *)
Definition shaped `{P : Protoreflect} (fd : FieldDescriptor) (c : content) : bool :=
  match c with
  | Repeated _ => IsList fd
  | Single v => negb (IsList fd) && (negb (is_message fd) || match v with ValueOfMessage _ => true | _ => false end)
  end.

Class Messages `{P : Protoreflect} := {
  Descriptor : Message -> MessageDescriptor;
  NewMessage : MessageDescriptor -> Message;
  Get : Message -> FieldDescriptor -> content;
  Put : Message -> FieldDescriptor -> content -> Message;
  (** different fields, and not two members of one oneof *)
  independent : FieldDescriptor -> FieldDescriptor -> Prop;

  Descriptor_Put m fd c : Descriptor (Put m fd c) = Descriptor m;
  Get_Put m fd c : shaped fd c = true -> Get (Put m fd c) fd = c;
  Get_Put_other m fd fd' c : independent fd fd' -> Get (Put m fd c) fd' = Get m fd';
  (** an unset message field reads as the empty message, an unset list as the empty list *)
  Get_shaped m fd : shaped fd (Get m fd) = true;
  Descriptor_New d : Descriptor (NewMessage d) = d;
}.

(** ** A concrete instance

    Descriptors as plain data, to evaluate the definitions with.  A message is its
    descriptor and its fields, or the text that protojson was given. *)

Inductive xmessage :=
  XMessage (xm_name : string) (xm_fields : list xfield)
with xfield :=
  XField (xf_name : string) (xf_kind : Kind) (xf_list xf_map : bool)
    (xf_message : option xmessage) (xf_enum : option (string * list (string * Z))).

Definition xf_name (f : xfield) := let 'XField n _ _ _ _ _ := f in n.
Definition xf_kind (f : xfield) := let 'XField _ k _ _ _ _ := f in k.
Definition xf_list (f : xfield) := let 'XField _ _ l _ _ _ := f in l.
Definition xf_map (f : xfield) := let 'XField _ _ _ m _ _ := f in m.
Definition xf_message (f : xfield) := let 'XField _ _ _ _ m _ := f in m.
Definition xf_enum (f : xfield) := let 'XField _ _ _ _ _ e := f in e.

(** A message field without a descriptor has the empty message's. *)
Definition xf_message_descriptor (f : xfield) : option xmessage :=
  match xf_message f, xf_kind f with
  | None, MessageKind => Some (XMessage "" [])
  | m, _ => m
  end.

Inductive xvalue :=
  | XBool (b : bool) | XInt32 (z : Z) | XInt64 (z : Z) | XUint32 (z : Z) | XUint64 (z : Z)
  | XFloat32 (f : spec_float) | XFloat64 (f : spec_float) | XString (s : string)
  | XBytes (s : string) | XEnum (z : Z) | XMsgVal (m : xmsg)
with xcontent := XSingle (v : xvalue) | XRepeated (l : list xvalue)
with xmsg :=
  | XText (d : xmessage) (text : string)
  | XMsg (d : xmessage) (fields : list (string * xcontent)).

Record xmethod := XMethod {
  xmd_name : string;
  xmd_input : xmessage;
  xmd_output : xmessage;
  xmd_client : bool;
  xmd_server : bool;
  xmd_http : option HttpRule;
}.

Record xservice := XService { xs_name : string; xs_methods : list xmethod }.
Record xfile := XFile { xfl_path : string; xfl_services : list xservice }.

(** The part of a full name after its last dot. *)
Definition short_name (n : string) : string := List.last (Split n ".") "".

(** The first of the list that passes the test. *)
Fixpoint find_first {A} (f : A -> bool) (l : list A) : option A :=
  match l with
  | [] => None
  | a :: l => if f a then Some a else find_first f l
  end.

Fixpoint find_xfield (fs : list xfield) (n : string) : option xfield :=
  match fs with
  | [] => None
  | f :: fs => if String.eqb (xf_name f) n then Some f else find_xfield fs n
  end.

Fixpoint assoc {A} (l : list (string * A)) (n : string) : option A :=
  match l with
  | [] => None
  | (k, a) :: l => if String.eqb k n then Some a else assoc l n
  end.

#[export] Instance plain_proto : Protoreflect := {|
  FieldDescriptor := xfield;
  FieldDescriptors := list xfield;
  MessageDescriptor := xmessage;
  MethodDescriptor := xmethod;
  ServiceDescriptor := xservice;
  FileDescriptor := xfile;
  OtherDescriptor := string;
  OtherType t := t;
  Message := xmsg;
  Files := list xfile;
  Types := unit;
  ByJSONName := find_xfield;
  ByName := find_xfield;
  FieldKind := xf_kind;
  IsList := xf_list;
  IsMap := xf_map;
  FieldMessage := xf_message_descriptor;
  FieldEnum f := fst <$> xf_enum f;
  EnumByName f n := e ← xf_enum f; assoc (snd e) n;
  Fields m := let 'XMessage _ fs := m in fs;
  MessageFullName m := let 'XMessage n _ := m in n;
  Input := xmd_input;
  Output := xmd_output;
  MethodFullName := xmd_name;
  IsStreamingClient := xmd_client;
  IsStreamingServer := xmd_server;
  MethodName m := short_name (xmd_name m);
  MethodHTTP := xmd_http;
  ServiceFullName := xs_name;
  ServiceMethods := xs_methods;
  MethodByName s n := find_first (fun m => String.eqb (short_name (xmd_name m)) n) (xs_methods s);
  FilePath := xfl_path;
  FileServices := xfl_services;
  FindDescriptorByName fs n :=
    match find_first (fun s => String.eqb (xs_name s) n) (concat (xfl_services <$> fs)) with
    | Some s => FoundService s
    | None => FoundNothing (External "protoregistry: not found")
    end;
  FindFileByPath fs p := find_first (fun f => String.eqb (xfl_path f) p) fs;
  RegisterFile fs f := Ok (fs ++ [f]);
  protojson_Unmarshal n text := Some (XText (XMessage n []) text);
  strconv_Quote s := String "034" (s ++ String "034" "");
|}.

Definition of_xvalue (v : xvalue) : Value :=
  match v with
  | XBool b => ValueOfBool b | XInt32 z => ValueOfInt32 z | XInt64 z => ValueOfInt64 z
  | XUint32 z => ValueOfUint32 z | XUint64 z => ValueOfUint64 z
  | XFloat32 f => ValueOfFloat32 f | XFloat64 f => ValueOfFloat64 f
  | XString s => ValueOfString s | XBytes s => ValueOfBytes s | XEnum z => ValueOfEnum z
  | XMsgVal m => @ValueOfMessage plain_proto m
  end.

Definition to_xvalue (v : Value) : xvalue :=
  match v with
  | ValueOfBool b => XBool b | ValueOfInt32 z => XInt32 z | ValueOfInt64 z => XInt64 z
  | ValueOfUint32 z => XUint32 z | ValueOfUint64 z => XUint64 z
  | ValueOfFloat32 f => XFloat32 f | ValueOfFloat64 f => XFloat64 f
  | ValueOfString s => XString s | ValueOfBytes s => XBytes s | ValueOfEnum z => XEnum z
  | ValueOfMessage m => XMsgVal m
  end.

Definition of_xcontent (c : xcontent) : content :=
  match c with XSingle v => Single (of_xvalue v) | XRepeated l => Repeated (of_xvalue <$> l) end.
Definition to_xcontent (c : content) : xcontent :=
  match c with Single v => XSingle (to_xvalue v) | Repeated l => XRepeated (to_xvalue <$> l) end.

Definition xmsg_descriptor (m : xmsg) : xmessage := match m with XText d _ | XMsg d _ => d end.
Definition xmsg_fields (m : xmsg) : list (string * xcontent) := match m with XText _ _ => [] | XMsg _ fs => fs end.

(** What an unset field reads as. *)
Definition xdefault (fd : xfield) : content :=
  if xf_list fd then Repeated [] else
  match xf_kind fd with
  | BoolKind => Single (ValueOfBool false)
  | StringKind => Single (ValueOfString "")
  | BytesKind => Single (ValueOfBytes "")
  | MessageKind | GroupKind =>
      Single (@ValueOfMessage plain_proto (XMsg (default (XMessage "" []) (xf_message_descriptor fd)) []))
  | EnumKind => Single (ValueOfEnum 0)
  | _ => Single (ValueOfInt32 0)
  end.

Definition xget (m : xmsg) (fd : xfield) : content :=
  match assoc (xmsg_fields m) (xf_name fd) with
  | Some c => if @shaped plain_proto fd (of_xcontent c) then of_xcontent c else xdefault fd
  | None => xdefault fd
  end.

Definition xput (m : xmsg) (fd : xfield) (c : content) : xmsg :=
  XMsg (xmsg_descriptor m) ((xf_name fd, to_xcontent c) :: xmsg_fields m).

Lemma of_to_xcontent c : of_xcontent (to_xcontent c) = c.
Proof.
  assert (Hv : forall v, of_xvalue (to_xvalue v) = v) by (by intros []).
  destruct c as [v|l]; simpl; f_equal; [done|]. induction l as [|v l IH]; [done|]. cbn. by rewrite Hv, IH.
Qed.

Lemma xdefault_shaped fd : @shaped plain_proto fd (xdefault fd) = true.
Proof.
  unfold xdefault, shaped, is_message. simpl. destruct (xf_list fd) eqn:El; [done|].
  destruct (xf_kind fd); simpl; rewrite ?El, ?orb_true_r; done.
Qed.

#[export] Instance plain_messages : @Messages plain_proto.
Proof.
  refine {| Descriptor := xmsg_descriptor : @Message plain_proto -> @MessageDescriptor plain_proto;
            NewMessage := fun d => XMsg d [];
            Get := xget; Put := xput;
            independent fd fd' := xf_name fd <> xf_name fd' |}.
  - done.
  - intros m fd c Hc. unfold xget, xput. simpl. by rewrite String.eqb_refl, of_to_xcontent, Hc.
  - intros m fd fd' c Hne. unfold xget, xput. simpl. by destruct (String.eqb_spec (xf_name fd) (xf_name fd')).
  - intros m fd. unfold xget. destruct (assoc _ _) as [c|]; [|apply xdefault_shaped].
    destruct (shaped fd (of_xcontent c)) eqn:E; [exact E|apply xdefault_shaped].
  - done.
Defined.

Definition string_field (n : string) : xfield := XField n StringKind false false None None.

Lemma plain_message_descriptor (fd : FieldDescriptor) : FieldKind fd = MessageKind -> FieldMessage fd <> None.
Proof. simpl. unfold xf_message_descriptor. intros ->. by destruct (xf_message fd). Qed.
