(* ===== verification/Params.v ===== *)
(** Parameters of larking/rules.go: the resolution of a dotted field path
    ([fieldPath]), the conversion of a text to a field's value ([parseParam]),
    the assignment of parameters to a message ([params.set]) and the query
    parameters of a request ([parseQueryParams]). *)

From S2P Require Import Prelude Status Base64 Json Proto.

Section Params.
Context `{P : Protoreflect}.

(** ** Field paths *)

Definition findField (fieldDescs : FieldDescriptors) (name : string) : option FieldDescriptor :=
  match ByJSONName fieldDescs name with
  | Some fd => Some fd
  | None => ByName fieldDescs name
  end.

Fixpoint fieldPath (fieldDescs : FieldDescriptors) (names : list string)
    : option (list FieldDescriptor) :=
  match names with
  | [] => Some []
  | name :: names =>
      fd ← findField fieldDescs name;
      match names with
      | [] => Some [fd]
      | _ =>
          msgDesc ← FieldMessage fd;
          fds ← fieldPath (Fields msgDesc) names;
          Some (fd :: fds)
      end
  end.

(** ** Parameters *)

(** [val] is none in the zero [param{fds: fds}] of a variable that binds nothing. *)
Record param := Param {
  param_val : option Value;
  param_fds : list FieldDescriptor;
}.

Definition quote (raw : string) : string :=
  match raw with
  | EmptyString => raw
  | String c _ =>
      if negb (Ascii.eqb c "034") ||
         negb (bool_decide (str_head (str_drop (String.length raw - 1) raw) = Some "034"%char))
      then strconv_Quote raw else raw
  end.

Definition isNullValue (fd : FieldDescriptor) : bool :=
  match FieldEnum fd with
  | Some name => String.eqb name "google.protobuf.NullValue"
  | None => false
  end.

(** The encoding [parseParam] chooses for bytes. *)
Definition bytesEncoding (raw : string) : encoding :=
  let enc := if ContainsByte raw "-" || ContainsByte raw "_"
             then URLEncoding else StdEncoding in
  if (String.length raw mod 4 =? 0)%nat then enc else WithNoPadding enc.

(** The well-known types written as JSON scalars: whether the text is quoted
    before protojson decodes it. *)
Definition wellKnown (name : string) : option bool :=
  if String.eqb name "Timestamp" then Some true
  else if String.eqb name "Duration" then Some true
  else if String.eqb name "BoolValue" then Some false
  else if String.eqb name "Int32Value" then Some false
  else if String.eqb name "Int64Value" then Some false
  else if String.eqb name "UInt32Value" then Some false
  else if String.eqb name "UInt64Value" then Some false
  else if String.eqb name "FloatValue" then Some false
  else if String.eqb name "DoubleValue" then Some false
  else if String.eqb name "BytesValue" then Some true
  else if String.eqb name "StringValue" then Some true
  else if String.eqb name "FieldMask" then Some true
  else None.

Definition errJSON : error := External "encoding/json".

Definition parseMessage (fd : FieldDescriptor) (raw : string) : go Value :=
  match FieldMessage fd with
  | None => Panic NilDereference
  | Some md =>
      let name := MessageFullName md in
      let unexpected := Err (Errorf "unexpected message type %s" [AStr name]) in
      if HasPrefix name "google.protobuf." then
        match wellKnown (str_drop 16 name) with
        | Some q =>
            match protojson_Unmarshal name (if q then quote raw else raw) with
            | Some msg => Ok (ValueOfMessage msg)
            | None => Err (External "protojson")
            end
        | None => unexpected
        end
      else unexpected
  end.

Definition parseEnum (fd : FieldDescriptor) (raw : string) : go Value :=
  match unmarshal_int 32 raw with
  | Some x => Ok (ValueOfEnum x)
  | None =>
      if isNullValue fd && String.eqb raw "null" then Ok (ValueOfEnum 0)
      else match EnumByName fd raw with
           | Some x => Ok (ValueOfEnum x)
           | None => Err (Errorf "unexpected enum %s" [AStr raw])
           end
  end.

Definition fromJSON {A} (f : A -> Value) (x : option A) : go Value :=
  match x with Some x => Ok (f x) | None => Err errJSON end.

Definition parseValue (fd : FieldDescriptor) (raw : string) : go Value :=
  match FieldKind fd with
  | BoolKind => fromJSON ValueOfBool (unmarshal_bool raw)
  | Int32Kind | Sint32Kind | Sfixed32Kind => fromJSON ValueOfInt32 (unmarshal_int 32 raw)
  | Int64Kind | Sint64Kind | Sfixed64Kind => fromJSON ValueOfInt64 (unmarshal_int 64 raw)
  | Uint32Kind | Fixed32Kind => fromJSON ValueOfUint32 (unmarshal_uint 32 raw)
  | Uint64Kind | Fixed64Kind => fromJSON ValueOfUint64 (unmarshal_uint 64 raw)
  | FloatKind => fromJSON ValueOfFloat32 (unmarshal_float32 raw)
  | DoubleKind => fromJSON ValueOfFloat64 (unmarshal_float64 raw)
  | StringKind => Ok (ValueOfString raw)
  | BytesKind =>
      match DecodeString (bytesEncoding raw) raw with
      | Some b => Ok (ValueOfBytes b)
      | None => Err (External "encoding/base64")
      end
  | EnumKind => parseEnum fd raw
  | MessageKind => parseMessage fd raw
  | GroupKind => Err (Errorf "unknown param type %s" [AStr "group"])
  end.

Definition parseParam (fds : list FieldDescriptor) (raw : string) : go param :=
  match last fds with
  | None => Err (Errorf "zero field" [])
  | Some fd => v ← parseValue fd raw; Ok (Param (Some v) fds)
  end.

(** ** Query parameters

    [values] is the map [url.Values] in the order its iteration takes. *)

Fixpoint parseValues (fds : list FieldDescriptor) (vs : list string) : go (list param) :=
  match vs with
  | [] => Ok []
  | v :: vs => p ← parseParam fds v; ps ← parseValues fds vs; Ok (p :: ps)
  end.

Fixpoint parseQueryParams (fieldDescs : FieldDescriptors)
    (values : list (string * list string)) : go (list param) :=
  match values with
  | [] => Ok []
  | (key, vs) :: values =>
      match fieldPath fieldDescs (Split key ".") with
      | None => Err (StatusError codes.InvalidArgument "unknown query param %q" [AStr key])
      | Some fds =>
          ps ← parseValues fds vs;
          ps' ← parseQueryParams fieldDescs values;
          Ok (ps ++ ps')
      end
  end.
End Params.

(** ** Assignment to a message *)

Section Assign.
Context `{P : Protoreflect} {M : Messages}.

(** [cur.Mutable(fd).Message()]: a field that holds no single message panics. *)
Definition MutableMessage (fd : FieldDescriptor) (m : Message) : go Message :=
  if is_message fd then
    match Get m fd with
    | Single (ValueOfMessage sub) => Ok sub
    | _ => Panic (PanicCall "type mismatch")
    end
  else Panic (PanicCall "invalid Mutable on field").

(** [cur = cur.Mutable(fd).Message()] for the fields of a path, then [f] on the
    message reached; what [f] does to it is done to the message around it. *)
Fixpoint at_message {A} (fds : list FieldDescriptor) (f : st Message error A) : st Message error A := fun m =>
  match fds with
  | [] => f m
  | fd :: fds =>
      match MutableMessage fd m with
      | Ok sub => let '(sub, o) := at_message fds f sub in (Put m fd (Single (ValueOfMessage sub)), o)
      | Err e => (m, Err e)
      | Panic p => (m, Panic p)
      | OutOfFuel => (m, OutOfFuel)
      end
  end.

(** [Set] and [Append] panic on a value of another type than the field's. *)
Definition typed (fd : FieldDescriptor) (v : Value) : bool :=
  match FieldKind fd, v with
  | BoolKind, ValueOfBool _
  | (Int32Kind | Sint32Kind | Sfixed32Kind), ValueOfInt32 _
  | (Int64Kind | Sint64Kind | Sfixed64Kind), ValueOfInt64 _
  | (Uint32Kind | Fixed32Kind), ValueOfUint32 _
  | (Uint64Kind | Fixed64Kind), ValueOfUint64 _
  | FloatKind, ValueOfFloat32 _
  | DoubleKind, ValueOfFloat64 _
  | StringKind, ValueOfString _
  | BytesKind, ValueOfBytes _
  | EnumKind, ValueOfEnum _
  | (MessageKind | GroupKind), ValueOfMessage _ => true
  | _, _ => false
  end.

(** The switch on the last field of the path. *)
Definition set_field (fd : FieldDescriptor) (val : option Value) : st Message error unit := fun m =>
  if IsList fd then
    match Get m fd, val with
    | Repeated l, Some v => if typed fd v then (Put m fd (Repeated (l ++ [v])), Ok tt)
                            else (m, Panic (PanicCall "type mismatch"))
    | _, _ => (m, Panic (PanicCall "invalid value"))
    end
  else if IsMap fd then (m, Err (Errorf "map fields are not supported" []))
  else match val with
       | Some v => if typed fd v then (Put m fd (Single v), Ok tt)
                   else (m, Panic (PanicCall "type mismatch"))
       | None => (m, Panic (PanicCall "invalid value"))
       end.

Fixpoint set_path (fds : list FieldDescriptor) (val : option Value) : st Message error unit :=
  match fds with
  | [] => mret tt
  | [fd] => set_field fd val
  | fd :: fds => at_message [fd] (set_path fds val)
  end.

Fixpoint params_set (ps : list param) : st Message error unit :=
  match ps with
  | [] => mret tt
  | p :: ps => set_path (param_fds p) (param_val p);; params_set ps
  end.

(** ** What an assignment leaves *)

(** The content at the end of a path. *)
Fixpoint read (fds : list FieldDescriptor) (m : Message) : content :=
  match fds with
  | [] => Single (ValueOfMessage m)
  | [fd] => Get m fd
  | fd :: fds => match Get m fd with Single (ValueOfMessage sub) => read fds sub | c => c end
  end.

(** A path that [set] accepts: through single messages, to a field that is no map. *)
Fixpoint settable (fds : list FieldDescriptor) : bool :=
  match fds with
  | [] => false
  | [fd] => IsList fd || negb (IsMap fd)
  | fd :: fds => is_message fd && settable fds
  end.

(** Paths that part at independent fields. *)
Fixpoint separate (fds gds : list FieldDescriptor) : Prop :=
  match fds, gds with
  | fd :: fds, gd :: gds => independent fd gd \/ fd = gd /\ is_message fd = true /\ separate fds gds
  | _, _ => False
  end.

(** The values that parameters give the field at a path, in their order. *)
Inductive values_for (fds : list FieldDescriptor) : list param -> list Value -> Prop :=
  | values_nil : values_for fds [] []
  | values_same v ps vs : values_for fds ps vs -> values_for fds (Param (Some v) fds :: ps) (v :: vs)
  | values_other p ps vs : separate (param_fds p) fds -> values_for fds ps vs -> values_for fds (p :: ps) vs.

Definition good_param (p : param) : Prop :=
  settable (param_fds p) = true /\
  exists v fd, param_val p = Some v /\ last (param_fds p) = Some fd /\ typed fd v = true.

(** What values assigned one after the other make of a content. *)
Definition assign (c : content) (vs : list Value) : content :=
  match c with
  | Repeated l => Repeated (l ++ vs)
  | Single _ => match last vs with Some v => Single v | None => c end
  end.

Lemma MutableMessage_ok fd m : is_message fd = true -> exists sub, MutableMessage fd m = Ok sub /\ Get m fd = Single (ValueOfMessage sub).
Proof.
  intros H. unfold MutableMessage. rewrite H. pose proof (Get_shaped m fd) as Hs. unfold shaped in Hs.
  assert (IsList fd = false) as Hl.
  { unfold is_message in H. destruct (IsList fd); [|done]. simpl in H. destruct (FieldKind fd); discriminate H. }
  rewrite Hl, H in Hs. destruct (Get m fd) as [[]|]; try done. eauto.
Qed.

Lemma Get_list m fd : IsList fd = true -> exists l, Get m fd = Repeated l.
Proof.
  intros H. pose proof (Get_shaped m fd) as Hs. unfold shaped in Hs. destruct (Get m fd); [|eauto]. by rewrite H in Hs.
Qed.

Lemma Get_single m fd : IsList fd = false -> exists v, Get m fd = Single v.
Proof.
  intros H. pose proof (Get_shaped m fd) as Hs. unfold shaped in Hs. destruct (Get m fd); [eauto|]. by rewrite H in Hs.
Qed.

Lemma typed_shaped fd v : IsList fd = false -> typed fd v = true -> shaped fd (Single v) = true.
Proof.
  intros Hl Ht. unfold shaped, is_message, typed in *. rewrite Hl.
  destruct (FieldKind fd), v; try discriminate Ht; simpl; by rewrite ?orb_true_r.
Qed.

Lemma message_shaped fd m : is_message fd = true -> shaped fd (Single (ValueOfMessage m)) = true.
Proof.
  unfold shaped, is_message. rewrite orb_true_r, andb_true_r. destruct (IsList fd); [|done]. by destruct (FieldKind fd).
Qed.

Lemma set_field_ok fd v m :
  IsList fd || negb (IsMap fd) = true -> typed fd v = true ->
  exists m', set_field fd (Some v) m = (m', Ok tt) /\ Descriptor m' = Descriptor m /\
    Get m' fd = assign (Get m fd) [v] /\ (forall gd, independent fd gd -> Get m' gd = Get m gd).
Proof.
  intros Hs Ht. unfold set_field. destruct (IsList fd) eqn:El.
  - destruct (Get_list m fd El) as [l ->]. rewrite Ht. eexists. split; [done|].
    split_and!; [apply Descriptor_Put|by apply Get_Put|]. intros gd Hi. by apply Get_Put_other.
  - simpl in Hs. apply negb_true_iff in Hs. rewrite Hs, Ht. eexists. split; [done|].
    destruct (Get_single m fd El) as [v0 ->].
    split_and!; [apply Descriptor_Put|by apply Get_Put, typed_shaped|]. intros gd Hi. by apply Get_Put_other.
Qed.

Lemma set_path_cons fd g fds v m sub :
  Get m fd = Single (ValueOfMessage sub) -> is_message fd = true ->
  set_path (fd :: g :: fds) v m =
    let '(sub, o) := set_path (g :: fds) v sub in (Put m fd (Single (ValueOfMessage sub)), o).
Proof.
  intros Hg Hm. unfold set_path at 1. fold set_path. cbn [at_message]. unfold MutableMessage. by rewrite Hm, Hg.
Qed.

Lemma set_path_ok fds v fd m :
  settable fds = true -> last fds = Some fd -> typed fd v = true ->
  exists m', set_path fds (Some v) m = (m', Ok tt) /\ Descriptor m' = Descriptor m /\
    read fds m' = assign (read fds m) [v] /\ (forall gds, separate fds gds -> read gds m' = read gds m).
Proof.
  revert m. induction fds as [|f fds IH]; intros m Hs Hl Ht; [done|]. destruct fds as [|g fds].
  - injection Hl as ->. destruct (set_field_ok fd v m Hs Ht) as (m' & Hm & Hd & Hg & Ho).
    exists m'. split_and!; [done..|]. intros [|gd gds] Hsep; [done|].
    destruct Hsep as [Hi|(_ & _ & [])]. simpl. by rewrite !(Ho gd Hi).
  - apply andb_prop in Hs as [Hm Hs]. rewrite last_cons_cons in Hl.
    destruct (MutableMessage_ok f m Hm) as (sub & _ & Hg).
    destruct (IH sub Hs Hl Ht) as (sub' & Hsub & _ & Hr & Ho).
    eexists. rewrite (set_path_cons f g fds _ m sub Hg Hm), Hsub. split; [done|].
    assert (Hg' : Get (Put m f (Single (ValueOfMessage sub'))) f = Single (ValueOfMessage sub'))
      by (by apply Get_Put, message_shaped).
    split; [apply Descriptor_Put|]. split.
    + change (read (f :: g :: fds) ?x) with
        (match Get x f with Single (ValueOfMessage s) => read (g :: fds) s | c => c end). by rewrite Hg', Hg.
    + intros [|gd gds] Hsep; [done|]. destruct Hsep as [Hi|(-> & _ & Hsep)].
      * simpl. by rewrite !Get_Put_other.
      * destruct gds as [|gd' gds]; [by destruct Hsep|].
        change (read (gd :: gd' :: gds) ?x) with
          (match Get x gd with Single (ValueOfMessage s) => read (gd' :: gds) s | c => c end).
        rewrite Hg', Hg. by apply Ho.
Qed.

Lemma assign_app c vs ws : assign (assign c vs) ws = assign c (vs ++ ws).
Proof.
  destruct c as [v|l]; simpl; [|by rewrite app_assoc].
  rewrite last_app. destruct (last vs); simpl; by destruct (last ws).
Qed.

(** C37 Assigning well-typed parameters to settable paths always succeeds; a field
    then holds the last of its values, a repeated field its old elements and then
    all of its values in their order, and every field apart from the paths what it
    held before. *)
Theorem params_set_spec ps m :
  Forall good_param ps ->
  exists m', params_set ps m = (m', Ok tt) /\ Descriptor m' = Descriptor m /\
    forall fds vs, values_for fds ps vs -> read fds m' = assign (read fds m) vs.
Proof.
  revert m. induction ps as [|p ps IH]; intros m Hp.
  - exists m. split_and!; [done..|]. intros fds vs H. inversion H; subst.
    destruct (read fds m); simpl; by rewrite ?app_nil_r.
  - apply Forall_cons in Hp as [[Hs (v & fd & Hv & Hl & Ht)] Hp].
    destruct (set_path_ok _ v fd m Hs Hl Ht) as (m1 & H1 & Hd1 & Hr1 & Ho1).
    destruct (IH m1 Hp) as (m2 & H2 & Hd2 & Hr2). exists m2.
    cbn [params_set]. rewrite Hv, (st_bind_run _ _ _ _ _ H1). split_and!; [done|congruence|].
    intros fds vs H. inversion H as [|v' ps' vs' H'|p' ps' vs' Hsep H']; subst.
    + simpl in *. injection Hv as <-. rewrite (Hr2 _ _ H'), Hr1. apply assign_app.
    + rewrite (Hr2 _ _ H'). f_equal. by apply Ho1.
Qed.

(** A parameter whose path goes through a repeated field, or any field that holds
    no single message, panics: the paths of query parameters and of path variables
    are resolved by [fieldPath], which takes such fields. *)
Theorem params_set_panics fd fd' fds v ps m :
  is_message fd = false ->
  params_set (Param v (fd :: fd' :: fds) :: ps) m = (m, Panic (PanicCall "invalid Mutable on field")).
Proof.
  intros H. cbn [params_set param_fds param_val]. unfold mbind, st_bind, set_path. fold set_path.
  cbn [at_message]. unfold MutableMessage. by rewrite H.
Qed.
End Assign.

(** What [parseParam] returns has the type of its field, so on a settable path it
    is a parameter that [params_set] takes. *)
Lemma parseValue_typed `{P : Protoreflect} fd raw v : parseValue fd raw = Ok v -> typed fd v = true.
Proof.
  unfold parseValue, typed, parseMessage, parseEnum, fromJSON.
  destruct (FieldKind fd); intros H; repeat case_match; simplify_eq; done.
Qed.

Lemma parseParam_good `{P : Protoreflect} fds raw p :
  settable fds = true -> parseParam fds raw = Ok p -> good_param p.
Proof.
  intros Hs. unfold parseParam. destruct (last fds) as [fd|] eqn:El; [|done].
  destruct (parseValue fd raw) as [v| | |] eqn:E; try done. intros [= <-].
  split; [done|]. exists v, fd. split_and!; [done..|]. by apply (parseValue_typed fd raw).
Qed.

(** ** The types of parameters *)

Section Typed.
Context `{P : Protoreflect} {M : Messages}.

(** A value of the type of the field at the end of the path. *)
Definition typed_param (p : param) : Prop :=
  exists v fd, param_val p = Some v /\ last (param_fds p) = Some fd /\ typed fd v = true.

Lemma parseParam_typed fds raw p : parseParam fds raw = Ok p -> typed_param p /\ param_fds p = fds.
Proof.
  unfold parseParam. destruct (last fds) as [fd|] eqn:El; [|done].
  destruct (parseValue fd raw) as [v| | |] eqn:E; try done. intros [= <-].
  split; [|done]. exists v, fd. split_and!; [done..|]. by apply (parseValue_typed fd raw).
Qed.

Lemma params_set_total ps m : Forall good_param ps -> exists m', params_set ps m = (m', Ok tt) /\ Descriptor m' = Descriptor m.
Proof.
  intros Hp. revert m. induction Hp as [|p ps [Hs (v & fd & Hv & Hl & Ht)] _ IH]; intros m; [by exists m|].
  destruct (set_path_ok _ v fd m Hs Hl Ht) as (m1 & H1 & Hd1 & _).
  destruct (IH m1) as (m2 & H2 & Hd2). exists m2. cbn [params_set]. rewrite Hv, (st_bind_run _ _ _ _ _ H1).
  split; [done|congruence].
Qed.

Lemma parseValues_typed fds vs ps : parseValues fds vs = Ok ps -> Forall (fun p => typed_param p /\ param_fds p = fds) ps.
Proof.
  revert ps. induction vs as [|v vs IH]; intros ps; cbn [parseValues]; [intros [= <-]; constructor|].
  unfold mbind, outcome_bind. destruct (parseParam fds v) as [p| | |] eqn:Ep; try done.
  destruct (parseValues fds vs) as [qs| | |]; try done. intros [= <-].
  constructor; [by apply parseParam_typed in Ep|by apply IH].
Qed.

Lemma parseQueryParams_fields fields values ps :
  parseQueryParams fields values = Ok ps ->
  Forall (fun p => typed_param p /\ exists key vs, (key, vs) ∈ values /\ fieldPath fields (Split key ".") = Some (param_fds p)) ps.
Proof.
  revert ps. induction values as [|[key vs] values IH]; intros ps; cbn [parseQueryParams]; [intros [= <-]; constructor|].
  destruct (fieldPath fields (Split key ".")) as [fds|] eqn:Ef; [|done].
  unfold mbind, outcome_bind. destruct (parseValues fds vs) as [ps1| | |] eqn:E1; try done.
  destruct (parseQueryParams fields values) as [ps2| | |] eqn:E2; try done. intros [= <-]. apply Forall_app. split.
  - eapply Forall_impl; [by eapply parseValues_typed|]. intros p [Ht <-]. split; [done|]. exists key, vs. split; [by left|done].
  - eapply Forall_impl; [by apply IH|]. intros p [Ht (k & ws & Hin & Hk)]. split; [done|]. exists k, ws. split; [by right|done].
Qed.

(** C29 Query parameters are well typed: each one is a value of the type of the field
    that its key names, so that assigning them never panics on a type, and when their
    paths go through single messages it always succeeds. *)
Theorem parseQueryParams_typed fields values ps :
  parseQueryParams fields values = Ok ps ->
  Forall (fun p => typed_param p /\ exists key vs, (key, vs) ∈ values /\ fieldPath fields (Split key ".") = Some (param_fds p)) ps /\
  (Forall (fun p => settable (param_fds p) = true) ps ->
   forall m, exists m', params_set ps m = (m', Ok tt) /\ Descriptor m' = Descriptor m).
Proof.
  intros H%parseQueryParams_fields. split; [done|]. intros Hs m. apply params_set_total.
  eapply Forall_impl; [apply Forall_and; split; [exact Hs|exact H]|]. intros p [? [? _]]. by split.
Qed.
End Typed.

(** ** Witnesses *)

Module SampleParams.
Definition names : xfield := XField "names" StringKind true false None None.
Definition item : xmessage := XMessage "pkg.Item" [string_field "id"].
Definition sub : xfield := XField "sub" MessageKind false false (Some item) None.
Definition items : xfield := XField "items" MessageKind true false (Some item) None.
Definition request : @MessageDescriptor plain_proto := XMessage "pkg.Request" [string_field "name"; names; sub; items].
Definition id_path : list (@FieldDescriptor plain_proto) := [sub; string_field "id"].
Definition ps : list (@param plain_proto) :=
  [Param (Some (ValueOfString "a")) [names]; Param (Some (ValueOfString "x")) id_path;
   Param (Some (ValueOfString "b")) [names]; Param (Some (ValueOfString "y")) id_path].
End SampleParams.
Import SampleParams.

Lemma params_set_spec_witness :
  exists m', params_set ps (@NewMessage plain_proto plain_messages request) = (m', Ok tt) /\
    read [names] m' = Repeated [ValueOfString "a"; ValueOfString "b"] /\
    read id_path m' = Single (ValueOfString "y").
Proof.
  destruct (params_set_spec ps (@NewMessage plain_proto plain_messages request)) as (m' & H & _ & Hr).
  - repeat constructor; eexists _, _; split_and!; reflexivity.
  - exists m'. split; [exact H|]. split.
    + rewrite (Hr [names] [ValueOfString "a"; ValueOfString "b"]); [reflexivity|].
      apply values_same, values_other, values_same, values_other, values_nil; left; discriminate.
    + rewrite (Hr id_path [ValueOfString "x"; ValueOfString "y"]); [reflexivity|].
      apply values_other, values_same, values_other, values_same, values_nil; left; discriminate.
Defined.

(** The query [?items.id=1] on a message with a repeated field [items]. *)
Lemma params_set_panics_witness :
  fieldPath (@Fields plain_proto request) ["items"; "id"] = Some [items; string_field "id"] /\
  params_set [Param (Some (ValueOfString "1")) [items; string_field "id"]] (@NewMessage plain_proto plain_messages request)
    = (NewMessage request, Panic (PanicCall "invalid Mutable on field")).
Proof. split; [reflexivity|]. apply (params_set_panics (P:=plain_proto) (M:=plain_messages) items (string_field "id")). reflexivity. Defined.

Lemma parseQueryParams_typed_witness :
  exists qs, parseQueryParams (@Fields plain_proto request) [("names", ["a"; "b"]); ("sub.id", ["x"])] = Ok qs /\
    Forall typed_param qs /\ exists m', params_set qs (@NewMessage plain_proto plain_messages request) = (m', Ok tt).
Proof.
  eexists. split; [reflexivity|].
  destruct (parseQueryParams_typed (P := plain_proto) (@Fields plain_proto request) [("names", ["a"; "b"]); ("sub.id", ["x"])] _ eq_refl)
    as [H1 H2]. split; [eapply Forall_impl; [exact H1|by intros p []]|].
  destruct (H2 ltac:(by repeat constructor) (NewMessage request)) as (m' & Hm & _). exists m'. exact Hm.
Defined.
