(* ===== verification/Routes.v ===== *)
(** The routing tree of larking/rules.go: paths, variables and methods, and the
    operations on one node.  The tree is a value, and a node that the code has a
    pointer to is named by the list of edges that leads to it from the root. *)

#[local] Set Warnings "-register-all".
From S2P Require Import Prelude Status Runes Lexer Proto Params.

Section Routes.
Context `{U : Unicode} `{P : Protoreflect}.

(** ** The tree *)

Record method := Method {
  desc : MethodDescriptor;
  method_name : string;
  body : list FieldDescriptor;
  vars : list (list FieldDescriptor);
  resp : list FieldDescriptor;
  hasBody : bool;
}.

Inductive path :=
  Path (segments : gmap string path) (methods : gmap string method)
    (methodAll : option method) (variables : list variable)
with variable :=
  Var (vname : string) (vtoks : list token) (vnext : path).

Definition segments (p : path) := let 'Path s _ _ _ := p in s.
Definition methods (p : path) := let 'Path _ m _ _ := p in m.
Definition methodAll (p : path) := let 'Path _ _ m _ := p in m.
Definition variables (p : path) := let 'Path _ _ _ v := p in v.
Definition vname (v : variable) := let 'Var n _ _ := v in n.
Definition vtoks (v : variable) := let 'Var _ t _ := v in t.
Definition vnext (v : variable) := let 'Var _ _ p := v in p.

Definition newPath : path := Path ∅ ∅ None [].

Definition set_segments (f : gmap string path -> gmap string path) (p : path) : path :=
  Path (f (segments p)) (methods p) (methodAll p) (variables p).
Definition set_methods (f : gmap string method -> gmap string method) (p : path) : path :=
  Path (segments p) (f (methods p)) (methodAll p) (variables p).
Definition set_methodAll (m : option method) (p : path) : path :=
  Path (segments p) (methods p) m (variables p).
Definition set_variables (f : list variable -> list variable) (p : path) : path :=
  Path (segments p) (methods p) (methodAll p) (f (variables p)).

(** [findVariable]: the first variable of the name. *)
Fixpoint find_variable (vs : list variable) (n : string) : option variable :=
  match vs with
  | [] => None
  | v :: vs => if String.eqb (vname v) n then Some v else find_variable vs n
  end.
Definition findVariable (p : path) (n : string) : option variable :=
  find_variable (variables p) n.

(** [sort.Sort(p.variables)], whose [Less] compares names. *)
Definition name_le (v w : variable) : Prop := String.leb (vname v) (vname w) = true.
#[export] Instance name_le_dec : RelDecision name_le.
Proof. intros v w. unfold name_le. apply _. Defined.

Definition addVariable (toks : list token) (p : path) : path :=
  let n := tokens_String toks in
  match findVariable p n with
  | Some _ => p
  | None => set_variables (fun vs => merge_sort name_le (vs ++ [Var n toks newPath])) p
  end.

Definition addPath (parent value : token) (p : path) : path :=
  let v := (val parent ++ val value)%string in
  match segments p !! v with
  | Some _ => p
  | None => set_segments <[v := newPath]> p
  end.

Definition registerMethod (verb : string) (m : method) (p : path) : path :=
  if String.eqb verb "*" then set_methodAll (Some m) p else set_methods <[verb := m]> p.

Definition alive (p : path) : bool :=
  negb (size (methods p) =? 0) || negb (length (variables p) =? 0) ||
  negb (size (segments p) =? 0).

(** ** The cursor *)

Inductive edge := ESegment (key : string) | EVariable (name : string).

#[export] Instance edge_eq_dec : EqDecision edge.
Proof. solve_decision. Defined.

(** Apply [f] at the node that the edges lead to. *)
Fixpoint modify_variable (n : string) (f : path -> path) (vs : list variable) : list variable :=
  match vs with
  | [] => []
  | v :: vs =>
      if String.eqb (vname v) n then Var (vname v) (vtoks v) (f (vnext v)) :: vs
      else v :: modify_variable n f vs
  end.

Fixpoint modify_at (es : list edge) (f : path -> path) (p : path) : path :=
  match es with
  | [] => f p
  | ESegment k :: es => set_segments (alter (modify_at es f) k) p
  | EVariable n :: es => set_variables (modify_variable n (modify_at es f)) p
  end.

Fixpoint node_at (es : list edge) (p : path) : option path :=
  match es with
  | [] => Some p
  | ESegment k :: es => segments p !! k ≫= node_at es
  | EVariable n :: es => findVariable p n ≫= (fun v => node_at es (vnext v))
  end.

(** ** The height of a tree

    It bounds the recursion over a tree. *)

Fixpoint height (p : path) : nat :=
  let 'Path s _ _ vs := p in
  S (map_fold (fun _ q h => height q `max` h) 0 s `max`
     foldr (fun v h => (let 'Var _ _ q := v in height q) `max` h) 0 vs).
End Routes.
