(* ===== verification/RouteTree.v ===== *)
(** Facts about the routing tree of Routes.v that the proofs about registration,
    removal and search share: induction on a tree, the well-formedness invariant
    [tree], the lemmas of the cursor ([node_at], [modify_at]) and the order
    [extends] of trees, under which nothing that was registered gets lost. *)

From S2P Require Import Prelude Status Runes Lexer Proto Params Routes.

(** ** The patterns of variables

    What addRule stores as the tokens of a variable: pieces between slashes. *)

Inductive piece := PLiteral (v : string) | PStar | PStarStar.

#[export] Instance piece_eq_dec : EqDecision piece.
Proof. solve_decision. Defined.

Definition piece_token (x : piece) : token :=
  match x with
  | PLiteral v => Token tokenLiteral v
  | PStar => Token tokenStar "*"
  | PStarStar => Token tokenStarStar "**"
  end.

Fixpoint pieces_tokens (ps : list piece) : list token :=
  match ps with
  | [] => []
  | [x] => [piece_token x]
  | x :: ps => piece_token x :: Token tokenSlash "/" :: pieces_tokens ps
  end.

(** [**] as the first piece at most. *)
Definition starstar_first (ps : list piece) : Prop := PStarStar ∉ tail ps.

Section Tree.
Context `{U : Unicode} `{P : Protoreflect}.

(** ** Induction on a tree *)

Lemma height_segment p k q : segments p !! k = Some q -> height q < height p.
Proof.
  destruct p as [s m a vs]. simpl. intros Hq. apply Nat.lt_succ_r.
  transitivity (map_fold (fun _ q h => height q `max` h) 0 s); [|lia].
  revert Hq. simpl.
  apply (map_fold_weak_ind (fun h s => s !! k = Some q -> height q <= h)); [done|].
  intros k' q' s' h' _ IH. destruct (decide (k = k')) as [->|Hne].
  - rewrite lookup_insert_eq. intros [= ->]. lia.
  - rewrite lookup_insert_ne by done. intros Hq%IH. lia.
Qed.

Lemma height_variable p v : v ∈ variables p -> height (vnext v) < height p.
Proof.
  destruct p as [s m a vs]. simpl. intros Hv. apply Nat.lt_succ_r.
  transitivity (foldr (fun v h => (let 'Var _ _ q := v in height q) `max` h) 0 vs); [|lia].
  induction Hv as [[n t q] vs|v w vs Hv IH]; simpl; lia.
Qed.

Lemma path_ind_nested (Q : path -> Prop) :
  (forall p, (forall k q, segments p !! k = Some q -> Q q) ->
             (forall v, v ∈ variables p -> Q (vnext v)) -> Q p) ->
  forall p, Q p.
Proof.
  intros H p. remember (height p) as h eqn:E. revert p E.
  induction h as [h IH] using lt_wf_ind. intros p ->. apply H.
  - intros k q Hq. by apply (IH (height q)); [eapply height_segment|].
  - intros v Hv. by apply (IH (height (vnext v))); [apply height_variable|].
Qed.

(** ** Well-formed trees

    At a node reached through [d] variables every method has [d] variables, and no
    method is kept under the verb [*], which [methodAll] stands for; the
    variables of a node are sorted by distinct names, which are the text of
    their patterns; [Q] is what the patterns are known to satisfy. *)

Definition variable_ok (Q : list piece -> Prop) (v : variable) : Prop :=
  vname v = tokens_String (vtoks v) /\
  exists x ps, vtoks v = pieces_tokens (x :: ps) /\ Q (x :: ps).

Definition node_ok (Q : list piece -> Prop) (d : nat) (p : path) : Prop :=
  map_Forall (fun verb m => verb <> "*" /\ length (vars m) = d) (methods p) /\
  (forall m, methodAll p = Some m -> length (vars m) = d) /\
  Forall (variable_ok Q) (variables p) /\
  NoDup (vname <$> variables p) /\
  Sorted name_le (variables p).

Inductive tree (Q : list piece -> Prop) : nat -> path -> Prop :=
  | Tree d p :
      node_ok Q d p ->
      (forall k q, segments p !! k = Some q -> tree Q d q) ->
      (forall v, v ∈ variables p -> tree Q (S d) (vnext v)) ->
      tree Q d p.

Lemma tree_node Q d p : tree Q d p -> node_ok Q d p.
Proof. by destruct 1. Qed.
Lemma tree_segment Q d p k q : tree Q d p -> segments p !! k = Some q -> tree Q d q.
Proof. destruct 1; eauto. Qed.
Lemma tree_variable Q d p v : tree Q d p -> v ∈ variables p -> tree Q (S d) (vnext v).
Proof. destruct 1; eauto. Qed.

Lemma tree_newPath Q d : tree Q d newPath.
Proof.
  constructor; simpl.
  - unfold node_ok; split_and!; simpl; try done; try constructor.
  - intros ?? []%lookup_empty_Some.
  - intros ? []%not_elem_of_nil.
Qed.

(** ** Variables by name *)

Lemma find_variable_some vs n v :
  find_variable vs n = Some v -> v ∈ vs /\ vname v = n.
Proof.
  induction vs as [|w vs IH]; simpl; [done|].
  destruct (String.eqb_spec (vname w) n).
  - intros [= ->]. split; [left | done].
  - intros [? ?]%IH. split; [by right | done].
Qed.

Lemma find_variable_none vs n :
  find_variable vs n = None <-> n ∉ vname <$> vs.
Proof.
  induction vs as [|w vs IH]; simpl.
  - split; [intros _ []%not_elem_of_nil | done].
  - rewrite not_elem_of_cons. destruct (String.eqb_spec (vname w) n) as [->|Hne].
    + split; [done | intros [[] ?]; done].
    + rewrite IH. split; [|tauto]. intros ?. split; [|done]. by intros ->.
Qed.

Lemma find_variable_elem vs v :
  NoDup (vname <$> vs) -> v ∈ vs -> find_variable vs (vname v) = Some v.
Proof.
  intros Hnd Hv. induction Hv as [v vs|v w vs Hv IH]; simpl.
  - by rewrite String.eqb_refl.
  - inversion Hnd as [|?? Hw Hnd']; subst. destruct (String.eqb_spec (vname w) (vname v)) as [E|].
    + destruct Hw. rewrite E. by apply list_elem_of_fmap_2.
    + by apply IH.
Qed.

Lemma find_variable_spec vs n v :
  NoDup (vname <$> vs) -> find_variable vs n = Some v <-> v ∈ vs /\ vname v = n.
Proof.
  intros Hnd. split; [apply find_variable_some|]. intros [Hv <-]. by apply find_variable_elem.
Qed.

Lemma modify_variable_names n f vs : vname <$> modify_variable n f vs = vname <$> vs.
Proof.
  induction vs as [|v vs IH]; simpl; [done|].
  destruct (String.eqb _ _); csimpl; [done | by rewrite IH].
Qed.

Lemma find_modify_variable n n' f vs :
  find_variable (modify_variable n f vs) n' =
    (fun v => if String.eqb n n' then Var (vname v) (vtoks v) (f (vnext v)) else v)
      <$> find_variable vs n'.
Proof.
  induction vs as [|v vs IH]; simpl; [done|].
  destruct (String.eqb_spec (vname v) n) as [<-|Hne]; simpl.
  - destruct (String.eqb_spec (vname v) n'); simpl; [done|].
    by destruct (find_variable vs n') as [w|]; simpl.
  - destruct (String.eqb_spec (vname v) n') as [<-|]; simpl; [|exact IH].
    by destruct (String.eqb_spec n (vname v)).
Qed.

Lemma elem_of_modify_variable n f vs w :
  w ∈ modify_variable n f vs ->
  exists v, v ∈ vs /\
    (w = v \/ vname v = n /\ w = Var (vname v) (vtoks v) (f (vnext v))).
Proof.
  induction vs as [|v vs IH]; simpl; [intros []%not_elem_of_nil|].
  destruct (String.eqb_spec (vname v) n) as [Hn|Hn].
  - intros [->|Hw]%elem_of_cons; [exists v | exists w].
    + split; [left | by right].
    + split; [by right | by left].
  - intros [->|Hw]%elem_of_cons.
    + exists v. split; [left | by left].
    + destruct (IH Hw) as (v' & ? & ?). exists v'. split; [by right | done].
Qed.

(** ** The cursor *)

Fixpoint count_variables (es : list edge) : nat :=
  match es with
  | [] => 0
  | ESegment _ :: es => count_variables es
  | EVariable _ :: es => S (count_variables es)
  end.

Lemma node_at_app es es' p : node_at (es ++ es') p = node_at es p ≫= node_at es'.
Proof.
  revert p. induction es as [|[k|n] es IH]; intros p; simpl; [done|..].
  - destruct (segments p !! k); simpl; [apply IH | done].
  - destruct (findVariable p n); simpl; [apply IH | done].
Qed.

Lemma node_at_modify es f p q :
  node_at es p = Some q -> node_at es (modify_at es f p) = Some (f q).
Proof.
  revert p. induction es as [|[k|n] es IH]; intros p; simpl.
  - by intros [= ->].
  - rewrite lookup_alter_eq. destruct (segments p !! k) as [s|]; simpl; [apply IH | done].
  - unfold findVariable. simpl. rewrite find_modify_variable, String.eqb_refl.
    destruct (find_variable _ _); simpl; [apply IH | done].
Qed.

(** ** Modifying a node of a well-formed tree *)

Lemma Sorted_modify_variable n f vs :
  Sorted name_le vs -> Sorted name_le (modify_variable n f vs).
Proof.
  induction 1 as [|v vs Hs IH Hhd]; simpl; [constructor|].
  destruct (String.eqb _ _).
  - constructor; [done|]. inversion Hhd; constructor; done.
  - constructor; [done|]. destruct vs as [|w vs]; simpl; [constructor|].
    inversion Hhd; subst. destruct (String.eqb _ _); constructor; done.
Qed.

Lemma node_ok_modify_variable Q d p n f :
  node_ok Q d p -> node_ok Q d (set_variables (modify_variable n f) p).
Proof.
  intros (Hm & Ha & Hv & Hnd & Hs). unfold node_ok; split_and!; simpl; try done.
  - apply Forall_forall. intros w (v & Hvs & [->|[_ ->]])%elem_of_modify_variable;
      exact (proj1 (Forall_forall _ _) Hv v Hvs).
  - by rewrite modify_variable_names.
  - by apply Sorted_modify_variable.
Qed.

Lemma tree_modify_at Q es f d p :
  tree Q d p ->
  (forall q, node_at es p = Some q -> tree Q (d + count_variables es) q ->
             tree Q (d + count_variables es) (f q)) ->
  tree Q d (modify_at es f p).
Proof.
  revert d p. induction es as [|[k|n] es IH]; intros d p Hp Hf; simpl in *.
  - rewrite Nat.add_0_r in Hf. by apply Hf.
  - constructor; simpl; [exact (tree_node _ _ _ Hp)| |intros; by eapply tree_variable].
    intros k' q'. rewrite lookup_alter_Some. intros [(<- & q & Hq & ->)|(_ & Hq)].
    + apply IH; [by eapply tree_segment|]. intros r Hr. apply Hf. by rewrite Hq.
    + by eapply tree_segment.
  - constructor; simpl; [by apply node_ok_modify_variable, tree_node| |].
    { intros k q Hq. by eapply tree_segment. }
    intros w (v & Hv & [->|[Hn ->]])%elem_of_modify_variable; [by eapply tree_variable|].
    simpl. apply IH; [by eapply tree_variable|]. intros r Hr Ht.
    rewrite <-Nat.add_succ_comm in Hf. apply Hf; [|exact Ht].
    unfold findVariable. rewrite <-Hn, find_variable_elem; [done| |done].
    by apply (tree_node _ _ _ Hp).
Qed.

(** ** Trees that grow

    [extends p p']: every node of [p] is a node of [p'], with its methods and the
    patterns of its variables; a node with a method for every verb gets no other. *)

Inductive extends : path -> path -> Prop :=
  | Extends p p' :
      methods p ⊆ methods p' ->
      (forall m, methodAll p = Some m -> methodAll p' = Some m /\ methods p' = methods p) ->
      (forall k q, segments p !! k = Some q ->
         exists q', segments p' !! k = Some q' /\ extends q q') ->
      (forall v, v ∈ variables p ->
         exists v', v' ∈ variables p' /\ vname v' = vname v /\ vtoks v' = vtoks v /\
           extends (vnext v) (vnext v')) ->
      extends p p'.

#[export] Instance extends_refl : Reflexive extends.
Proof.
  intros p. induction p as [p IHs IHv] using path_ind_nested.
  constructor; [done|done|intros k q Hq; by exists q; eauto|].
  intros v Hv. exists v. by eauto.
Qed.

#[export] Instance extends_trans : Transitive extends.
Proof.
  intros p. induction p as [p IHs IHv] using path_ind_nested.
  intros p1 p2 H1 H2. destruct H1 as [p p1 Hm Ha Hs Hv], H2 as [p1 p2 Hm' Ha' Hs' Hv'].
  constructor.
  - by etransitivity.
  - intros m Hall. destruct (Ha m Hall) as [H1 E1], (Ha' m (proj1 (Ha m Hall))) as [H2 E2].
    split; [done|congruence].
  - intros k q Hq. destruct (Hs k q Hq) as (q1 & Hq1 & E1).
    destruct (Hs' k q1 Hq1) as (q2 & Hq2 & E2). exists q2. split; [done|].
    by apply (IHs k q Hq q1 q2).
  - intros v Hvp. destruct (Hv v Hvp) as (v1 & Hv1 & Hn1 & Ht1 & E1).
    destruct (Hv' v1 Hv1) as (v2 & Hv2 & Hn2 & Ht2 & E2). exists v2.
    split_and!; [done|congruence|congruence|]. by apply (IHv v Hvp (vnext v1) (vnext v2)).
Qed.

Lemma modify_variable_elem n f vs v :
  v ∈ vs ->
  v ∈ modify_variable n f vs \/
  find_variable vs n = Some v /\
    Var (vname v) (vtoks v) (f (vnext v)) ∈ modify_variable n f vs.
Proof.
  induction 1 as [v vs|v w vs Hv IH]; simpl.
  - destruct (String.eqb _ _).
    + right. split; [done | left].
    + left. left.
  - destruct (String.eqb _ _); [left; by right|].
    destruct IH as [IH|[IH1 IH2]]; [left; by right | right; split; [done | by right]].
Qed.

Lemma extends_modify_at es f p :
  (forall q, node_at es p = Some q -> extends q (f q)) -> extends p (modify_at es f p).
Proof.
  revert p. induction es as [|[k|n] es IH]; intros p Hf; simpl in *; [by apply Hf|..].
  - constructor; simpl; [done|done| |intros v Hv; by exists v].
    intros k' q Hq. destruct (decide (k = k')) as [<-|Hne].
    + exists (modify_at es f q). split; [by rewrite lookup_alter_eq, Hq|].
      apply IH. intros r Hr. apply Hf. by rewrite Hq.
    + exists q. by rewrite lookup_alter_ne.
  - constructor; simpl; [done|done|intros k q Hq; by exists q|].
    intros v Hv. destruct (modify_variable_elem n (modify_at es f) _ v Hv) as [?|[Hfind ?]];
      [by exists v|].
    eexists. split; [done|]. split_and!; [done|done|]. apply IH. intros r Hr. apply Hf.
    unfold findVariable. by rewrite Hfind.
Qed.

Lemma node_at_extends Q es d p p' q :
  extends p p' -> tree Q d p' -> node_at es p = Some q ->
  exists q', node_at es p' = Some q' /\ extends q q'.
Proof.
  revert d p p'. induction es as [|[k|n] es IH]; intros d p p' He Ht; simpl.
  - intros [= <-]. by exists p'.
  - destruct He as [p p' _ _ Hs _]. destruct (segments p !! k) as [s|] eqn:Hk; simpl; [|done].
    destruct (Hs k s Hk) as (s' & Hs' & He). rewrite Hs'. simpl.
    apply (IH d s s' He). by eapply tree_segment.
  - destruct He as [p p' _ _ _ Hv]. destruct (findVariable p n) as [v|] eqn:Hn; simpl; [|done].
    apply find_variable_some in Hn as [Hvp <-].
    destruct (Hv v Hvp) as (v' & Hv' & Hn & _ & He). unfold findVariable.
    rewrite <-Hn, find_variable_elem; [|by apply (tree_node _ _ _ Ht)|done]. simpl.
    apply (IH (S d) _ _ He). by eapply tree_variable.
Qed.

Lemma tree_node_at Q es d p q :
  tree Q d p -> node_at es p = Some q -> tree Q (d + count_variables es) q.
Proof.
  revert d p. induction es as [|[k|n] es IH]; intros d p Ht; simpl.
  - intros [= <-]. by rewrite Nat.add_0_r.
  - destruct (segments p !! k) as [s|] eqn:Hk; simpl; [|done]. by eapply IH, tree_segment.
  - destruct (findVariable p n) as [v|] eqn:Hn; simpl; [|done]. rewrite <-Nat.add_succ_comm.
    eapply IH, tree_variable; [done|]. by eapply find_variable_some.
Qed.

(** No method is kept under the verb [*]. *)
Lemma tree_no_star Q es d p q : tree Q d p -> node_at es p = Some q -> methods q !! "*" = None.
Proof.
  intros Ht Hq. destruct (tree_node _ _ _ (tree_node_at _ _ _ _ _ Ht Hq)) as [Hm _].
  destruct (methods q !! "*") as [y|] eqn:Ey; [|done]. by destruct (Hm _ _ Ey).
Qed.

Lemma modify_variable_id n f vs :
  (forall v, find_variable vs n = Some v -> f (vnext v) = vnext v) -> modify_variable n f vs = vs.
Proof.
  induction vs as [|[m t q] vs IH]; simpl; intros Hf; [done|].
  destruct (String.eqb m n) eqn:E; simpl.
  - pose proof (Hf _ eq_refl) as H. simpl in H. by rewrite H.
  - by rewrite IH.
Qed.

Lemma modify_at_id es f p :
  (forall q, node_at es p = Some q -> f q = q) -> modify_at es f p = p.
Proof.
  revert p. induction es as [|[k|n] es IH]; intros p Hf; simpl in *; [by apply Hf|..];
    destruct p as [s m a vs]; unfold set_segments, set_variables; simpl in *; f_equal.
  - apply map_eq. intros k'. destruct (decide (k = k')) as [<-|Hne].
    + rewrite lookup_alter_eq. destruct (s !! k) as [q|]; simpl; [|done].
      f_equal. apply IH. intros r Hr. by apply Hf.
    + by rewrite lookup_alter_ne.
  - apply modify_variable_id. intros v Hv. apply IH. intros r Hr. apply Hf.
    unfold findVariable. simpl. by rewrite Hv.
Qed.

(** ** The operations of addRule on a node *)

Lemma extends_addPath t1 t2 p : extends p (addPath t1 t2 p).
Proof.
  unfold addPath. destruct (segments p !! _) eqn:E; [done|].
  constructor; simpl; [done|done| |intros v Hv; by exists v].
  intros k q Hq. exists q. split; [|done]. rewrite lookup_insert_ne; [done|congruence].
Qed.

Lemma addVariable_elem toks p v :
  v ∈ variables (addVariable toks p) <->
  v ∈ variables p \/ findVariable p (tokens_String toks) = None /\
    v = Var (tokens_String toks) toks newPath.
Proof.
  unfold addVariable. destruct (findVariable p _) eqn:E; simpl.
  - split; [tauto | intros [?|[? _]]; [done|congruence]].
  - rewrite merge_sort_Permutation, elem_of_app, list_elem_of_singleton. tauto.
Qed.

Lemma extends_addVariable toks p : extends p (addVariable toks p).
Proof.
  constructor.
  - unfold addVariable. by destruct (findVariable p _).
  - unfold addVariable. by destruct (findVariable p _).
  - intros k q Hq. exists q. unfold addVariable. by destruct (findVariable p _).
  - intros v Hv. exists v. rewrite addVariable_elem. split_and!; [by left|done..].
Qed.

Lemma name_le_total : Total name_le.
Proof.
  intros v w. unfold name_le, String.leb. rewrite (String.compare_antisym (vname w)).
  destruct (String.compare (vname v) (vname w)); simpl; auto.
Qed.

Lemma tree_addPath Q d t1 t2 p : tree Q d p -> tree Q d (addPath t1 t2 p).
Proof.
  intros Hp. unfold addPath. destruct (segments p !! _) eqn:E; [done|].
  constructor; simpl; [exact (tree_node _ _ _ Hp)| |intros; by eapply tree_variable].
  intros k q. rewrite lookup_insert_Some. intros [[_ <-]|[_ Hq]]; [apply tree_newPath|].
  by eapply tree_segment.
Qed.

Lemma tree_addVariable Q d x ps p :
  Q (x :: ps) -> tree Q d p -> tree Q d (addVariable (pieces_tokens (x :: ps)) p).
Proof.
  intros HQ Hp. pose proof (tree_node _ _ _ Hp) as (Hm & Ha & Hv & Hnd & Hs).
  constructor.
  - unfold addVariable. destruct (findVariable p _) eqn:E; [by unfold node_ok|].
    unfold node_ok; split_and!; simpl; try done.
    + rewrite merge_sort_Permutation. apply Forall_app. split; [done|].
      apply Forall_singleton. split; [done|]. by exists x, ps.
    + rewrite merge_sort_Permutation, fmap_app. apply NoDup_app. split_and!; [done| |by apply NoDup_singleton].
      intros n Hn. csimpl. rewrite list_elem_of_singleton. intros ->.
      by apply find_variable_none in E.
    + apply Sorted_merge_sort, name_le_total.
  - intros k q Hq. apply (tree_segment Q d p k q Hp). revert Hq. unfold addVariable.
    by destruct (findVariable p _).
  - intros v [Hvp|[_ ->]]%addVariable_elem; [by eapply tree_variable | apply tree_newPath].
Qed.

Lemma tree_registerMethod Q d verb m p :
  length (vars m) = d -> tree Q d p -> tree Q d (registerMethod verb m p).
Proof.
  intros Hd Hp. pose proof (tree_node _ _ _ Hp) as (Hm & Ha & Hv & Hnd & Hs).
  unfold registerMethod. destruct (String.eqb_spec verb "*").
  - constructor; simpl; [|intros; by eapply tree_segment|intros; by eapply tree_variable].
    unfold node_ok; split_and!; simpl; try done. by intros ? [= <-].
  - constructor; simpl; [|intros; by eapply tree_segment|intros; by eapply tree_variable].
    unfold node_ok; split_and!; simpl; try done. by apply map_Forall_insert_2.
Qed.

Lemma extends_registerMethod verb m p :
  methods p !! verb = None -> methodAll p = None -> extends p (registerMethod verb m p).
Proof.
  intros Hm Ha. unfold registerMethod. destruct (String.eqb verb "*");
    (constructor; simpl;
      [|by rewrite Ha|intros k q Hq; by exists q|intros v Hv; by exists v]).
  - done.
  - by apply insert_subseteq.
Qed.
End Tree.
