(* ===== verification/RouteRules.v ===== *)
(** Registration of rules: [addRule] of larking/rules.go on any routing tree (the class
    [RoutingTree]), templates given by their segments, and the lemmas that the loops
    over the lexer's tokens walk exactly the segments of a template, and panic on a
    variable inside a variable. *)

From S2P Require Import Prelude Status Runes Lexer LexerSpec Proto Params Routes RouteTree.

(** ** The code *)

Section AddRule.
Context `{U : Unicode} `{P : Protoreflect}.

(** ** addRule *)

(** What [addRule] does with the nodes that it has pointers to: the interface of a
    tree to its registration.  Here it is the tree as a value; RouteHeap.v has it in
    a heap of nodes. *)
Class RoutingTree (T : Type) := {
  cursor : Type;
  root_cursor : T -> cursor;
  (** the tree after the call, and the cursor at its result *)
  cursor_addPath : token -> token -> cursor -> T -> T * cursor;
  cursor_addVariable : list token -> cursor -> T -> T * cursor;
  (** [cursor.methods[verb]] and [cursor.methodAll], none without a node *)
  cursor_methods : string -> cursor -> T -> option (option method * option method);
  cursor_register : string -> method -> cursor -> T -> T;
}.

(** In a tree that is a value the cursor is the edges to its node. *)
#[export] Instance path_tree : RoutingTree path := {|
  cursor := list edge;
  root_cursor _ := [];
  cursor_addPath parent value es p :=
    (modify_at es (addPath parent value) p, es ++ [ESegment (val parent ++ val value)%string]);
  cursor_addVariable toks es p := (modify_at es (addVariable toks) p, es ++ [EVariable (tokens_String toks)]);
  cursor_methods verb es p := (fun n => (methods n !! verb, methodAll n)) <$> node_at es p;
  cursor_register verb m es p := modify_at es (registerMethod verb m) p;
|}.

Section Code.
Context {T : Type} `{RT : RoutingTree T}.

(** The locals of [addRule]: the tree under [p], the cursor, the index into the
    lexer's array of tokens and the fields of the variables met. *)
Record adder := Adder {
  ad_root : T;
  ad_cursor : cursor;
  ad_i : nat;
  ad_varfds : list (list FieldDescriptor);
}.

Abbreviation add A := (st adder error A).

Section Tokens.
Context (ltoks : list token).

(** [l.toks[i]]: the array has 64 entries, the zero token after the last. *)
Definition tok_at (i : nat) : add token :=
  if i <? max_tokens then mret (default (Token tokenError "") (ltoks !! i))
  else crash IndexOutOfRange.

Definition next_tok : add token :=
  modify (fun a => Adder (ad_root a) (ad_cursor a) (S (ad_i a)) (ad_varfds a));;
  a ← get; tok_at (ad_i a).

Definition invalid {A} (tok : token) : add A := crash (PanicCall "invalid token").

(** [cursor.addPath] and [cursor.addVariable], moving the cursor. *)
Definition step_path (parent value : token) : add unit := modify (fun a =>
  let '(root, c) := cursor_addPath parent value (ad_cursor a) (ad_root a) in
  Adder root c (ad_i a) (ad_varfds a)).

Definition step_variable (toks : list token) : add unit := modify (fun a =>
  let '(root, c) := cursor_addVariable toks (ad_cursor a) (ad_root a) in
  Adder root c (ad_i a) (ad_varfds a)).

Definition push_varfds (fds : list FieldDescriptor) : add unit := modify (fun a =>
  Adder (ad_root a) (ad_cursor a) (ad_i a) (ad_varfds a ++ [fds])).

(** The keys of a field path, and the token after them. *)
Fixpoint keys_loop (fuel : nat) (nxt : token) (keys : list string) : add (list string * token) :=
  match fuel with
  | O => stuck
  | S fuel =>
      if decide (typ nxt = tokenDot) then
        key ← next_tok; nxt ← next_tok; keys_loop fuel nxt (keys ++ [val key])
      else mret (keys, nxt)
  end.

(** The tokens up to the closing brace. *)
Fixpoint vars_loop (fuel : nat) (nxt : token) (acc : list token) : add (list token) :=
  match fuel with
  | O => stuck
  | S fuel =>
      if decide (typ nxt = tokenVariableEnd) then mret acc
      else nxt' ← next_tok; vars_loop fuel nxt' (acc ++ [nxt])
  end.

(** The tokens of the variable: those after [=], or a star. *)
Definition variable_pattern (nxt : token) : add (list token) :=
  match typ nxt with
  | tokenEqual => nxt ← next_tok; vars_loop (S max_tokens) nxt []
  | tokenVariableEnd => mret [Token tokenStar "*"]
  | _ => invalid nxt
  end.

Definition add_variable (fieldDescs : FieldDescriptors) : add unit :=
  tok ← next_tok;
  nxt ← next_tok;
  '(keys, nxt) ← keys_loop max_tokens nxt [val tok];
  toks ← variable_pattern nxt;
  match fieldPath fieldDescs keys with
  | None => throw (Errorf "field not found %v" [AStrs keys])
  | Some fds => push_varfds fds;; step_variable toks
  end.

(** The body of the loop over the segments. *)
Definition add_segment (fieldDescs : FieldDescriptors) (tok : token) : add unit :=
  v ← next_tok;
  match typ v with
  | tokenStar | tokenStarStar => push_varfds [];; step_variable [v]
  | tokenLiteral => step_path tok v
  | tokenVariableStart => add_variable fieldDescs
  | _ => invalid tok
  end.

Fixpoint segments_loop (fuel : nat) (fieldDescs : FieldDescriptors) (tok : token) : add token :=
  match fuel with
  | O => stuck
  | S fuel =>
      if decide (typ tok = tokenSlash) then
        add_segment fieldDescs tok;;
        tok ← next_tok;
        segments_loop fuel fieldDescs tok
      else mret tok
  end.

(** From the first token to the node of the rule. *)
Definition walk_rule (fieldDescs : FieldDescriptors) : add unit :=
  tok ← tok_at 0;
  tok ← segments_loop (S max_tokens) fieldDescs tok;
  match typ tok with
  | tokenVerb => v ← next_tok; step_path tok v
  | tokenEOF => mret tt
  | _ => invalid tok
  end.
End Tokens.

(** The HTTP verb and the template of a rule. *)
Definition rule_pattern (rule : HttpRule) : go (string * string) :=
  match rulePattern rule with
  | HttpRule_Get t => Ok ("GET", t)
  | HttpRule_Put t => Ok ("PUT", t)
  | HttpRule_Post t => Ok ("POST", t)
  | HttpRule_Delete t => Ok ("DELETE", t)
  | HttpRule_Patch t => Ok ("PATCH", t)
  | HttpRule_Custom (Some custom) => Ok (ToUpper (CustomKind custom), CustomPath custom)
  | HttpRule_Custom None => Panic NilDereference
  | HttpRule_None => Err (Errorf "unsupported pattern %v" [])
  end.

(** The body and the response body of the method a rule makes. *)
Definition rule_method (rule : HttpRule) (d : MethodDescriptor) (n : string)
    (varfds : list (list FieldDescriptor)) : go method :=
  let fieldDescs := Fields (Input d) in
  '(bd, hb) ← (if String.eqb (Body rule) "*" then Ok ([], true)
               else if String.eqb (Body rule) "" then Ok ([], false)
               else match fieldPath fieldDescs (Split (Body rule) ".") with
                    | None => Err (Errorf "body field error %v" [AStr (Body rule)])
                    | Some fds => Ok (fds, true)
                    end : go (list FieldDescriptor * bool));
  rsp ← (if String.eqb (ResponseBody rule) "" then Ok []
         else match fieldPath fieldDescs (Split (Body rule) ".") with
              | None => Err (Errorf "response body field error %v" [AStr (ResponseBody rule)])
              | Some fds => Ok fds
              end : go (list FieldDescriptor));
  Ok (Method d n bd varfds rsp hb).

(** One rule without its additional bindings; true when the method is new. *)
Definition addRule1 (rule : HttpRule) (d : MethodDescriptor) (n : string) : st T error bool :=
  fun p =>
  match rule_pattern rule with
  | Err e => (p, Err e) | Panic q => (p, Panic q) | OutOfFuel => (p, OutOfFuel)
  | Ok (verb, tmpl) =>
      match run_lexer lexTemplate tmpl with
      | Err e => (p, Err e) | Panic q => (p, Panic q) | OutOfFuel => (p, OutOfFuel)
      | Ok ltoks =>
          match walk_rule ltoks (Fields (Input d)) (Adder p (root_cursor p) 0 []) with
          | (a, Err e) => (ad_root a, Err e)
          | (a, Panic q) => (ad_root a, Panic q)
          | (a, OutOfFuel) => (ad_root a, OutOfFuel)
          | (a, Ok _) =>
              let root := ad_root a in
              match cursor_methods verb (ad_cursor a) root with
              | None | Some (None, Some _) => (root, Panic NilDereference)
              | Some (Some y, _) =>
                  if String.eqb (MethodFullName (desc y)) (MethodFullName d)
                  then (root, Ok false)
                  else (root, Err (Errorf "duplicate rule %v" []))
              | Some (None, None) =>
                  match rule_method rule d n (ad_varfds a) with
                  | Err e => (root, Err e)
                  | Panic q => (root, Panic q)
                  | OutOfFuel => (root, OutOfFuel)
                  | Ok m => (cursor_register verb m (ad_cursor a) root, Ok true)
                  end
              end
          end
      end
  end.

(** [addRule]: the additional bindings of a new method follow it. *)
Fixpoint addRule (rule : HttpRule) (d : MethodDescriptor) (n : string) : st T error unit :=
  fresh ← addRule1 rule d n;
  if negb fresh then mret tt else
  (fix bindings (rules : list HttpRule) : st T error unit :=
     match rules with
     | [] => mret tt
     | r :: rules =>
         if negb (length (AdditionalBindings r) =? 0)
         then throw (Errorf "nested rules" [])
         else addRule r d n;; bindings rules
     end) (AdditionalBindings rule).
End Code.
End AddRule.

(** ** Templates

    The templates of the grammar of lexer.go without a variable inside a
    variable. *)

Inductive segment :=
  | SPiece (x : piece)
  | SField (key : string) (keys : list string) (pattern : option (piece * list piece)).

Record template := MkTemplate { t_segments : list segment; t_verb : option string }.

Fixpoint keys_tokens (keys : list string) : list token :=
  match keys with
  | [] => []
  | k :: keys => Token tokenDot "." :: Token tokenIdent k :: keys_tokens keys
  end.

Definition pattern_pieces (pat : option (piece * list piece)) : list piece :=
  match pat with None => [PStar] | Some (x, ps) => x :: ps end.

Definition pattern_tokens (pat : option (piece * list piece)) : list token :=
  match pat with
  | None => []
  | Some (x, ps) => Token tokenEqual "=" :: pieces_tokens (x :: ps)
  end.

Definition segment_tokens (s : segment) : list token :=
  match s with
  | SPiece x => [piece_token x]
  | SField k ks pat =>
      Token tokenVariableStart "{" :: Token tokenIdent k :: keys_tokens ks ++
      pattern_tokens pat ++ [Token tokenVariableEnd "}"]
  end.

Fixpoint segments_tokens (ss : list segment) : list token :=
  match ss with
  | [] => []
  | s :: ss => Token tokenSlash "/" :: segment_tokens s ++ segments_tokens ss
  end.

Definition verb_tokens (v : option string) : list token :=
  match v with
  | None => [Token tokenEOF ""]
  | Some v => [Token tokenVerb ":"; Token tokenLiteral v; Token tokenEOF ""]
  end.

Definition template_tokens (t : template) : list token :=
  segments_tokens (t_segments t) ++ verb_tokens (t_verb t).

Lemma pieces_tokens_cons x ps : exists ts, pieces_tokens (x :: ps) = piece_token x :: ts.
Proof. destruct ps; by eexists. Qed.

#[local] Arguments pieces_tokens : simpl never.

Section Rules.
Context `{U : Unicode} `{P : Protoreflect}.

(** ** What a segment adds to the tree *)

Definition segment_pattern (s : segment) : list piece :=
  match s with SPiece x => [x] | SField _ _ pat => pattern_pieces pat end.

Definition segment_edge (s : segment) : edge :=
  match s with
  | SPiece (PLiteral v) => ESegment ("/" ++ v)%string
  | _ => EVariable (tokens_String (pieces_tokens (segment_pattern s)))
  end.

Definition segment_update (s : segment) : path -> path :=
  match s with
  | SPiece (PLiteral v) => addPath (Token tokenSlash "/") (Token tokenLiteral v)
  | _ => addVariable (pieces_tokens (segment_pattern s))
  end.

Definition segment_fields (fds : FieldDescriptors) (s : segment) :
    option (list (list FieldDescriptor)) :=
  match s with
  | SPiece (PLiteral _) => Some []
  | SPiece _ => Some [[]]
  | SField k ks _ => (fun f => [f]) <$> fieldPath fds (k :: ks)
  end.

Fixpoint segments_fields (fds : FieldDescriptors) (ss : list segment) :
    option (list (list FieldDescriptor)) :=
  match ss with
  | [] => Some []
  | s :: ss => f ← segment_fields fds s; fs ← segments_fields fds ss; Some (f ++ fs)
  end.

Definition verb_edges (v : option string) : list edge :=
  match v with None => [] | Some v => [ESegment (":" ++ v)%string] end.

Definition template_edges (t : template) : list edge :=
  (segment_edge <$> t_segments t) ++ verb_edges (t_verb t).

(** The tree with the nodes of the segments, from the node at [es]. *)
Fixpoint place (es : list edge) (ss : list segment) (p : path) : path :=
  match ss with
  | [] => p
  | s :: ss => place (es ++ [segment_edge s]) ss (modify_at es (segment_update s) p)
  end.

Definition place_template (t : template) (p : path) : path :=
  let q := place [] (t_segments t) p in
  match t_verb t with
  | None => q
  | Some v => modify_at (segment_edge <$> t_segments t)
                (addPath (Token tokenVerb ":") (Token tokenLiteral v)) q
  end.

(** ** The loops over the tokens *)

Section Walk.
Context (ltoks : list token) (Hlen : length ltoks <= max_tokens).

Definition bump (n : nat) (a : adder) : adder :=
  Adder (ad_root a) (ad_cursor a) (ad_i a + n) (ad_varfds a).

Definition left (a : adder) : list token := drop (ad_i a) ltoks.

Lemma left_bump n a : left (bump n a) = drop n (left a).
Proof. unfold left, bump. simpl. rewrite drop_drop. f_equal. Qed.

Lemma bump_bump n m a : bump m (bump n a) = bump (n + m) a.
Proof. unfold bump. simpl. f_equal. symmetry. apply Nat.add_assoc. Qed.

Lemma left_length a : length (left a) = length ltoks - ad_i a.
Proof. apply length_drop. Qed.

Lemma next_tok_run a t0 t1 ts :
  left a = t0 :: t1 :: ts -> next_tok ltoks a = (bump 1 a, Ok t1).
Proof.
  intros Ha. pose proof (left_length a) as Hl. rewrite Ha in Hl. simpl in Hl.
  unfold next_tok, modify, get, tok_at, mbind, st_bind. simpl.
  destruct (Nat.ltb_spec (S (ad_i a)) max_tokens) as [_|?]; [|lia].
  unfold mret, st_ret, bump. rewrite Nat.add_1_r. repeat f_equal.
  replace (ltoks !! S (ad_i a)) with (left a !! 1); [by rewrite Ha|].
  unfold left. rewrite lookup_drop. f_equal. lia.
Qed.

Lemma keys_loop_run ks keys fuel a t ts :
  left a = keys_tokens ks ++ t :: ts -> typ t <> tokenDot -> length ks < fuel ->
  keys_loop ltoks fuel (hd t (keys_tokens ks)) keys a =
    (bump (length (keys_tokens ks)) a, Ok (keys ++ ks, t)).
Proof.
  revert keys fuel a. induction ks as [|k ks IH]; intros keys [|fuel] a Ha Ht Hf; simpl in *; try lia.
  - rewrite decide_False by done. rewrite app_nil_r. unfold mret, st_ret, bump.
    rewrite Nat.add_0_r. by destruct a.
  - rewrite (st_bind_run _ _ _ _ _ (next_tok_run _ _ _ _ Ha)).
    assert (Hb : left (bump 1 a) = Token tokenIdent k :: hd t (keys_tokens ks) :: tail (keys_tokens ks ++ t :: ts)).
    { rewrite left_bump, Ha. simpl. f_equal. destruct ks; done. }
    rewrite (st_bind_run _ _ _ _ _ (next_tok_run _ _ _ _ Hb)), bump_bump. simpl.
    rewrite (IH (keys ++ [k]) fuel (bump 2 a)); [|by rewrite left_bump, Ha|done|lia].
    by rewrite bump_bump, <-app_assoc.
Qed.

Lemma vars_loop_run ts acc fuel a t ts' :
  left a = ts ++ t :: ts' -> typ t = tokenVariableEnd ->
  Forall (fun t => typ t <> tokenVariableEnd) ts -> length ts < fuel ->
  vars_loop ltoks fuel (hd t ts) acc a = (bump (length ts) a, Ok (acc ++ ts)).
Proof.
  revert acc fuel a. induction ts as [|t0 ts IH]; intros acc [|fuel] a Ha Ht Hts Hf; simpl in *; try lia.
  - rewrite decide_True by done. rewrite app_nil_r. unfold mret, st_ret, bump.
    rewrite Nat.add_0_r. by destruct a.
  - inversion Hts; subst. rewrite decide_False by done.
    assert (Hb : left a = t0 :: hd t ts :: tail (ts ++ t :: ts')).
    { rewrite Ha. f_equal. by destruct ts. }
    rewrite (st_bind_run _ _ _ _ _ (next_tok_run _ _ _ _ Hb)).
    rewrite (IH (acc ++ [t0]) fuel (bump 1 a)); [|by rewrite left_bump, Ha|done|done|lia].
    by rewrite bump_bump, <-app_assoc.
Qed.

Lemma pieces_no_end ps :
  Forall (fun t => typ t <> tokenVariableEnd) (pieces_tokens ps).
Proof.
  induction ps as [|x [|y ps] IH]; [constructor| |].
  - by destruct x; repeat constructor.
  - constructor; [by destruct x|]. constructor; [done|]. exact IH.
Qed.

(** The state after a segment whose last token is [n] positions further. *)
Definition enter (s : segment) (f : list (list FieldDescriptor)) (n : nat) (a : adder) : adder :=
  Adder (modify_at (ad_cursor a) (segment_update s) (ad_root a))
        (ad_cursor a ++ [segment_edge s]) (ad_i a + n) (ad_varfds a ++ f).

Lemma variable_pattern_run pat a rest :
  left a = pattern_tokens pat ++ Token tokenVariableEnd "}" :: rest ->
  variable_pattern ltoks (hd (Token tokenVariableEnd "}") (pattern_tokens pat)) a =
    (bump (length (pattern_tokens pat)) a, Ok (pieces_tokens (pattern_pieces pat))).
Proof.
  destruct pat as [[x ps]|]; intros Ha; unfold variable_pattern; cbn [pattern_tokens hd typ].
  - destruct (pieces_tokens_cons x ps) as [ts Ep]. pose proof (pieces_no_end (x :: ps)) as Hend.
    cbn [pattern_tokens pattern_pieces length] in *. rewrite Ep in *.
    rewrite (st_bind_run _ _ _ _ _ (next_tok_run _ _ _ _ Ha)).
    assert (Hb : left (bump 1 a) = (piece_token x :: ts) ++ Token tokenVariableEnd "}" :: rest).
    { by rewrite left_bump, Ha. }
    pose proof (left_length (bump 1 a)) as Hl. rewrite Hb, length_app in Hl.
    pose proof (vars_loop_run _ [] (S max_tokens) _ _ _ Hb eq_refl Hend ltac:(lia)) as Hv.
    rewrite bump_bump in Hv. exact Hv.
  - unfold bump. rewrite Nat.add_0_r. by destruct a.
Qed.

Lemma drop_length_cons {A} (l : list A) x l' :
  exists y, drop (length l) (x :: l ++ l') = y :: l'.
Proof. revert x. induction l as [|z l IH]; intros x; [by exists x | apply IH]. Qed.

Lemma keys_tokens_length ks : length (keys_tokens ks) = 2 * length ks.
Proof. induction ks; simpl; lia. Qed.

Lemma add_variable_run fds k ks pat a rest :
  left a = segment_tokens (SField k ks pat) ++ rest ->
  match fieldPath fds (k :: ks) with
  | Some f => add_variable ltoks fds a =
      (enter (SField k ks pat) [f] (length (segment_tokens (SField k ks pat)) - 1) a, Ok tt)
  | None => exists a' e, add_variable ltoks fds a = (a', Err e) /\ ad_root a' = ad_root a
  end.
Proof.
  intros Ha. unfold add_variable. pose proof (left_length a) as Hl. rewrite Ha in Hl.
  cbn [segment_tokens] in *. pose proof (keys_tokens_length ks) as Hks.
  simpl in Hl. rewrite !length_app in Hl.
  set (t := hd (Token tokenVariableEnd "}") (pattern_tokens pat)).
  assert (Htl : exists tl, pattern_tokens pat ++ Token tokenVariableEnd "}" :: rest = t :: tl).
  { destruct pat as [[]|]; by eexists. }
  destruct Htl as [tl Htl].
  assert (Ha' : left (bump 2 a) = keys_tokens ks ++ t :: tl).
  { rewrite left_bump, Ha, <-Htl. simpl. by rewrite <-!app_assoc. }
  rewrite (st_bind_run _ _ _ _ _ (next_tok_run _ _ _ _ Ha)).
  assert (Hb : left (bump 1 a) = Token tokenIdent k :: hd t (keys_tokens ks) :: tail (keys_tokens ks ++ t :: tl)).
  { rewrite left_bump, Ha. simpl. rewrite <-!app_assoc. simpl. rewrite Htl. by destruct ks. }
  rewrite (st_bind_run _ _ _ _ _ (next_tok_run _ _ _ _ Hb)), bump_bump.
  assert (Ht : typ t <> tokenDot) by (by destruct pat as [[]|]).
  rewrite (st_bind_run _ _ _ _ _ (keys_loop_run ks [k] max_tokens _ t tl Ha' Ht ltac:(lia))), bump_bump.
  assert (Hc : left (bump (2 + length (keys_tokens ks)) a) = pattern_tokens pat ++ Token tokenVariableEnd "}" :: rest).
  { rewrite <-bump_bump, left_bump, Ha', drop_app_length. done. }
  rewrite (st_bind_run _ _ _ _ _ (variable_pattern_run _ _ _ Hc)), bump_bump. change ([k] ++ ks) with (k :: ks).
  destruct (fieldPath fds (k :: ks)) as [f|]; [|eexists _, _; split; reflexivity].
  unfold push_varfds, step_variable, modify, mbind, st_bind, enter, bump. simpl. do 2 f_equal.
  rewrite !length_app. simpl. lia.
Qed.

Lemma add_segment_run fds s a rest :
  left a = Token tokenSlash "/" :: segment_tokens s ++ rest ->
  match segment_fields fds s with
  | Some f => add_segment ltoks fds (Token tokenSlash "/") a =
      (enter s f (length (segment_tokens s)) a, Ok tt)
  | None => exists a' e, add_segment ltoks fds (Token tokenSlash "/") a = (a', Err e) /\
      ad_root a' = ad_root a
  end.
Proof.
  intros Ha. unfold add_segment. destruct s as [[v| |]|k ks pat].
  1-3: rewrite (st_bind_run _ _ _ _ _ (next_tok_run _ _ _ _ Ha)); cbn;
    unfold enter, bump, step_path, step_variable, push_varfds, modify; cbn; by rewrite ?app_nil_r.
  rewrite (st_bind_run _ _ _ _ _ (next_tok_run _ _ _ _ Ha)). cbn [typ segment_fields].
  assert (Hb : left (bump 1 a) = segment_tokens (SField k ks pat) ++ rest).
  { by rewrite left_bump, Ha. }
  pose proof (add_variable_run fds k ks pat (bump 1 a) rest Hb) as H.
  destruct (fieldPath fds (k :: ks)); [|exact H]. rewrite H.
  unfold enter, bump. simpl. do 2 f_equal. lia.
Qed.

Lemma left_enter s f n a : left (enter s f n a) = drop n (left a).
Proof. unfold left, enter. simpl. rewrite drop_drop. f_equal. Qed.

Lemma segments_loop_run fds ss fuel a t ts :
  left a = segments_tokens ss ++ t :: ts -> typ t <> tokenSlash -> length ss < fuel ->
  match segments_fields fds ss with
  | Some fs => segments_loop ltoks fuel fds (hd t (segments_tokens ss)) a =
      (Adder (place (ad_cursor a) ss (ad_root a)) (ad_cursor a ++ (segment_edge <$> ss))
         (ad_i a + length (segments_tokens ss)) (ad_varfds a ++ fs), Ok t)
  | None => exists a' e ss', segments_loop ltoks fuel fds (hd t (segments_tokens ss)) a = (a', Err e) /\
      ss' `prefix_of` ss /\ ad_root a' = place (ad_cursor a) ss' (ad_root a)
  end.
Proof.
  revert fuel a. induction ss as [|s ss IH]; intros [|fuel] a Ha Ht Hf; simpl in Hf; try lia.
  { cbn. rewrite decide_False by done. rewrite !app_nil_r, Nat.add_0_r. by destruct a. }
  cbn [segments_tokens segments_fields segments_loop hd]. rewrite decide_True by done.
  cbn [segments_tokens] in Ha. simpl in Ha. rewrite <-app_assoc in Ha.
  pose proof (add_segment_run fds s a _ Ha) as Hs.
  destruct (segment_fields fds s) as [f|]; simpl.
  2:{ destruct Hs as (a' & e & Hs & Hr). exists a', e, []. rewrite (st_bind_err _ _ _ _ _ Hs).
      split_and!; [done|apply prefix_nil|done]. }
  rewrite (st_bind_run _ _ _ _ _ Hs).
  set (b := enter s f (length (segment_tokens s)) a) in *.
  assert (Hb : exists t', left b = t' :: hd t (segments_tokens ss) :: tail (segments_tokens ss ++ t :: ts)).
  { unfold b. rewrite left_enter, Ha.
    destruct (drop_length_cons (segment_tokens s) (Token tokenSlash "/")
      (segments_tokens ss ++ t :: ts)) as [t' ->]. exists t'. by destruct ss. }
  destruct Hb as [t' Hb]. rewrite (st_bind_run _ _ _ _ _ (next_tok_run _ _ _ _ Hb)).
  assert (Hc : left (bump 1 b) = segments_tokens ss ++ t :: ts).
  { rewrite left_bump, Hb. simpl. by destruct ss. }
  specialize (IH fuel _ Hc Ht ltac:(lia)).
  destruct (segments_fields fds ss) as [fs|]; simpl.
  2:{ destruct IH as (a' & e & ss' & Hl & Hp & Hr). exists a', e, (s :: ss'). split_and!; [done| |exact Hr].
      by apply prefix_cons. }
  rewrite IH. unfold b, enter, bump. simpl. rewrite <-!app_assoc, length_app. do 2 f_equal. simpl. lia.
Qed.
End Walk.

Lemma segments_tokens_length ss : length ss <= length (segments_tokens ss).
Proof. induction ss; simpl; [lia|]. rewrite length_app. lia. Qed.

Lemma walk_rule_run fds t p :
  length (template_tokens t) <= max_tokens ->
  match segments_fields fds (t_segments t) with
  | Some fs => exists i, walk_rule (template_tokens t) fds (Adder p (root_cursor p) 0 []) =
      (Adder (place_template t p) (template_edges t) i fs, Ok tt)
  | None => exists a e ss, walk_rule (template_tokens t) fds (Adder p (root_cursor p) 0 []) = (a, Err e) /\
      ss `prefix_of` t_segments t /\ ad_root a = place [] ss p
  end.
Proof.
  intros Hlen. change (root_cursor p) with (@nil edge). unfold walk_rule.
  set (t0 := hd (Token tokenEOF "") (verb_tokens (t_verb t))).
  assert (H0 : tok_at (template_tokens t) 0 (Adder p [] 0 []) =
    (Adder p [] 0 [], Ok (hd t0 (segments_tokens (t_segments t))))).
  { unfold tok_at, template_tokens, t0. destruct (t_segments t); [by destruct (t_verb t)|done]. }
  rewrite (st_bind_run _ _ _ _ _ H0).
  assert (Hl : left (template_tokens t) (Adder p [] 0 []) =
    segments_tokens (t_segments t) ++ t0 :: tail (verb_tokens (t_verb t))).
  { unfold left, template_tokens, t0. by destruct (t_verb t). }
  assert (Ht0 : typ t0 <> tokenSlash) by (unfold t0; by destruct (t_verb t)).
  assert (Hf : length (t_segments t) < S max_tokens).
  { unfold template_tokens in Hlen. rewrite length_app in Hlen.
    pose proof (segments_tokens_length (t_segments t)). lia. }
  pose proof (segments_loop_run _ Hlen fds _ _ _ _ _ Hl Ht0 Hf) as H. simpl in H.
  destruct (segments_fields fds (t_segments t)) as [fs|].
  2:{ destruct H as (a & e & ss & H & ?). exists a, e, ss. by rewrite (st_bind_err _ _ _ _ _ H). }
  rewrite (st_bind_run _ _ _ _ _ H). unfold t0, place_template, template_edges.
  destruct (t_verb t) as [v|] eqn:Ev; cbn [verb_tokens hd typ].
  - set (a := Adder _ _ _ _).
    assert (Ha : left (template_tokens t) a = [Token tokenVerb ":"; Token tokenLiteral v; Token tokenEOF ""]).
    { unfold left, a, template_tokens. simpl. by rewrite drop_app_length, Ev. }
    rewrite (st_bind_run _ _ _ _ _ (next_tok_run _ Hlen _ _ _ _ Ha)). eexists. reflexivity.
  - rewrite app_nil_r. eexists. reflexivity.
Qed.

(** The loop over the additional bindings. *)
Definition bindings {T} `{!RoutingTree T} (d : MethodDescriptor) (n : string) :=
  fix bindings (rules : list HttpRule) : st T error unit :=
    match rules with
    | [] => mret tt
    | r :: rules =>
        if negb (length (AdditionalBindings r) =? 0)
        then throw (Errorf "nested rules" [])
        else addRule r d n;; bindings rules
    end.

Lemma addRule_unfold {T} `{!RoutingTree T} rule d n :
  addRule (T := T) rule d n = (fresh ← addRule1 rule d n;
    if negb fresh then mret tt else bindings d n (AdditionalBindings rule)).
Proof. by destruct rule. Qed.

(** The segment [{k={k'}}] is cut at its first closing brace. *)
Lemma nested_segment ltoks fds k k' f a rest :
  length ltoks <= max_tokens -> fieldPath fds [k] = Some f ->
  left ltoks a = [Token tokenSlash "/"; Token tokenVariableStart "{"; Token tokenIdent k;
    Token tokenEqual "="; Token tokenVariableStart "{"; Token tokenIdent k';
    Token tokenVariableEnd "}"] ++ rest ->
  exists root es fs, add_segment ltoks fds (Token tokenSlash "/") a =
    (Adder root es (ad_i a + 6) fs, Ok tt).
Proof.
  intros Hlen Hf Ha. simpl in Ha.
  assert (Hb : forall n, left ltoks (bump n a) = drop n (left ltoks a)) by (intros; apply (left_bump ltoks)).
  rewrite Ha in Hb. unfold add_segment.
  rewrite (st_bind_run _ _ _ _ _ (next_tok_run ltoks Hlen _ _ _ _ Ha)). cbn [typ]. unfold add_variable.
  rewrite (st_bind_run _ _ _ _ _ (next_tok_run ltoks Hlen _ _ _ _ (Hb 1))), bump_bump.
  rewrite (st_bind_run _ _ _ _ _ (next_tok_run ltoks Hlen _ _ _ _ (Hb 2))), bump_bump.
  assert (Hk : keys_loop ltoks max_tokens (Token tokenEqual "=") [k] (bump 3 a) =
    (bump 3 a, Ok ([k], Token tokenEqual "="))) by reflexivity.
  rewrite (st_bind_run _ _ _ _ _ Hk). unfold variable_pattern. cbn [typ].
  assert (Hv : (nxt ← next_tok ltoks; vars_loop ltoks (S max_tokens) nxt []) (bump 3 a) =
    (bump 6 a, Ok [Token tokenVariableStart "{"; Token tokenIdent k'])).
  { rewrite (st_bind_run _ _ _ _ _ (next_tok_run ltoks Hlen _ _ _ _ (Hb 3))), bump_bump.
    pose proof (vars_loop_run ltoks Hlen [Token tokenVariableStart "{"; Token tokenIdent k'] []
      (S max_tokens) _ _ _ (Hb 4) eq_refl) as H. rewrite bump_bump in H. apply H.
    - by repeat constructor.
    - unfold max_tokens. simpl. lia. }
  rewrite (st_bind_run _ _ _ _ _ Hv), Hf.
  unfold push_varfds, step_variable, modify, mbind, st_bind, bump. simpl. by eexists _, _, _.
Qed.

(** A variable inside a variable, which the grammar and the lexer allow, makes
    [addRule] panic with "invalid token". *)
Theorem addRule_nested_panics rule d n p verb tmpl k k' f :
  rule_pattern rule = Ok (verb, tmpl) ->
  run_lexer lexTemplate tmpl = Ok [Token tokenSlash "/"; Token tokenVariableStart "{";
    Token tokenIdent k; Token tokenEqual "="; Token tokenVariableStart "{"; Token tokenIdent k';
    Token tokenVariableEnd "}"; Token tokenVariableEnd "}"; Token tokenEOF ""] ->
  fieldPath (Fields (Input d)) [k] = Some f ->
  exists p', addRule rule d n p = (p', Panic (PanicCall "invalid token")).
Proof.
  intros Hpat Hlex Hf. rewrite addRule_unfold. unfold mbind, st_bind, addRule1.
  rewrite Hpat, Hlex. set (l := [_; _; _; _; _; _; _; _; _]).
  assert (Hl : length l <= max_tokens) by (unfold max_tokens; simpl; lia).
  destruct (nested_segment l _ k k' f (Adder p (root_cursor p) 0 []) [Token tokenVariableEnd "}"; Token tokenEOF ""]
    Hl Hf eq_refl) as (root & es & fs & H).
  assert (Hw : walk_rule l (Fields (Input d)) (Adder p (root_cursor p) 0 []) =
    (Adder root es 7 fs, Panic (PanicCall "invalid token"))).
  { unfold walk_rule. erewrite st_bind_run; [|reflexivity].
    cbn [segments_loop]. rewrite decide_True by done. unfold mbind at 1, st_bind at 1.
    change (default (Token tokenError "") (l !! 0)) with (Token tokenSlash "/").
    unfold mbind at 1, st_bind at 1. rewrite H. reflexivity. }
  rewrite Hw. by eexists.
Qed.
End Rules.

(** A method whose request has the fields of the template. *)
Definition nested_method : MethodDescriptor :=
  let m := XMessage "pkg.Request" [string_field "name"; string_field "id"] in
  XMethod "pkg.S.M" m m false false None.

Lemma addRule_nested_panics_witness :
  exists p', addRule (Rule "" (HttpRule_Get "/{name={id}}") "" "" []) nested_method "/pkg.S/M" newPath =
    (p', Panic (PanicCall "invalid token")).
Proof.
  eapply (addRule_nested_panics _ _ _ _ "GET" "/{name={id}}" "name" "id");
    [reflexivity|vm_compute; reflexivity|vm_compute; reflexivity].
Defined.
