(* ===== verification/RouteWalk.v ===== *)
(** The templates that registration takes: every template that the lexer accepts is
    walked by [addRule] to an end, and a walk that succeeds is that of a template
    without a variable inside a variable. *)

From S2P Require Import Prelude Status Runes Lexer LexerSpec Proto Params Routes RouteTree RouteRules.

Section Walked.
Context `{U : Unicode} `{P : Protoreflect}.

(** ** Templates the lexer accepts *)

Definition piece_ok (x : piece) : Prop :=
  match x with PLiteral v => segment_literal v | _ => True end.

Definition segment_ok (s : segment) : Prop :=
  Forall piece_ok (segment_pattern s) /\
  match s with SPiece _ => True | SField k ks _ => Forall (word isIdent) (k :: ks) end.

Definition template_ok (t : template) : Prop :=
  t_segments t <> [] /\ Forall segment_ok (t_segments t) /\
  (forall v, t_verb t = Some v -> word isLiteral v) /\
  length (template_tokens t) <= max_tokens.

(** These are decided on a concrete template. *)
#[export] Instance word_dec p v : Decision (word p v).
Proof. apply _. Defined.

Lemma segment_literal_alt v :
  match runes v with
  | r :: rs => IsLetter r = true /\ rs <> [] /\ Forall (fun r => isLiteral r = true) rs
  | [] => False
  end <-> segment_literal v.
Proof.
  unfold segment_literal. destruct (runes v) as [|r rs].
  - split; [done | by intros (? & ? & ? & _)].
  - split; [intros ?; by exists r, rs | by intros (? & ? & [= <- <-] & ?)].
Qed.

#[export] Instance segment_literal_dec v : Decision (segment_literal v).
Proof. apply (decision_iff (segment_literal_alt v)). destruct (runes v); apply _. Defined.

#[export] Instance piece_ok_dec x : Decision (piece_ok x).
Proof. destruct x; apply _. Defined.

#[export] Instance segment_ok_dec s : Decision (segment_ok s).
Proof. destruct s; apply _. Defined.

Lemma template_ok_alt t :
  t_segments t <> [] /\ Forall segment_ok (t_segments t) /\
    match t_verb t with Some v => word isLiteral v | None => True end /\
    length (template_tokens t) <= max_tokens <-> template_ok t.
Proof.
  unfold template_ok. destruct (t_verb t) as [v|].
  - assert ((forall v', Some v = Some v' -> word isLiteral v') <-> word isLiteral v) as <-; [|done].
    split; [intros H; by apply H | by intros ? ? [= <-]].
  - split; [|tauto]. intros (? & ? & _ & ?). by split_and!.
Qed.

#[export] Instance template_ok_dec t : Decision (template_ok t).
Proof. apply (decision_iff (template_ok_alt t)). destruct (t_verb t); apply _. Defined.

Definition template_text (t : template) : string := tokens_String (template_tokens t).

Lemma piece_Segment x : piece_ok x -> Segment [piece_token x].
Proof. destruct x; simpl; by constructor. Qed.

Lemma pieces_Segments ps : ps <> [] -> Forall piece_ok ps -> Segments (pieces_tokens ps).
Proof.
  intros Hne Hps. induction Hps as [|x [|y ps] Hx Hps IH]; [done| |].
  - by apply Segments_one, piece_Segment.
  - apply (Segments_slash [piece_token x]); [by apply piece_Segment | by apply IH].
Qed.

Lemma keys_FieldPath k ks :
  Forall (word isIdent) (k :: ks) -> FieldPath (Token tokenIdent k :: keys_tokens ks).
Proof.
  revert k. induction ks as [|k' ks IH]; intros k H; inversion_clear H.
  - by constructor.
  - constructor; [done|]. by apply IH.
Qed.

Lemma segment_Segment s : segment_ok s -> Segment (segment_tokens s).
Proof.
  intros [Hp Hk]. destruct s as [x|k ks pat]; simpl in *.
  - inversion_clear Hp. by apply piece_Segment.
  - apply Segment_variable. pose proof (keys_FieldPath k ks Hk) as HF.
    destruct pat as [[x ps]|]; simpl.
    + apply (Variable_equal (Token tokenIdent k :: keys_tokens ks)); [done|].
      by apply (pieces_Segments (x :: ps)).
    + by apply (Variable_default (Token tokenIdent k :: keys_tokens ks)).
Qed.

Lemma segments_Segments ss :
  ss <> [] -> Forall segment_ok ss ->
  exists ts, segments_tokens ss = Token tokenSlash "/" :: ts /\ Segments ts.
Proof.
  intros Hne Hss. induction Hss as [|s ss Hs Hss IH]; [done|].
  destruct ss as [|s' ss].
  - exists (segment_tokens s). split; [simpl; by rewrite app_nil_r|].
    by apply Segments_one, segment_Segment.
  - destruct IH as (ts & E & HS); [done|]. exists (segment_tokens s ++ segments_tokens (s' :: ss)).
    split; [done|]. rewrite E. apply Segments_slash; [by apply segment_Segment | done].
Qed.

Lemma template_lexed t :
  template_ok t -> run_lexer lexTemplate (template_text t) = Ok (template_tokens t).
Proof.
  intros (Hne & Hss & Hv & Hlen). apply lexTemplate_iff. split; [|done].
  destruct (segments_Segments _ Hne Hss) as (ts & E & HS). unfold template_tokens. rewrite E.
  destruct (t_verb t) as [v|]; simpl; constructor; auto.
Qed.

(** ** What is left of a template

    The tokens from a point of a template on: after a segment, at the start of one,
    or inside a field path, and how many braces are open. *)

Inductive place_in := After | Start | Keys.

Inductive rest : place_in -> nat -> list token -> Prop :=
  | rest_eof : rest After 0 [Token tokenEOF ""]
  | rest_verb v : word isLiteral v -> rest After 0 [Token tokenVerb ":"; Token tokenLiteral v; Token tokenEOF ""]
  | rest_slash n ts : rest Start n ts -> rest After n (Token tokenSlash "/" :: ts)
  | rest_close n ts : rest After n ts -> rest After (S n) (Token tokenVariableEnd "}" :: ts)
  | rest_piece n x ts : piece_ok x -> rest After n ts -> rest Start n (piece_token x :: ts)
  | rest_open n k ts : word isIdent k -> rest Keys (S n) ts ->
      rest Start n (Token tokenVariableStart "{" :: Token tokenIdent k :: ts)
  | rest_dot n k ts : word isIdent k -> rest Keys n ts -> rest Keys n (Token tokenDot "." :: Token tokenIdent k :: ts)
  | rest_default n ts : rest After n ts -> rest Keys (S n) (Token tokenVariableEnd "}" :: ts)
  | rest_equal n ts : rest Start n ts -> rest Keys n (Token tokenEqual "=" :: ts).

Lemma FieldPath_keys ts : FieldPath ts -> exists k ks, ts = Token tokenIdent k :: keys_tokens ks /\ Forall (word isIdent) (k :: ks).
Proof.
  induction 1 as [v Hv|v ts Hv _ (k & ks & -> & Hks)].
  - exists v, []. split; [done|]. by constructor.
  - exists v, (k :: ks). split; [done|]. by constructor.
Qed.

Lemma rest_keys n ks ts : Forall (word isIdent) ks -> rest Keys n ts -> rest Keys n (keys_tokens ks ++ ts).
Proof. intros Hks Hts. induction Hks; [done|]. by constructor. Qed.

Lemma rest_FieldPath n ts r : FieldPath ts -> rest Keys (S n) r -> rest Start n (Token tokenVariableStart "{" :: ts ++ r).
Proof.
  intros (k & ks & -> & Hks)%FieldPath_keys Hr. apply Forall_cons in Hks as [Hk Hks]. simpl.
  constructor; [done|]. by apply rest_keys.
Qed.

Lemma grammar_rest :
  (forall ts, Segment ts -> forall n r, rest After n r -> rest Start n (ts ++ r)) /\
  (forall ts, Segments ts -> forall n r, rest After n r -> rest Start n (ts ++ r)) /\
  (forall ts, Variable_ ts -> forall n r, rest After n r -> rest Start n (ts ++ r)).
Proof.
  apply grammar_mut.
  - intros n r Hr. exact (rest_piece n PStar r I Hr).
  - intros n r Hr. exact (rest_piece n PStarStar r I Hr).
  - intros v Hv n r Hr. exact (rest_piece n (PLiteral v) r Hv Hr).
  - intros ts _ IH n r Hr. by apply IH.
  - intros ts _ IH n r Hr. by apply IH.
  - intros ts1 ts2 _ IH1 _ IH2 n r Hr. rewrite <-app_assoc. apply IH1. simpl. constructor. by apply IH2.
  - intros ts HF n r Hr. simpl. rewrite <-app_assoc. apply rest_FieldPath; [done|]. by constructor.
  - intros ts ts' HF _ IH n r Hr. simpl. rewrite <-app_assoc. apply rest_FieldPath; [done|]. simpl. rewrite <-app_assoc.
    constructor. apply IH. by constructor.
Qed.

Lemma Template_rest ts : Template ts -> exists r, ts = Token tokenSlash "/" :: r /\ rest Start 0 r.
Proof. destruct 1; eexists; (split; [done|]); (apply (proj1 (proj2 grammar_rest)); [done|by constructor]). Qed.

(** The tokens before the first closing brace, with the braces that they open. *)
Definition pieces_at (m : place_in) (ts : list token) : Prop :=
  match m with
  | After => ts = [] \/ exists x ps, ts = Token tokenSlash "/" :: pieces_tokens (x :: ps) /\ Forall piece_ok (x :: ps)
  | Start => exists x ps, ts = pieces_tokens (x :: ps) /\ Forall piece_ok (x :: ps)
  | Keys => True
  end.

Lemma rest_closed m d ts : rest m d ts -> forall n, d = S n ->
  exists pre post j, ts = pre ++ Token tokenVariableEnd "}" :: post /\ rest After (j + n) post /\
    Forall (fun t => typ t <> tokenVariableEnd) pre /\ (j = 0 -> pieces_at m pre).
Proof.
  induction 1 as [|v Hv|d ts H IH|d ts H IH|d x ts Hx H IH|d k ts Hk H IH|d k ts Hk H IH|d ts H IH|d ts H IH]; intros n E; try done.
  - destruct (IH n E) as (pre & post & j & -> & Hr & Hne & Hp). exists (Token tokenSlash "/" :: pre), post, j.
    split_and!; [done|done|by constructor|]. intros Hj. destruct (Hp Hj) as (x & ps & -> & Hps). right. by exists x, ps.
  - injection E as ->. exists [], ts, 0. split_and!; [done|done|constructor|by left].
  - destruct (IH n E) as (pre & post & j & -> & Hr & Hne & Hp). exists (piece_token x :: pre), post, j.
    split_and!; [done|done|constructor; [by destruct x|done]|]. intros Hj.
    destruct (Hp Hj) as [->|(y & ps & -> & Hps)]; [exists x, []|exists x, (y :: ps)]; (split; [done|]); by constructor.
  - destruct (IH (S n) (f_equal S E)) as (pre & post & j & -> & Hr & Hne & _).
    exists (Token tokenVariableStart "{" :: Token tokenIdent k :: pre), post, (S j).
    split_and!; [done|by rewrite Nat.add_succ_comm|by repeat constructor|done].
  - destruct (IH n E) as (pre & post & j & -> & Hr & Hne & _).
    exists (Token tokenDot "." :: Token tokenIdent k :: pre), post, j. split_and!; [done|done|by repeat constructor|done].
  - injection E as ->. exists [], ts, 0. split_and!; [done|done|constructor|done].
  - destruct (IH n E) as (pre & post & j & -> & Hr & Hne & _).
    exists (Token tokenEqual "=" :: pre), post, j. split_and!; [done|done|by repeat constructor|done].
Qed.

(** The rest of a variable after its first key. *)
Lemma rest_Keys m d ts : rest m d ts -> m = Keys -> forall n, d = S n ->
  exists ks, Forall (word isIdent) ks /\
    ((exists post, ts = keys_tokens ks ++ Token tokenVariableEnd "}" :: post /\ rest After n post) \/
     exists ts', ts = keys_tokens ks ++ Token tokenEqual "=" :: ts' /\ rest Start (S n) ts').
Proof.
  induction 1 as [|v Hv|d ts H IH|d ts H IH|d x ts Hx H IH|d k ts Hk H IH|d k ts Hk H IH|d ts H IH|d ts H IH]; intros Em n E; try done.
  - destruct (IH eq_refl n E) as (ks & Hks & Hts). exists (k :: ks). split; [by constructor|].
    destruct Hts as [(post & -> & Hr)|(ts' & -> & Hr)]; [left|right]; by eexists.
  - injection E as ->. exists []. split; [constructor|]. left. by exists ts.
  - subst d. exists []. split; [constructor|]. right. by exists ts.
Qed.

(** ** Walking any template *)

(** Nodes are placed: a change that adds a segment or a variable somewhere. *)
Inductive place_step : path -> path -> Prop :=
  | place_path es parent value p : place_step p (modify_at es (addPath parent value) p)
  | place_variable es toks p : place_step p (modify_at es (addVariable toks) p).

Lemma place_steps_extends p p' : rtc place_step p p' -> extends p p'.
Proof.
  induction 1 as [|p q r Hs _ IH]; [done|]. etransitivity; [|exact IH].
  destruct Hs; apply extends_modify_at; intros; [apply extends_addPath|apply extends_addVariable].
Qed.

Section Walk.
Context (ltoks : list token) (Hlen : length ltoks <= max_tokens) (fds : FieldDescriptors).
Local Abbreviation left := (left ltoks).
Local Abbreviation next := (next_tok_run ltoks Hlen _ _ _ _).

(** A variable with a pattern of any tokens. *)
Lemma add_variable_equal k ks vs a post :
  left a = Token tokenVariableStart "{" :: Token tokenIdent k :: keys_tokens ks ++ Token tokenEqual "=" :: vs ++ Token tokenVariableEnd "}" :: post ->
  Forall (fun t => typ t <> tokenVariableEnd) vs ->
  match fieldPath fds (k :: ks) with
  | Some f => add_variable ltoks fds a =
      (Adder (modify_at (ad_cursor a) (addVariable vs) (ad_root a)) (ad_cursor a ++ [EVariable (tokens_String vs)])
         (ad_i a + (3 + length (keys_tokens ks) + length vs)) (ad_varfds a ++ [f]), Ok tt)
  | None => exists a' e, add_variable ltoks fds a = (a', Err e) /\ ad_root a' = ad_root a
  end.
Proof.
  intros Ha Hvs. pose proof (left_length ltoks a) as Hl. rewrite Ha in Hl. simpl in Hl. rewrite !length_app in Hl.
  simpl in Hl. rewrite length_app in Hl. pose proof (keys_tokens_length ltoks Hlen ks) as Hks. unfold add_variable.
  set (r := Token tokenEqual "=" :: vs ++ Token tokenVariableEnd "}" :: post) in *.
  assert (Hb : left (bump 1 a) = Token tokenIdent k :: hd (Token tokenEqual "=") (keys_tokens ks) :: tail (keys_tokens ks ++ r)).
  { rewrite left_bump, Ha. simpl. f_equal. by destruct ks. }
  assert (Hc : left (bump 2 a) = keys_tokens ks ++ r) by (by rewrite left_bump, Ha).
  rewrite (st_bind_run _ _ _ _ _ (next Ha)), (st_bind_run _ _ _ _ _ (next Hb)), bump_bump.
  rewrite (st_bind_run _ _ _ _ _ (keys_loop_run ltoks Hlen ks [k] max_tokens _ _ _ Hc ltac:(done) ltac:(lia))), bump_bump.
  set (n := 1 + 1 + length (keys_tokens ks)).
  assert (Hd : left (bump n a) = Token tokenEqual "=" :: hd (Token tokenVariableEnd "}") vs :: tail (vs ++ Token tokenVariableEnd "}" :: post)).
  { unfold n. rewrite <-bump_bump, left_bump. change (1 + 1) with 2. rewrite Hc, drop_app_length. unfold r. f_equal. by destruct vs. }
  assert (He : left (bump (n + 1) a) = vs ++ Token tokenVariableEnd "}" :: post).
  { rewrite <-bump_bump, left_bump, Hd. simpl. by destruct vs. }
  assert (Hp : variable_pattern ltoks (Token tokenEqual "=") (bump n a) = (bump (n + 1 + length vs) a, Ok vs)).
  { unfold variable_pattern. cbn [typ]. rewrite (st_bind_run _ _ _ _ _ (next Hd)), bump_bump.
    rewrite (vars_loop_run ltoks Hlen vs [] (S max_tokens) _ _ _ He eq_refl Hvs ltac:(lia)). by rewrite bump_bump. }
  rewrite (st_bind_run _ _ _ _ _ Hp). change ([k] ++ ks) with (k :: ks).
  destruct (fieldPath fds (k :: ks)) as [f|]; [|eexists _, _; split; reflexivity].
  unfold push_varfds, step_variable, modify, mbind, st_bind, bump, n. simpl. do 2 f_equal. lia.
Qed.

(** The field of a segment is not found, or the segment is passed: then its last
    token is the current one, and it is a segment of the grammar unless it leaves a
    brace open. *)
Definition passed (d : nat) (ts : list token) (a : adder) (r : adder * outcome error unit) : Prop :=
  rtc place_step (ad_root a) (ad_root r.1) /\
  ((exists e, r.2 = Err e) \/
   r.2 = Ok tt /\ exists t post j, left r.1 = t :: post /\ length post < length ts /\ rest After (j + d) post /\
     (j = 0 -> exists s, segment_ok s /\ ts = segment_tokens s ++ post)).

Lemma left_at a ts1 t post root c fs n :
  left a = ts1 ++ t :: post -> n = length ts1 -> left (Adder root c (ad_i a + n) fs) = t :: post.
Proof.
  unfold RouteRules.left. simpl. intros Ha ->. rewrite <-drop_drop, Ha. apply drop_app_length.
Qed.

Lemma add_segment_walk d ts a :
  left a = Token tokenSlash "/" :: ts -> rest Start d ts ->
  passed d ts a (add_segment ltoks fds (Token tokenSlash "/") a).
Proof.
  intros Ha Hr. inversion Hr as [| | | |? x ts' Hx Hts|? k ts' Hk Hts| | |]; subst.
  - (* a piece *)
    pose proof (add_segment_run ltoks Hlen fds (SPiece x) a ts' Ha) as H.
    assert (Hf : exists f, segment_fields fds (SPiece x) = Some f) by (destruct x; by eexists).
    destruct Hf as [f Hf]. rewrite Hf in H. rewrite H. split.
    + apply rtc_once. unfold enter. simpl. destruct x; constructor.
    + right. split; [done|]. exists (piece_token x), ts', 0. split_and!; [|simpl; lia|done|].
      * by apply (left_at a [Token tokenSlash "/"]).
      * intros _. exists (SPiece x). split; [|done]. split; [|done]. by apply Forall_singleton.
  - destruct (rest_Keys _ _ _ Hts eq_refl d eq_refl) as (ks & Hks & [(post & -> & Hpost)|(ts & -> & Hs)]).
    + (* a variable of one piece *)
      assert (Ha' : left a = Token tokenSlash "/" :: segment_tokens (SField k ks None) ++ post).
      { rewrite Ha. simpl. by rewrite <-app_assoc. }
      pose proof (add_segment_run ltoks Hlen fds (SField k ks None) a post Ha') as H. cbn [segment_fields] in H.
      destruct (fieldPath fds (k :: ks)) as [f|]; simpl in H; [rewrite H|].
      * split; [apply rtc_once; constructor|]. right. split; [done|].
        exists (Token tokenVariableEnd "}"), post, 0. split_and!; [|simpl; rewrite length_app; simpl; lia|done|].
        { apply (left_at a (Token tokenSlash "/" :: Token tokenVariableStart "{" :: Token tokenIdent k :: keys_tokens ks)); [by rewrite Ha|].
          simpl. rewrite length_app. simpl. lia. }
        intros _. exists (SField k ks None). split; [|simpl; by rewrite <-app_assoc].
        split; [by repeat constructor|by constructor].
      * destruct H as (a' & e & -> & Hroot). split; [simpl; by rewrite Hroot|]. left. by exists e.
    + (* a variable with a pattern *)
      destruct (rest_closed _ _ _ Hs d eq_refl) as (vs & post & j & -> & Hpost & Hvs & Hj).
      unfold add_segment. rewrite (st_bind_run _ _ _ _ _ (next Ha)). cbn [typ].
      assert (Hb : left (bump 1 a) = Token tokenVariableStart "{" :: Token tokenIdent k :: keys_tokens ks ++ Token tokenEqual "=" :: vs ++ Token tokenVariableEnd "}" :: post)
        by (by rewrite left_bump, Ha).
      pose proof (add_variable_equal k ks vs (bump 1 a) post Hb Hvs) as H.
      destruct (fieldPath fds (k :: ks)) as [f|]; [rewrite H|].
      * split; [apply rtc_once; constructor|]. right. split; [done|].
        exists (Token tokenVariableEnd "}"), post, j. split_and!; [|simpl; rewrite !length_app; simpl; rewrite length_app; simpl; lia|done|].
        { apply (left_at (bump 1 a) (Token tokenVariableStart "{" :: Token tokenIdent k :: keys_tokens ks ++ Token tokenEqual "=" :: vs)).
          - rewrite Hb. simpl. by rewrite <-app_assoc.
          - simpl. rewrite length_app. simpl. lia. }
        intros Hj0. destruct (Hj Hj0) as (x & ps & -> & Hps). exists (SField k ks (Some (x, ps))).
        split; [split; [done|by constructor]|]. simpl. rewrite <-!app_assoc. simpl. by rewrite <-!app_assoc.
      * destruct H as (a' & e & -> & Hroot). split; [simpl; by rewrite Hroot|]. left. by exists e.
Qed.

Lemma segments_loop_walk fuel d t ts a :
  left a = t :: ts -> rest After d (t :: ts) -> length (t :: ts) < fuel ->
  exists a' o, segments_loop ltoks fuel fds t a = (a', o) /\ rtc place_step (ad_root a) (ad_root a') /\
    ((exists e, o = Err e) \/
     exists t' ts' d', o = Ok t' /\ left a' = t' :: ts' /\ rest After d' (t' :: ts') /\ typ t' <> tokenSlash /\
       (d' = 0 -> d = 0 /\ exists ss, Forall segment_ok ss /\ t :: ts = segments_tokens ss ++ t' :: ts')).
Proof.
  revert d t ts a. induction fuel as [|fuel IH]; intros d t ts a Ha Hr Hf; [lia|]. cbn [segments_loop].
  destruct (decide (typ t = tokenSlash)) as [Ht|Ht].
  2:{ eexists _, _. split; [reflexivity|]. split; [done|]. right. exists t, ts, d. split_and!; [done|done|done|done|].
      intros ->. split; [done|]. by exists []. }
  inversion Hr as [| |? ts' Hs| | | | | |]; subst; try done.
  pose proof (add_segment_walk d ts a Ha Hs) as [Hroot H].
  destruct (add_segment ltoks fds (Token tokenSlash "/") a) as [a1 o1] eqn:E1. simpl in Hroot, H.
  destruct H as [[e ->]|(-> & t1 & post & j & Hl & Hlt & Hpost & Hj)].
  { rewrite (st_bind_err _ _ _ _ _ E1). eexists _, _. split; [reflexivity|]. split; [done|]. left. by exists e. }
  rewrite (st_bind_run _ _ _ _ _ E1). destruct post as [|t2 post]; [by inversion Hpost|].
  rewrite (st_bind_run _ _ _ _ _ (next Hl)).
  assert (Hl2 : left (bump 1 a1) = t2 :: post) by (by rewrite left_bump, Hl).
  destruct (IH _ _ _ _ Hl2 Hpost ltac:(simpl in *; lia)) as (a' & o & E & Hroot' & H). exists a', o. split; [exact E|].
  split; [by etransitivity|]. destruct H as [?|(t' & ts' & d' & -> & Hl' & Hr' & Ht' & Hd')]; [by left|right].
  exists t', ts', d'. split_and!; [done|done|done|done|]. intros H0. destruct (Hd' H0) as [Hjd (ss & Hss & Ess)].
  split; [lia|]. destruct (Hj ltac:(lia)) as (s & Hok & ->). exists (s :: ss). split; [by constructor|].
  rewrite Ess. simpl. by rewrite <-app_assoc.
Qed.
End Walk.

Lemma walk_rule_any ltoks fds p :
  Template ltoks -> length ltoks <= max_tokens ->
  exists a o, walk_rule ltoks fds (Adder p (root_cursor p) 0 []) = (a, o) /\ rtc place_step p (ad_root a) /\
    ((exists e, o = Err e) \/ o = Panic (PanicCall "invalid token") \/
     o = Ok tt /\ exists t, template_ok t /\ ltoks = template_tokens t).
Proof.
  intros HT Hlen. destruct (Template_rest ltoks HT) as (ts & El & Hr). apply rest_slash in Hr. rewrite <-El in *.
  unfold walk_rule. set (a0 := Adder p (root_cursor p) 0 []).
  assert (H0 : tok_at ltoks 0 a0 = (a0, Ok (Token tokenSlash "/"))) by (by rewrite El).
  rewrite (st_bind_run _ _ _ _ _ H0). rewrite El in Hr.
  destruct (segments_loop_walk ltoks Hlen fds (S max_tokens) 0 (Token tokenSlash "/") ts a0 ltac:(by rewrite El) Hr ltac:(rewrite <-El; lia))
    as (a & o & E & Hroot & H).
  destruct H as [[e ->]|(t & ts' & d & -> & Hl & Hr' & Ht & Hd)].
  { rewrite (st_bind_err _ _ _ _ _ E). exists a, (Err e). split_and!; [done|done|]. left. by exists e. }
  rewrite (st_bind_run _ _ _ _ _ E).
  assert (Htmpl : forall vb, verb_tokens vb = t :: ts' -> (forall v, vb = Some v -> word isLiteral v) -> d = 0 ->
    exists t, template_ok t /\ ltoks = template_tokens t).
  { intros vb Evb Hvb Hd0. destruct (Hd Hd0) as (_ & ss & Hss & Ess). exists (MkTemplate ss vb).
    assert (Et : ltoks = template_tokens (MkTemplate ss vb)) by (unfold template_tokens; simpl; by rewrite Evb, <-Ess).
    split; [|done]. split_and!; [|done|done|by rewrite <-Et]. simpl. intros ->. simpl in Ess. injection Ess as <- _. done. }
  inversion Hr' as [|v Hv|n ts1 H1|n ts1 H1| | | | |]; subst t; try subst ts'; cbn [typ] in *.
  - exists a, (Ok tt). split_and!; [done|done|]. right. right. split; [done|]. by apply (Htmpl None).
  - rewrite (st_bind_run _ _ _ _ _ (next_tok_run ltoks Hlen _ _ _ _ Hl)).
    eexists _, (Ok tt). split; [reflexivity|]. split.
    + eapply rtc_r; [exact Hroot|]. constructor.
    + right. right. split; [done|]. apply (Htmpl (Some v)); [done|by intros ? [= <-]|done].
  - done.
  - exists a, (Panic (PanicCall "invalid token")). split_and!; [done|done|by right; left].
Qed.

(** Whatever the rule is: its template has no variable inside a variable, or [addRule1]
    returns an error or panics, and has placed nodes only. *)
Lemma addRule1_any rule d n (p p' : path) o :
  addRule1 rule d n p = (p', o) ->
  (exists verb t, rule_pattern rule = Ok (verb, template_text t) /\ template_ok t) \/
  (rtc place_step p p' /\
   ((exists e, o = Err e) \/ o = Panic NilDereference \/ o = Panic (PanicCall "invalid token"))).
Proof.
  unfold addRule1. destruct (rule_pattern rule) as [[verb tmpl]|e|q|] eqn:Epat.
  2: { intros [= <- <-]. right. split; [done|]. eauto. }
  2, 3: unfold rule_pattern in Epat; repeat case_match; simplify_eq; intros [= <- <-]; right; (split; [done|eauto]).
  pose proof (run_lexer_sound lexTemplate Template tmpl lexTemplate_sound) as Hlex.
  destruct (run_lexer lexTemplate tmpl) as [ltoks|e|q|] eqn:El; [|by intros [= <- <-]; right; split; [done|eauto]|done|done].
  destruct Hlex as (HT & Htext & Hlen).
  destruct (walk_rule_any ltoks (Fields (Input d)) p HT Hlen) as (a & o' & E & Hroot & [[e ->]|[->|(-> & t & Ht & ->)]]); rewrite E.
  - intros [= <- <-]. right. split; [done|eauto].
  - intros [= <- <-]. right. split; [done|eauto].
  - intros _. left. exists verb, t. by rewrite <-Htext.
Qed.
End Walked.
