(* ===== verification/RouteAdd.v ===== *)
(** The theorems of registration: what [addRule] does to a well-formed tree whatever the
    rule and its outcome, the node and the method at which it leaves a rule and its
    additional bindings, and what it refuses. *)

From S2P Require Import Prelude Status Runes Lexer LexerSpec Proto Params Routes RouteTree RouteRules RouteWalk.

Section Add.
Context `{U : Unicode} `{P : Protoreflect}.

(** ** Patterns are determined by their text *)

Definition lexable (ps : list piece) : Prop :=
  Forall piece_ok ps /\ length (pieces_tokens ps) + 2 <= max_tokens.

Lemma lexable_inj x ps y qs :
  lexable (x :: ps) -> lexable (y :: qs) ->
  tokens_String (pieces_tokens (x :: ps)) = tokens_String (pieces_tokens (y :: qs)) ->
  pieces_tokens (x :: ps) = pieces_tokens (y :: qs).
Proof.
  intros [H1 L1] [H2 L2] E.
  assert (Hrun : forall zs, zs <> [] -> Forall piece_ok zs -> length (pieces_tokens zs) + 2 <= max_tokens ->
    run_lexer lexTemplate (String "/" (tokens_String (pieces_tokens zs))) =
    Ok (Token tokenSlash "/" :: pieces_tokens zs ++ [Token tokenEOF ""])).
  { intros zs Hne Hok Hl. apply lexTemplate_iff. split_and!.
    - by apply Template_plain, pieces_Segments.
    - rewrite tokens_String_cons, tokens_String_app, tokens_String_cons. simpl.
      by rewrite str_app_nil_r.
    - simpl. rewrite length_app. simpl. lia. }
  pose proof (Hrun (x :: ps) ltac:(done) H1 L1) as R1.
  rewrite E, (Hrun (y :: qs) ltac:(done) H2 L2) in R1. injection R1 as R1.
  by apply app_inv_tail in R1.
Qed.

(** ** The tree that a template makes *)

Section Place.
Context (Q : list piece -> Prop).

Lemma segment_update_variable s :
  (exists v, s = SPiece (PLiteral v)) \/
  segment_update s = addVariable (pieces_tokens (segment_pattern s)) /\
  segment_edge s = EVariable (tokens_String (pieces_tokens (segment_pattern s))).
Proof. destruct s as [[]|]; eauto. Qed.

Lemma segment_pattern_cons s : exists x ps, segment_pattern s = x :: ps.
Proof. destruct s as [x|k ks [[x ps]|]]; by eexists _, _. Qed.

Lemma tree_segment_update d s p :
  Q (segment_pattern s) -> tree Q d p -> tree Q d (segment_update s p).
Proof.
  intros HQ Hp. destruct (segment_update_variable s) as [[v ->]|[-> _]]; [by apply tree_addPath|].
  destruct (segment_pattern_cons s) as (x & ps & E). rewrite E in *. by apply tree_addVariable.
Qed.

Lemma extends_segment_update s p : extends p (segment_update s p).
Proof.
  destruct (segment_update_variable s) as [[v ->]|[-> _]];
    [apply extends_addPath | apply extends_addVariable].
Qed.

Lemma tree_place es ss d p :
  Forall (fun s => Q (segment_pattern s)) ss -> tree Q d p -> tree Q d (place es ss p).
Proof.
  intros Hss. revert es p. induction Hss as [|s ss Hs Hss IH]; intros es p Hp; simpl; [done|].
  apply IH, tree_modify_at; [done|]. intros q _ Hq. by apply tree_segment_update.
Qed.

Lemma extends_place es ss p : extends p (place es ss p).
Proof.
  revert es p. induction ss as [|s ss IH]; intros es p; simpl; [done|].
  etransitivity; [|apply IH]. apply extends_modify_at. intros q _. apply extends_segment_update.
Qed.

Lemma addVariable_find toks p : is_Some (findVariable (addVariable toks p) (tokens_String toks)).
Proof.
  destruct (findVariable (addVariable toks p) _) as [|] eqn:E; [done|]. exfalso.
  apply find_variable_none in E. apply E. unfold addVariable.
  destruct (findVariable p _) as [w|] eqn:Ew.
  - apply find_variable_some in Ew as [Hw <-]. by apply list_elem_of_fmap_2.
  - simpl. rewrite merge_sort_Permutation, fmap_app. apply elem_of_app. right. by left.
Qed.

Lemma segment_update_node s p : is_Some (node_at [segment_edge s] (segment_update s p)).
Proof.
  destruct (segment_update_variable s) as [[v ->]|[-> ->]]; simpl.
  - unfold addPath. simpl. destruct (segments p !! _) eqn:E; simpl; [by rewrite E|].
    by rewrite lookup_insert_eq.
  - destruct (addVariable_find (pieces_tokens (segment_pattern s)) p) as [w ->]. by eexists.
Qed.

Lemma place_node es ss p :
  is_Some (node_at es p) -> is_Some (node_at (es ++ (segment_edge <$> ss)) (place es ss p)).
Proof.
  revert es p. induction ss as [|s ss IH]; intros es p [q Hq]; simpl.
  - rewrite app_nil_r. by exists q.
  - rewrite cons_middle, app_assoc. apply IH. rewrite node_at_app, (node_at_modify _ _ _ q Hq).
    apply segment_update_node.
Qed.

Definition patterns_ok (t : template) : Prop :=
  Forall (fun s => Q (segment_pattern s)) (t_segments t).

Lemma tree_place_template t d p : patterns_ok t -> tree Q d p -> tree Q d (place_template t p).
Proof.
  intros Ht Hp. pose proof (tree_place [] _ d p Ht Hp) as Hq. unfold place_template.
  destruct (t_verb t); [|done]. apply tree_modify_at; [done|]. intros. by apply tree_addPath.
Qed.

Lemma extends_place_template t p : extends p (place_template t p).
Proof.
  pose proof (extends_place [] (t_segments t) p) as Hq. unfold place_template.
  destruct (t_verb t); [|done]. etransitivity; [exact Hq|]. apply extends_modify_at.
  intros. apply extends_addPath.
Qed.

Lemma place_template_node t p : is_Some (node_at (template_edges t) (place_template t p)).
Proof.
  destruct (place_node [] (t_segments t) p ltac:(by eexists)) as [q Hq]. simpl in Hq.
  unfold template_edges, place_template. destruct (t_verb t) as [v|]; simpl.
  - rewrite node_at_app, (node_at_modify _ _ _ q Hq). simpl. unfold addPath. simpl.
    destruct (segments q !! _) eqn:E; simpl; [by rewrite E|]. by rewrite lookup_insert_eq.
  - rewrite app_nil_r. by exists q.
Qed.

(** Placing a template whose nodes are there changes nothing. *)
Lemma segment_update_id s p : is_Some (node_at [segment_edge s] p) -> segment_update s p = p.
Proof.
  destruct (segment_update_variable s) as [[v ->]|[-> ->]]; simpl; intros [q Hq].
  - unfold addPath. simpl. by destruct (segments p !! _).
  - unfold addVariable. by destruct (findVariable p _).
Qed.

Lemma place_id es ss p : is_Some (node_at (es ++ (segment_edge <$> ss)) p) -> place es ss p = p.
Proof.
  revert es p. induction ss as [|s ss IH]; intros es p Hq; simpl; [done|].
  rewrite fmap_cons, cons_middle, app_assoc in Hq.
  rewrite modify_at_id; [by apply IH|]. intros r Hr. apply segment_update_id.
  rewrite node_at_app in Hq. destruct Hq as [q Hq].
  destruct (node_at (es ++ [segment_edge s]) p) as [w|] eqn:E; [|done].
  rewrite node_at_app, Hr in E. by exists w.
Qed.

Lemma place_template_id t p : is_Some (node_at (template_edges t) p) -> place_template t p = p.
Proof.
  unfold template_edges, place_template. rewrite node_at_app. intros [q Hq].
  destruct (node_at (segment_edge <$> t_segments t) p) as [r|] eqn:Er; simpl in Hq; [|done].
  rewrite place_id by (by exists r). destruct (t_verb t) as [v|]; [|done].
  apply modify_at_id. intros r'. rewrite Er. intros [= <-]. unfold addPath. simpl in *.
  by destruct (segments r !! _).
Qed.

(** Placing adds nodes without methods: a node of the new tree has the methods of
    the node that was there, or none. *)
Definition placed (p p' : path) : Prop := forall es q', node_at es p' = Some q' ->
  (exists q, node_at es p = Some q /\ methods q' = methods q /\ methodAll q' = methodAll q) \/
  (methods q' = ∅ /\ methodAll q' = None).

Lemma placed_refl p : placed p p.
Proof. intros es q Hq. left. by exists q. Qed.

Lemma placed_trans p1 p2 p3 : placed p1 p2 -> placed p2 p3 -> placed p1 p3.
Proof.
  intros H1 H2 es q3 Hq3. destruct (H2 es q3 Hq3) as [(q2 & Hq2 & -> & ->)|?]; [|by right]. by apply H1.
Qed.

Lemma placed_newPath es q : node_at es newPath = Some q -> methods q = ∅ /\ methodAll q = None.
Proof. destruct es as [|[k|n] es]; [by intros [= <-]|done..]. Qed.

Lemma placed_addPath t1 t2 p : placed p (addPath t1 t2 p).
Proof.
  unfold addPath. destruct (segments p !! (val t1 ++ val t2)%string) eqn:E; [apply placed_refl|].
  intros [|[k|n] es] q'; simpl.
  - intros [= <-]. left. by exists p.
  - destruct (decide (k = (val t1 ++ val t2)%string)) as [->|Hne].
    + rewrite lookup_insert_eq. intros Hq. right. by apply placed_newPath in Hq.
    + rewrite lookup_insert_ne by done. intros Hq. left. by exists q'.
  - intros Hq. left. by exists q'.
Qed.

Lemma placed_addVariable toks p : NoDup (vname <$> variables p) -> placed p (addVariable toks p).
Proof.
  intros Hnd. assert (Hsame : methods (addVariable toks p) = methods p /\ methodAll (addVariable toks p) = methodAll p /\
    segments (addVariable toks p) = segments p) by (unfold addVariable; by destruct (findVariable p _)).
  destruct Hsame as (Hm & Ha & Hs). intros [|[k|n] es] q'; simpl.
  - intros [= <-]. left. by exists p.
  - rewrite Hs. intros Hq. left. by exists q'.
  - destruct (findVariable (addVariable toks p) n) as [v|] eqn:Ev; simpl; [|done]. intros Hq.
    apply find_variable_some in Ev as [[Hv|[_ ->]]%addVariable_elem <-].
    + left. exists q'. unfold findVariable. by rewrite find_variable_elem.
    + right. by apply placed_newPath in Hq.
Qed.

Lemma placed_modify_at es f p :
  (forall q, node_at es p = Some q -> placed q (f q)) -> placed p (modify_at es f p).
Proof.
  revert p. induction es as [|[k|n] es IH]; intros p Hf; simpl in *; [by apply Hf|..].
  - intros [|[k'|n'] es'] q'; simpl.
    + intros [= <-]. left. by exists p.
    + destruct (decide (k' = k)) as [->|Hne]; [rewrite lookup_alter_eq|rewrite lookup_alter_ne by done; intros Hq; left; by exists q'].
      destruct (segments p !! k) as [r|]; simpl in *; [|done]. by apply IH.
    + intros Hq. left. by exists q'.
  - intros [|[k'|n'] es'] q'; simpl.
    + intros [= <-]. left. by exists p.
    + intros Hq. left. by exists q'.
    + unfold findVariable in *. simpl. rewrite find_modify_variable. destruct (find_variable (variables p) n') as [v|] eqn:Ev; simpl; [|done].
      destruct (String.eqb_spec n n') as [->|Hne]; [|intros Hq; left; by exists q']. rewrite Ev in Hf. simpl in *. by apply IH.
Qed.

Lemma placed_segment_update d s p : tree Q d p -> placed p (segment_update s p).
Proof.
  intros Hp. destruct (segment_update_variable s) as [[v ->]|[-> _]]; [apply placed_addPath|].
  apply placed_addVariable, (tree_node _ _ _ Hp).
Qed.

Lemma placed_place es ss d p : Forall (fun s => Q (segment_pattern s)) ss -> tree Q d p -> placed p (place es ss p).
Proof.
  intros Hss. revert es p. induction Hss as [|s ss Hs Hss IH]; intros es p Hp; simpl; [apply placed_refl|].
  eapply placed_trans; [|apply IH].
  - apply placed_modify_at. intros q Hq. eapply placed_segment_update, tree_node_at; [exact Hp|exact Hq].
  - apply tree_modify_at; [done|]. intros q _ Hq. by apply tree_segment_update.
Qed.

Lemma placed_place_template t d p : patterns_ok t -> tree Q d p -> placed p (place_template t p).
Proof.
  intros Ht Hp. pose proof (placed_place [] _ d p Ht Hp) as Hq. unfold place_template.
  destruct (t_verb t); [|done]. eapply placed_trans; [exact Hq|]. apply placed_modify_at. intros. apply placed_addPath.
Qed.

Lemma count_variables_app es es' :
  count_variables (es ++ es') = count_variables es + count_variables es'.
Proof. induction es as [|[] es IH]; simpl; congruence. Qed.

(** The depth of the node is the number of the rule's variables. *)
Lemma segments_fields_count fds ss fs :
  segments_fields fds ss = Some fs -> count_variables (segment_edge <$> ss) = length fs.
Proof.
  revert fs. induction ss as [|s ss IH]; intros fs; simpl; [by intros [= <-]|].
  destruct (segment_fields fds s) as [f|] eqn:Ef; simpl; [|done].
  destruct (segments_fields fds ss) as [fs'|] eqn:Es; simpl; [|done]. intros [= <-].
  rewrite length_app, <-(IH fs' eq_refl). destruct s as [[]|k ks pat]; cbn [segment_fields] in Ef; try (by injection Ef as <-).
  apply fmap_Some in Ef as (f' & _ & ->). done.
Qed.
End Place.

(** ** Where a rule is registered *)

(** The method [m] is the one for the verb at the node of the template. *)
Definition registered (p : path) (verb : string) (t : template) (m : method) : Prop :=
  exists q, node_at (template_edges t) p = Some q /\
    (if String.eqb verb "*" then methodAll q = Some m else methods q !! verb = Some m).

Lemma registered_extends Q d0 p p' verb t m :
  extends p p' -> tree Q d0 p' -> registered p verb t m -> registered p' verb t m.
Proof.
  intros He Ht (q & Hq & Hm). destruct (node_at_extends _ _ _ _ _ _ He Ht Hq) as (q' & Hq' & He').
  exists q'. split; [done|]. destruct He' as [? ? Hsub Hall _ _].
  destruct (String.eqb verb "*"); [by apply Hall|]. by eapply lookup_weaken.
Qed.

(** The method of a rule for a method [d] named [n]: the fields of its variables are
    those of the template, the body is the whole request, none of it or the field the
    rule names, and so is the part of the response, which is looked up by the name of
    the body. *)
Record method_of (rule : HttpRule) (d : MethodDescriptor) (n : string) (t : template) (m : method) : Prop := {
  mo_desc : desc m = d;
  mo_name : method_name m = n;
  mo_vars : segments_fields (Fields (Input d)) (t_segments t) = Some (vars m);
  mo_body :
    if String.eqb (Body rule) "" then body m = [] /\ hasBody m = false
    else hasBody m = true /\
      if String.eqb (Body rule) "*" then body m = []
      else fieldPath (Fields (Input d)) (Split (Body rule) ".") = Some (body m);
  mo_resp :
    if String.eqb (ResponseBody rule) "" then resp m = []
    else fieldPath (Fields (Input d)) (Split (Body rule) ".") = Some (resp m);
}.

(** A rule whose template, when it has no variable inside a variable, has patterns
    that are [Q]. *)
Definition registrable (Q : list piece -> Prop) (rule : HttpRule) : Prop :=
  forall verb t, rule_pattern rule = Ok (verb, template_text t) -> template_ok t ->
    exists t', template_text t = template_text t' /\ template_ok t' /\ patterns_ok Q t'.

(** A rule whose template has no variable inside a variable. *)
Definition flat (rule : HttpRule) : Prop :=
  forall verb tmpl ltoks, rule_pattern rule = Ok (verb, tmpl) -> run_lexer lexTemplate tmpl = Ok ltoks ->
    exists t, template_ok t /\ tmpl = template_text t.

Section Keep.
Context (Q : list piece -> Prop).

(** What holds after a call that changes the tree, of any rule or of flat ones: it
    ends, in an error or one of two panics when it fails. *)
Definition ends {A} (o : go A) : Prop :=
  (exists a, o = Ok a) \/ (exists e, o = Err e) \/ o = Panic NilDereference \/ o = Panic (PanicCall "invalid token").

Definition keeps_tree (fl : Prop) {A} (m : st path error A) : Prop :=
  forall p p' o, tree Q 0 p -> m p = (p', o) ->
    extends p p' /\ ends o /\ (is_ok o = true \/ fl -> tree Q 0 p') /\ (fl -> o <> Panic (PanicCall "invalid token")).

Lemma keeps_tree_ret fl {A} (a : A) : keeps_tree fl (mret a).
Proof. intros p p' o Hp [= <- <-]. split_and!; [done|left; by eexists|done|done]. Qed.

Lemma keeps_tree_throw fl {A} e : keeps_tree fl (throw e : st path error A).
Proof. intros p p' o Hp [= <- <-]. split_and!; [done|right; left; by eexists|done|done]. Qed.

Lemma keeps_tree_bind (fl : Prop) {A B} (m : st path error A) (f : A -> st path error B) :
  keeps_tree fl m -> (forall a, keeps_tree fl (f a)) -> keeps_tree fl (m ≫= f).
Proof.
  intros Hm Hf p p' o Hp. unfold mbind, st_bind. destruct (m p) as [p1 [a|e|q|]] eqn:E;
    destruct (Hm _ _ _ Hp E) as (He & Ho & Ht & Hi).
  - intros E'. destruct (Hf a _ _ _ (Ht (or_introl eq_refl)) E') as (? & ? & ? & ?).
    split_and!; [by etransitivity|done..].
  - intros [= <- <-]. split_and!; [done|right; left; by eexists|by intros [?|?]; [done|apply Ht; right]|done].
  - intros [= <- <-]. destruct Ho as [[? [=]]|[[? [=]]|[[= ->]|[= ->]]]];
      (split_and!; [done|unfold ends; tauto|by intros [?|?]; [done|apply Ht; right]|]); [done|].
    intros Hfl. by destruct (Hi Hfl).
  - by destruct Ho as [[? [=]]|[[? [=]]|[[=]|[=]]]].
Qed.

Lemma count_template_edges fds t fs :
  segments_fields fds (t_segments t) = Some fs -> count_variables (template_edges t) = length fs.
Proof.
  intros H%segments_fields_count. unfold template_edges.
  rewrite count_variables_app, H. destruct (t_verb t); simpl; lia.
Qed.

(** The four ends of [addRule1] for a template that is a list of segments. *)
Lemma addRule1_run rule d n p verb t p' o :
  rule_pattern rule = Ok (verb, template_text t) -> template_ok t ->
  addRule1 rule d n p = (p', o) ->
  segments_fields (Fields (Input d)) (t_segments t) = None /\
    (exists e ss, o = Err e /\ ss `prefix_of` t_segments t /\ p' = place [] ss p) \/
  exists fs q, segments_fields (Fields (Input d)) (t_segments t) = Some fs /\
    node_at (template_edges t) (place_template t p) = Some q /\
    match methods q !! verb, methodAll q with
    | Some y, _ => p' = place_template t p /\
        (MethodFullName (desc y) = MethodFullName d /\ o = Ok false \/
         MethodFullName (desc y) <> MethodFullName d /\ exists e, o = Err e)
    | None, Some _ => p' = place_template t p /\ o = Panic NilDereference
    | None, None =>
        p' = place_template t p /\ (exists e, o = Err e) \/
        exists m, rule_method rule d n fs = Ok m /\
          p' = modify_at (template_edges t) (registerMethod verb m) (place_template t p) /\ o = Ok true
    end.
Proof.
  intros Hpat Ht. unfold addRule1. rewrite Hpat, (template_lexed t Ht).
  pose proof (walk_rule_run (Fields (Input d)) t p ltac:(by destruct Ht as (_ & _ & _ & ?))) as Hw.
  destruct (segments_fields (Fields (Input d)) (t_segments t)) as [fs|] eqn:Efs.
  2:{ destruct Hw as (a & e & ss & -> & Hss & Hr). intros [= <- <-]. left. split; [done|]. by exists e, ss. }
  destruct Hw as [i ->]. simpl. destruct (place_template_node t p) as [q Hq]. rewrite Hq. cbn.
  intros E. right. exists fs, q. split_and!; [done..|].
  destruct (methods q !! verb) as [y|].
  { destruct (String.eqb_spec (MethodFullName (desc y)) (MethodFullName d));
      injection E as <- <-; split; eauto. }
  destruct (methodAll q); [by injection E as <- <-|].
  assert (Hrm : (exists m, rule_method rule d n fs = Ok m) \/ exists e, rule_method rule d n fs = Err e).
  { unfold rule_method, mbind, outcome_bind. repeat case_match; simplify_eq; eauto. }
  destruct Hrm as [[m Hm]|[e He]]; [rewrite Hm in E | rewrite He in E]; injection E as <- <-; eauto.
Qed.

Lemma rule_method_vars rule d n fs m : rule_method rule d n fs = Ok m -> vars m = fs /\ desc m = d.
Proof.
  unfold rule_method, mbind, outcome_bind. intros H. repeat case_match; by simplify_eq.
Qed.

Lemma rule_method_of rule d n t fs m :
  segments_fields (Fields (Input d)) (t_segments t) = Some fs -> rule_method rule d n fs = Ok m -> method_of rule d n t m.
Proof.
  intros Hfs. unfold rule_method, mbind, outcome_bind. intros H.
  assert (Hbody : String.eqb (Body rule) "*" = true -> String.eqb (Body rule) "" = false) by (by intros ->%String.eqb_eq).
  destruct (String.eqb (Body rule) "*") eqn:Eb; [specialize (Hbody eq_refl)|clear Hbody; destruct (String.eqb (Body rule) "") eqn:Eb'];
    destruct (String.eqb (ResponseBody rule) "") eqn:Er; destruct (fieldPath (Fields (Input d)) (Split (Body rule) ".")) as [f|] eqn:Ef; simplify_eq;
    (split; cbn [desc method_name vars body hasBody resp]; rewrite ?Hbody, ?Eb, ?Eb', ?Er, ?Ef; done).
Qed.

Lemma Forall_prefix {A} (R : A -> Prop) l l' : l `prefix_of` l' -> Forall R l' -> Forall R l.
Proof. intros [k ->]. by intros [? _]%Forall_app. Qed.

(** A rule of a template of [Q]. *)
Lemma addRule1_template rule d n verb t p p' o :
  rule_pattern rule = Ok (verb, template_text t) -> template_ok t -> patterns_ok Q t ->
  tree Q 0 p -> addRule1 rule d n p = (p', o) ->
  tree Q 0 p' /\ extends p p' /\ ((exists b, o = Ok b) \/ (exists e, o = Err e) \/ o = Panic NilDereference).
Proof.
  intros Epat Ht HQ Hp E.
  pose proof (tree_place_template Q t 0 p HQ Hp) as Hpt. pose proof (extends_place_template t p) as Hep.
  destruct (addRule1_run _ _ _ _ _ _ _ _ Epat Ht E) as [(_ & e & ss & -> & Hss & ->)|(fs & q & Hfs & Hq & H)].
  { split_and!; [by apply tree_place; [eapply Forall_prefix|] | apply extends_place | eauto]. }
  destruct (methods q !! verb) as [y|] eqn:Ey; [|destruct (methodAll q) as [y|] eqn:Ea].
  - destruct H as [-> [[_ ->]|[_ [e ->]]]]; (split_and!; [done|done|by eauto]).
  - destruct H as [-> ->]. split_and!; [done|done|by eauto].
  - destruct H as [[-> [e ->]]|(m & Hm & -> & ->)]; [split_and!; [done|done|by eauto]|]. split_and!; [| |by eauto].
    + apply tree_modify_at; [done|]. intros r _ Hr. apply tree_registerMethod; [|done].
      destruct (rule_method_vars _ _ _ _ _ Hm) as [-> _]. by rewrite (count_template_edges _ _ _ Hfs).
    + etransitivity; [exact Hep|]. apply extends_modify_at. intros r Hr.
      rewrite Hq in Hr. injection Hr as <-. by apply extends_registerMethod.
Qed.

(** A flat rule has a template, or nothing happens. *)
Lemma addRule1_flat rule d n (p p' : path) o :
  flat rule -> addRule1 rule d n p = (p', o) ->
  (exists verb t, rule_pattern rule = Ok (verb, template_text t) /\ template_ok t) \/
  p' = p /\ ((exists e, o = Err e) \/ o = Panic NilDereference).
Proof.
  intros Hfl E. destruct (addRule1_any _ _ _ _ _ _ E) as [?|_]; [by left|].
  destruct (rule_pattern rule) as [[verb tmpl]|e|q|] eqn:Epat.
  2-4: unfold addRule1 in E; rewrite Epat in E; right; revert E; unfold rule_pattern in Epat;
    repeat case_match; simplify_eq; intros [= <- <-]; split; eauto.
  destruct (run_lexer lexTemplate tmpl) as [ltoks|e|q|] eqn:El.
  - destruct (Hfl _ _ _ Epat El) as (t & Ht & ->). left. by exists verb, t.
  - unfold addRule1 in E. rewrite Epat, El in E. injection E as <- <-. right. eauto.
  - pose proof (run_lexer_sound lexTemplate Template tmpl lexTemplate_sound) as H. by rewrite El in H.
  - pose proof (run_lexer_sound lexTemplate Template tmpl lexTemplate_sound) as H. by rewrite El in H.
Qed.

Lemma keeps_addRule1 (fl : Prop) rule d n : (fl -> flat rule) -> registrable Q rule -> keeps_tree fl (addRule1 rule d n).
Proof.
  intros Hfl Hreg p p' o Hp E.
  assert (Htmpl : (exists verb t, rule_pattern rule = Ok (verb, template_text t) /\ template_ok t) ->
    tree Q 0 p' /\ extends p p' /\ ((exists b, o = Ok b) \/ (exists e, o = Err e) \/ o = Panic NilDereference)).
  { intros (verb & t & Epat & Ht). destruct (Hreg _ _ Epat Ht) as (t' & Et & Ht' & HQ). rewrite Et in Epat.
    by eapply addRule1_template. }
  destruct (addRule1_any _ _ _ _ _ _ E) as [H|[Hpl Ho]].
  { destruct (Htmpl H) as (? & ? & Ho). split_and!; [done|unfold ends; tauto|done|]. intros _ ->. by destruct Ho as [[? [=]]|[[? [=]]|[=]]]. }
  assert (Hflat : fl -> tree Q 0 p' /\ o <> Panic (PanicCall "invalid token")).
  { intros H. destruct (addRule1_flat _ _ _ _ _ _ (Hfl H) E) as [H'|[-> Ho']].
    - destruct (Htmpl H') as (? & _ & Ho'). split; [done|]. intros ->. by destruct Ho' as [[? [=]]|[[? [=]]|[=]]].
    - split; [done|]. intros ->. by destruct Ho' as [[? [=]]|[=]]. }
  split_and!; [by apply place_steps_extends|unfold ends; tauto| |by intros [_ ?]%Hflat].
  intros [Hok|?%Hflat]; [|tauto]. by destruct Ho as [[e ->]|[->| ->]].
Qed.

Lemma addRule_no_bindings rule d n p :
  AdditionalBindings rule = [] ->
  addRule rule d n p = (let '(p', o) := addRule1 rule d n p in
    (p', match o with Ok _ => Ok tt | Err e => Err e | Panic q => Panic q | OutOfFuel => OutOfFuel end)).
Proof.
  intros E. rewrite addRule_unfold, E. unfold mbind, st_bind.
  destruct (addRule1 rule d n p) as [p' [[]| | |]]; done.
Qed.

Lemma keeps_bindings (fl : Prop) d n rules :
  (fl -> Forall flat rules) -> Forall (registrable Q) rules -> keeps_tree fl (bindings d n rules).
Proof.
  intros Hfl Hrs. revert Hfl. induction Hrs as [|r rules Hr Hrs IH]; intros Hfl; simpl; [apply keeps_tree_ret|].
  destruct (AdditionalBindings r) as [|] eqn:E; simpl; [|apply keeps_tree_throw].
  apply keeps_tree_bind; [|intros _; apply IH; intros H; by apply Hfl, Forall_cons in H as [_ ?]].
  rewrite addRule_unfold, E. apply keeps_tree_bind; [apply keeps_addRule1; [|done]; intros H; by apply Hfl, Forall_cons in H as [? _]|].
  intros []; apply keeps_tree_ret.
Qed.

Lemma keeps_addRule (fl : Prop) rule d n :
  (fl -> flat rule /\ Forall flat (AdditionalBindings rule)) ->
  registrable Q rule -> Forall (registrable Q) (AdditionalBindings rule) -> keeps_tree fl (addRule rule d n).
Proof.
  intros Hfl Hr Hrs. rewrite addRule_unfold. apply keeps_tree_bind; [apply keeps_addRule1; [by intros [? _]%Hfl|done]|].
  intros []; simpl; [by apply keeps_bindings; [intros [_ ?]%Hfl|] | apply keeps_tree_ret].
Qed.

(** A successful call. *)
Lemma addRule_ok_keeps rule d n p p' u :
  registrable Q rule -> Forall (registrable Q) (AdditionalBindings rule) ->
  tree Q 0 p -> addRule rule d n p = (p', Ok u) -> tree Q 0 p' /\ extends p p'.
Proof.
  intros Hr Hrs Hp E. destruct (keeps_addRule False rule d n ltac:(done) Hr Hrs _ _ _ Hp E) as (He & _ & Ht & _).
  split; [apply Ht; by left|done].
Qed.

(** One rule that is registered: the method is new and the rule's, or the one that
    was there, of the same full name, and then the tree is what it was. *)
Lemma addRule1_registered rule d n p p' b verb t :
  tree Q 0 p -> rule_pattern rule = Ok (verb, template_text t) -> template_ok t -> patterns_ok Q t ->
  addRule1 rule d n p = (p', Ok b) ->
  if b then (forall m, ~ registered p verb t m) /\ exists m, method_of rule d n t m /\ registered p' verb t m
  else p' = p /\ exists m, registered p verb t m /\ MethodFullName (desc m) = MethodFullName d.
Proof.
  intros Hp Hpat Ht HQ E. pose proof (tree_place_template Q t 0 p HQ Hp) as Hpt.
  pose proof (placed_place_template Q t 0 p HQ Hp) as Hpl.
  destruct (addRule1_run _ _ _ _ _ _ _ _ Hpat Ht E) as [(_ & e & ? & [=] & _)|(fs & q & Hfs & Hq & H)].
  pose proof (tree_no_star _ _ _ _ _ Hpt Hq) as Hstar.
  destruct (methods q !! verb) as [y|] eqn:Ey.
  - destruct H as [-> [[Hd [= ->]]|[_ [e [=]]]]].
    destruct (Hpl _ _ Hq) as [(q0 & Hq0 & Em & _)|[Em _]]; [|by rewrite Em, lookup_empty in Ey].
    split; [apply place_template_id; by exists q0|]. exists y. split; [|done]. exists q0. split; [done|].
    destruct (String.eqb_spec verb "*") as [->|]; [congruence|by rewrite <-Em].
  - destruct (methodAll q) eqn:Ea; [by destruct H|].
    destruct H as [[_ [e [=]]]|(m & Hm & -> & [= ->])]. split.
    + intros m0 (q0 & Hq0 & Hm0). destruct (node_at_extends Q _ 0 _ _ _ (extends_place_template t p) Hpt Hq0) as (q1 & Hq1 & He).
      rewrite Hq in Hq1. injection Hq1 as <-. destruct He as [? ? Hsub Hall _ _].
      destruct (String.eqb verb "*"); [destruct (Hall _ Hm0); congruence|].
      pose proof (lookup_weaken _ _ _ _ Hm0 Hsub). congruence.
    + exists m. split; [by eapply rule_method_of|]. exists (registerMethod verb m q).
      split; [by apply node_at_modify|].
      unfold registerMethod. destruct (String.eqb verb "*"); [done|]. simpl. apply lookup_insert_eq.
Qed.

(** Where the method of a rule comes from: one of the rules made it, for a template of
    the same node, or the tree had it. *)
Definition made_by (p : path) (rules : list HttpRule) d n verb t (m : method) : Prop :=
  MethodFullName (desc m) = MethodFullName d /\
  (registered p verb t m \/
   exists r t', r ∈ rules /\ rule_pattern r = Ok (verb, template_text t') /\
     template_edges t' = template_edges t /\ method_of r d n t' m).

(** After [addRule1] the methods are those that were there and the one it made. *)
Lemma node_at_modify_inv es0 f p es q' :
  (forall q, segments (f q) = segments q /\ variables (f q) = variables q) ->
  node_at es (modify_at es0 f p) = Some q' ->
  exists q, node_at es p = Some q /\
    (es = es0 /\ q' = f q \/ es <> es0 /\ methods q' = methods q /\ methodAll q' = methodAll q).
Proof.
  intros Hf. revert p es. induction es0 as [|[k|n] es0 IH]; intros p es; simpl.
  - destruct es as [|e es]; [intros [= <-]; exists p; split; [done|by left]|]. intros Hq. exists q'.
    destruct (Hf p) as [Hs Hv]. split; [|by right]. destruct e; simpl in *; [by rewrite Hs in Hq|].
    unfold findVariable in *. by rewrite Hv in Hq.
  - destruct es as [|[k'|n'] es]; simpl; [intros [= <-]; exists p; split; [done|by right]| |intros Hq; exists q'; split; [done|by right]].
    destruct (decide (k' = k)) as [->|Hne].
    + rewrite lookup_alter_eq. destruct (segments p !! k) as [r|]; simpl; [|done]. intros Hq.
      destruct (IH _ _ Hq) as (q & ? & H). exists q. split; [done|]. destruct H as [[-> ?]|[? ?]]; [by left|right]. split; [congruence|done].
    + rewrite lookup_alter_ne by done. intros Hq. exists q'. split; [done|right]. split; [congruence|done].
  - destruct es as [|[k'|n'] es]; simpl; [intros [= <-]; exists p; split; [done|by right]|intros Hq; exists q'; split; [done|by right]|].
    unfold findVariable. simpl. rewrite find_modify_variable. destruct (find_variable (variables p) n') as [v|]; simpl; [|done].
    destruct (String.eqb_spec n n') as [->|Hne]; simpl.
    + intros Hq. destruct (IH _ _ Hq) as (q & ? & H). exists q. split; [done|]. destruct H as [[-> ?]|[? ?]]; [by left|right]. split; [congruence|done].
    + intros Hq. exists q'. split; [done|right]. split; [congruence|done].
Qed.

Lemma addRule1_made rule d n p p' b verb t v t' m :
  tree Q 0 p -> rule_pattern rule = Ok (verb, template_text t) -> template_ok t -> patterns_ok Q t ->
  addRule1 rule d n p = (p', Ok b) -> registered p' v t' m ->
  registered p v t' m \/ v = verb /\ template_edges t = template_edges t' /\ method_of rule d n t m.
Proof.
  intros Hp Hpat Ht HQ E (q' & Hq' & Hm). pose proof (tree_place_template Q t 0 p HQ Hp) as Hpt.
  pose proof (placed_place_template Q t 0 p HQ Hp) as Hpl.
  assert (Hold : forall q, node_at (template_edges t') (place_template t p) = Some q ->
    (if String.eqb v "*" then methodAll q = Some m else methods q !! v = Some m) -> registered p v t' m).
  { intros q Hq Hqm. destruct (Hpl _ _ Hq) as [(q0 & Hq0 & Em & Ea)|[Em Ea]].
    - exists q0. split; [done|]. by rewrite <-Em, <-Ea.
    - rewrite Em, Ea, lookup_empty in Hqm. by destruct (String.eqb v "*"). }
  destruct (addRule1_run _ _ _ _ _ _ _ _ Hpat Ht E) as [(_ & e & ? & [=] & _)|(fs & q & Hfs & Hq & H)].
  destruct (methods q !! verb) as [y|] eqn:Ey; [|destruct (methodAll q) as [y|] eqn:Ea].
  1, 2: destruct H as [-> _]; left; by eapply Hold.
  destruct H as [[-> _]|(m0 & Hm0 & -> & _)]; [left; by eapply Hold|].
  destruct (node_at_modify_inv _ (registerMethod verb m0) _ _ _ ltac:(intros r; unfold registerMethod; by destruct (String.eqb verb "*")) Hq')
    as (q1 & Hq1 & [[He ->]|(_ & Em & Ea')]).
  2: { left. eapply Hold; [exact Hq1|]. by rewrite <-Em, <-Ea'. }
  rewrite He, Hq in Hq1. injection Hq1 as <-.
  assert (Hmade : v = verb /\ m = m0 \/ (if String.eqb v "*" then methodAll q = Some m else methods q !! v = Some m)).
  { unfold registerMethod in Hm. destruct (String.eqb_spec verb "*") as [->|Hv], (String.eqb_spec v "*") as [->|Hv']; simpl in Hm; try tauto.
    - injection Hm as ->. by left.
    - destruct (decide (v = verb)) as [->|Hne]; [rewrite lookup_insert_eq in Hm; injection Hm as ->; by left|].
      rewrite lookup_insert_ne in Hm by done. by right. }
  destruct Hmade as [[-> ->]|Hqm].
  - right. split_and!; [done|done|by eapply rule_method_of].
  - left. apply (Hold q); [by rewrite He|done].
Qed.

Lemma registered_edges p verb t t' m : template_edges t' = template_edges t -> registered p verb t' m -> registered p verb t m.
Proof. intros E. unfold registered. by rewrite E. Qed.

Definition all_made (p p' : path) (rules : list HttpRule) d n : Prop :=
  forall r verb t, r ∈ rules -> rule_pattern r = Ok (verb, template_text t) -> template_ok t -> patterns_ok Q t ->
    exists m, registered p' verb t m /\ made_by p rules d n verb t m.

Lemma bindings_registered d n rules p p' :
  tree Q 0 p -> Forall (registrable Q) rules -> bindings d n rules p = (p', Ok tt) -> all_made p p' rules d n.
Proof.
  intros Hp Hrs. revert p Hp. induction Hrs as [|r rules Hr Hrs IH]; intros p Hp; simpl.
  { intros _ r verb t []%not_elem_of_nil. }
  destruct (AdditionalBindings r) as [|] eqn:E; simpl; [|done].
  intros (p1 & [] & E1 & E2)%st_bind_ok.
  rewrite (addRule_no_bindings _ _ _ _ E) in E1.
  destruct (addRule1 r d n p) as [q [b| | |]] eqn:Eq; try done. injection E1 as <-.
  destruct (keeps_addRule1 False r d n ltac:(done) Hr _ _ _ Hp Eq) as (_ & _ & Hq & _). specialize (Hq (or_introl eq_refl)).
  destruct (keeps_bindings False d n rules ltac:(done) Hrs _ _ _ Hq E2) as (He & _ & Hp' & _). specialize (Hp' (or_introl eq_refl)).
  intros r' verb t [->|Hin]%elem_of_cons Hpat Ht HQ.
  - pose proof (addRule1_registered r d n p q b verb t Hp Hpat Ht HQ Eq) as H.
    destruct b; [destruct H as [_ (m & Hm & Hreg)]|destruct H as [-> (m & Hreg & Hd)]];
      (exists m; split; [by eapply registered_extends|]).
    + split; [by rewrite (mo_desc _ _ _ _ _ Hm)|]. right. exists r, t. split_and!; [left|done..].
    + split; [done|]. by left.
  - destruct (IH q Hq E2 r' verb t Hin Hpat Ht HQ) as (m & Hreg & Hd & Hm). exists m. split; [done|]. split; [done|].
    destruct Hm as [Hm|(r1 & t1 & Hr1 & ?)]; [|right; exists r1, t1; split; [by right|done]].
    destruct (addRule1_any _ _ _ _ _ _ Eq) as [(v1 & t1 & Hp1 & Ht1)|[_ [[? [=]]|[[=]|[=]]]]].
    destruct (Hr _ _ Hp1 Ht1) as (t2 & Et & Ht2 & HQ2). rewrite Et in Hp1.
    destruct (addRule1_made r d n p q b v1 t2 verb t m Hp Hp1 Ht2 HQ2 Eq Hm) as [?|(-> & He2 & Hm2)]; [by left|].
    right. exists r, t2. split_and!; [left|done..].
Qed.
End Keep.

(** The patterns the search is safe on. *)
Definition pattern_ok (ps : list piece) : Prop := lexable ps /\ starstar_first ps.

#[export] Instance pattern_ok_dec ps : Decision (pattern_ok ps).
Proof. unfold pattern_ok, lexable, starstar_first. apply _. Defined.

#[export] Instance patterns_ok_dec t : Decision (patterns_ok pattern_ok t).
Proof. apply _. Defined.
Lemma registrable_template rule verb t :
  rule_pattern rule = Ok (verb, template_text t) -> template_ok t -> patterns_ok pattern_ok t ->
  registrable pattern_ok rule.
Proof. intros E Ht HQ verb' t'. rewrite E. intros [= <- <-] _. by exists t. Qed.
End Add.

(** ** A sample service

    GET /v1/{name=shelves/*} and, as an additional binding, PATCH
    /v1/{name=shelves/*}:update of one method; every method of /v2. *)

Module Sample.
Definition segments := [SPiece (PLiteral "v1");
  SField "name" [] (Some (PLiteral "shelves", [PStar]))].
Definition get := MkTemplate segments None.
Definition update := MkTemplate segments (Some "update").
Definition all := MkTemplate [SPiece (PLiteral "v2")] None.

Definition request := XMessage "pkg.Request" [string_field "name"; string_field "id"].
Definition method : MethodDescriptor := XMethod "pkg.Library.GetShelf" request request false false None.
Definition other : MethodDescriptor := XMethod "pkg.Library.Other" request request false false None.

Definition update_rule := Rule "" (HttpRule_Patch (template_text update)) "*" "" [].
Definition get_rule := Rule "" (HttpRule_Get (template_text get)) "" "" [update_rule].
Definition all_rule := Rule "" (HttpRule_Custom (Some (MkCustomHttpPattern "*" (template_text all)))) "*" "" [].
Definition all_get_rule := Rule "" (HttpRule_Get (template_text all)) "" "" [].

Definition name := "/pkg.Library/GetShelf".
Definition with_get : path := fst (addRule get_rule method name newPath).
Definition with_all : path := fst (addRule all_rule method name newPath).
End Sample.

Ltac decide_it := apply (bool_decide_unpack _); vm_compute; exact I.

Lemma sample_registrable :
  registrable pattern_ok Sample.get_rule /\
  Forall (registrable pattern_ok) (AdditionalBindings Sample.get_rule).
Proof.
  split; [apply (registrable_template _ "GET" Sample.get) |
    apply Forall_singleton, (registrable_template _ "PATCH" Sample.update)];
    first [reflexivity | decide_it].
Qed.

Lemma flat_template rule verb t :
  rule_pattern rule = Ok (verb, template_text t) -> template_ok t -> flat rule.
Proof. intros E Ht verb' tmpl ltoks. rewrite E. intros [= <- <-] _. by exists t. Qed.

Lemma sample_flat : flat Sample.get_rule /\ Forall flat (AdditionalBindings Sample.get_rule).
Proof.
  split; [apply (flat_template _ "GET" Sample.get) | apply Forall_singleton, (flat_template _ "PATCH" Sample.update)];
    first [reflexivity | decide_it].
Qed.

Lemma sample_tree : tree pattern_ok 0 Sample.with_get.
Proof.
  assert (E : addRule Sample.get_rule Sample.method Sample.name newPath = (Sample.with_get, Ok tt)) by (vm_compute; reflexivity).
  exact (proj1 (addRule_ok_keeps pattern_ok _ _ _ _ _ _ (proj1 sample_registrable) (proj2 sample_registrable) (tree_newPath _ _) E)).
Qed.

(** ** The theorems *)

Section Theorems.
Context `{U : Unicode} `{P : Protoreflect}.

(** C15 Registration is safe for the tree, whatever the rule is: [addRule] ends, every
    node, method and variable that the tree had is still there, and when it returns nil
    the tree is well formed.  The only panics it can have are two: the nil dereference
    of [y.desc] (a method under [methodAll]) or of a nil custom pattern, and, only for a
    template with a variable inside a variable, "invalid token"; without such a
    template the tree is well formed also when [addRule] fails. *)
Theorem addRule_keeps_tree Q rule d n p p' o :
  registrable Q rule -> Forall (registrable Q) (AdditionalBindings rule) ->
  tree Q 0 p -> addRule rule d n p = (p', o) ->
  extends p p' /\
  ((exists u, o = Ok u) \/ (exists e, o = Err e) \/ o = Panic NilDereference \/ o = Panic (PanicCall "invalid token")) /\
  (is_ok o = true -> tree Q 0 p') /\
  (flat rule -> Forall flat (AdditionalBindings rule) -> tree Q 0 p' /\ o <> Panic (PanicCall "invalid token")).
Proof.
  intros Hr Hrs Hp E.
  destruct (keeps_addRule Q (flat rule /\ Forall flat (AdditionalBindings rule)) rule d n ltac:(done) Hr Hrs _ _ _ Hp E) as (? & ? & Ht & Hi).
  split_and!; [done|done|intros ?; apply Ht; by left|]. intros Hf Hfs. split; [apply Ht; by right|by apply Hi].
Qed.

Lemma addRule_registered Q rule d n p p' verb t :
  registrable Q rule -> Forall (registrable Q) (AdditionalBindings rule) ->
  tree Q 0 p -> rule_pattern rule = Ok (verb, template_text t) -> template_ok t -> patterns_ok Q t ->
  addRule rule d n p = (p', Ok tt) -> exists m, registered p' verb t m /\ MethodFullName (desc m) = MethodFullName d.
Proof.
  intros Hr Hrs Hp Hpat Ht HQ E. rewrite addRule_unfold in E. apply st_bind_ok in E as (p1 & b & E1 & E2).
  pose proof (addRule1_registered Q _ _ _ _ _ _ _ _ Hp Hpat Ht HQ E1) as H1.
  destruct b; simpl in E2; [|injection E2 as <-; destruct H1 as [-> H1]; exact H1].
  destruct H1 as [_ (m & Hm & Hreg)]. exists m. rewrite (mo_desc _ _ _ _ _ Hm). split; [|done].
  destruct (keeps_addRule1 Q False rule d n ltac:(done) Hr _ _ _ Hp E1) as (_ & _ & Hp1 & _). specialize (Hp1 (or_introl eq_refl)).
  destruct (keeps_bindings Q False d n (AdditionalBindings rule) ltac:(done) Hrs _ _ _ Hp1 E2) as (He & _ & Hp' & _).
  eapply registered_extends; [exact He|apply Hp'; by left|exact Hreg].
Qed.

(** C16 A successful [addRule] leaves the rule registered at the node its template
    names.  When a method was there for the verb, it is one of the same full name and
    nothing is changed: the additional bindings are not registered then.  Otherwise the
    method is the rule's own, with its variables, body and response body, and each
    additional binding is registered too: with the method that it, or another of these
    rules for the same verb and node, made, or one of the same full name that the tree
    had there. *)
Theorem addRule_registers Q rule d n p p' verb t :
  registrable Q rule -> Forall (registrable Q) (AdditionalBindings rule) ->
  tree Q 0 p -> rule_pattern rule = Ok (verb, template_text t) ->
  template_ok t -> patterns_ok Q t ->
  addRule rule d n p = (p', Ok tt) ->
  (p' = p /\ exists m, registered p verb t m /\ MethodFullName (desc m) = MethodFullName d) \/
  ((forall m, ~ registered p verb t m) /\
   (exists m, method_of rule d n t m /\ registered p' verb t m) /\
   forall r verb' t', r ∈ AdditionalBindings rule -> rule_pattern r = Ok (verb', template_text t') ->
     template_ok t' -> patterns_ok Q t' ->
     exists m, registered p' verb' t' m /\ made_by p (rule :: AdditionalBindings rule) d n verb' t' m).
Proof.
  intros Hr Hrs Hp Hpat Ht HQ E. rewrite addRule_unfold in E.
  apply st_bind_ok in E as (p1 & b & E1 & E2).
  pose proof (addRule1_registered Q _ _ _ _ _ _ _ _ Hp Hpat Ht HQ E1) as H1.
  destruct b; simpl in E2; [|injection E2 as <-; by left].
  destruct H1 as [Hnew (m & Hm & Hreg)]. right.
  destruct (keeps_addRule1 Q False rule d n ltac:(done) Hr _ _ _ Hp E1) as (_ & _ & Hp1 & _). specialize (Hp1 (or_introl eq_refl)).
  destruct (keeps_bindings Q False d n (AdditionalBindings rule) ltac:(done) Hrs _ _ _ Hp1 E2) as (He & _ & Hp' & _). specialize (Hp' (or_introl eq_refl)).
  split_and!; [done|exists m; split; [done|by eapply registered_extends]|].
  intros r verb' t' Hin Hpat' Ht' HQ'.
  destruct (bindings_registered Q d n _ _ _ Hp1 Hrs E2 r verb' t' Hin Hpat' Ht' HQ') as (m' & Hreg' & Hd & Hm').
  exists m'. split; [done|]. split; [done|].
  destruct Hm' as [Hm'|(r1 & t1 & Hr1 & ?)]; [|right; exists r1, t1; split; [by right|done]].
  destruct (addRule1_made Q _ _ _ _ _ _ _ _ _ _ _ Hp Hpat Ht HQ E1 Hm') as [?|(-> & He2 & Hm2)]; [by left|].
  right. exists rule, t. split_and!; [left|done..].
Qed.

(** [addRule] at a node of the tree. *)
Lemma addRule1_at rule d n p verb t q :
  rule_pattern rule = Ok (verb, template_text t) -> template_ok t ->
  segments_fields (Fields (Input d)) (t_segments t) <> None ->
  node_at (template_edges t) p = Some q ->
  match methods q !! verb, methodAll q with
  | Some y, _ => MethodFullName (desc y) <> MethodFullName d ->
      exists e, addRule1 rule d n p = (p, Err e)
  | None, Some _ => addRule1 rule d n p = (p, Panic NilDereference)
  | None, None => True
  end.
Proof.
  intros Hpat Ht Hf Hq. assert (Hid : place_template t p = p) by (apply place_template_id; by eexists).
  destruct (addRule1 rule d n p) as [p' o] eqn:E.
  destruct (addRule1_run _ _ _ _ _ _ _ _ Hpat Ht E) as [[Hn _]|(fs & q' & _ & Hq' & H)]; [done|].
  rewrite Hid in *. rewrite Hq in Hq'. injection Hq' as <-.
  destruct (methods q !! verb) as [y|], (methodAll q) as [m|]; try done.
  1,2: intros Hd; destruct H as [-> [[? _]|[_ [e ->]]]]; [done | by exists e].
  by destruct H as [-> ->].
Qed.

(** No registration replaces another method: a rule for a verb and a template
    that belong to another method is refused, and the tree stays as it is. *)
Theorem addRule_duplicate rule d m n p verb t :
  rule_pattern rule = Ok (verb, template_text t) -> template_ok t ->
  segments_fields (Fields (Input d)) (t_segments t) <> None ->
  registered p verb t m -> verb <> "*" -> MethodFullName (desc m) <> MethodFullName d ->
  exists e, addRule rule d n p = (p, Err e).
Proof.
  intros Hpat Ht Hf (q & Hq & Hm) Hv Hd.
  pose proof (addRule1_at rule d n p verb t q Hpat Ht Hf Hq) as H.
  destruct (String.eqb_spec verb "*") as [|_]; [done|]. rewrite Hm in H.
  destruct H as [e H]; [congruence|]. exists e. rewrite addRule_unfold.
  exact (st_bind_err _ _ _ _ _ H).
Qed.

(** Registering a method for a verb at a node that has a method for every verb
    panics: the test [ok || cursor.methodAll != nil] reads [y.desc] of a nil [y],
    also when it is the same method that is registered again. *)
Theorem addRule_methodAll_panics rule d n p verb t q m :
  rule_pattern rule = Ok (verb, template_text t) -> template_ok t ->
  segments_fields (Fields (Input d)) (t_segments t) <> None ->
  node_at (template_edges t) p = Some q -> methodAll q = Some m -> methods q !! verb = None ->
  addRule rule d n p = (p, Panic NilDereference).
Proof.
  intros Hpat Ht Hf Hq Ha Hm.
  pose proof (addRule1_at rule d n p verb t q Hpat Ht Hf Hq) as H.
  rewrite Hm, Ha in H. rewrite addRule_unfold. unfold mbind, st_bind. by rewrite H.
Qed.

End Theorems.

Lemma addRule_keeps_tree_witness :
  exists p' o, addRule Sample.get_rule Sample.method Sample.name newPath = (p', o) /\ extends newPath p' /\
    ((exists u, o = Ok u) \/ (exists e, o = Err e) \/ o = Panic NilDereference \/ o = Panic (PanicCall "invalid token")) /\
    tree pattern_ok 0 p' /\ o <> Panic (PanicCall "invalid token").
Proof.
  destruct (addRule Sample.get_rule Sample.method Sample.name newPath) as [p' o] eqn:E.
  exists p', o. split; [done|].
  destruct (addRule_keeps_tree pattern_ok Sample.get_rule Sample.method Sample.name newPath p' o
    (proj1 sample_registrable) (proj2 sample_registrable) (tree_newPath _ _) E) as (? & ? & _ & H).
  destruct (H (proj1 sample_flat) (proj2 sample_flat)). by split_and!.
Defined.

(** A rule with a variable inside a variable is registrable, whatever patterns are
    asked for, and is the one that panics otherwise. *)
Definition nested_rule := Rule "" (HttpRule_Get "/{name={id}}") "" "" [].

Lemma nested_registrable Q : registrable Q nested_rule.
Proof.
  intros verb t [= _ E] Ht. exfalso. pose proof (template_lexed t Ht) as Hl. rewrite <-E in Hl.
  assert (El : run_lexer lexTemplate "/{name={id}}" = Ok [Token tokenSlash "/"; Token tokenVariableStart "{"; Token tokenIdent "name";
    Token tokenEqual "="; Token tokenVariableStart "{"; Token tokenIdent "id"; Token tokenVariableEnd "}"; Token tokenVariableEnd "}";
    Token tokenEOF ""]) by (vm_compute; reflexivity).
  rewrite El in Hl. clear E El. injection Hl as Hl. unfold template_tokens in Hl.
  destruct t as [ss vb]. cbn [t_segments t_verb] in Hl. destruct ss as [|s ss]; [by destruct vb|].
  destruct s as [y|k ks [[x ps]|]]; [by destruct y| |by destruct ks].
  destruct ks as [|k' ks]; [|done]. cbn [segments_tokens segment_tokens keys_tokens pattern_tokens app] in Hl.
  destruct (pieces_tokens_cons x ps) as [ts Ets]. rewrite Ets in Hl. by destruct x.
Qed.

Lemma nested_rule_fails :
  exists p', addRule nested_rule nested_method "/pkg.S/M" newPath = (p', Panic (PanicCall "invalid token")) /\ extends newPath p'.
Proof.
  destruct addRule_nested_panics_witness as [p' E]. exists p'. split; [exact E|].
  assert (Hb : Forall (registrable (fun _ => True)) (AdditionalBindings nested_rule)) by constructor.
  exact (proj1 (keeps_addRule (fun _ => True) False nested_rule nested_method "/pkg.S/M" ltac:(intros []) (nested_registrable _) Hb
    newPath p' _ (tree_newPath _ _) E)).
Qed.

Lemma addRule_registers_witness :
  (exists m, method_of Sample.get_rule Sample.method Sample.name Sample.get m /\ registered Sample.with_get "GET" Sample.get m) /\
  exists m, registered Sample.with_get "PATCH" Sample.update m /\
    made_by newPath (Sample.get_rule :: AdditionalBindings Sample.get_rule) Sample.method Sample.name "PATCH" Sample.update m.
Proof.
  assert (E : addRule Sample.get_rule Sample.method Sample.name newPath = (Sample.with_get, Ok tt)) by (vm_compute; reflexivity).
  destruct (addRule_registers pattern_ok Sample.get_rule Sample.method Sample.name newPath Sample.with_get "GET" Sample.get
    (proj1 sample_registrable) (proj2 sample_registrable) (tree_newPath _ _) eq_refl ltac:(decide_it) ltac:(decide_it) E)
    as [[_ (m & (q & Hq & _) & _)]|(_ & Hm & Hb)].
  - exfalso. vm_compute in Hq. discriminate Hq.
  - split; [exact Hm|]. apply (Hb Sample.update_rule "PATCH" Sample.update); [left|reflexivity|decide_it|decide_it].
Defined.

Lemma addRule_duplicate_witness :
  exists e, addRule Sample.get_rule Sample.other "/pkg.Library/Other" Sample.with_get =
    (Sample.with_get, Err e).
Proof.
  eapply (addRule_duplicate Sample.get_rule Sample.other _ _ _ "GET" Sample.get);
    [reflexivity|decide_it|vm_compute; done| |done|].
  - eexists. split; [vm_compute; reflexivity|]. cbn [String.eqb]. vm_compute. reflexivity.
  - done.
Defined.

Lemma addRule_methodAll_panics_witness :
  addRule Sample.all_get_rule Sample.method Sample.name Sample.with_all =
    (Sample.with_all, Panic NilDereference).
Proof.
  eapply (addRule_methodAll_panics Sample.all_get_rule Sample.method _ _ "GET" Sample.all);
    [reflexivity|decide_it|vm_compute; done|vm_compute; reflexivity|vm_compute; reflexivity|reflexivity].
Defined.

