(* ===== verification/RouteSearch.v ===== *)
(** The search for the rule of a request: a relation [routes] that says which
    methods the tree offers for a request path and what their variables capture,
    and the theorems that [search] and [match] of larking/rules.go find one of
    them exactly, neither panic nor run out of fuel, prefer literals, and serve the
    rules that [addRule] has registered. *)

From S2P Require Import Prelude Status Runes Lexer LexerSpec Proto Params Routes.
From S2P Require Import RouteTree RouteRules RouteWalk RouteAdd.

(** ** The code *)

Section SearchCode.
Context `{U : Unicode} `{P : Protoreflect}.

(** ** The search *)

(** [variable.index]: the length of the capture, or none for -1.  [vts] are the
    pattern tokens left and [i] the position reached in [toks]. *)
Fixpoint index_loop (vts toks : list token) (i : nat) : go (option nat) :=
  match vts with
  | [] => Ok (Some i)
  | tok :: vts =>
      if i =? length toks then Ok None else
      match typ tok with
      | tokenSlash =>
          match toks !! i with
          | None => Panic IndexOutOfRange
          | Some t => if decide (typ t = typ tok) then index_loop vts toks (i + 1) else Ok None
          end
      | tokenStar =>
          match tokens_indexAny toks
                  (Z.lor (tokenType_code tokenSlash) (tokenType_code tokenVerb)) with
          | Some j => index_loop vts toks (i + j)
          | None => index_loop vts toks (length toks)
          end
      | tokenStarStar =>
          match tokens_index toks tokenVerb with
          | Some j => index_loop vts toks (i + j)
          | None => index_loop vts toks (length toks)
          end
      | tokenLiteral =>
          match toks !! i with
          | None => Panic IndexOutOfRange
          | Some t =>
              if decide (typ t = tokenPath) then
                if String.eqb (val tok) (val t) then index_loop vts toks (i + 1) else Ok None
              else Ok None
          end
      | _ => Panic (PanicCall ":(")
      end
  end.

Definition index (v : variable) (toks : list token) : go (option nat) :=
  index_loop (vtoks v) toks 0.

Definition errNotFound : error := StatusError codes.NotFound "not found" [].
Definition errMethod : error := StatusError codes.InvalidArgument "method not allowed" [].

Abbreviation found := (method * list param)%type.

(** The method of a node for a verb. *)
Definition pick_method (p : path) (verb : string) : go found :=
  match methods p !! verb, methodAll p with
  | Some m, _ => Ok (m, [])
  | None, Some m => Ok (m, [])
  | None, None => Err errMethod
  end.

(** The parameter that the variable over [toks[1:l]] adds to those found below. *)
Definition capture_param (m : method) (ps : list param) (captured : list token) : go param :=
  let i := (Z.of_nat (length (vars m)) - Z.of_nat (length ps) - 1)%Z in
  if (i <? 0)%Z then Panic IndexOutOfRange else
  match vars m !! Z.to_nat i with
  | None => Panic IndexOutOfRange
  | Some [] => Ok (Param None [])
  | Some fds => parseParam fds (tokens_String captured)
  end.

Section Below.
(** The search below a node, on fewer tokens. *)
Context (search : path -> list token -> string -> go found).

(** The loop over the variables of a node, on [toks] of two tokens or more. *)
Fixpoint search_variables (vs : list variable) (toks : list token) (verb : string) : go found :=
  match vs with
  | [] => Err errNotFound
  | v :: vs =>
      match index v (tail toks) with
      | Panic q => Panic q
      | OutOfFuel => OutOfFuel
      | Err e => Err e
      | Ok None => search_variables vs toks verb
      | Ok (Some n) =>
          let l := S n in
          if length toks <? l then Panic SliceOutOfRange else
          match search (vnext v) (drop l toks) verb with
          | Err _ => search_variables vs toks verb
          | Panic q => Panic q
          | OutOfFuel => OutOfFuel
          | Ok (m, ps) =>
              p ← capture_param m ps (take n (tail toks));
              Ok (m, ps ++ [p])
          end
      end
  end.
End Below.

Fixpoint search_fuel (fuel : nat) (p : path) (toks : list token) (verb : string) : go found :=
  match fuel with
  | O => OutOfFuel
  | S fuel =>
      match toks with
      | t0 :: t1 :: rest =>
          let below :=
            match segments p !! (val t0 ++ val t1)%string with
            | Some next => search_fuel fuel next rest verb
            | None => Err errNotFound
            end in
          match below with
          | Ok r => Ok r
          | Panic q => Panic q
          | OutOfFuel => OutOfFuel
          | Err _ => search_variables (search_fuel fuel) (variables p) toks verb
          end
      | _ => pick_method p verb
      end
  end.

(** Each step consumes a token at least. *)
Definition search (p : path) (toks : list token) (verb : string) : go found :=
  search_fuel (S (length toks)) p toks verb.

(** [match]; the name is a keyword here. *)
Definition match_route (p : path) (route verb : string) : go found :=
  match run_lexer lexPath route with
  | Ok toks => search p toks verb
  | Err e => Err (StatusError codes.NotFound "not found: %v" [AErr e])
  | Panic q => Panic q
  | OutOfFuel => OutOfFuel
  end.
End SearchCode.

(** ** Request paths

    The parts of a path: after a slash, or after a colon. *)

Inductive separator := Slash | Colon.
Abbreviation part := (separator * string)%type.

Definition separator_token (s : separator) : token :=
  match s with Slash => Token tokenSlash "/" | Colon => Token tokenVerb ":" end.

Fixpoint parts_tokens (ps : list part) : list token :=
  match ps with
  | [] => [Token tokenEOF ""]
  | (s, v) :: ps => separator_token s :: Token tokenPath v :: parts_tokens ps
  end.

Definition parts_text (ps : list part) : string := tokens_String (parts_tokens ps).

(** What a pattern captures of a request: the text, and the parts left.  [**]
    takes all up to the next colon and has to be the last piece. *)

Fixpoint until_colon (ps : list part) : list part * list part :=
  match ps with
  | (Slash, v) :: ps => let '(l, r) := until_colon ps in ((Slash, v) :: l, r)
  | _ => ([], ps)
  end.

Fixpoint match_pieces (xs : list piece) (v : string) (ps : list part) :
    option (string * list part) :=
  match xs with
  | [] => None
  | PStarStar :: xs =>
      let '(l, r) := until_colon ps in
      match xs with [] => Some (v ++ parts_text l, r)%string | _ => None end
  | x :: xs =>
      if match x with PLiteral w => String.eqb w v | _ => true end then
        match xs, ps with
        | [], _ => Some (v, ps)
        | _, (Slash, v') :: ps' =>
            '(cap, rest) ← match_pieces xs v' ps'; Some (v ++ "/" ++ cap, rest)%string
        | _, _ => None
        end
      else None
  end.

Section Search.
Context `{U : Unicode} `{P : Protoreflect}.

(** ** The methods a tree offers *)

Inductive routes (verb : string) : path -> list part -> method -> list string -> Prop :=
  | routes_here p m ps :
      pick_method p verb = Ok (m, ps) -> routes verb p [] m []
  | routes_segment p q s v ps m caps :
      segments p !! (val (separator_token s) ++ v)%string = Some q ->
      routes verb q ps m caps -> routes verb p ((s, v) :: ps) m caps
  | routes_variable p x xs s v ps cap rest m caps :
      x ∈ variables p -> vtoks x = pieces_tokens xs ->
      match_pieces xs v ps = Some (cap, rest) ->
      routes verb (vnext x) rest m caps -> routes verb p ((s, v) :: ps) m (cap :: caps).

Lemma routes_nil_inv verb p m caps : routes verb p [] m caps -> caps = [] /\ exists ps, pick_method p verb = Ok (m, ps).
Proof. inversion 1; by eauto. Qed.

Lemma routes_cons_inv verb p s v ps m caps :
  routes verb p ((s, v) :: ps) m caps ->
  (exists q, segments p !! (val (separator_token s) ++ v)%string = Some q /\ routes verb q ps m caps) \/
  (exists x xs cap rest caps', x ∈ variables p /\ vtoks x = pieces_tokens xs /\
    match_pieces xs v ps = Some (cap, rest) /\ routes verb (vnext x) rest m caps' /\ caps = cap :: caps').
Proof. inversion 1; subst; [left; by eexists | right; by eexists _, _, _, _, _]. Qed.

(** The parameter of a capture, by the fields of its variable. *)
Definition param_of (fds : list FieldDescriptor) (cap : string) : go param :=
  match fds with [] => Ok (Param None []) | _ => parseParam fds cap end.

(** [bound d m caps ps]: [ps], innermost first, are the parameters of the captures
    for the variables of [m] from the [d]-th on. *)
Definition bound (d : nat) (m : method) (caps : list string) (ps : list param) : Prop :=
  length (vars m) = d + length caps /\
  Forall2 (fun fc p => param_of (fst fc) (snd fc) = Ok p) (zip (drop d (vars m)) caps) (rev ps).

(** ** Tokens and parts *)

Lemma RequestPath_parts ts : RequestPath ts -> exists ps, ts = parts_tokens ps.
Proof.
  induction 1 as [|v ts _ _ [ps ->]|v ts _ _ [ps ->]].
  - by exists [].
  - by exists ((Slash, v) :: ps).
  - by exists ((Colon, v) :: ps).
Qed.

Lemma parts_text_cons s v ps :
  parts_text ((s, v) :: ps) = (val (separator_token s) ++ v ++ parts_text ps)%string.
Proof. done. Qed.

Lemma until_colon_text ps l r : until_colon ps = (l, r) -> parts_text ps = (parts_text l ++ parts_text r)%string.
Proof.
  revert l. induction ps as [|[[] v] ps IH]; simpl; intros l; try by intros [= <- <-].
  destruct (until_colon ps) as [l' r'] eqn:E. intros [= <- ->].
  rewrite !parts_text_cons, (IH l' eq_refl). by rewrite !str_app_assoc.
Qed.

Lemma match_pieces_text xs v ps cap rest :
  match_pieces xs v ps = Some (cap, rest) ->
  (v ++ parts_text ps)%string = (cap ++ parts_text rest)%string.
Proof.
  revert v ps cap. induction xs as [|x xs IH]; intros v ps cap; [done|].
  assert (Hnext : match xs, ps with
      | [], _ => Some (v, ps)
      | _, (Slash, v') :: ps' => '(cap, rest) ← match_pieces xs v' ps'; Some (v ++ "/" ++ cap, rest)%string
      | _, _ => None
      end = Some (cap, rest) -> (v ++ parts_text ps)%string = (cap ++ parts_text rest)%string).
  { destruct xs as [|y xs]; [by intros [= <- <-]|]. destruct ps as [|[[] v'] ps]; try done.
    destruct (match_pieces (y :: xs) v' ps) as [[cap' rest']|] eqn:E; simpl; [|done].
    intros [= <- <-]. rewrite parts_text_cons. simpl. rewrite (IH _ _ _ E).
    by rewrite !str_app_assoc. }
  destruct x as [w| |]; cbn [match_pieces].
  - destruct (String.eqb w v); [exact Hnext | done].
  - exact Hnext.
  - destruct (until_colon ps) as [l r] eqn:E. destruct xs; [|done]. intros [= <- <-].
    by rewrite (until_colon_text _ _ _ E), str_app_assoc.
Qed.

Lemma tokens_index_until_colon ps l r :
  until_colon ps = (l, r) ->
  tokens_index (parts_tokens ps) tokenVerb =
    match r with [] => None | _ => Some (2 * length l) end.
Proof.
  revert l. induction ps as [|[[] v] ps IH]; intros l; simpl; try by intros [= <- <-].
  destruct (until_colon ps) as [l' r'] eqn:E. intros [= <- ->].
  rewrite (IH l' eq_refl). destruct r; simpl; [done|]. f_equal. lia.
Qed.

Lemma until_colon_drop ps l r : until_colon ps = (l, r) -> drop (2 * length l) (parts_tokens ps) = parts_tokens r.
Proof.
  revert l. induction ps as [|[[] v] ps IH]; intros l; simpl; try by intros [= <- <-].
  destruct (until_colon ps) as [l' r'] eqn:E. intros [= <- ->]. simpl.
  rewrite <-(IH l' eq_refl). by replace (length l' + S (length l' + 0)) with (S (2 * length l')) by lia.
Qed.

(** ** [variable.index] *)

Definition seps : Z := Z.lor (tokenType_code tokenSlash) (tokenType_code tokenVerb).

Lemma indexAny_parts v ps :
  tokens_indexAny (Token tokenPath v :: parts_tokens ps) seps =
    match ps with [] => None | _ => Some 1 end.
Proof. by destruct ps as [|[[] w] ps]. Qed.

(** The rest of the tokens when the index has passed a capture: the parts left,
    or nothing at all when a star has taken the end-of-file token. *)
Definition left_over (ts : list token) (rest : list part) : Prop :=
  ts = parts_tokens rest \/ ts = [] /\ rest = [].

Lemma left_over_text ts rest : left_over ts rest -> tokens_String ts = parts_text rest.
Proof. by intros [->|[-> ->]]. Qed.

(** The loop from a position [i] that holds a path token, [T] being the tokens. *)
Section Index.
Context (v0 : string) (ps0 : list part).

Definition T : list token := Token tokenPath v0 :: parts_tokens ps0.

Definition index_result (i : nat) (r : go (option nat)) (o : option (string * list part)) : Prop :=
  match o with
  | None => r = Ok None
  | Some (cap, rest) => exists n, r = Ok (Some n) /\ i <= n <= length T /\ left_over (drop n T) rest
  end.

Lemma drop_S_tail {A} i (l : list A) x l' : drop i l = x :: l' -> drop (S i) l = l'.
Proof. intros H. rewrite <-Nat.add_1_r, <-drop_drop, H. done. Qed.

Lemma drop_lookup {A} i (l : list A) x l' : drop i l = x :: l' -> l !! i = Some x /\ i < length l.
Proof.
  intros H. pose proof (lookup_drop l i 0) as Hl. rewrite H, Nat.add_0_r in Hl. split; [done|].
  apply lookup_lt_Some with x. by rewrite <-Hl.
Qed.

Lemma index_pieces xs i v ps :
  PStarStar ∉ xs -> xs <> [] -> drop i T = Token tokenPath v :: parts_tokens ps ->
  i = 0 \/ ps0 <> [] ->
  index_result i (index_loop (pieces_tokens xs) T i) (match_pieces xs v ps).
Proof.
  revert i v ps. induction xs as [|x xs IH]; intros i v ps Hss Hne Hi Hp; [done|].
  apply not_elem_of_cons in Hss as [Hx Hss].
  destruct (drop_lookup _ _ _ _ Hi) as [HT Hlen]. pose proof (drop_S_tail _ _ _ _ Hi) as Hi'.
  (* after the piece, at the separator *)
  assert (Hsep : forall j, (j = S i \/ ps = [] /\ xs = [] /\ j = length T) ->
    index_result i (index_loop (match xs with [] => [] | _ => Token tokenSlash "/" :: pieces_tokens xs end) T j)
      (match xs, ps with
       | [], _ => Some (v, ps)
       | _, (Slash, v') :: ps' => '(cap, rest) ← match_pieces xs v' ps'; Some (v ++ "/" ++ cap, rest)%string
       | _, _ => None
       end)).
  { intros j Hj. destruct xs as [|y xs].
    - exists j. split; [done|]. destruct Hj as [->|(-> & _ & ->)]; (split; [lia|]).
      + left. by rewrite Hi'.
      + right. split; [by apply drop_all | done].
    - destruct Hj as [->|(_ & [=] & _)]. cbn [index_loop].
      destruct (Nat.eqb_spec (S i) (length T)) as [Heq|Hlt].
      { rewrite Heq, drop_all in Hi'. by destruct ps as [|[[] ?] ?]. }
      cbn [typ]. destruct ps as [|[s v'] ps]; cbn [parts_tokens] in Hi'; destruct (drop_lookup _ _ _ _ Hi') as [-> _]; [done|].
      destruct s; [|done]. rewrite decide_True, Nat.add_1_r by done.
      assert (Hps0 : ps0 <> []).
      { intros E. unfold T in Hi'. rewrite E in Hi'. destruct i as [|[|i]]; done. }
      specialize (IH (S (S i)) v' ps Hss ltac:(done) (drop_S_tail _ _ _ _ Hi') (or_intror Hps0)).
      destruct (match_pieces (y :: xs) v' ps) as [[cap rest]|]; [|exact IH].
      destruct IH as (n & -> & ? & ?). exists n. split_and!; [done|lia|lia|done]. }
  replace (pieces_tokens (x :: xs)) with
    (piece_token x :: match xs with [] => [] | _ => Token tokenSlash "/" :: pieces_tokens xs end) by (by destruct xs).
  cbn [index_loop]. destruct (Nat.eqb_spec i (length T)) as [|_]; [lia|].
  destruct x as [w| |]; [| |done]; cbn [piece_token typ val match_pieces].
  - rewrite HT. cbn [typ val]. rewrite decide_True, Nat.add_1_r by done.
    destruct (String.eqb w v); [apply Hsep; by left | done].
  - fold seps. unfold T at 1. rewrite indexAny_parts. destruct ps0 as [|p0 ps1] eqn:E0.
    + destruct Hp as [->|?]; [|done]. unfold T in Hi. simpl in Hi. injection Hi as <- Hps.
      rewrite E0 in Hps. destruct ps as [|[[] ?] ps]; [|done..].
      destruct xs; [apply Hsep; by right|]. cbn [index_loop]. by rewrite Nat.eqb_refl.
    + rewrite Nat.add_1_r. apply Hsep. by left.
Qed.

Lemma index_starstar xs :
  index_result 0 (index_loop (pieces_tokens (PStarStar :: xs)) T 0) (match_pieces (PStarStar :: xs) v0 ps0).
Proof.
  cbn [match_pieces]. destruct (until_colon ps0) as [l r] eqn:E.
  replace (pieces_tokens (PStarStar :: xs)) with
    (Token tokenStarStar "**" :: match xs with [] => [] | _ => Token tokenSlash "/" :: pieces_tokens xs end) by (by destruct xs).
  cbn [index_loop]. replace (0 =? length T) with false by done. cbn [typ].
  assert (Hidx : tokens_index T tokenVerb = match r with [] => None | _ => Some (S (2 * length l)) end).
  { unfold T. cbn [tokens_index typ]. rewrite decide_False by done.
    rewrite (tokens_index_until_colon _ _ _ E). by destruct r. }
  rewrite Hidx. pose proof (until_colon_drop _ _ _ E) as Hd.
  destruct r as [|[s w] r].
  - destruct xs; simpl.
    + exists (length T). split; [done|]. split; [split; [apply Nat.le_0_l|apply Nat.le_refl]|]. right. split; [apply drop_all|done].
    + by rewrite Nat.eqb_refl.
  - assert (s = Colon) as ->.
    { clear -E. revert l E. induction ps0 as [|[[] u] ps IH]; intros l; simpl.
      - by intros [= <- ?].
      - destruct (until_colon ps) as [l' r'] eqn:E. intros [= _ ->]. by apply (IH l').
      - by intros [= _ <- _]. }
    assert (HdT : drop (S (2 * length l)) T = Token tokenVerb ":" :: Token tokenPath w :: parts_tokens r) by exact Hd.
    destruct (drop_lookup _ _ _ _ HdT) as [HT Hlen].
    destruct xs; cbn [index_loop]; rewrite Nat.add_0_l.
    + exists (S (2 * length l)). split_and!; [done|lia|lia|]. by left.
    + destruct (Nat.eqb_spec (S (2 * length l)) (length T)) as [|_]; [done|]. by rewrite HT.
Qed.
End Index.

Lemma piece_token_inj x y : piece_token x = piece_token y -> x = y.
Proof. by destruct x, y; intros [=]; subst. Qed.

Lemma pieces_tokens_inj xs ys : pieces_tokens xs = pieces_tokens ys -> xs = ys.
Proof.
  revert ys. induction xs as [|x xs IH]; intros [|y ys]; [done|by destruct ys|by destruct xs|].
  destruct xs as [|x' xs], ys as [|y' ys]; simpl; intros [=].
  - f_equal. by apply piece_token_inj.
  - f_equal; [by apply piece_token_inj|]. by apply IH.
Qed.

Lemma index_variable x xs v ps :
  vtoks x = pieces_tokens xs -> xs <> [] -> starstar_first xs ->
  index_result v ps 0 (index x (Token tokenPath v :: parts_tokens ps)) (match_pieces xs v ps).
Proof.
  intros Hx Hne Hss. unfold index. rewrite Hx. destruct xs as [|y xs]; [done|].
  unfold starstar_first in Hss. simpl in Hss.
  destruct (decide (y = PStarStar)) as [->|Hy]; [apply index_starstar|].
  apply (index_pieces v ps); [|done|done|by left]. apply not_elem_of_cons. by split.
Qed.

(** ** The search *)

Section Correct.
(** A message field has a message descriptor. *)
Context (message_descriptor : forall fd, FieldKind fd = MessageKind -> FieldMessage fd <> None).
Context (verb : string).

Lemma parseValue_total f cap :
  (exists v, parseValue f cap = Ok v) \/ (exists e, parseValue f cap = Err e).
Proof using message_descriptor.
  pose proof (message_descriptor f) as Hm.
  unfold parseValue, parseEnum, parseMessage, fromJSON. destruct (FieldKind f); eauto.
  all: repeat (case_match; eauto). by destruct Hm.
Qed.

Lemma param_of_total fds cap : (exists p, param_of fds cap = Ok p) \/ (exists e, param_of fds cap = Err e).
Proof using message_descriptor.
  unfold param_of, parseParam. destruct fds as [|fd fds]; [by left; eexists|].
  destruct (last (fd :: fds)) as [f|]; [|right; by eexists].
  destruct (parseValue_total f cap) as [[v ->]|[e ->]]; simpl; eauto.
Qed.

(** Every capture of every route is a parameter of its field's kind. *)
Definition all_bind (d : nat) (p : path) (parts : list part) : Prop :=
  forall m caps, routes verb p parts m caps -> exists ps, bound d m caps ps.

Definition search_spec (d : nat) (p : path) (parts : list part) (o : go (method * list param)) : Prop :=
  match o with
  | Ok (m, ps) => exists caps, routes verb p parts m caps /\ bound d m caps ps
  | Err _ => all_bind d p parts -> forall m caps, ~ routes verb p parts m caps
  | Panic _ | OutOfFuel => False
  end.

Lemma bound_nil Q d p m ps : tree Q d p -> pick_method p verb = Ok (m, ps) -> ps = [] /\ bound d m [] [].
Proof.
  intros Ht Hm. destruct (tree_node _ _ _ Ht) as (Hms & Ha & _).
  assert (length (vars m) = d /\ ps = []) as [Hd ->].
  { unfold pick_method in Hm. destruct (methods p !! verb) as [m'|] eqn:E.
    - injection Hm as <- <-. by destruct (Hms _ _ E).
    - destruct (methodAll p) as [m'|]; [|done]. injection Hm as <- <-. auto. }
  split; [done|]. split; [simpl; lia|]. rewrite drop_ge by lia. constructor.
Qed.

Lemma bound_length d m caps ps : bound d m caps ps -> length ps = length caps.
Proof.
  intros [Hl H]. apply Forall2_length in H.
  rewrite length_zip_with, length_drop, length_rev in H. lia.
Qed.

Lemma bound_cons d m cap caps ps p fds :
  vars m !! d = Some fds ->
  bound d m (cap :: caps) (ps ++ [p]) <-> bound (S d) m caps ps /\ param_of fds cap = Ok p.
Proof.
  intros Hd. unfold bound. rewrite rev_unit, (drop_S _ _ _ Hd). simpl. rewrite Forall2_cons.
  simpl. rewrite Nat.add_succ_r. tauto.
Qed.

Lemma bound_lookup d m cap caps ps : bound d m (cap :: caps) ps -> is_Some (vars m !! d).
Proof. intros [Hl _]. apply lookup_lt_is_Some. simpl in Hl. lia. Qed.

Lemma bound_cons_inv d m cap caps ps :
  bound d m (cap :: caps) ps ->
  exists fds p ps', ps = ps' ++ [p] /\ vars m !! d = Some fds /\ bound (S d) m caps ps' /\
    param_of fds cap = Ok p.
Proof.
  intros Hb. destruct (bound_lookup _ _ _ _ _ Hb) as [fds Hd].
  pose proof (bound_length _ _ _ _ Hb) as Hl.
  assert (Hne : ps <> []) by (by intros ->). destruct (exists_last Hne) as (ps' & p & ->).
  destruct (proj1 (bound_cons _ _ _ _ _ _ _ Hd) Hb) as [Hb' Hp']. by exists fds, p, ps'.
Qed.

Lemma capture_param_spec d m caps ps fds captured :
  bound (S d) m caps ps -> vars m !! d = Some fds ->
  capture_param m ps captured = param_of fds (tokens_String captured).
Proof.
  intros Hb Hd. unfold capture_param. destruct Hb as [Hl Hf].
  pose proof (bound_length _ _ _ _ (conj Hl Hf)) as Hp.
  replace (Z.of_nat (length (vars m)) - Z.of_nat (length ps) - 1)%Z with (Z.of_nat d) by lia.
  destruct (Z.ltb_spec (Z.of_nat d) 0); [lia|]. rewrite Nat2Z.id, Hd. by destruct fds.
Qed.

Lemma bound_vars d m caps ps : bound (S d) m caps ps -> is_Some (vars m !! d).
Proof. intros [Hl _]. apply lookup_lt_is_Some. lia. Qed.

Lemma search_variables_spec d p s v ps search vs :
  tree pattern_ok d p -> (forall x, x ∈ vs -> x ∈ variables p) ->
  (forall x rest ts, x ∈ variables p -> left_over ts rest ->
     length ts <= S (length (parts_tokens ps)) ->
     search_spec (S d) (vnext x) rest (search (vnext x) ts verb)) ->
  match search_variables search vs (separator_token s :: Token tokenPath v :: parts_tokens ps) verb with
  | Ok (m, params) => exists caps, routes verb p ((s, v) :: ps) m caps /\ bound d m caps params
  | Err _ => all_bind d p ((s, v) :: ps) ->
      forall x xs cap rest m caps, x ∈ vs -> vtoks x = pieces_tokens xs ->
      match_pieces xs v ps = Some (cap, rest) -> ~ routes verb (vnext x) rest m caps
  | Panic _ | OutOfFuel => False
  end.
Proof using message_descriptor.
  intros Ht. induction vs as [|x vs IH]; intros Hvs Hsearch; cbn [search_variables tail].
  { by intros _ x xs cap rest m caps []%not_elem_of_nil. }
  assert (Hx : x ∈ variables p) by (apply Hvs; by left).
  specialize (IH (fun y (Hy : y ∈ vs) => Hvs y (list_elem_of_further _ _ _ Hy)) Hsearch).
  pose proof (proj1 (Forall_forall _ _) (proj1 (proj2 (proj2 (tree_node _ _ _ Ht)))) x Hx)
    as (_ & y & xs & Hxs & _ & Hss).
  pose proof (index_variable x (y :: xs) v ps Hxs ltac:(done) Hss) as Hidx.
  (* the variable is not the one *)
  assert (Hskip : (all_bind d p ((s, v) :: ps) -> forall cap rest m caps,
      match_pieces (y :: xs) v ps = Some (cap, rest) -> ~ routes verb (vnext x) rest m caps) ->
    match search_variables search vs (separator_token s :: Token tokenPath v :: parts_tokens ps) verb with
    | Ok (m, params) => exists caps, routes verb p ((s, v) :: ps) m caps /\ bound d m caps params
    | Err _ => all_bind d p ((s, v) :: ps) ->
        forall z zs cap rest m caps, z ∈ x :: vs -> vtoks z = pieces_tokens zs ->
        match_pieces zs v ps = Some (cap, rest) -> ~ routes verb (vnext z) rest m caps
    | Panic _ | OutOfFuel => False
    end).
  { intros Hno. destruct (search_variables search vs _ verb) as [[m params]|e|q|]; [exact IH| |done|done].
    intros Hall z zs cap rest m caps [->|Hz]%elem_of_cons Hzs; [|by eapply IH].
    rewrite Hxs in Hzs. apply pieces_tokens_inj in Hzs as <-. by apply Hno. }
  destruct (match_pieces (y :: xs) v ps) as [[cap rest]|] eqn:Em; simpl in Hidx.
  2:{ rewrite Hidx. apply Hskip. by intros. }
  destruct Hidx as (n & -> & Hn & Hleft).
  assert (Hlen : (length (separator_token s :: Token tokenPath v :: parts_tokens ps) <? S n) = false).
  { apply Nat.ltb_ge. unfold T in Hn. simpl in *. lia. }
  rewrite Hlen. cbn [drop].
  assert (Hrest : length (drop n (Token tokenPath v :: parts_tokens ps)) <= S (length (parts_tokens ps))).
  { rewrite length_drop. simpl. lia. }
  assert (Hcap : tokens_String (take n (Token tokenPath v :: parts_tokens ps)) = cap).
  { apply (str_app_inv_tail _ _ (parts_text rest)).
    rewrite <-(match_pieces_text _ _ _ _ _ Em), <-(left_over_text _ _ Hleft), <-tokens_String_app, take_drop.
    done. }
  pose proof (Hsearch x rest _ Hx Hleft Hrest) as Hs.
  destruct (search (vnext x) _ verb) as [[m params]|e|q|]; simpl in Hs; [| |done|done].
  - destruct Hs as (caps & Hr & Hb). destruct (bound_vars _ _ _ _ Hb) as [fds Hd].
    rewrite (capture_param_spec _ _ _ _ _ _ Hb Hd), Hcap.
    pose proof (routes_variable verb p x _ s v ps cap rest m caps Hx Hxs Em Hr) as Hroute.
    destruct (param_of_total fds cap) as [[prm Hprm]|[e Hprm]]; rewrite Hprm; simpl.
    + exists (cap :: caps). split; [done|]. by apply (bound_cons _ _ _ _ _ _ _ Hd).
    + intros Hall. exfalso. destruct (Hall _ _ Hroute) as [ps' Hps'].
      apply bound_cons_inv in Hps' as (fds' & p' & ps'' & _ & Hd' & _ & Hp'). congruence.
  - apply Hskip. intros Hall cap' rest' m caps [= <- <-]. apply Hs. intros m' caps' Hr.
    destruct (Hall m' (cap :: caps')) as [ps' Hps']; [by eapply routes_variable|].
    apply bound_cons_inv in Hps' as (_ & _ & ps'' & _ & _ & Hb & _). by exists ps''.
Qed.

Lemma search_fuel_spec fuel d p ts parts :
  tree pattern_ok d p -> left_over ts parts -> length ts < fuel ->
  search_spec d p parts (search_fuel fuel p ts verb).
Proof using message_descriptor.
  revert d p ts parts. induction fuel as [|fuel IH]; intros d p ts parts Ht Hl Hlen; [lia|].
  destruct parts as [|[s v] parts].
  { assert (Hpick : search_fuel (S fuel) p ts verb = pick_method p verb) by by destruct Hl as [->|[-> _]].
    rewrite Hpick. destruct (pick_method p verb) as [[m ps]|e|q|] eqn:E; simpl.
    - destruct (bound_nil _ _ _ _ _ Ht E) as [-> Hb]. exists []. split; [by eapply routes_here | done].
    - intros _ m caps Hr. inversion Hr; congruence.
    - unfold pick_method in E. by repeat case_match.
    - unfold pick_method in E. by repeat case_match. }
  destruct Hl as [->|[_ [=]]]. cbn [parts_tokens search_fuel val] in *.
  set (key := (val (separator_token s) ++ v)%string).
  set (below := match segments p !! key with Some next => search_fuel fuel next (parts_tokens parts) verb
                | None => Err errNotFound end).
  assert (Hb : match below with
    | Ok (m, ps) => exists caps, routes verb p ((s, v) :: parts) m caps /\ bound d m caps ps
    | Err _ => all_bind d p ((s, v) :: parts) -> forall q m caps, segments p !! key = Some q -> ~ routes verb q parts m caps
    | Panic _ | OutOfFuel => False end).
  { unfold below. destruct (segments p !! key) as [q|] eqn:Hk; [|done].
    pose proof (IH d q (parts_tokens parts) parts (tree_segment _ _ _ _ _ Ht Hk) (or_introl eq_refl) ltac:(simpl in Hlen; lia)) as H.
    destruct (search_fuel fuel q (parts_tokens parts) verb) as [[m ps]|e|?|]; simpl in H; try done.
    - destruct H as (caps & Hr & Hbd). exists caps. split; [by eapply routes_segment|done].
    - intros Hall q' m caps [= <-]. apply H. intros m' caps' Hr'. apply Hall. by eapply routes_segment. }
  destruct below as [[m ps]|e|q|]; [exact Hb| |done|done].
  assert (Hvars := search_variables_spec d p s v parts (search_fuel fuel) (variables p) Ht (fun _ H => H)).
  specialize (Hvars ltac:(intros x rest ts Hx Hlo Hl; apply IH;
    [by eapply tree_variable|done|simpl in Hlen; lia])).
  destruct (search_variables _ (variables p) _ verb) as [[m ps]|e'|q|]; simpl; [exact Hvars| |done|done].
  intros Hall m caps Hr. inversion Hr; subst.
  - by eapply (Hb Hall).
  - by eapply (Hvars Hall).
Qed.
End Correct.

(** ** The requests of a template

    [instance ss verb ps caps]: the parts are the segments [ss] and the verb with
    the variables replaced, and the variables capture [caps]. *)

Inductive instance : list segment -> option string -> list part -> list string -> Prop :=
  | instance_end : instance [] None [] []
  | instance_verb v : instance [] (Some v) [(Colon, v)] []
  | instance_literal v ss vb ps caps :
      instance ss vb ps caps ->
      instance (SPiece (PLiteral v) :: ss) vb ((Slash, v) :: ps) caps
  | instance_variable s ss vb v ps cap rest caps :
      (forall w, s <> SPiece (PLiteral w)) ->
      match_pieces (segment_pattern s) v ps = Some (cap, rest) ->
      instance ss vb rest caps ->
      instance (s :: ss) vb ((Slash, v) :: ps) (cap :: caps).

Lemma template_variable_toks d p x s :
  tree pattern_ok d p -> pattern_ok (segment_pattern s) ->
  findVariable p (tokens_String (pieces_tokens (segment_pattern s))) = Some x ->
  x ∈ variables p /\ vtoks x = pieces_tokens (segment_pattern s).
Proof.
  intros Ht [Hs _] Hx. apply find_variable_some in Hx as [Hx Hn]. split; [done|].
  destruct (proj1 (Forall_forall _ _) (proj1 (proj2 (proj2 (tree_node _ _ _ Ht)))) x Hx)
    as (Hname & y & ys & Hys & Hok & _).
  destruct (segment_pattern_cons s) as (z & zs & E). rewrite E in *.
  rewrite Hys. apply lexable_inj; [done..|]. congruence.
Qed.

Lemma instance_routes ss vb parts caps rv d p q m :
  instance ss vb parts caps -> tree pattern_ok d p ->
  Forall (fun s => pattern_ok (segment_pattern s)) ss ->
  node_at ((segment_edge <$> ss) ++ verb_edges vb) p = Some q ->
  pick_method q rv = Ok (m, []) -> routes rv p parts m caps.
Proof.
  intros Hi. revert d p. induction Hi as [|v|v ss vb ps caps Hi IH|s ss vb v ps cap rest caps Hs Hm Hi IH];
    intros d p Ht Hok Hq Hpick.
  - injection Hq as <-. by eapply routes_here.
  - simpl in Hq. destruct (segments p !! _) as [q'|] eqn:E; simpl in Hq; [|done]. injection Hq as <-.
    eapply routes_segment; [exact E|]. by eapply routes_here.
  - inversion Hok; subst. simpl in Hq. destruct (segments p !! _) as [q'|] eqn:E; simpl in Hq; [|done].
    eapply routes_segment; [exact E|]. eapply IH; [|done..]. by eapply tree_segment.
  - inversion Hok as [|?? Hp Hok']; subst.
    destruct (segment_update_variable s) as [[w ->]|[_ He]]; [by destruct (Hs w)|].
    rewrite fmap_cons, He in Hq. simpl in Hq.
    destruct (findVariable p _) as [x|] eqn:Ex; simpl in Hq; [|done].
    destruct (template_variable_toks _ _ _ _ Ht Hp Ex) as [Hx Htoks].
    eapply routes_variable; [exact Hx|exact Htoks|exact Hm|].
    eapply IH; [|done..]. by eapply tree_variable.
Qed.

Lemma lexPath_parts route :
  (exists parts, run_lexer lexPath route = Ok (parts_tokens parts) /\ parts_text parts = route) \/
  (exists e, run_lexer lexPath route = Err e).
Proof.
  pose proof (run_lexer_sound lexPath RequestPath route lexPath_sound) as H.
  destruct (run_lexer lexPath route) as [ts|e| |]; [|by eauto|done|done]. left.
  destruct H as (HG & <- & _). destruct (RequestPath_parts ts HG) as [parts ->]. by exists parts.
Qed.

Lemma match_route_spec p verb route parts :
  (forall fd, FieldKind fd = MessageKind -> FieldMessage fd <> None) ->
  tree pattern_ok 0 p -> run_lexer lexPath route = Ok (parts_tokens parts) ->
  search_spec verb 0 p parts (match_route p route verb).
Proof.
  intros Hmsg Ht Hl. unfold match_route. rewrite Hl. apply search_fuel_spec; [done..|by left|lia].
Qed.

Lemma bound_inj d m caps ps ps' : bound d m caps ps -> bound d m caps ps' -> ps = ps'.
Proof.
  intros [_ H] [_ H']. rewrite <-(rev_involutive ps), <-(rev_involutive ps'). f_equal.
  revert H'. generalize (rev ps'). induction H as [|fc p fcs l Hp H IH]; intros l' H'.
  - by inversion H'.
  - inversion H' as [|? p' ? l'' Hp']; subst. f_equal; [congruence|]. by apply IH.
Qed.
End Search.

(** ** The theorems *)

Section Theorems.
Context `{U : Unicode} `{P : Protoreflect}.
Context (message_descriptor : forall fd, FieldKind fd = MessageKind -> FieldMessage fd <> None).

(** C22 On a well-formed tree a request is answered: [match] returns a method and
    its parameters, or an error; no index or slice is out of range, no pattern
    is unknown, and the search ends within one step per token. *)
Theorem match_total p route verb :
  tree pattern_ok 0 p ->
  (exists m ps, match_route p route verb = Ok (m, ps)) \/ (exists e, match_route p route verb = Err e).
Proof using message_descriptor.
  intros Ht. destruct (lexPath_parts route) as [(parts & Hl & _)|[e He]].
  - pose proof (match_route_spec p verb route parts message_descriptor Ht Hl) as H.
    destruct (match_route p route verb) as [[m ps]|e|q|]; by eauto.
  - right. unfold match_route. rewrite He. by eexists.
Qed.

Lemma match_routes p route verb m ps :
  tree pattern_ok 0 p -> match_route p route verb = Ok (m, ps) ->
  exists parts caps, parts_text parts = route /\ routes verb p parts m caps /\ bound 0 m caps ps.
Proof using message_descriptor.
  intros Ht E. destruct (lexPath_parts route) as [(parts & Hl & Htext)|[e He]].
  - pose proof (match_route_spec p verb route parts message_descriptor Ht Hl) as H. rewrite E in H.
    destruct H as (caps & ? & ?). by exists parts, caps.
  - unfold match_route in E. by rewrite He in E.
Qed.


Lemma match_unique p route verb parts m caps ps :
  tree pattern_ok 0 p -> run_lexer lexPath route = Ok (parts_tokens parts) ->
  routes verb p parts m caps -> bound 0 m caps ps ->
  (forall m' caps', routes verb p parts m' caps' -> m' = m /\ caps' = caps) ->
  match_route p route verb = Ok (m, ps).
Proof using message_descriptor.
  intros Ht Hl Hr Hb Huniq.
  pose proof (match_route_spec p verb route parts message_descriptor Ht Hl) as H.
  destruct (match_route p route verb) as [[m' ps']|e|q|]; simpl in H; [| |done|done].
  - destruct H as (caps' & Hr' & Hb'). destruct (Huniq _ _ Hr') as [-> ->].
    by rewrite (bound_inj _ _ _ _ _ Hb Hb').
  - exfalso. eapply H; [|exact Hr]. intros m' caps' Hr'. destruct (Huniq _ _ Hr') as [-> ->].
    by exists ps.
Qed.


(** The other half: when [match] fails although the path is lexed, either no
    method serves the request or a capture of some route does not parse. *)
Theorem match_not_found p route verb parts e :
  tree pattern_ok 0 p -> run_lexer lexPath route = Ok (parts_tokens parts) ->
  match_route p route verb = Err e ->
  all_bind verb 0 p parts -> ~ exists m caps, routes verb p parts m caps.
Proof using message_descriptor.
  intros Ht Hl E Hall (m & caps & Hr).
  pose proof (match_route_spec p verb route parts message_descriptor Ht Hl) as H.
  rewrite E in H. exact (H Hall m caps Hr).
Qed.

(** A registered rule has a route for each instance of its template. *)
Lemma registered_routes p verb t m rv parts caps :
  tree pattern_ok 0 p -> patterns_ok pattern_ok t -> registered p verb t m ->
  verb = "*" \/ rv = verb -> instance (t_segments t) (t_verb t) parts caps ->
  exists m', routes rv p parts m' caps /\ (verb = "*" \/ m' = m).
Proof using Type.
  intros Ht HQ (q & Hq & Hm) Hv Hi.
  assert (Hpick : exists m', pick_method q rv = Ok (m', []) /\ (verb = "*" \/ m' = m)).
  { unfold pick_method. destruct (String.eqb_spec verb "*") as [->|Hne].
    - rewrite Hm. destruct (methods q !! rv); eauto.
    - destruct Hv as [?| ->]; [done|]. rewrite Hm. eauto. }
  destruct Hpick as (m' & Hpick & Hm'). exists m'. split; [by eapply instance_routes|done].
Qed.


(** The path of a literal template ends at the node of the template, whatever
    variables stand beside it. *)
Lemma match_literal_node p verb vs vb route q m :
  node_at (template_edges (MkTemplate (SPiece ∘ PLiteral <$> vs) vb)) p = Some q ->
  pick_method q verb = Ok (m, []) ->
  run_lexer lexPath route = Ok (parts_tokens ((pair Slash <$> vs) ++ (pair Colon <$> option_list vb))) ->
  match_route p route verb = Ok (m, []).
Proof using Type.
  intros Hq Hpick Hl. unfold match_route, search. rewrite Hl. clear Hl.
  unfold template_edges in Hq. simpl in Hq. rewrite <-list_fmap_compose in Hq.
  generalize (Nat.lt_succ_diag_r (length (parts_tokens ((pair Slash <$> vs) ++ (pair Colon <$> option_list vb))))).
  generalize (S (length (parts_tokens ((pair Slash <$> vs) ++ (pair Colon <$> option_list vb))))) as fuel.
  revert p Hq. induction vs as [|v vs IH]; intros p Hq [|fuel] Hf; simpl in Hf; try lia.
  - destruct vb as [v|]; simpl in *; [|injection Hq as ->; exact Hpick].
    destruct (segments p !! _) as [q'|]; simpl in Hq; [|done]. injection Hq as ->.
    destruct fuel; [lia|]. cbn [search_fuel]. by rewrite Hpick.
  - simpl in Hq |- *. destruct (segments p !! _) as [q'|]; simpl in Hq; [|done].
    rewrite (IH q' Hq); [done|]. apply Nat.succ_lt_mono in Hf.
    eapply Nat.lt_trans; [apply Nat.lt_succ_diag_r | exact Hf].
Qed.

(** Literals win: the path of a registered template of literals only is served
    by its method, whatever variables the tree has beside it. *)
Theorem match_literal p verb vs vb m route :
  registered p verb (MkTemplate (SPiece ∘ PLiteral <$> vs) vb) m -> verb <> "*" ->
  run_lexer lexPath route = Ok (parts_tokens ((pair Slash <$> vs) ++ (pair Colon <$> option_list vb))) ->
  match_route p route verb = Ok (m, []).
Proof using Type.
  intros (q & Hq & Hm) Hv Hl. destruct (String.eqb_spec verb "*") as [|_]; [done|].
  apply (match_literal_node p verb vs vb route q m Hq); [|exact Hl].
  unfold pick_method. by rewrite Hm.
Qed.
End Theorems.

(** [**] that is not the first piece of its variable: [index] adds the position
    of the colon, which is already counted from the start, and [search] slices
    past the end of the tokens. *)
Theorem match_starstar_panics :
  match_route
    (fst (addRule (Rule "" (HttpRule_Get "/v1/{name=aa/bb/**}") "" "" []) Sample.method Sample.name newPath))
    "/v1/aa/bb/cc:read" "GET" = Panic SliceOutOfRange.
Proof. vm_compute. reflexivity. Qed.

(** A variable matches after a colon as it does after a slash: a request with a
    custom verb is served by the rule of a template that has none. *)
Theorem match_colon_as_slash :
  exists m, match_route
    (fst (addRule (Rule "" (HttpRule_Get "/v1/{name}/{id}") "" "" []) Sample.method Sample.name newPath))
    "/v1/shelf:read" "GET" =
  Ok (m, [Param (Some (ValueOfString "read")) [string_field "id"];
          Param (Some (ValueOfString "shelf")) [string_field "name"]]).
Proof. eexists. vm_compute. reflexivity. Qed.

(** ** Witnesses, on the sample service *)

Definition sample_parts : list part := [(Slash, "v1"); (Slash, "shelves"); (Slash, "5")].
Definition sample_param : param := Param (Some (ValueOfString "shelves/5")) [string_field "name"].

Lemma sample_instance : instance (t_segments Sample.get) (t_verb Sample.get) sample_parts ["shelves/5"].
Proof.
  apply instance_literal. eapply (instance_variable _ [] None "shelves" [(Slash, "5")] _ []);
    [done|reflexivity|apply instance_end].
Qed.

Lemma match_total_witness :
  (exists m ps, match_route Sample.with_get "/v1/shelves/5" "GET" = Ok (m, ps)) \/
  (exists e, match_route Sample.with_get "/v1/shelves/5" "GET" = Err e).
Proof. apply (match_total plain_message_descriptor), sample_tree. Defined.


Definition sample_method : method :=
  Method Sample.method Sample.name [] [[string_field "name"]] [] false.

Ltac route_step H :=
  apply routes_cons_inv in H as [(? & Hq & H)|(? & ? & ? & ? & ? & Hq & Hxs & Hm & H & ->)];
  vm_compute in Hq; [try discriminate Hq; try injection Hq as <- | try (apply not_elem_of_nil in Hq; destruct Hq)].

Lemma sample_routes m caps :
  routes "GET" Sample.with_get sample_parts m caps -> m = sample_method /\ caps = ["shelves/5"].
Proof.
  intros H. route_step H. route_step H. 
  apply list_elem_of_singleton in Hq as ->.
  apply (pieces_tokens_inj [PLiteral "shelves"; PStar]) in Hxs as <-. injection Hm as <- <-.
  apply routes_nil_inv in H as (-> & ps & Hp). vm_compute in Hp. by injection Hp as <-.
Qed.

Lemma sample_route : routes "GET" Sample.with_get sample_parts sample_method ["shelves/5"].
Proof.
  eapply (instance_routes _ _ _ _ "GET" 0 _ _ sample_method sample_instance);
    [apply sample_tree|decide_it|vm_compute; reflexivity|reflexivity].
Qed.

Lemma sample_bound : bound 0 sample_method ["shelves/5"] [sample_param].
Proof. split; [done|]. by repeat constructor. Qed.


Lemma sample_all_bind : all_bind "GET" 0 Sample.with_get [(Slash, "v2")].
Proof. intros m caps H. route_step H. Qed.

Lemma match_not_found_witness :
  ~ exists m caps, routes "GET" Sample.with_get [(Slash, "v2")] m caps.
Proof.
  apply (match_not_found plain_message_descriptor _ "/v2" _ _ errNotFound);
    [apply sample_tree|vm_compute; reflexivity|vm_compute; reflexivity|apply sample_all_bind].
Defined.


Lemma match_literal_witness :
  exists m, match_route (fst (addRule Sample.all_get_rule Sample.method Sample.name Sample.with_get)) "/v2" "GET" = Ok (m, []).
Proof.
  eexists. eapply (match_literal _ "GET" ["v2"] None); [|done|vm_compute; reflexivity].
  eexists. split; [vm_compute; reflexivity|]. vm_compute. reflexivity.
Defined.
