(* ===== verification/RouteDelete.v ===== *)
(** Removal of rules and copies of trees: [delRule] of larking/rules.go removes
    exactly one method of the name that is registered for a verb, and the nodes on the
    way to it that have nothing else left; [clone] copies the whole tree. *)

From S2P Require Import Prelude Status Runes Lexer Proto Params Routes RouteTree RouteRules RouteWalk RouteAdd RouteSearch.

(** ** The code *)

Section DeleteCode.
Context `{U : Unicode} `{P : Protoreflect} `{R : GoRange}.

(** [clone]: a deep copy of the tree, methods and tokens shared. *)
Fixpoint clone (p : path) : path :=
  let 'Path s m a vs := p in
  Path (clone <$> s) m a
    ((fun v => let 'Var n t q := v in Var n t (clone q)) <$> vs).

(** ** delRule

    The first entry, in the order the maps are visited, whose removal succeeds. *)


Section Loops.
Context (del : path -> path * bool).

Fixpoint del_segments (kvs : list (string * path)) (p : path) : option path :=
  match kvs with
  | [] => None
  | (k, s) :: kvs =>
      match del s with
      | (s', true) =>
          Some (set_segments (if alive s' then <[k := s']> else delete k) p)
      | (_, false) => del_segments kvs p
      end
  end.

Fixpoint del_variables (vs : list variable) : option (list variable) :=
  match vs with
  | [] => None
  | v :: vs =>
      match del (vnext v) with
      | (q, true) => Some (if alive q then Var (vname v) (vtoks v) q :: vs else vs)
      | (_, false) => cons v <$> del_variables vs
      end
  end.
End Loops.

Fixpoint del_methods (kvs : list (string * method)) (n : string) : option string :=
  match kvs with
  | [] => None
  | (k, m) :: kvs => if String.eqb (method_name m) n then Some k else del_methods kvs n
  end.

Fixpoint delRule_fuel (fuel : nat) (n : string) (p : path) : path * bool :=
  match fuel with
  | O => (p, false)
  | S fuel =>
      let del := delRule_fuel fuel n in
      match del_segments del (range (segments p)) p with
      | Some p' => (p', true)
      | None =>
          match del_variables del (variables p) with
          | Some vs => (set_variables (fun _ => vs) p, true)
          | None =>
              match del_methods (range (methods p)) n with
              | Some k => (set_methods (delete k) p, true)
              | None => (p, false)
              end
          end
      end
  end.

Definition delRule (n : string) (p : path) : path * bool := delRule_fuel (height p) n p.
End DeleteCode.

Section Delete.
Context `{U : Unicode} `{P : Protoreflect} `{R : GoRange}.
Context (Q : list piece -> Prop).

(** The method kept for a verb at the node that the edges lead to. *)
Definition method_at (p : path) (es : list edge) (verb : string) : option method :=
  q ← node_at es p; methods q !! verb.

(** The method for every verb there. *)
Definition all_at (p : path) (es : list edge) : option method := node_at es p ≫= methodAll.

(** The edges of [es] lead to a method for [verb], and nothing else keeps the node
    [p] alive: no other edge, no method for another verb, and so on below. *)
Fixpoint lonely (verb : string) (es : list edge) (p : path) : bool :=
  match es with
  | [] => negb (alive (set_methods (delete verb) p))
  | ESegment k :: es =>
      negb (alive (set_segments (delete k) p)) &&
      match segments p !! k with Some s => lonely verb es s | None => false end
  | EVariable n :: es =>
      negb (alive (set_variables (filter (fun w => vname w <> n)) p)) &&
      match findVariable p n with Some v => lonely verb es (vnext v) | None => false end
  end.

(** The nodes that go with the method for [verb] that [es] leads to: those below a
    node on its way, under the root, where nothing else is left. *)
Fixpoint pruned (verb : string) (es : list edge) (p : path) (es' : list edge) : bool :=
  match es, es' with
  | e :: es, e' :: es' =>
      bool_decide (e = e') &&
      match node_at [e] p with Some q => lonely verb es q || pruned verb es q es' | None => false end
  | _, _ => false
  end.

(** What a call on [p] for the name [n] does. *)
Definition removes (n : string) (d : nat) (p : path) (r : path * bool) : Prop :=
  match r with
  | (p', false) => p' = p /\ forall es verb m, method_at p es verb = Some m -> method_name m <> n
  | (p', true) => tree Q d p' /\ exists es verb m,
      method_at p es verb = Some m /\ method_name m = n /\
      (forall es' verb', method_at p' es' verb' =
         if decide (es' = es /\ verb' = verb) then None else method_at p es' verb') /\
      (forall es', all_at p' es' = if pruned verb es p es' then None else all_at p es') /\
      alive p' = negb (lonely verb es p)
  end.

Lemma del_segments_spec del kvs p :
  match del_segments del kvs p with
  | None => forall k s, (k, s) ∈ kvs -> snd (del s) = false
  | Some p' => exists k s s', (k, s) ∈ kvs /\ del s = (s', true) /\
      p' = set_segments (if alive s' then <[k := s']> else delete k) p
  end.
Proof.
  induction kvs as [|[k s] kvs IH]; simpl.
  - by intros ?? []%not_elem_of_nil.
  - destruct (del s) as [s' []] eqn:E.
    + exists k, s, s'. split_and!; [left|done|done].
    + destruct (del_segments del kvs p).
      * destruct IH as (k' & r & r' & Hin & ?). exists k', r, r'. split; [by right|done].
      * intros k' r [[= -> ->]|Hin]%elem_of_cons; [by rewrite E | by eapply IH].
Qed.

Lemma del_variables_spec del vs :
  match del_variables del vs with
  | None => forall v, v ∈ vs -> snd (del (vnext v)) = false
  | Some vs' => exists vs1 v vs2 q, vs = vs1 ++ v :: vs2 /\ del (vnext v) = (q, true) /\
      (forall w, w ∈ vs1 -> snd (del (vnext w)) = false) /\
      vs' = vs1 ++ (if alive q then [Var (vname v) (vtoks v) q] else []) ++ vs2
  end.
Proof.
  induction vs as [|v vs IH]; simpl.
  - by intros ? []%not_elem_of_nil.
  - destruct (del (vnext v)) as [q []] eqn:E.
    + exists [], v, vs, q. split_and!; [done|done|by intros ? []%not_elem_of_nil|by destruct (alive q)].
    + destruct (del_variables del vs) as [vs'|]; simpl.
      * destruct IH as (vs1 & w & vs2 & r & -> & ? & Hf & ->). exists (v :: vs1), w, vs2, r. split_and!; [done|done| |done].
        intros x [->|Hx]%elem_of_cons; [by rewrite E|by apply Hf].
      * intros w [->|Hin]%elem_of_cons; [by rewrite E | by apply IH].
Qed.

Lemma del_methods_spec kvs n :
  match del_methods kvs n with
  | None => forall k m, (k, m) ∈ kvs -> method_name m <> n
  | Some k => exists m, (k, m) ∈ kvs /\ method_name m = n
  end.
Proof.
  induction kvs as [|[k m] kvs IH]; simpl.
  - by intros ?? []%not_elem_of_nil.
  - destruct (String.eqb_spec (method_name m) n).
    + exists m. split; [left|done].
    + destruct (del_methods kvs n).
      * destruct IH as (m' & ? & ?). exists m'. split; [by right|done].
      * intros k' m' [[= -> ->]|Hin]%elem_of_cons; [done | by eapply IH].
Qed.

(** ** Entries of a node *)

Lemma method_at_nil p verb : method_at p [] verb = methods p !! verb.
Proof. done. Qed.

Lemma method_at_segment p k es verb :
  method_at p (ESegment k :: es) verb = s ← segments p !! k; method_at s es verb.
Proof. unfold method_at. simpl. by destruct (segments p !! k). Qed.

Lemma method_at_variable p n es verb :
  method_at p (EVariable n :: es) verb = v ← findVariable p n; method_at (vnext v) es verb.
Proof. unfold method_at. simpl. by destruct (findVariable p n). Qed.

Lemma method_at_dead p es verb : alive p = false -> method_at p es verb = None.
Proof.
  unfold alive. rewrite !orb_false_iff, !negb_false_iff, !Nat.eqb_eq. intros [[Hm Hv] Hs].
  apply map_size_empty_inv in Hm, Hs. apply nil_length_inv in Hv.
  destruct es as [|[k|n] es].
  - by rewrite method_at_nil, Hm, lookup_empty.
  - by rewrite method_at_segment, Hs, lookup_empty.
  - rewrite method_at_variable. unfold findVariable. by rewrite Hv.
Qed.

Lemma all_at_nil p : all_at p [] = methodAll p.
Proof. done. Qed.

Lemma all_at_segment p k es : all_at p (ESegment k :: es) = s ← segments p !! k; all_at s es.
Proof. unfold all_at. simpl. by destruct (segments p !! k). Qed.

Lemma all_at_variable p n es : all_at p (EVariable n :: es) = v ← findVariable p n; all_at (vnext v) es.
Proof. unfold all_at. simpl. by destruct (findVariable p n). Qed.

Lemma alive_false p : alive p = false <-> methods p = ∅ /\ variables p = [] /\ segments p = ∅.
Proof.
  unfold alive. rewrite !orb_false_iff, !negb_false_iff, !Nat.eqb_eq, !map_size_empty_iff.
  split; [intros [[? ?%nil_length_inv] ?]|intros (-> & -> & ->)]; by split_and!.
Qed.

Lemma alive_lonely p b : (alive p = false <-> b = true) -> alive p = negb b.
Proof. destruct (alive p), b; simpl; intros [H1 H2]; auto; first [discriminate (H2 eq_refl)|discriminate (H1 eq_refl)]. Qed.

(** ** Changing one child *)

Lemma removes_segment n d p k s s' :
  tree Q d p -> segments p !! k = Some s -> removes n d s (s', true) ->
  removes n d p (set_segments (if alive s' then <[k := s']> else delete k) p, true).
Proof.
  intros Ht Hk (Hs' & es & verb & m & Hm & Hn & Hall & Hall' & Hlone). set (p' := set_segments _ p).
  assert (Hseg : forall k', segments p' !! k' =
    if decide (k' = k) then (if alive s' then Some s' else None) else segments p !! k').
  { intros k'. unfold p'. simpl. destruct (alive s'), (decide (k' = k)) as [->|].
    - by rewrite lookup_insert_eq.
    - by rewrite lookup_insert_ne.
    - by rewrite lookup_delete_eq.
    - by rewrite lookup_delete_ne. }
  split.
  - constructor; [exact (tree_node _ _ _ Ht)| |intros w Hw; exact (tree_variable _ _ _ w Ht Hw)].
    intros k' q. rewrite Hseg. destruct (decide (k' = k)) as [->|].
    + destruct (alive s'); [by intros [= <-]|done].
    + intros Hq. exact (tree_segment _ _ _ _ _ Ht Hq).
  - exists (ESegment k :: es), verb, m. split_and!; [by rewrite method_at_segment, Hk|done| | |].
    { intros es' verb'. destruct es' as [|[k'|n'] es'].
    + by rewrite decide_False by (by intros [? ?]).
    + rewrite !method_at_segment, Hseg. destruct (decide (k' = k)) as [->|Hne].
      * rewrite Hk. simpl. rewrite (decide_ext _ (es' = es /\ verb' = verb)) by (split; intros [E ->]; [by injection E|by rewrite E]).
        rewrite <-Hall. destruct (alive s') eqn:Ha; simpl; [done|]. by rewrite method_at_dead.
      * by rewrite decide_False by (intros [[= -> ->] _]; done).
    + by rewrite decide_False by (by intros [? ?]). }
    { intros [|[k'|n'] es']; [done| |done]. rewrite !all_at_segment, Hseg. cbn [pruned node_at].
      destruct (decide (k' = k)) as [->|Hne].
      - rewrite bool_decide_true by done. rewrite Hk. cbn. rewrite Hlone. destruct (lonely verb es s); simpl; [done|apply Hall'].
      - rewrite bool_decide_false by congruence. done. }
    { cbn [lonely]. rewrite Hk. apply alive_lonely. rewrite andb_true_iff, negb_true_iff, !alive_false.
      unfold p'. simpl. rewrite Hlone. destruct (lonely verb es s); simpl.
      - tauto.
      - split; [|by intros []]. intros (_ & _ & H). by apply insert_non_empty in H. }
Qed.

Lemma name_le_trans : Transitive name_le.
Proof.
  intros u v w H1 H2. unfold name_le in *. apply Is_true_true.
  transitivity (vname v : string); by apply Is_true_true.
Qed.

Lemma find_variable_app vs vs' n :
  find_variable (vs ++ vs') n =
    match find_variable vs n with Some v => Some v | None => find_variable vs' n end.
Proof. induction vs as [|v vs IH]; simpl; [done|]. by destruct (String.eqb (vname v) n). Qed.

(** A list of variables in which [v] has got the node [q], or is gone. *)
Section Replace.
Context (vs1 : list variable) (v : variable) (vs2 : list variable) (q : path).
Let vs := vs1 ++ (if alive q then [Var (vname v) (vtoks v) q] else []) ++ vs2.

Lemma replace_elem w : w ∈ vs -> w ∈ vs1 ++ v :: vs2 \/ w = Var (vname v) (vtoks v) q.
Proof.
  unfold vs. rewrite !elem_of_app, elem_of_cons. destruct (alive q).
  - rewrite list_elem_of_singleton. tauto.
  - rewrite elem_of_nil. tauto.
Qed.

Lemma replace_NoDup : NoDup (vname <$> vs1 ++ v :: vs2) -> NoDup (vname <$> vs).
Proof.
  unfold vs. rewrite !fmap_app. destruct (alive q); [done|]. simpl.
  rewrite !NoDup_app, NoDup_cons. intros (H1 & H2 & H3 & H4). split_and!; [done| |done].
  intros x Hx Hx'. apply (H2 x Hx). by right.
Qed.

Lemma replace_Sorted : Sorted name_le (vs1 ++ v :: vs2) -> Sorted name_le vs.
Proof.
  intros H. apply (Sorted_StronglySorted) in H; [|exact name_le_trans]. apply StronglySorted_Sorted. unfold vs. revert H.
  rewrite !StronglySorted_app, StronglySorted_cons. intros (H1 & H2 & H3 & H4).
  destruct (alive q); split_and!; try done.
  - intros x y Hx [->%list_elem_of_singleton|Hy]%elem_of_app.
    + apply (H1 x v Hx). left.
    + apply (H1 x y Hx). by right.
  - intros x y ->%list_elem_of_singleton Hy. exact (proj1 (Forall_forall _ _) H3 y Hy).
  - by repeat constructor.
  - intros x y Hx Hy. apply (H1 x y Hx). by right.
  - intros x y []%not_elem_of_nil.
  - constructor.
Qed.

Lemma replace_find n :
  NoDup (vname <$> vs1 ++ v :: vs2) ->
  find_variable vs n =
    if decide (n = vname v) then (if alive q then Some (Var (vname v) (vtoks v) q) else None)
    else find_variable (vs1 ++ v :: vs2) n.
Proof.
  rewrite fmap_app, fmap_cons, NoDup_app, NoDup_cons. intros (_ & H2 & H3 & _).
  unfold vs. rewrite !find_variable_app. simpl. destruct (decide (n = vname v)) as [->|Hne].
  - assert (find_variable vs1 (vname v) = None) as ->.
    { apply find_variable_none. intros Hin. apply (H2 _ Hin). left. }
    assert (find_variable vs2 (vname v) = None) as Hn by (by apply find_variable_none).
    destruct (alive q); simpl; by rewrite ?String.eqb_refl, ?Hn.
  - destruct (String.eqb_spec (vname v) n); [by subst|].
    destruct (alive q); simpl; [|done]. by destruct (String.eqb_spec (vname v) n).
Qed.

Lemma replace_filter :
  NoDup (vname <$> vs1 ++ v :: vs2) -> filter (fun w => vname w <> vname v) (vs1 ++ v :: vs2) = vs1 ++ vs2.
Proof.
  rewrite fmap_app, fmap_cons, NoDup_app, NoDup_cons. intros (_ & H1 & H2 & _).
  rewrite filter_app, filter_cons_False by (by intros []). f_equal; apply list_filter_all, Forall_forall.
  - intros w Hw E. apply (H1 (vname v)); [rewrite <-E; by apply list_elem_of_fmap_2|left].
  - intros w Hw E. apply H2. rewrite <-E. by apply list_elem_of_fmap_2.
Qed.
End Replace.

Lemma removes_variable n d p vs1 v vs2 q :
  tree Q d p -> variables p = vs1 ++ v :: vs2 -> removes n (S d) (vnext v) (q, true) ->
  removes n d p (set_variables (fun _ =>
    vs1 ++ (if alive q then [Var (vname v) (vtoks v) q] else []) ++ vs2) p, true).
Proof.
  intros Ht Hvs (Hq & es & verb & m & Hm & Hn & Hall & Hall' & Hlone). set (p' := set_variables _ p).
  destruct (tree_node _ _ _ Ht) as (Hms & Ha & Hok & Hnd & Hso). rewrite Hvs in Hok, Hnd, Hso.
  assert (Hv : v ∈ variables p) by (rewrite Hvs, elem_of_app; right; left).
  assert (Hin : forall w, w ∈ variables p' -> w ∈ variables p \/ w = Var (vname v) (vtoks v) q).
  { intros w Hw. rewrite Hvs. by apply replace_elem. }
  assert (Hfv : findVariable p (vname v) = Some v).
  { apply find_variable_elem; [by rewrite Hvs|done]. }
  split.
  - constructor.
    + unfold node_ok. split_and!; [done|done| |by apply replace_NoDup|by apply replace_Sorted].
      apply Forall_forall. rewrite <-Hvs in Hok. rewrite Forall_forall in Hok.
      intros w [Hw| ->]%Hin; [by apply Hok|]. exact (Hok v Hv).
    + intros k s Hs. exact (tree_segment _ _ _ _ _ Ht Hs).
    + intros w [Hw| ->]%Hin; [exact (tree_variable _ _ _ w Ht Hw)|done].
  - exists (EVariable (vname v) :: es), verb, m.
    split_and!; [by rewrite method_at_variable, Hfv|done| | |].
    { intros es' verb'. destruct es' as [|[k'|n'] es'].
    + by rewrite decide_False by (by intros [? ?]).
    + by rewrite decide_False by (by intros [? ?]).
    + rewrite !method_at_variable. unfold findVariable at 1, p'. simpl.
      rewrite replace_find by done. rewrite <-Hvs. fold (findVariable p n').
      destruct (decide (n' = vname v)) as [->|Hne].
      * rewrite Hfv. simpl.
        rewrite (decide_ext _ (es' = es /\ verb' = verb)) by (split; intros [E ->]; [by injection E|by rewrite E]).
        rewrite <-Hall. destruct (alive q) eqn:Hal; simpl; [done|]. by rewrite method_at_dead.
      * by rewrite decide_False by (intros [[= -> ->] _]; done). }
    { intros [|[k'|n'] es']; [done..|]. rewrite !all_at_variable. unfold findVariable at 1, p'. simpl.
      rewrite replace_find by done. rewrite <-Hvs. fold (findVariable p n').
      destruct (decide (n' = vname v)) as [->|Hne].
      - rewrite bool_decide_true by done. rewrite Hfv. simpl. rewrite Hlone.
        destruct (lonely verb es (vnext v)); simpl; [done|apply Hall'].
      - rewrite bool_decide_false by congruence. done. }
    { cbn [lonely]. rewrite Hfv. apply alive_lonely. rewrite andb_true_iff, negb_true_iff, !alive_false.
      unfold p'. simpl. rewrite Hvs, replace_filter, Hlone by done. destruct (lonely verb es (vnext v)); simpl.
      - tauto.
      - split; [|by intros []]. intros (_ & H & _). by destruct vs1. }
Qed.

(** ** delRule *)

Lemma delRule_fuel_spec fuel n d p :
  height p <= fuel -> tree Q d p -> removes n d p (delRule_fuel fuel n p).
Proof.
  revert d p. induction fuel as [|fuel IH]; intros d p Hh Ht; [destruct p; simpl in Hh; lia|].
  cbn [delRule_fuel].
  assert (Hseg : forall k s, segments p !! k = Some s -> removes n d s (delRule_fuel fuel n s)).
  { intros k s Hs. apply IH; [|by eapply tree_segment]. pose proof (height_segment _ _ _ Hs). lia. }
  assert (Hvar : forall v, v ∈ variables p -> removes n (S d) (vnext v) (delRule_fuel fuel n (vnext v))).
  { intros v Hv. apply IH; [|by eapply tree_variable]. pose proof (height_variable _ _ Hv). lia. }
  pose proof (del_segments_spec (delRule_fuel fuel n) (range (segments p)) p) as H1.
  destruct (del_segments _ _ p) as [p'|].
  { destruct H1 as (k & s & s' & Hin & E & ->). apply elem_of_range in Hin.
    apply (removes_segment n d p k s s' Ht Hin). rewrite <-E. by eapply Hseg. }
  pose proof (del_variables_spec (delRule_fuel fuel n) (variables p)) as H2.
  destruct (del_variables _ _) as [vs'|].
  { destruct H2 as (vs1 & v & vs2 & q & Hvs & E & _ & ->).
    apply (removes_variable n d p vs1 v vs2 q Ht Hvs). rewrite <-E. apply Hvar.
    rewrite Hvs, elem_of_app. right. left. }
  pose proof (del_methods_spec (range (methods p)) n) as H3.
  destruct (del_methods _ n) as [k|].
  - destruct H3 as (m & Hin & Hn). apply elem_of_range in Hin. split.
    + constructor; [|intros k' s Hs; exact (tree_segment _ _ _ _ _ Ht Hs)|
        intros w Hw; exact (tree_variable _ _ _ w Ht Hw)].
      destruct (tree_node _ _ _ Ht) as (Hms & Hrest). split; [|done]. simpl. by apply map_Forall_delete.
    + exists [], k, m. split_and!; [done|done| |by intros [|? ?]|simpl; by rewrite negb_involutive].
      intros [|[k'|n'] es'] verb'.
      * rewrite !method_at_nil. simpl. destruct (decide (verb' = k)) as [->|Hne].
        -- by rewrite decide_True, lookup_delete_eq.
        -- rewrite decide_False by (by intros [_ ?]). by rewrite lookup_delete_ne.
      * by rewrite decide_False by (by intros [? ?]).
      * by rewrite decide_False by (by intros [? ?]).
  - split; [done|]. intros [|[k'|n'] es] verb m.
    + rewrite method_at_nil. intros Hm. eapply H3. by apply elem_of_range.
    + rewrite method_at_segment. destruct (segments p !! k') as [s|] eqn:Hs; simpl; [|done].
      specialize (Hseg _ _ Hs). specialize (H1 k' s (proj2 (elem_of_range _ _ _) Hs)).
      destruct (delRule_fuel fuel n s) as [s' b]. simpl in H1. subst b. destruct Hseg as [_ Hs']. apply Hs'.
    + rewrite method_at_variable. destruct (findVariable p n') as [v|] eqn:Hv; simpl; [|done].
      apply find_variable_some in Hv as [Hv _]. specialize (Hvar _ Hv). specialize (H2 _ Hv).
      destruct (delRule_fuel fuel n (vnext v)) as [q b]. simpl in H2. subst b. destruct Hvar as [_ Hs']. apply Hs'.
Qed.
End Delete.

(** ** clone *)

Section Clone.
Context `{U : Unicode} `{P : Protoreflect}.

Lemma clone_unfold p :
  clone p = Path (clone <$> segments p) (methods p) (methodAll p)
    ((fun v => Var (vname v) (vtoks v) (clone (vnext v))) <$> variables p).
Proof.
  destruct p as [s m a vs]. simpl. f_equal. induction vs as [|[n t q] vs IH]; [done|].
  csimpl. by rewrite IH.
Qed.

(** [clone] copies the whole tree: every segment, variable and method, and
    [methodAll]. *)
Theorem clone_equal p : clone p = p.
Proof.
  induction p as [p IHs IHv] using path_ind_nested. rewrite clone_unfold.
  destruct p as [s m a vs]. simpl in *. f_equal.
  - apply map_eq. intros k. rewrite lookup_fmap. destruct (s !! k) as [q|] eqn:E; simpl; [|done].
    f_equal. by eapply IHs.
  - induction vs as [|[n t q] vs IH]; [done|]. csimpl. pose proof (IHv (Var n t q) ltac:(left)) as Hq.
    simpl in Hq. rewrite Hq, IH; [done|]. intros v Hv. apply IHv. by right.
Qed.
End Clone.

Section Theorems.
Context `{U : Unicode} `{P : Protoreflect} `{R : GoRange}.

(** C21 [delRule] removes one method of the name that is registered for a verb,
    wherever it is and in whatever order the maps are visited: the tree stays well
    formed, that method is gone, and every other method for a verb is where it was.
    The methods for every verb, which it does not look at, stay too, except those at or
    below a node that is pruned: a node on the way to the removed method that has
    nothing else left for any verb. *)
Theorem delRule_removes_one Q n d p p' :
  tree Q d p -> delRule n p = (p', true) ->
  tree Q d p' /\ exists es verb m, method_at p es verb = Some m /\ method_name m = n /\
    (forall es' verb', method_at p' es' verb' =
       if decide (es' = es /\ verb' = verb) then None else method_at p es' verb') /\
    (forall es', all_at p' es' = if pruned verb es p es' then None else all_at p es').
Proof.
  intros Ht E. pose proof (delRule_fuel_spec Q (height p) n d p (Nat.le_refl _) Ht) as H.
  unfold delRule in E. rewrite E in H. destruct H as (Ht' & es & verb & m & Hm & Hn & H1 & H2 & _).
  split; [done|]. by exists es, verb, m.
Qed.

(** [delRule] returns false only when no method of the name is left, and then
    it has changed nothing. *)
Theorem delRule_false Q n d p p' :
  tree Q d p -> delRule n p = (p', false) ->
  p' = p /\ forall es verb m, method_at p es verb = Some m -> method_name m <> n.
Proof.
  intros Ht E. pose proof (delRule_fuel_spec Q (height p) n d p (Nat.le_refl _) Ht) as H.
  unfold delRule in E. by rewrite E in H.
Qed.
End Theorems.

(** The node of /v2 with a method for GET and one for every verb. *)
Definition shared_node : path :=
  fst (addRule Sample.all_rule Sample.method Sample.name
    (fst (addRule Sample.all_get_rule Sample.other "/pkg.Library/Other" newPath))).

(** [delRule] and [alive] do not know [methodAll]: a method for every verb is
    never found by its name, and removing another method of its node prunes it. *)
Theorem delRule_loses_methodAll :
  is_ok (match_route shared_node "/v2" "POST") = true /\
  snd (delRule Sample.name shared_node) = false /\
  match_route (fst (delRule "/pkg.Library/Other" shared_node)) "/v2" "POST" = Err errNotFound.
Proof. vm_compute. by split_and!. Qed.

Lemma delRule_removes_one_witness :
  exists p', delRule Sample.name Sample.with_get = (p', true) /\
  tree pattern_ok 0 p' /\ exists es verb m, method_at Sample.with_get es verb = Some m /\
    method_name m = Sample.name /\
    (forall es' verb', method_at p' es' verb' =
       if decide (es' = es /\ verb' = verb) then None else method_at Sample.with_get es' verb') /\
    (forall es', all_at p' es' = if pruned verb es Sample.with_get es' then None else all_at Sample.with_get es').
Proof.
  eexists. split; [vm_compute; reflexivity|].
  apply (delRule_removes_one pattern_ok Sample.name 0 Sample.with_get); [apply sample_tree|].
  vm_compute. reflexivity.
Defined.

Lemma delRule_false_witness :
  Sample.with_get = Sample.with_get /\
  forall es verb m, method_at Sample.with_get es verb = Some m -> method_name m <> "/pkg.Library/Other".
Proof.
  apply (delRule_false pattern_ok "/pkg.Library/Other" 0 Sample.with_get); [apply sample_tree|].
  vm_compute. reflexivity.
Defined.
