(* ===== verification/RouteNames.v ===== *)
(** The names of the methods in a tree: every method that registration puts into the
    tree has the name it was registered under, removal adds none, and [match]
    returns one of them. *)

From S2P Require Import Prelude Status Runes Lexer LexerSpec Proto Params Routes RouteTree RouteRules RouteWalk RouteAdd RouteSearch RouteDelete.

Section Names.
Context `{U : Unicode} `{P : Protoreflect}.

(** Every method of the tree satisfies [N]. *)
Inductive all_methods (N : method -> Prop) : path -> Prop :=
  | AllMethods p :
      map_Forall (fun _ m => N m) (methods p) ->
      (forall m, methodAll p = Some m -> N m) ->
      (forall k q, segments p !! k = Some q -> all_methods N q) ->
      (forall v, v ∈ variables p -> all_methods N (vnext v)) ->
      all_methods N p.

Lemma all_methods_node N p : all_methods N p ->
  map_Forall (fun _ m => N m) (methods p) /\ (forall m, methodAll p = Some m -> N m).
Proof. by destruct 1. Qed.
Lemma all_methods_segment N p k q : all_methods N p -> segments p !! k = Some q -> all_methods N q.
Proof. destruct 1; eauto. Qed.
Lemma all_methods_variable N p v : all_methods N p -> v ∈ variables p -> all_methods N (vnext v).
Proof. destruct 1; eauto. Qed.

Lemma all_methods_mono (N N' : method -> Prop) p :
  (forall m, N m -> N' m) -> all_methods N p -> all_methods N' p.
Proof.
  intros H. induction 1 as [p Hm Ha Hs IHs Hv IHv].
  constructor; [|by auto|done|done]. intros k m Hk. by eapply H, Hm.
Qed.

Lemma all_methods_newPath N : all_methods N newPath.
Proof.
  constructor; simpl; [apply map_Forall_empty|done|..].
  - intros ?? []%lookup_empty_Some.
  - intros ? []%not_elem_of_nil.
Qed.

Section Keep.
Context (N : method -> Prop).

Lemma all_methods_addPath t1 t2 p : all_methods N p -> all_methods N (addPath t1 t2 p).
Proof.
  intros Hp. unfold addPath. destruct (segments p !! _) eqn:E; [done|]. destruct Hp as [p Hm Ha Hs Hv].
  constructor; simpl; [done..| |done].
  intros k q. rewrite lookup_insert_Some. intros [[_ <-]|[_ Hq]]; [apply all_methods_newPath|by eapply Hs].
Qed.

Lemma all_methods_addVariable toks p : all_methods N p -> all_methods N (addVariable toks p).
Proof.
  intros Hp. pose proof (all_methods_node _ _ Hp) as [Hm Ha]. constructor.
  - unfold addVariable. by destruct (findVariable p _).
  - unfold addVariable. by destruct (findVariable p _).
  - intros k q Hq. apply (all_methods_segment N p k q Hp). revert Hq. unfold addVariable.
    by destruct (findVariable p _).
  - intros v [Hvp|[_ ->]]%addVariable_elem; [by eapply all_methods_variable|apply all_methods_newPath].
Qed.

Lemma all_methods_modify_at es f p :
  all_methods N p -> (forall q, all_methods N q -> all_methods N (f q)) -> all_methods N (modify_at es f p).
Proof.
  intros Hp Hf. revert p Hp. induction es as [|[k|n] es IH]; intros p Hp; simpl; [by apply Hf|..].
  - destruct Hp as [p Hm Ha Hs Hv]. constructor; simpl; [done..| |done].
    intros k' q'. rewrite lookup_alter_Some. intros [(<- & q & Hq & ->)|(_ & Hq)]; [|by eapply Hs].
    apply IH. by eapply Hs.
  - destruct Hp as [p Hm Ha Hs Hv]. constructor; simpl; [done..|].
    intros w (v & Hin & [->|[_ ->]])%elem_of_modify_variable; [by apply Hv|]. simpl. by apply IH, Hv.
Qed.

Lemma all_methods_place es ss p : all_methods N p -> all_methods N (place es ss p).
Proof.
  revert es p. induction ss as [|s ss IH]; intros es p Hp; simpl; [done|].
  apply IH, all_methods_modify_at; [done|]. intros q Hq.
  destruct (segment_update_variable s) as [[v ->]|[-> _]]; [by apply all_methods_addPath|by apply all_methods_addVariable].
Qed.

Lemma all_methods_place_template t p : all_methods N p -> all_methods N (place_template t p).
Proof.
  intros Hp. pose proof (all_methods_place [] (t_segments t) p Hp) as Hq. unfold place_template.
  destruct (t_verb t); [|done]. apply all_methods_modify_at; [done|]. intros. by apply all_methods_addPath.
Qed.

Lemma all_methods_registerMethod verb m p : N m -> all_methods N p -> all_methods N (registerMethod verb m p).
Proof.
  intros Hn [? Hm Ha Hs Hv]. unfold registerMethod. destruct (String.eqb verb "*"); constructor; simpl; try done.
  - by intros ? [= <-].
  - by apply map_Forall_insert_2.
Qed.

Lemma rule_method_name rule d n fs m : rule_method rule d n fs = Ok m -> method_name m = n.
Proof. unfold rule_method, mbind, outcome_bind. intros H. repeat case_match; by simplify_eq. Qed.

Section Rules.
Context (d : MethodDescriptor) (n : string)
  (Hn : forall m, method_name m = n -> desc m = d -> N m).

Lemma all_methods_place_step p p' : rtc place_step p p' -> all_methods N p -> all_methods N p'.
Proof using Type.
  induction 1 as [|p q r Hs _ IH]; [done|]. intros Hp. apply IH.
  destruct Hs; (apply all_methods_modify_at; [done|]); intros; [by apply all_methods_addPath|by apply all_methods_addVariable].
Qed.

Lemma all_methods_addRule1 rule p p' o :
  all_methods N p -> addRule1 rule d n p = (p', o) -> all_methods N p'.
Proof using Hn.
  intros Hp E. destruct (addRule1_any _ _ _ _ _ _ E) as [(verb & t & Epat & Ht)|[Hpl _]]; [|by eapply all_methods_place_step].
  pose proof (all_methods_place_template t p Hp) as Hpt.
  destruct (addRule1_run _ _ _ _ _ _ _ _ Epat Ht E) as [(_ & e & ss & _ & _ & ->)|(fs & q & _ & _ & H)].
  { by apply all_methods_place. }
  destruct (methods q !! verb); [by destruct H as [-> _]|]. destruct (methodAll q); [by destruct H as [-> _]|].
  destruct H as [[-> _]|(m & Hm & -> & _)]; [done|].
  apply all_methods_modify_at; [done|]. intros r Hr. apply all_methods_registerMethod; [|done].
  apply Hn; [by eapply rule_method_name|by eapply rule_method_vars].
Qed.

Lemma all_methods_bindings rules p p' o :
  all_methods N p -> bindings d n rules p = (p', o) -> all_methods N p'.
Proof using Hn.
  revert p. induction rules as [|r rules IH]; intros p Hp; simpl; [by intros [= <- _]|].
  destruct (AdditionalBindings r) as [|] eqn:E; simpl; [|by intros [= <- _]].
  unfold mbind, st_bind. rewrite (addRule_no_bindings _ _ _ _ E).
  destruct (addRule1 r d n p) as [p1 [b|e|q|]] eqn:E1; intros H;
    pose proof (all_methods_addRule1 _ _ _ _ Hp E1); [by eapply IH|by injection H as <- _..].
Qed.

Lemma all_methods_addRule rule p p' o :
  all_methods N p -> addRule rule d n p = (p', o) -> all_methods N p'.
Proof using Hn.
  intros Hp. rewrite addRule_unfold. unfold mbind, st_bind.
  destruct (addRule1 rule d n p) as [p1 [[]|e|q|]] eqn:E1; simpl; intros H;
    pose proof (all_methods_addRule1 _ _ _ _ Hp E1); try by injection H as <- _.
  by eapply all_methods_bindings.
Qed.
End Rules.

(** What a route leads to. *)
Lemma all_methods_routes verb p parts m caps : routes verb p parts m caps -> all_methods N p -> N m.
Proof.
  induction 1 as [p m ps Hp|p q s v ps m caps Hq _ IH|p x xs s v ps cap rest m caps Hx _ _ _ IH]; intros Ht.
  - destruct (all_methods_node _ _ Ht) as [Hm Ha]. unfold pick_method in Hp.
    destruct (methods p !! verb) as [m'|] eqn:E; [injection Hp as <- _; by eapply Hm|].
    destruct (methodAll p); [|done]. injection Hp as <- _. by apply Ha.
  - apply IH. by eapply all_methods_segment.
  - apply IH. by eapply all_methods_variable.
Qed.
End Keep.

(** The node that a list of edges leads to. *)
Lemma all_methods_node_at N es p q : all_methods N p -> node_at es p = Some q -> all_methods N q.
Proof.
  revert p. induction es as [|[k|v] es IH]; intros p Hp; simpl; [by intros [= <-]|..].
  - destruct (segments p !! k) eqn:E; simpl; [|done]. apply IH. by eapply all_methods_segment.
  - destruct (findVariable p v) as [w|] eqn:E; simpl; [|done]. apply IH.
    eapply all_methods_variable; [done|]. by eapply find_variable_some.
Qed.

(** Removal adds no method. *)
Lemma all_methods_delRule_fuel `{R : GoRange} N fuel n p : all_methods N p -> all_methods N (fst (delRule_fuel fuel n p)).
Proof.
  revert p. induction fuel as [|fuel IH]; intros p Hp; [done|]. cbn [delRule_fuel].
  pose proof (del_segments_spec (delRule_fuel fuel n) (range (segments p)) p) as H1.
  destruct (del_segments _ _ p) as [p'|].
  { destruct H1 as (k & s & s' & Hin%elem_of_range & E & ->). destruct Hp as [p Hm Ha Hs Hv].
    constructor; simpl; [done..| |done]. intros k' q. destruct (alive s').
    - rewrite lookup_insert_Some. intros [[_ <-]|[_ Hq]]; [|by eapply Hs].
      specialize (IH s (Hs _ _ Hin)). by rewrite E in IH.
    - rewrite lookup_delete_Some. intros [_ Hq]. by eapply Hs. }
  pose proof (del_variables_spec (delRule_fuel fuel n) (variables p)) as H2.
  destruct (del_variables _ _) as [vs'|].
  { destruct H2 as (vs1 & v & vs2 & q & Hvs & E & _ & ->). destruct Hp as [p Hm Ha Hs Hv].
    constructor; simpl; [done..|]. intros w Hw. destruct (replace_elem vs1 v vs2 q w Hw) as [Hin| ->].
    - apply Hv. by rewrite Hvs.
    - simpl. specialize (IH (vnext v)). rewrite E in IH. apply IH, Hv. rewrite Hvs, elem_of_app. right. left. }
  destruct (del_methods _ n) as [k|]; [|done]. destruct Hp as [p Hm Ha Hs Hv].
  constructor; simpl; [|done..]. by apply map_Forall_delete.
Qed.

Lemma all_methods_delRule `{R : GoRange} N n p : all_methods N p -> all_methods N (fst (delRule n p)).
Proof. apply all_methods_delRule_fuel. Qed.
End Names.

(** ** The answer to a request with another verb *)

Section Verb.
Context `{U : Unicode} `{P : Protoreflect}.

Lemma fromJSON_error {A} (f : A -> Value) o e : fromJSON f o = Err e -> e = errJSON.
Proof. destruct o; [done|]. by intros [= <-]. Qed.

Lemma parseMessage_error fd raw e : parseMessage fd raw = Err e -> e <> errMethod.
Proof. unfold parseMessage. repeat case_match; intros [=]; subst; done. Qed.

Lemma parseEnum_error fd raw e : parseEnum fd raw = Err e -> e <> errMethod.
Proof. unfold parseEnum. repeat case_match; intros [=]; subst; done. Qed.

Lemma parseParam_error fds raw e : parseParam fds raw = Err e -> e <> errMethod.
Proof.
  unfold parseParam. destruct (last fds) as [fd|]; [|by intros [= <-]].
  destruct (parseValue fd raw) as [v|e'|q|] eqn:E; try done. intros [= <-]. revert E. unfold parseValue.
  destruct (FieldKind fd); try (by intros ->%fromJSON_error); try done; [|by case_match; intros [= <-]..| |by intros [= <-]].
  - apply parseEnum_error.
  - apply parseMessage_error.
Qed.

Lemma capture_param_error m ps captured e : capture_param m ps captured = Err e -> e <> errMethod.
Proof. unfold capture_param. repeat case_match; try congruence. apply parseParam_error. Qed.

Lemma index_error v toks e : index v toks <> Err e.
Proof.
  unfold index. generalize 0 as i. induction (vtoks v) as [|t ts IH]; intros i; cbn; [done|].
  repeat case_match; try done; apply IH.
Qed.

Lemma search_variables_error search vs toks verb e : search_variables search vs toks verb = Err e -> e <> errMethod.
Proof.
  induction vs as [|v vs IH]; cbn; [by intros [= <-]|].
  destruct (index v (tail toks)) as [[n|]|e'|q|] eqn:Ei; try done; [|by intros [= <-]; apply index_error in Ei].
  case_match; [done|]. destruct (search (vnext v) _ verb) as [[m ps]|e'|q|]; try done.
  destruct (capture_param m ps _) as [p|e'|q|] eqn:E; cbn; try done. intros [= <-]. by eapply capture_param_error.
Qed.

(** A request for a path that is served with other verbs only is never told so: the
    error "method not allowed" of a node is dropped by the node above it, and what
    [match] returns for a path that is not empty is another error. *)
Theorem method_not_allowed_lost p route verb : route <> "" -> match_route p route verb <> Err errMethod.
Proof.
  unfold match_route. intros Hr. pose proof (lexPath_iff route) as Hl. destruct (run_lexer lexPath route) as [ts|e|q|]; try done.
  destruct (proj1 (Hl ts) eq_refl) as (Hts & Es & _).
  assert (H2 : exists t0 t1 rest, ts = t0 :: t1 :: rest) by (destruct Hts; [done|eauto..]).
  destruct H2 as (t0 & t1 & rest & ->). unfold search. cbn [search_fuel length].
  assert (Hv : forall f, search_variables f (variables p) (t0 :: t1 :: rest) verb <> Err errMethod).
  { intros f E. by eapply search_variables_error. }
  repeat case_match; try done; apply Hv.
Qed.
End Verb.

Lemma method_not_allowed_lost_witness :
  match_route Sample.with_get "/v1/shelves/5" "DELETE" <> Err errMethod /\
  match_route Sample.with_get "/v1/shelves/5" "DELETE" = Err errNotFound.
Proof. split; [by apply method_not_allowed_lost|vm_compute; reflexivity]. Defined.
