(* ===== verification/RouteHeap.v ===== *)
(** The routing tree of larking/rules.go as the code has it: nodes that point to one
    another.  A [path] is a node of a heap, [addPath], [addVariable], [clone] and
    [delRule] allocate nodes and write to them; [addRule] is that of RouteRules.v, on
    this tree.  A mux (larking/mux.go) publishes the root of a tree; a registration
    clones it, deletes rules from the clone and adds others, and publishes that or drops
    it. *)

From S2P Require Import Prelude Status Runes Lexer Proto Params Routes RouteTree RouteRules RouteDelete.

Section Heap.
Context `{U : Unicode} `{P : Protoreflect} `{R : GoRange}.

(** ** Nodes

    A pointer to a [path] is a number.  The structs of the variables of a node, and
    the slice of the pointers to them, are a part of the node: [clone] makes both
    anew, so no other node has them. *)
Record vnode := VNode { vn_name : string; vn_toks : list token; vn_next : nat }.

Record node := Node {
  n_segments : gmap string nat;
  n_methods : gmap string method;
  n_methodAll : option method;
  n_variables : list vnode;
}.

(** The nodes, and the next pointer that is free. *)
Record heap := Heap { h_nodes : gmap nat node; h_next : nat }.

Definition empty_heap : heap := Heap ∅ 0.

(** [newPath()] *)
Definition h_newPath (h : heap) : heap * nat :=
  (Heap (<[h_next h := Node ∅ ∅ None []]> (h_nodes h)) (S (h_next h)), h_next h).

Definition write (a : nat) (f : node -> node) (h : heap) : heap := Heap (alter f a (h_nodes h)) (h_next h).

Definition n_set_segments (f : gmap string nat -> gmap string nat) (n : node) : node :=
  Node (f (n_segments n)) (n_methods n) (n_methodAll n) (n_variables n).
Definition n_set_methods (f : gmap string method -> gmap string method) (n : node) : node :=
  Node (n_segments n) (f (n_methods n)) (n_methodAll n) (n_variables n).
Definition n_set_methodAll (m : option method) (n : node) : node :=
  Node (n_segments n) (n_methods n) m (n_variables n).
Definition n_set_variables (f : list vnode -> list vnode) (n : node) : node :=
  Node (n_segments n) (n_methods n) (n_methodAll n) (f (n_variables n)).

(** ** Registration *)

Fixpoint h_find_variable (vs : list vnode) (n : string) : option vnode :=
  match vs with
  | [] => None
  | v :: vs => if String.eqb (vn_name v) n then Some v else h_find_variable vs n
  end.

Definition vn_le (v w : vnode) : Prop := String.leb (vn_name v) (vn_name w) = true.
#[export] Instance vn_le_dec : RelDecision vn_le.
Proof. intros v w. unfold vn_le. apply _. Defined.

(** The heap after the call, and the pointer that it returns. *)
Definition h_addPath (parent value : token) (a : nat) (h : heap) : heap * nat :=
  let v := (val parent ++ val value)%string in
  match h_nodes h !! a ≫= (fun n => n_segments n !! v) with
  | Some b => (h, b)
  | None => let '(h, b) := h_newPath h in (write a (n_set_segments <[v := b]>) h, b)
  end.

Definition h_addVariable (toks : list token) (a : nat) (h : heap) : heap * nat :=
  let n := tokens_String toks in
  match h_nodes h !! a ≫= (fun x => h_find_variable (n_variables x) n) with
  | Some v => (h, vn_next v)
  | None => let '(h, b) := h_newPath h in
      (write a (n_set_variables (fun vs => merge_sort vn_le (vs ++ [VNode n toks b]))) h, b)
  end.

Definition h_register (verb : string) (m : method) (a : nat) (h : heap) : heap :=
  write a (if String.eqb verb "*" then n_set_methodAll (Some m) else n_set_methods <[verb := m]>) h.

(** A heap and the root of one of its trees. *)
Record htree := HTree { t_heap : heap; t_root : nat }.

Definition on_heap (f : nat -> heap -> heap * nat) (a : nat) (t : htree) : htree * nat :=
  let '(h, b) := f a (t_heap t) in (HTree h (t_root t), b).

#[export] Instance heap_tree : RoutingTree htree := {|
  cursor := nat;
  root_cursor := t_root;
  cursor_addPath parent value := on_heap (h_addPath parent value);
  cursor_addVariable toks := on_heap (h_addVariable toks);
  cursor_methods verb a t := (fun n => (n_methods n !! verb, n_methodAll n)) <$> h_nodes (t_heap t) !! a;
  cursor_register verb m a t := HTree (h_register verb m a (t_heap t)) (t_root t);
|}.

(** ** clone *)

Section CloneLoops.
Context (clone : nat -> heap -> heap * nat) (pc : nat).

Fixpoint clone_segments (kvs : list (string * nat)) (h : heap) : heap :=
  match kvs with
  | [] => h
  | (k, s) :: kvs => let '(h, b) := clone s h in clone_segments kvs (write pc (n_set_segments <[k := b]>) h)
  end.

Fixpoint clone_variables (vs : list vnode) (h : heap) : heap :=
  match vs with
  | [] => h
  | v :: vs => let '(h, b) := clone (vn_next v) h in
      clone_variables vs (write pc (n_set_variables (fun ws => ws ++ [VNode (vn_name v) (vn_toks v) b])) h)
  end.
End CloneLoops.

(** The fuel bounds the height of the tree; the number of nodes is enough. *)
Fixpoint h_clone_fuel (fuel : nat) (a : nat) (h : heap) : heap * nat :=
  let '(h, pc) := h_newPath h in
  match fuel, h_nodes h !! a with
  | S fuel, Some p =>
      let h := clone_segments (h_clone_fuel fuel) pc (range (n_segments p)) h in
      let h := clone_variables (h_clone_fuel fuel) pc (n_variables p) h in
      (write pc (n_set_methodAll (n_methodAll p)) (write pc (n_set_methods (fun _ => n_methods p)) h), pc)
  | _, _ => (h, pc)
  end.

Definition h_clone (a : nat) (h : heap) : heap * nat := h_clone_fuel (size (h_nodes h)) a h.

(** ** delRule *)

Definition n_alive (n : node) : bool :=
  negb (size (n_methods n) =? 0) || negb (length (n_variables n) =? 0) || negb (size (n_segments n) =? 0).
Definition h_alive (a : nat) (h : heap) : bool :=
  match h_nodes h !! a with Some n => n_alive n | None => false end.

Section DeleteLoops.
Context (del : nat -> heap -> heap * bool) (p : nat).

Fixpoint h_del_segments (kvs : list (string * nat)) (h : heap) : heap * bool :=
  match kvs with
  | [] => (h, false)
  | (k, s) :: kvs =>
      match del s h with
      | (h, true) => (if h_alive s h then h else write p (n_set_segments (delete k)) h, true)
      | (h, false) => h_del_segments kvs h
      end
  end.

(** [i] is the index of the first of [vs]. *)
Fixpoint h_del_variables (i : nat) (vs : list vnode) (h : heap) : heap * bool :=
  match vs with
  | [] => (h, false)
  | v :: vs =>
      match del (vn_next v) h with
      | (h, true) => (if h_alive (vn_next v) h then h else write p (n_set_variables (delete i)) h, true)
      | (h, false) => h_del_variables (S i) vs h
      end
  end.
End DeleteLoops.

Fixpoint h_delRule_fuel (fuel : nat) (name : string) (p : nat) (h : heap) : heap * bool :=
  match fuel, h_nodes h !! p with
  | S fuel, Some n =>
      let del := h_delRule_fuel fuel name in
      match h_del_segments del p (range (n_segments n)) h with
      | (h, true) => (h, true)
      | (h, false) =>
          match h_del_variables del p 0 (n_variables n) h with
          | (h, true) => (h, true)
          | (h, false) =>
              match del_methods (range (n_methods n)) name with
              | Some k => (write p (n_set_methods (delete k)) h, true)
              | None => (h, false)
              end
          end
      end
  | _, _ => (h, false)
  end.

Definition h_delRule (name : string) (p : nat) (h : heap) : heap * bool :=
  h_delRule_fuel (size (h_nodes h)) name p h.

(** ** The trees of a mux

    What the calls of a mux do to its trees: a registration adds rules to a clone,
    until one is refused, and publishes the clone when none is; before it adds those of
    a connection that it knows already, it deletes the rules of the connection's
    methods.  [DropConn] deletes rules from a clone, and drops it. *)

Record rule_of := RuleOf { ro_rule : HttpRule; ro_desc : MethodDescriptor; ro_name : string }.

Inductive tree_op := OpAdd (r : rule_of) | OpDel (name : string).

Inductive change := Publish (ops : list tree_op) | Discard (ops : list tree_op).

Record hmux := HMux { hm_heap : heap; hm_root : option nat }.
Definition new_hmux : hmux := HMux empty_heap None.

Definition h_copy (m : hmux) : heap * nat :=
  match hm_root m with Some a => h_clone a (hm_heap m) | None => h_newPath (hm_heap m) end.

Fixpoint h_ops (ops : list tree_op) : st htree error unit :=
  match ops with
  | [] => mret tt
  | OpAdd r :: ops => addRule (ro_rule r) (ro_desc r) (ro_name r);; h_ops ops
  | OpDel name :: ops => fun t => h_ops ops (HTree (fst (h_delRule name (t_root t) (t_heap t))) (t_root t))
  end.

Definition h_change (c : change) (m : hmux) : hmux :=
  let '(h, a) := h_copy m in
  match c with
  | Publish ops =>
      match h_ops ops (HTree h a) with
      | (t, Ok _) => HMux (t_heap t) (Some (t_root t))
      | (t, _) => HMux (t_heap t) (hm_root m)
      end
  | Discard ops => HMux (t_heap (fst (h_ops ops (HTree h a)))) (hm_root m)
  end.

(** *** The same with a tree that is a value

    [deletes name p p']: one method of the name is gone, found in the order in which
    [delRule] looks: in the segments, whichever the map gives first, then in the
    variables, then at the node. *)

Definition has_name (name : string) (p : path) : Prop :=
  exists es verb m, method_at p es verb = Some m /\ method_name m = name.

Inductive deletes (name : string) : path -> path -> Prop :=
  | deletes_segment p k s s' :
      segments p !! k = Some s -> deletes name s s' ->
      deletes name p (set_segments (if alive s' then <[k := s']> else delete k) p)
  | deletes_variable p vs v vs' q :
      (forall k s, segments p !! k = Some s -> ~ has_name name s) ->
      variables p = vs ++ v :: vs' -> (forall w, w ∈ vs -> ~ has_name name (vnext w)) -> deletes name (vnext v) q ->
      deletes name p (set_variables (fun _ => vs ++ (if alive q then [Var (vname v) (vtoks v) q] else []) ++ vs') p)
  | deletes_method p verb m :
      (forall k s, segments p !! k = Some s -> ~ has_name name s) ->
      (forall v, v ∈ variables p -> ~ has_name name (vnext v)) ->
      methods p !! verb = Some m -> method_name m = name ->
      deletes name p (set_methods (delete verb) p).

(** What a call for the name may do, and what it returns. *)
Definition deleted (name : string) (p : path) (r : path * bool) : Prop :=
  if snd r then deletes name p (fst r) else fst r = p /\ ~ has_name name p.

Inductive ops_tree : list tree_op -> path -> path -> go unit -> Prop :=
  | ops_nil p : ops_tree [] p p (Ok tt)
  | ops_add r ops p p1 p' o :
      addRule (ro_rule r) (ro_desc r) (ro_name r) p = (p1, Ok tt) -> ops_tree ops p1 p' o ->
      ops_tree (OpAdd r :: ops) p p' o
  | ops_refused r ops p p' o :
      addRule (ro_rule r) (ro_desc r) (ro_name r) p = (p', o) -> is_ok o = false ->
      ops_tree (OpAdd r :: ops) p p' o
  | ops_del name ops p p1 b p' o :
      deleted name p (p1, b) -> ops_tree ops p1 p' o -> ops_tree (OpDel name :: ops) p p' o.

Inductive change_tree : change -> option path -> option path -> Prop :=
  | change_published ops t p : ops_tree ops (clone (default newPath t)) p (Ok tt) -> change_tree (Publish ops) t (Some p)
  | change_refused ops t p o : ops_tree ops (clone (default newPath t)) p o -> is_ok o = false -> change_tree (Publish ops) t t
  | change_discarded ops t p o : ops_tree ops (clone (default newPath t)) p o -> change_tree (Discard ops) t t.

Inductive changes_tree : list change -> option path -> option path -> Prop :=
  | changes_nil t : changes_tree [] t t
  | changes_cons c cs t t1 t' : change_tree c t t1 -> changes_tree cs t1 t' -> changes_tree (c :: cs) t t'.

(** Rules that are only added: the trees are those that [addRule] makes. *)
Fixpoint add_all (rs : list rule_of) : st path error unit :=
  match rs with
  | [] => mret tt
  | r :: rs => addRule (ro_rule r) (ro_desc r) (ro_name r);; add_all rs
  end.

(** ** What a reader sees *)

(** The tree at a node, down to a depth. *)
Fixpoint read (fuel : nat) (h : heap) (a : nat) : option path :=
  match fuel, h_nodes h !! a with
  | S fuel, Some n =>
      ss ← mapM (fun '(k, b) => pair k <$> read fuel h b) (map_to_list (n_segments n));
      vs ← mapM (fun v => Var (vn_name v) (vn_toks v) <$> read fuel h (vn_next v)) (n_variables n);
      Some (Path (list_to_map ss) (n_methods n) (n_methodAll n) vs)
  | _, _ => None
  end.

Definition h_read (h : heap) (a : nat) : option path := read (size (h_nodes h)) h a.

(** ** Lists of variables

    A variable and its struct in a node have the same name and tokens. *)
Definition same_variable (v : variable) (w : vnode) : Prop := vname v = vn_name w /\ vtoks v = vn_toks w.

Lemma find_same vs ws n :
  Forall2 same_variable vs ws ->
  match find_variable vs n, h_find_variable ws n with
  | Some v, Some w => exists i, vs !! i = Some v /\ ws !! i = Some w /\
      forall f, modify_variable n f vs = <[i := Var (vname v) (vtoks v) (f (vnext v))]> vs
  | None, None => True
  | _, _ => False
  end.
Proof.
  induction 1 as [|v w vs ws [Hn Ht] H IH]; [done|]. cbn [find_variable h_find_variable modify_variable]. rewrite <-Hn.
  destruct (String.eqb (vname v) n); [by exists 0|].
  destruct (find_variable vs n) as [v'|], (h_find_variable ws n) as [w'|]; try done.
  destruct IH as (i & Hv & Hw & Hf). exists (S i). split_and!; [done..|]. intros f. cbn. by rewrite Hf.
Qed.
(** ** Changes of values *)

Lemma ops_tree_adds rs p p' o : ops_tree (OpAdd <$> rs) p p' o <-> add_all rs p = (p', o).
Proof.
  split.
  - revert p. induction rs as [|r rs IH]; intros p H; inversion H; subst; [done|..]; cbn [add_all].
    + match goal with E : addRule _ _ _ _ = _ |- _ => rewrite (st_bind_run _ _ _ _ _ E) end. by apply IH.
    + unfold mbind, st_bind. match goal with E : addRule _ _ _ _ = _ |- _ => rewrite E end.
      by destruct o.
  - revert p. induction rs as [|r rs IH]; intros p; cbn [add_all]; [intros [= <- <-]; constructor|].
    unfold mbind, st_bind. destruct (addRule _ _ _ p) as [p1 [[]|e|q|]] eqn:E; [intros H; eapply ops_add; [exact E|by apply IH]|..];
      intros [= <- <-]; by eapply ops_refused.
Qed.

(** [delRule] of a tree does what it may. *)
Lemma has_name_node name p :
  has_name name p ->
  (exists k s, segments p !! k = Some s /\ has_name name s) \/ (exists v, v ∈ variables p /\ has_name name (vnext v)) \/
  exists verb m, methods p !! verb = Some m /\ method_name m = name.
Proof.
  intros ([|[k|n] es] & verb & m & Hm & Hn).
  - right. right. by exists verb, m.
  - left. rewrite method_at_segment in Hm. destruct (segments p !! k) as [s|] eqn:E; [|done]. exists k, s. split; [done|]. by exists es, verb, m.
  - right. left. rewrite method_at_variable in Hm. destruct (findVariable p n) as [v|] eqn:E; [|done]. apply find_variable_some in E as [Hv _].
    exists v. split; [done|]. by exists es, verb, m.
Qed.

Lemma delRule_fuel_deleted fuel name p : height p <= fuel -> deleted name p (delRule_fuel fuel name p).
Proof.
  revert p. induction fuel as [|fuel IH]; intros p Hh; [by destruct p; simpl in Hh; lia|]. cbn [delRule_fuel].
  assert (Hseg : forall k s, segments p !! k = Some s -> deleted name s (delRule_fuel fuel name s)).
  { intros k s Hs%height_segment. apply IH. lia. }
  assert (Hvar : forall v, v ∈ variables p -> deleted name (vnext v) (delRule_fuel fuel name (vnext v))).
  { intros v Hv%height_variable. apply IH. lia. }
  pose proof (del_segments_spec (delRule_fuel fuel name) (range (segments p)) p) as H1.
  destruct (del_segments _ _ p) as [p'|].
  { destruct H1 as (k & s & s' & Hin & E & ->). apply elem_of_range in Hin. pose proof (Hseg k s Hin) as Hd. rewrite E in Hd.
    by eapply deletes_segment. }
  assert (H1' : forall k s, segments p !! k = Some s -> ~ has_name name s).
  { intros k s Hs. specialize (Hseg k s Hs). specialize (H1 k s (proj2 (elem_of_range _ _ _) Hs)). unfold deleted in Hseg.
    rewrite H1 in Hseg. apply Hseg. }
  pose proof (del_variables_spec (delRule_fuel fuel name) (variables p)) as H2.
  destruct (del_variables _ _) as [vs'|].
  { destruct H2 as (vs1 & v & vs2 & q & Hvs & E & Hf & ->).
    assert (Hin : v ∈ variables p) by (rewrite Hvs, elem_of_app; right; left).
    pose proof (Hvar v Hin) as Hd. rewrite E in Hd. eapply deletes_variable; [done|exact Hvs| |exact Hd].
    intros w Hw. assert (Hwp : w ∈ variables p) by (rewrite Hvs, elem_of_app; by left).
    specialize (Hvar w Hwp). unfold deleted in Hvar. rewrite (Hf w Hw) in Hvar. apply Hvar. }
  assert (H2' : forall v, v ∈ variables p -> ~ has_name name (vnext v)).
  { intros v Hv. specialize (Hvar v Hv). specialize (H2 v Hv). unfold deleted in Hvar. rewrite H2 in Hvar. apply Hvar. }
  pose proof (del_methods_spec (range (methods p)) name) as H3.
  destruct (del_methods _ name) as [k|].
  - destruct H3 as (m & Hin%elem_of_range & Hn). by eapply deletes_method.
  - split; [done|]. intros [(k & s & Hs & Hd)|[(v & Hv & Hd)|(verb & m & Hm & Hn)]]%has_name_node.
    + by eapply H1'.
    + by eapply H2'.
    + eapply H3; [by apply elem_of_range|done].
Qed.

Lemma delRule_deleted name p : deleted name p (delRule name p).
Proof. by apply delRule_fuel_deleted. Qed.

End Heap.

(** Sorting goes by keys: what the keys do not show stays where they go. *)
Section MergeSort.
Context {A B : Type} (f : A -> B) (Q : A -> Prop) (R : relation A) (R' : relation B) `{!RelDecision R, !RelDecision R'}.
Context (HR : forall x y, Q x -> Q y -> R' (f x) (f y) <-> R x y).

Lemma list_merge_fmap l1 l2 :
  Forall Q l1 -> Forall Q l2 -> list_merge R' (f <$> l1) (f <$> l2) = f <$> list_merge R l1 l2.
Proof using HR.
  intros H1. revert l2. induction H1 as [|x l1 Hx H1 IH1]; intros l2 H2; [by destruct H2|].
  induction H2 as [|y l2 Hy H2 IH2]; [done|]. cbn. destruct (decide (R x y)) as [Hxy|Hxy].
  - rewrite decide_True by (by apply HR). cbn. f_equal. apply (IH1 (y :: l2)). by constructor.
  - rewrite decide_False by (by rewrite HR). cbn. f_equal. exact IH2.
Qed.

Definition stack_ok (st : list (option (list A))) : Prop := Forall (fun o => match o with Some l => Forall Q l | None => True end) st.
Definition stack_map (st : list (option (list A))) : list (option (list B)) := (fmap (M := option) (fmap (M := list) f)) <$> st.

Lemma list_merge_ok l1 l2 : Forall Q l1 -> Forall Q l2 -> Forall Q (list_merge R l1 l2).
Proof. intros H1 H2. rewrite merge_Permutation. by apply Forall_app. Qed.

Lemma merge_list_to_stack_fmap st l :
  stack_ok st -> Forall Q l ->
  merge_list_to_stack R' (stack_map st) (f <$> l) = stack_map (merge_list_to_stack R st l) /\ stack_ok (merge_list_to_stack R st l).
Proof using HR.
  intros Hst. revert l. induction Hst as [|[l'|] st Ho Hst IH]; intros l Hl; cbn.
  - split; [done|by repeat constructor].
  - rewrite list_merge_fmap by done. destruct (IH (list_merge R l' l)) as [E Hok]; [by apply list_merge_ok|].
    split; [f_equal; exact E|by constructor].
  - split; [done|by constructor].
Qed.

Lemma merge_stack_fmap st :
  stack_ok st -> merge_stack R' (stack_map st) = f <$> merge_stack R st /\ Forall Q (merge_stack R st).
Proof using HR.
  induction 1 as [|[l|] st Ho Hst [IH1 IH2]]; [done| |done].
  change (stack_map (Some l :: st)) with (Some (f <$> l) :: stack_map st). cbn [merge_stack]. rewrite IH1. split; [by apply list_merge_fmap|by apply list_merge_ok].
Qed.

Lemma merge_sort_fmap l : Forall Q l -> merge_sort R' (f <$> l) = f <$> merge_sort R l.
Proof using HR.
  unfold merge_sort. change (@nil (option (list B))) with (stack_map []). intros Hl.
  assert (Hst : stack_ok []) by constructor. revert Hst. generalize (@nil (option (list A))).
  induction Hl as [|x l Hx Hl IH]; intros st Hst; cbn; [by apply merge_stack_fmap|].
  destruct (merge_list_to_stack_fmap st [x] Hst ltac:(by constructor)) as [E Hok]. cbn in E. rewrite E. by apply IH.
Qed.
End MergeSort.

(** Variables and their structs are sorted alike. *)
Definition pair_le `{P : Protoreflect} (x y : variable * vnode) : Prop := name_le x.1 y.1.
#[export] Instance pair_le_dec `{P : Protoreflect} : RelDecision pair_le.
Proof. intros x y. unfold pair_le. apply _. Defined.

Lemma merge_sort_same `{P : Protoreflect} vs ws :
  Forall2 same_variable vs ws ->
  exists l, vs = l.*1 /\ ws = l.*2 /\ merge_sort name_le vs = (merge_sort pair_le l).*1 /\
    merge_sort vn_le ws = (merge_sort pair_le l).*2.
Proof.
  intros H. pose proof (Forall2_length _ _ _ H) as Hl. exists (zip vs ws).
  assert (Hq : Forall (fun x => same_variable x.1 x.2) (zip vs ws)).
  { clear Hl. induction H; constructor; done. }
  assert (E1 : (zip vs ws).*1 = vs) by (apply fst_zip; lia). assert (E2 : (zip vs ws).*2 = ws) by (apply snd_zip; lia).
  split_and!; [done..| |].
  - rewrite <-E1 at 1. by apply (merge_sort_fmap fst (fun x => same_variable x.1 x.2)).
  - rewrite <-E2 at 1. apply (merge_sort_fmap snd (fun x => same_variable x.1 x.2)); [|done].
    intros [v w] [v' w'] [Hn _] [Hn' _]. unfold pair_le, vn_le, name_le. cbn in *. by rewrite Hn, Hn'.
Qed.

(** The new variable is the one that is found. *)
Lemma find_variable_unique `{P : Protoreflect} vs v :
  v ∈ vs -> (forall v', v' ∈ vs -> vname v' = vname v -> v' = v) -> find_variable vs (vname v) = Some v.
Proof.
  intros Hv Hu. destruct (find_variable vs (vname v)) as [v'|] eqn:E.
  - apply find_variable_some in E as [Hv' Hn]. by rewrite (Hu v').
  - apply find_variable_none in E. destruct E. by apply list_elem_of_fmap_2.
Qed.

Lemma h_find_variable_unique ws w :
  w ∈ ws -> (forall w', w' ∈ ws -> vn_name w' = vn_name w -> w' = w) -> h_find_variable ws (vn_name w) = Some w.
Proof.
  intros Hw Hu. induction ws as [|x ws IH]; [by apply not_elem_of_nil in Hw|]. cbn.
  destruct (String.eqb_spec (vn_name x) (vn_name w)) as [Hn|Hn]; [f_equal; apply Hu; [by left|done]|].
  apply IH; [|intros w' Hw'; apply Hu; by right]. apply elem_of_cons in Hw as [-> |]; done.
Qed.

Lemma find_added `{P : Protoreflect} vs ws name toks c :
  Forall2 same_variable vs ws -> find_variable vs name = None ->
  find_variable (merge_sort name_le (vs ++ [Var name toks newPath])) name = Some (Var name toks newPath) /\
  h_find_variable (merge_sort vn_le (ws ++ [VNode name toks c])) name = Some (VNode name toks c).
Proof.
  intros Hs Hn%find_variable_none. split.
  - apply (find_variable_unique _ (Var name toks newPath)).
    + rewrite merge_sort_Permutation. apply elem_of_app. right. by left.
    + intros v'. rewrite merge_sort_Permutation, elem_of_app, list_elem_of_singleton. intros [Hv| ->] Hv'; [|done].
      destruct Hn. cbn in Hv'. rewrite <-Hv'. by apply list_elem_of_fmap_2.
  - apply (h_find_variable_unique _ (VNode name toks c)).
    + rewrite merge_sort_Permutation. apply elem_of_app. right. by left.
    + intros w'. rewrite merge_sort_Permutation, elem_of_app, list_elem_of_singleton. intros [Hw| ->] Hw'; [|done].
      destruct Hn. apply list_elem_of_lookup in Hw as [i Hi]. destruct (Forall2_lookup_r _ _ _ _ _ Hs Hi) as (v & Hv & E & _).
      cbn in Hw'. rewrite <-Hw', <-E. apply list_elem_of_fmap_2. by eapply list_elem_of_lookup_2.
Qed.

(** ** Heights, and reading a node *)

Section Read.
Context `{P : Protoreflect}.

Lemma height_children h p :
  (forall k q, segments p !! k = Some q -> height q <= h) -> (forall v, v ∈ variables p -> height (vnext v) <= h) -> height p <= S h.
Proof.
  destruct p as [s ms ma vs]. cbn [segments variables height]. intros Hs Hv. apply le_n_S, Nat.max_lub.
  - clear Hv. revert Hs. apply (map_fold_weak_ind (fun x s => (forall k q, s !! k = Some q -> height q <= h) -> x <= h)); [lia|].
    intros k q s' x Hk IH Hs. apply Nat.max_lub; [apply (Hs k); by rewrite lookup_insert_eq|]. apply IH.
    intros k' q' Hk'. apply (Hs k'). rewrite lookup_insert_ne; [done|]. congruence.
  - clear Hs. induction vs as [|[n t q] vs IH]; [simpl; lia|]. cbn. apply Nat.max_lub; [apply (Hv (Var n t q)); by left|].
    apply IH. intros v Hin. apply Hv. by right.
Qed.

Lemma read_node fuel h a n p :
  h_nodes h !! a = Some n -> n_methods n = methods p /\ n_methodAll n = methodAll p ->
  (forall k, is_Some (segments p !! k) <-> is_Some (n_segments n !! k)) ->
  (forall k q b, segments p !! k = Some q -> n_segments n !! k = Some b -> read fuel h b = Some q) ->
  Forall2 (fun v w => same_variable v w /\ read fuel h (vn_next w) = Some (vnext v)) (variables p) (n_variables n) ->
  read (S fuel) h a = Some p.
Proof.
  intros Hn [Hm Ha] Hdom Hs Hv. cbn [read]. rewrite Hn.
  set (l := (fun '(k, _) => (k, default newPath (segments p !! k))) <$> map_to_list (n_segments n)).
  assert (El : mapM (fun '(k, b) => pair k <$> read fuel h b) (map_to_list (n_segments n)) = Some l).
  { apply mapM_Some_2. unfold l. apply Forall2_fmap_r, Forall_Forall2_diag, Forall_forall. intros [k b] Hk%elem_of_map_to_list.
    destruct (proj2 (Hdom k)) as [q Hq]; [done|]. cbn. rewrite (Hs k q b Hq Hk). cbn. by rewrite Hq. }
  assert (Ev : mapM (fun v => Var (vn_name v) (vn_toks v) <$> read fuel h (vn_next v)) (n_variables n) = Some (variables p)).
  { apply mapM_Some_2, Forall2_flip. eapply Forall2_impl; [exact Hv|]. intros [x t q] w [[Hx Ht] Hr]. cbn in *. by rewrite Hr, Hx, Ht. }
  rewrite El. cbn [mbind option_bind]. rewrite Ev. cbn [mbind option_bind]. rewrite Hm, Ha. f_equal.
  assert (E : list_to_map l = segments p); [|rewrite E; by destruct p].
  assert (Hnd : NoDup l.*1).
  { unfold l. rewrite <-list_fmap_compose. rewrite (list_fmap_ext _ fst); [apply NoDup_fst_map_to_list|]. by intros i [k b]. }
  apply map_eq. intros k. apply option_eq. intros q. rewrite <-elem_of_list_to_map by done. unfold l. rewrite list_elem_of_fmap. split.
  - intros ([k' b] & [= -> ->] & Hk%elem_of_map_to_list). destruct (proj2 (Hdom k')) as [q Hq]; [done|]. by rewrite Hq.
  - intros Hq. destruct (proj1 (Hdom k)) as [b Hb]; [done|]. exists (k, b). rewrite Hq. split; [done|]. by apply elem_of_map_to_list.
Qed.
End Read.

