(* ===== verification/HeapSpec.v ===== *)
(** The trees of RouteHeap.v are the trees of Routes.v: [addRule] on a heap does what
    it does on a value, [clone] copies to new nodes, and no node of a tree that was
    published is written to again.  The proofs are in separation logic: [owns p a]
    says that the nodes from [a] are the tree [p] and no other tree's. *)

#[local] Set Warnings "-rewrite-rw".
From iris.proofmode Require Import proofmode.
From iris.base_logic Require Import lib.ghost_map.
From S2P Require Import Prelude Status Runes Lexer Proto Params Routes RouteTree RouteRules RouteWalk RouteAdd RouteDelete RouteHeap.

Section Heap.
Context `{U : Unicode} `{P : Protoreflect} `{R : GoRange}.
Context `{!ghost_mapG Σ nat node} (γ : gname).

(** ** Trees in the heap *)

Fixpoint owns (p : path) : nat -> iProp Σ :=
  let 'Path s ms ma vs := p in
  let ss := owns <$> s in
  let ws := (fun v => let 'Var n t q := v in (n, t, owns q)) <$> vs in
  fun a => (∃ n, a ↪[γ] n ∗ ⌜n_methods n = ms /\ n_methodAll n = ma⌝ ∗
    ([∗ map] f; b ∈ ss; n_segments n, f b) ∗
    ([∗ list] x; w ∈ ws; n_variables n, ⌜x.1 = (vn_name w, vn_toks w)⌝ ∗ x.2 (vn_next w)))%I.

Definition owns_variable (v : variable) (w : vnode) : iProp Σ :=
  ⌜vname v = vn_name w /\ vtoks v = vn_toks w⌝ ∗ owns (vnext v) (vn_next w).

Lemma owns_node p a :
  owns p a ⊣⊢ ∃ n, a ↪[γ] n ∗ ⌜n_methods n = methods p /\ n_methodAll n = methodAll p⌝ ∗
    ([∗ map] q; b ∈ segments p; n_segments n, owns q b) ∗
    ([∗ list] v; w ∈ variables p; n_variables n, owns_variable v w).
Proof.
  destruct p as [s ms ma vs]. cbn [owns methods methodAll segments variables]. apply bi.exist_proper. intros n.
  do 3 f_equiv; [by rewrite big_sepM2_fmap_l|]. rewrite big_sepL2_fmap_l. apply big_sepL2_proper. intros k [x t q] w _ _.
  unfold owns_variable. cbn. f_equiv. apply bi.pure_proper. split; [by intros [= -> ->]|by intros [-> ->]].
Qed.

(** The nodes of the heap, and that the next pointers are free. *)
Definition interp (h : heap) : iProp Σ :=
  ghost_map_auth γ 1 (h_nodes h) ∗ ⌜forall a, h_next h <= a -> h_nodes h !! a = None⌝.

Lemma interp_lookup h a n : interp h -∗ a ↪[γ] n -∗ ⌜h_nodes h !! a = Some n⌝.
Proof. iIntros "[H _] Ha". iApply (ghost_map_lookup with "H Ha"). Qed.

Lemma newPath_spec h : interp h ==∗ interp (fst (h_newPath h)) ∗ owns newPath (snd (h_newPath h)).
Proof.
  iIntros "[H %Hn]". iMod (ghost_map_insert (h_next h) (Node ∅ ∅ None []) with "H") as "[H Ha]"; [by apply Hn|].
  iModIntro. iSplitL "H".
  - iFrame. iPureIntro. cbn. intros a Ha. rewrite lookup_insert_ne; [|lia]. apply Hn. lia.
  - iApply owns_node. iExists _. iFrame. cbn. iSplit; [done|]. by rewrite big_sepM2_empty.
Qed.

Lemma write_spec h a n f : interp h -∗ a ↪[γ] n ==∗ interp (write a f h) ∗ a ↪[γ] f n.
Proof.
  iIntros "H Ha". iDestruct (interp_lookup with "H Ha") as %Hn. iDestruct "H" as "[H %Hf]".
  iMod (ghost_map_update (f n) with "H Ha") as "[H Ha]". iModIntro. iFrame "Ha".
  assert (E : alter f a (h_nodes h) = <[a := f n]> (h_nodes h)).
  { apply map_eq. intros b. destruct (decide (a = b)) as [<-|Hne].
    - by rewrite lookup_alter_eq lookup_insert_eq Hn.
    - by rewrite lookup_alter_ne // lookup_insert_ne. }
  unfold interp. cbn. rewrite E. iFrame. iPureIntro. intros b Hb. rewrite lookup_insert_ne; [by apply Hf|].
  intros ->. by rewrite (Hf _ Hb) in Hn.
Qed.

(** ** A pointer into a tree

    [focused es p a b]: of the tree [p] at [a], the node that the edges [es] lead to is
    at [b]; another tree at [b] makes another tree at [a]. *)
Definition focused (es : list edge) (p : path) (a b : nat) : iProp Σ :=
  ∃ q, ⌜node_at es p = Some q⌝ ∗ owns q b ∗ (∀ f, owns (f q) b -∗ owns (modify_at es f p) a).

Lemma focused_root p a : owns p a ⊢ focused [] p a a.
Proof. iIntros "H". iExists p. iFrame. iSplit; [done|]. by iIntros (f) "H". Qed.

Lemma focused_back es p a b : focused es p a b ⊢ owns p a.
Proof.
  iIntros "(%q & %Hq & H & Hback)". iDestruct ("Hback" $! id with "H") as "H".
  by rewrite (modify_at_id es id p).
Qed.

Lemma modify_at_step es es' f g p : modify_at (es ++ es') f (modify_at es g p) = modify_at es (fun q => modify_at es' f (g q)) p.
Proof.
  revert p. induction es as [|[k|n] es IH]; intros p; [done|..]; cbn [app modify_at];
    unfold set_segments, set_variables; cbn [segments methods methodAll variables]; f_equal.
  - apply map_eq. intros k'. destruct (decide (k = k')) as [<-|Hne]; [|by rewrite !lookup_alter_ne].
    rewrite !lookup_alter_eq. destruct (segments p !! k) as [q|]; [|done]. cbn. by rewrite IH.
  - induction (variables p) as [|v vs IHv]; [done|]. cbn [modify_variable].
    destruct (String.eqb (vname v) n) eqn:E; cbn [modify_variable vname]; rewrite E; [|by rewrite IHv].
    cbn [vname vtoks vnext]. by rewrite IH.
Qed.

(** A call on the node, and a pointer below it. *)
Lemma focused_step es e g p a b q :
  node_at es p = Some q ->
  (∀ f, owns (f q) b -∗ owns (modify_at es f p) a) -∗
  ∀ c, focused [e] (g q) b c -∗ focused (es ++ [e]) (modify_at es g p) a c.
Proof.
  iIntros (Hq) "Hback %c (%q' & %Hq' & H & Hin)". iExists q'. iFrame "H". iSplit.
  - iPureIntro. rewrite node_at_app (node_at_modify es g p q Hq). exact Hq'.
  - iIntros (f) "H". rewrite modify_at_step. iApply "Hback". by iApply "Hin".
Qed.

Lemma owns_segment k p a n q b :
  segments p !! k = Some q -> n_segments n !! k = Some b ->
  n_methods n = methods p /\ n_methodAll n = methodAll p ->
  a ↪[γ] n -∗ ([∗ map] q; b ∈ segments p; n_segments n, owns q b) -∗
  ([∗ list] v; w ∈ variables p; n_variables n, owns_variable v w) -∗ focused [ESegment k] p a b.
Proof.
  iIntros (Hq Hb Hm) "Ha Hs Hv". iDestruct (big_sepM2_delete _ _ _ k with "Hs") as "[H Hs]"; [done..|].
  iExists q. iFrame "H". iSplit; [iPureIntro; by rewrite /= Hq|]. iIntros (f) "H".
  iApply owns_node. iExists n. iFrame "Ha". iSplit; [done|]. iFrame "Hv". cbn [modify_at set_segments segments].
  iApply (big_sepM2_delete _ _ _ k (f q) b).
  { rewrite lookup_alter_eq Hq. reflexivity. }
  { exact Hb. }
  iFrame "H". rewrite delete_alter_eq. iFrame "Hs".
Qed.

Lemma addPath_spec t1 t2 h q b :
  interp h -∗ owns q b ==∗ interp (fst (h_addPath t1 t2 b h)) ∗
    focused [ESegment (val t1 ++ val t2)%string] (addPath t1 t2 q) b (snd (h_addPath t1 t2 b h)).
Proof.
  iIntros "H Hq". iDestruct (owns_node with "Hq") as "(%n & Hb & %Hm & Hs & Hv)".
  iDestruct (interp_lookup with "H Hb") as %Hn. unfold h_addPath, addPath. rewrite Hn. cbn [mbind option_bind].
  set (v := (val t1 ++ val t2)%string). iDestruct (big_sepM2_lookup_iff with "Hs") as %Hiff. specialize (Hiff v).
  destruct (n_segments n !! v) as [c|] eqn:Ec, (segments q !! v) as [q'|] eqn:Eq;
    try (exfalso; destruct Hiff as [H1 H2]; try (by destruct H1); by destruct H2).
  - iModIntro. cbn [fst snd]. iFrame "H". iApply (owns_segment v q b n q' c Eq Ec Hm with "Hb Hs Hv").
  - iMod (newPath_spec with "H") as "[H Hc]". destruct (h_newPath h) as [h' c]. cbn [fst snd].
    iMod (write_spec _ _ _ (n_set_segments <[v := c]>) with "H Hb") as "[H Hb]". iModIntro. iFrame "H".
    iApply (owns_segment v (set_segments <[v := newPath]> q) b (n_set_segments <[v := c]> n) newPath c with "Hb [Hs Hc] Hv").
    { apply lookup_insert_eq. }
    { apply lookup_insert_eq. }
    { exact Hm. }
    iApply (big_sepM2_insert with "[$Hs $Hc]"); done.
Qed.

Lemma variables_same vs ws : ([∗ list] v; w ∈ vs; ws, owns_variable v w) ⊢ ⌜Forall2 same_variable vs ws⌝.
Proof.
  iIntros "H". iInduction vs as [|v vs] "IH" forall (ws); destruct ws as [|w ws]; cbn; [done|done|done|].
  iDestruct "H" as "[[%Hs _] H]". iDestruct ("IH" with "H") as %H. iPureIntro. by constructor.
Qed.

Lemma owns_named name p a n v w :
  findVariable p name = Some v -> h_find_variable (n_variables n) name = Some w ->
  n_methods n = methods p /\ n_methodAll n = methodAll p ->
  a ↪[γ] n -∗ ([∗ map] q; b ∈ segments p; n_segments n, owns q b) -∗
  ([∗ list] v; w ∈ variables p; n_variables n, owns_variable v w) -∗ focused [EVariable name] p a (vn_next w).
Proof.
  iIntros (Hv Hw Hm) "Ha Hs Hvs". iDestruct (variables_same with "Hvs") as %Hsame.
  pose proof (find_same _ _ name Hsame) as Hfind. unfold findVariable in Hv. rewrite Hv Hw in Hfind.
  destruct Hfind as (i & Hi & Hj & Hmod).
  iDestruct (big_sepL2_insert_acc _ _ _ i v w with "Hvs") as "[[%Hvw H] Hvs]"; [done..|].
  iExists (vnext v). iFrame "H". iSplit; [iPureIntro; by rewrite /= /findVariable Hv|]. iIntros (f) "H".
  iApply owns_node. iExists n. iFrame "Ha Hs". iSplit; [done|]. cbn [modify_at set_variables variables].
  rewrite Hmod. iDestruct ("Hvs" $! (Var (vname v) (vtoks v) (f (vnext v))) w with "[H]") as "H"; [by iFrame|].
  by rewrite (list_insert_id (n_variables n) i w).
Qed.

Lemma addVariable_spec toks h q b :
  interp h -∗ owns q b ==∗ interp (fst (h_addVariable toks b h)) ∗
    focused [EVariable (tokens_String toks)] (addVariable toks q) b (snd (h_addVariable toks b h)).
Proof.
  iIntros "H Hq". iDestruct (owns_node with "Hq") as "(%n & Hb & %Hm & Hs & Hv)".
  iDestruct (interp_lookup with "H Hb") as %Hn. iDestruct (variables_same with "Hv") as %Hsame.
  unfold h_addVariable, addVariable. rewrite Hn. cbn [mbind option_bind]. set (name := tokens_String toks).
  pose proof (find_same _ _ name Hsame) as Hfind. change (find_variable (variables q) name) with (findVariable q name) in Hfind.
  destruct (findVariable q name) as [v|] eqn:Ev, (h_find_variable (n_variables n) name) as [w|] eqn:Ew; try done.
  { iModIntro. iFrame "H". iApply (owns_named name q b n v w Ev Ew Hm with "Hb Hs Hv"). }
  iMod (newPath_spec with "H") as "[H Hc]". destruct (h_newPath h) as [h' c]. cbn [fst snd].
  set (ws' := merge_sort vn_le (n_variables n ++ [VNode name toks c])).
  iMod (write_spec _ _ _ (n_set_variables (fun vs => merge_sort vn_le (vs ++ [VNode name toks c]))) with "H Hb") as "[H Hb]".
  iModIntro. iFrame "H". set (vs' := merge_sort name_le (variables q ++ [Var name toks newPath])).
  iAssert ([∗ list] v; w ∈ vs'; ws', owns_variable v w)%I with "[Hv Hc]" as "Hv".
  { destruct (merge_sort_same (variables q ++ [Var name toks newPath]) (n_variables n ++ [VNode name toks c]))
      as (l & E1 & E2 & E3 & E4); [apply Forall2_app; [done|by repeat constructor]|].
    unfold vs', ws'. rewrite E3 E4 big_sepL2_fst_snd (merge_sort_Permutation pair_le l) -(big_sepL2_fst_snd (fun _ => owns_variable)) -E1 -E2.
    iApply (big_sepL2_app with "Hv"). cbn. by iFrame. }
  destruct (find_added (variables q) (n_variables n) name toks c Hsame Ev) as [Ev' Ew'].
  iApply (owns_named name (set_variables (fun vs => merge_sort name_le (vs ++ [Var name toks newPath])) q) b
    (n_set_variables (fun vs => merge_sort vn_le (vs ++ [VNode name toks c])) n)
    (Var name toks newPath) (VNode name toks c) Ev' Ew' Hm with "Hb Hs Hv").
Qed.

Lemma methods_spec h es p a b :
  interp h -∗ focused es p a b -∗
  ⌜exists q n, node_at es p = Some q /\ h_nodes h !! b = Some n /\ n_methods n = methods q /\ n_methodAll n = methodAll q⌝.
Proof.
  iIntros "H (%q & %Hq & Hb & _)". iDestruct (owns_node with "Hb") as "(%n & Hb & %Hm & _)".
  iDestruct (interp_lookup with "H Hb") as %Hn. iPureIntro. by exists q, n.
Qed.

Lemma register_spec verb m h es p a b :
  interp h -∗ focused es p a b ==∗
  interp (h_register verb m b h) ∗ owns (modify_at es (registerMethod verb m) p) a.
Proof.
  iIntros "H (%q & %Hq & Hb & Hback)". iDestruct (owns_node with "Hb") as "(%n & Hb & %Hm & Hs & Hv)".
  unfold h_register. iMod (write_spec _ _ _ (if String.eqb verb "*" then n_set_methodAll (Some m) else n_set_methods <[verb := m]>)
    with "H Hb") as "[H Hb]". iModIntro. iFrame "H". iApply "Hback". iApply owns_node. iExists _. iFrame "Hb".
  unfold registerMethod. destruct Hm as [Hm Ha]. destruct (String.eqb verb "*"); cbn; iFrame; by rewrite ?Hm ?Ha.
Qed.

(** ** addRule

    Two runs of [addRule], on a value and on a heap, go the same way: [adders] relates
    their locals. *)
Definition adders (r : nat) (A : adder (T := path)) (B : adder (T := htree)) : iProp Σ :=
  interp (t_heap (ad_root B)) ∗ focused (ad_cursor A) (ad_root A) r (ad_cursor B) ∗
  ⌜t_root (ad_root B) = r /\ ad_i A = ad_i B /\ ad_varfds A = ad_varfds B⌝.

Definition alike {X} (m : st (adder (T := path)) error X) (m' : st (adder (T := htree)) error X) : Prop :=
  forall r A B, adders r A B ⊢ |==> adders r (fst (m A)) (fst (m' B)) ∗ ⌜snd (m A) = snd (m' B)⌝.

Lemma alike_const {X} (o : go X) : alike (fun A => (A, o)) (fun B => (B, o)).
Proof. iIntros (r A B) "H !>". by iFrame. Qed.

Lemma alike_bind {X Y} m m' (f f' : X -> st _ error Y) : alike m m' -> (forall x, alike (f x) (f' x)) -> alike (m ≫= f) (m' ≫= f').
Proof.
  intros Hm Hf r A B. rewrite (Hm r A B). iIntros ">[H %E]". unfold mbind, st_bind.
  destruct (m A) as [A' o], (m' B) as [B' o']. cbn in E. subst o'. cbn [fst].
  destruct o as [x|e|q|]; [|by iFrame..]. by iApply Hf.
Qed.

Lemma alike_tok_at ltoks i : alike (tok_at ltoks i) (tok_at ltoks i).
Proof. unfold tok_at. destruct (_ <? _); apply alike_const. Qed.

Lemma alike_next_tok ltoks : alike (next_tok ltoks) (next_tok ltoks).
Proof.
  intros r [p es i vf] [t b i' vf']. unfold next_tok. rewrite !bind_modify !bind_get.
  iIntros "(H & Hf & %Hr & %Hi & %Hv)". cbn in Hi, Hv. subst i' vf'. cbn [ad_i ad_root ad_cursor ad_varfds].
  iApply alike_tok_at. by iFrame.
Qed.

Lemma alike_push fds : alike (push_varfds fds) (push_varfds fds).
Proof. intros r [p es i vf] [t b i' vf']. iIntros "(H & Hf & %Hr & %Hi & %Hv) !>". cbn in *. subst. by iFrame. Qed.

Lemma alike_step_path t1 t2 : alike (step_path t1 t2) (step_path t1 t2).
Proof.
  intros r [p es i vf] [[h r'] b i' vf']. iIntros "(H & (%q & %Hq & Hb & Hback) & %Hr & %Hi & %Hv)". cbn in Hr, Hi, Hv |- *. subst.
  unfold step_path, modify, on_heap. cbn. iMod (addPath_spec t1 t2 with "H Hb") as "[H Hc]".
  destruct (h_addPath t1 t2 b h) as [h' c]. iModIntro. iSplit; [|done]. cbn. iFrame "H". iSplit; [|done].
  by iApply (focused_step with "Hback").
Qed.

Lemma alike_step_variable toks : alike (step_variable toks) (step_variable toks).
Proof.
  intros r [p es i vf] [[h r'] b i' vf']. iIntros "(H & (%q & %Hq & Hb & Hback) & %Hr & %Hi & %Hv)". cbn in Hr, Hi, Hv |- *. subst.
  unfold step_variable, modify, on_heap. cbn. iMod (addVariable_spec toks with "H Hb") as "[H Hc]".
  destruct (h_addVariable toks b h) as [h' c]. iModIntro. iSplit; [|done]. cbn. iFrame "H". iSplit; [|done].
  by iApply (focused_step with "Hback").
Qed.

Lemma alike_ret {X} (x : X) : alike (mret x) (mret x).
Proof. apply alike_const. Qed.
Lemma alike_throw {X} e : alike (throw (A := X) e) (throw e).
Proof. apply alike_const. Qed.
Lemma alike_invalid {X} tok : alike (invalid (A := X) tok) (invalid tok).
Proof. apply alike_const. Qed.
Lemma alike_stuck {X} : alike (stuck (A := X)) stuck.
Proof. apply alike_const. Qed.

Create HintDb alike.
#[local] Hint Resolve alike_ret alike_throw alike_invalid alike_stuck alike_bind alike_tok_at alike_next_tok alike_push
  alike_step_path alike_step_variable : alike.
#[local] Opaque alike.
Ltac alike := repeat first
  [ solve [auto 3 with alike] | apply alike_bind; [solve [auto 2 with alike]|intros ?]
  | match goal with |- alike (match ?x with _ => _ end) _ => destruct x end
  | match goal with |- alike (let '_ := ?x in _) _ => destruct x end ].

Lemma alike_keys_loop ltoks fuel nxt keys : alike (keys_loop ltoks fuel nxt keys) (keys_loop ltoks fuel nxt keys).
Proof. revert nxt keys. induction fuel as [|fuel IH]; intros nxt keys; cbn [keys_loop]; alike. Qed.
Lemma alike_vars_loop ltoks fuel nxt acc : alike (vars_loop ltoks fuel nxt acc) (vars_loop ltoks fuel nxt acc).
Proof. revert nxt acc. induction fuel as [|fuel IH]; intros nxt acc; cbn [vars_loop]; alike. Qed.
#[local] Hint Resolve alike_keys_loop alike_vars_loop : alike.
Lemma alike_variable_pattern ltoks nxt : alike (variable_pattern ltoks nxt) (variable_pattern ltoks nxt).
Proof. unfold variable_pattern. alike. Qed.
#[local] Hint Resolve alike_variable_pattern : alike.
Lemma alike_add_variable ltoks fds : alike (add_variable ltoks fds) (add_variable ltoks fds).
Proof. unfold add_variable. alike. Qed.
#[local] Hint Resolve alike_add_variable : alike.
Lemma alike_add_segment ltoks fds tok : alike (add_segment ltoks fds tok) (add_segment ltoks fds tok).
Proof. unfold add_segment. alike. Qed.
#[local] Hint Resolve alike_add_segment : alike.
Lemma alike_segments_loop ltoks fuel fds tok : alike (segments_loop ltoks fuel fds tok) (segments_loop ltoks fuel fds tok).
Proof. revert tok. induction fuel as [|fuel IH]; intros tok; cbn [segments_loop]; alike. Qed.
#[local] Hint Resolve alike_segments_loop : alike.
Lemma alike_walk_rule ltoks fds : alike (walk_rule ltoks fds) (walk_rule ltoks fds).
Proof. unfold walk_rule. alike. Qed.
#[local] Transparent alike.

(** Two runs on a whole tree. *)
Definition trees (r : nat) (p : path) (t : htree) : iProp Σ := interp (t_heap t) ∗ owns p r ∗ ⌜t_root t = r⌝.

Definition tree_alike {X} (m : st path error X) (m' : st htree error X) : Prop :=
  forall r p t, trees r p t ⊢ |==> trees r (fst (m p)) (fst (m' t)) ∗ ⌜snd (m p) = snd (m' t)⌝.

Lemma tree_alike_const {X} (o : go X) : tree_alike (fun p => (p, o)) (fun t => (t, o)).
Proof. iIntros (r p t) "H !>". by iFrame. Qed.

Lemma tree_alike_bind {X Y} m m' (f f' : X -> st _ error Y) :
  tree_alike m m' -> (forall x, tree_alike (f x) (f' x)) -> tree_alike (m ≫= f) (m' ≫= f').
Proof.
  intros Hm Hf r p t. rewrite (Hm r p t). iIntros ">[H %E]". unfold mbind, st_bind.
  destruct (m p) as [p' o], (m' t) as [t' o']. cbn in E. subst o'. cbn [fst].
  destruct o as [x|e|q|]; [|by iFrame..]. by iApply Hf.
Qed.

Lemma addRule1_alike rule d n : tree_alike (addRule1 rule d n) (addRule1 rule d n).
Proof.
  unfold addRule1. intros r p t. destruct (rule_pattern rule) as [[verb tmpl]|e|q|]; [|apply tree_alike_const..].
  destruct (run_lexer lexTemplate tmpl) as [ltoks|e|q|]; [|apply tree_alike_const..].
  iIntros "(H & Hp & %Hr)".
  iMod (alike_walk_rule ltoks (Fields (Input d)) r (Adder p (root_cursor p) 0 []) (Adder t (root_cursor t) 0 []) with "[H Hp]")
    as "[(H & Hf & %Ht & %Hi & %Hv) %Eo]".
  { iFrame "H". iSplit; [|done]. cbn. rewrite Hr. by iApply focused_root. }
  destruct (walk_rule ltoks _ (Adder p _ 0 [])) as [A o], (walk_rule ltoks _ (Adder t _ 0 [])) as [B o'].
  cbn [fst snd] in *. subst o'.
  destruct o as [[]|e|q|]; [|iModIntro; iSplit; [|done]; iFrame "H"; iSplit; [by iApply focused_back|done]..].
  iDestruct (methods_spec with "H Hf") as %(q & m & Hq & Hm & Em & Ea).
  cbn [cursor_methods path_tree heap_tree]. rewrite Hq Hm. cbn. rewrite Em Ea -Hv.
  destruct (methods q !! verb) as [y|].
  { destruct (String.eqb _ _); iModIntro; (iSplit; [|done]); iFrame "H"; (iSplit; [by iApply focused_back|done]). }
  destruct (methodAll q) as [y|]; [iModIntro; iSplit; [|done]; iFrame "H"; iSplit; [by iApply focused_back|done]|].
  destruct (rule_method rule d n (ad_varfds A)) as [mt|e|x|];
    [|iModIntro; iSplit; [|done]; iFrame "H"; iSplit; [by iApply focused_back|done]..].
  iMod (register_spec verb mt with "H Hf") as "[H Hp]". iModIntro. iSplit; [|done]. by iFrame.
Qed.

Lemma addRule_leaf rule d n : AdditionalBindings rule = [] -> tree_alike (addRule rule d n) (addRule rule d n).
Proof.
  intros E. rewrite !addRule_unfold E. apply tree_alike_bind; [apply addRule1_alike|]. intros [|]; apply tree_alike_const.
Qed.

Lemma addRule_alike rule d n : tree_alike (addRule rule d n) (addRule rule d n).
Proof.
  rewrite !addRule_unfold. apply tree_alike_bind; [apply addRule1_alike|]. intros [|]; [|apply tree_alike_const].
  cbn [negb]. induction (AdditionalBindings rule) as [|r rs IH]; cbn [bindings]; [apply tree_alike_const|].
  destruct (AdditionalBindings r) as [|r' rs'] eqn:E; [|apply tree_alike_const].
  apply tree_alike_bind; [by apply addRule_leaf|]. by intros [].
Qed.

(** ** The height of a tree, and reading it *)

Lemma owns_height p : forall h a, interp h -∗ owns p a -∗ ⌜height p <= size (h_nodes h)⌝.
Proof.
  induction p as [p IHs IHv] using path_ind_nested. iIntros (h a) "H Hp".
  iDestruct (owns_node with "Hp") as "(%n & Ha & _ & Hs & Hv)". iDestruct (interp_lookup with "H Ha") as %Hn.
  iDestruct "H" as "[H %Hf]". iMod (ghost_map_delete with "H Ha") as "H".
  set (h' := Heap (delete a (h_nodes h)) (h_next h)). iAssert (interp h') with "[H]" as "H".
  { iFrame "H". iPureIntro. intros b Hb. cbn. by rewrite lookup_delete_None Hf; [right|]. }
  assert (Hsz : size (h_nodes h) = S (size (h_nodes h'))).
  { cbn. rewrite -{1}(insert_delete_id _ _ _ Hn) map_size_insert_None; [done|]. apply lookup_delete_eq. }
  rewrite Hsz. iAssert ⌜forall k q, segments p !! k = Some q -> height q <= size (h_nodes h')⌝%I as %H1.
  { iIntros (k q Hq). iDestruct (big_sepM2_lookup_l _ _ _ k q with "Hs") as "(%b & _ & Hb)"; [done|].
    iApply (IHs k q Hq h' b with "H Hb"). }
  iAssert ⌜forall v, v ∈ variables p -> height (vnext v) <= size (h_nodes h')⌝%I as %H2.
  { iIntros (v Hin). pose proof Hin as [i Hi]%list_elem_of_lookup.
    iDestruct (big_sepL2_length with "Hv") as %Hl. destruct (lookup_lt_is_Some_2 (n_variables n) i) as [w Hw].
    { rewrite -Hl. by eapply lookup_lt_Some. }
    iDestruct (big_sepL2_lookup _ _ _ i v w with "Hv") as "[_ Hb]"; [done..|]. iApply (IHv v Hin h' (vn_next w) with "H Hb"). }
  iPureIntro. by apply height_children.
Qed.

Lemma read_spec fuel h : forall p a, height p <= fuel -> interp h -∗ owns p a -∗ ⌜read fuel h a = Some p⌝.
Proof.
  induction fuel as [|fuel IH]; iIntros (p a Hh) "H Hp"; [by destruct p; cbn in Hh; lia|].
  iDestruct (owns_node with "Hp") as "(%n & Ha & %Hm & Hs & Hv)". iDestruct (interp_lookup with "H Ha") as %Hn.
  iDestruct (big_sepM2_lookup_iff with "Hs") as %Hdom.
  iAssert ⌜forall k q b, segments p !! k = Some q -> n_segments n !! k = Some b -> read fuel h b = Some q⌝%I as %H1.
  { iIntros (k q b Hq Hb). iDestruct (big_sepM2_lookup _ _ _ k q b with "Hs") as "Hb"; [done..|].
    iApply (IH q b with "H Hb"). apply height_segment in Hq. lia. }
  iAssert ⌜Forall2 (fun v w => same_variable v w /\ read fuel h (vn_next w) = Some (vnext v)) (variables p) (n_variables n)⌝%I as %H2.
  { iDestruct (big_sepL2_length with "Hv") as %Hl. rewrite Forall2_same_length_lookup.
    iSplit; [done|]. iIntros (i v w Hi Hj). iDestruct (big_sepL2_lookup _ _ _ i v w with "Hv") as "[%Hvw Hb]"; [done..|].
    iDestruct (IH (vnext v) (vn_next w) with "H Hb") as %Hr; [|by iPureIntro].
    apply list_elem_of_lookup_2, height_variable in Hi. lia. }
  iPureIntro. by eapply read_node.
Qed.

Lemma h_read_spec h p a : interp h -∗ owns p a -∗ ⌜h_read h a = Some p⌝.
Proof.
  iIntros "H Hp". iDestruct (owns_height with "H Hp") as %Hh. by iApply (read_spec with "H Hp").
Qed.

(** ** clone *)

Section Clone.
Context (fuel : nat) (copy : nat -> heap -> heap * nat).
Context (copy_spec : forall q b h, height q <= fuel ->
  interp h -∗ owns q b ==∗ interp (fst (copy b h)) ∗ owns q b ∗ owns q (snd (copy b h))).

(** The segments of [s] at the keys of the loop. *)
Definition copied (s : gmap string path) (kvs : list (string * nat)) (d : gmap string path) : gmap string path :=
  foldl (fun d '(k, _) => match s !! k with Some q => <[k := q]> d | None => d end) d kvs.

Lemma copied_lookup s kvs d k : copied s kvs d !! k = if decide (k ∈ kvs.*1 /\ is_Some (s !! k)) then s !! k else d !! k.
Proof using.
  clear copy_spec. unfold copied. revert d. induction kvs as [|[k' b] kvs IH]; intros d; cbn [foldl].
  { destruct (decide _) as [[H _]|]; [by apply elem_of_nil in H|done]. }
  change (((k', b) :: kvs).*1) with (k' :: kvs.*1). rewrite IH.
  destruct (decide (k ∈ kvs.*1 /\ is_Some (s !! k))) as [[Hin Hs]|Hn].
  { destruct (decide _) as [|H]; [done|]. destruct H. split; [by right|done]. }
  destruct (decide (k ∈ k' :: kvs.*1 /\ is_Some (s !! k))) as [[[->|Hin]%elem_of_cons [q Hq]]|H].
  - by rewrite Hq lookup_insert_eq.
  - destruct Hn. split; [done|by exists q].
  - destruct (decide (k' = k)) as [->|Hne]; [|by destruct (s !! k'); rewrite ?lookup_insert_ne].
    destruct (s !! k) as [q|] eqn:E; [|done]. destruct H. split; [by left|by exists q].
Qed.

Lemma clone_segments_spec s N pc kvs : (forall k q, s !! k = Some q -> height q <= fuel) ->
  NoDup kvs.*1 -> forall h d x, (forall k b, (k, b) ∈ kvs -> N !! k = Some b /\ d !! k = None) ->
  interp h -∗ pc ↪[γ] x -∗ ([∗ map] q; b ∈ s; N, owns q b) -∗ ([∗ map] q; b ∈ d; n_segments x, owns q b) ==∗
  ∃ N', interp (clone_segments copy pc kvs h) ∗ pc ↪[γ] n_set_segments (fun _ => N') x ∗
    ([∗ map] q; b ∈ s; N, owns q b) ∗ ([∗ map] q; b ∈ copied s kvs d; N', owns q b).
Proof using copy_spec.
  intros Hh Hnd. induction kvs as [|[k b] kvs IH]; iIntros (h d x Hk) "H Hpc Hs Hd"; cbn [clone_segments copied foldl].
  { iModIntro. iExists (n_segments x). iFrame. by destruct x. }
  inversion Hnd as [|?? Hnin Hnd']; subst. destruct (Hk k b) as [HN Hdk]; [by left|].
  iDestruct (big_sepM2_lookup_iff with "Hs") as %Hiff. destruct (proj2 (Hiff k)) as [q Hq]; [done|]. rewrite Hq.
  iDestruct (big_sepM2_delete _ _ _ k with "Hs") as "[Hb Hs]"; [done..|].
  iMod (copy_spec q b h with "H Hb") as "(H & Hb & Hc)"; [by eapply Hh|]. destruct (copy b h) as [h' c]. cbn [fst snd].
  iAssert ([∗ map] q; b ∈ s; N, owns q b)%I with "[Hb Hs]" as "Hs".
  { iApply (big_sepM2_delete _ s N k q b Hq HN). iFrame. }
  iDestruct (big_sepM2_lookup_iff with "Hd") as %Hiffd.
  assert (Hx : n_segments x !! k = None).
  { apply eq_None_not_Some. rewrite -Hiffd Hdk. by intros [? [=]]. }
  iMod (write_spec _ _ _ (n_set_segments <[k := c]>) with "H Hpc") as "[H Hpc]".
  iMod (IH Hnd' _ (<[k := q]> d) with "H Hpc Hs [Hd Hc]") as (N') "H".
  - intros k' b' Hin. destruct (Hk k' b') as [? ?]; [by right|]. split; [done|]. rewrite lookup_insert_ne; [done|].
    intros <-. apply Hnin. apply list_elem_of_fmap. by exists (k, b').
  - cbn. iApply (big_sepM2_insert with "[$Hd $Hc]"); done.
  - iModIntro. by iExists N'.
Qed.

Lemma clone_variables_spec pc vs : (forall v, v ∈ vs -> height (vnext v) <= fuel) -> forall ws h d x,
  interp h -∗ pc ↪[γ] x -∗ ([∗ list] v; w ∈ vs; ws, owns_variable v w) -∗ ([∗ list] v; w ∈ d; n_variables x, owns_variable v w) ==∗
  ∃ ws', interp (clone_variables copy pc ws h) ∗ pc ↪[γ] n_set_variables (fun _ => ws') x ∗
    ([∗ list] v; w ∈ vs; ws, owns_variable v w) ∗ ([∗ list] v; w ∈ (d ++ vs); ws', owns_variable v w).
Proof using copy_spec.
  induction vs as [|v vs IH]; intros Hh ws h d x; destruct ws as [|w ws]; iIntros "H Hpc Hv Hd"; cbn [clone_variables big_sepL2]; try done.
  { iModIntro. iExists (n_variables x). rewrite app_nil_r. iFrame. by destruct x. }
  iDestruct "Hv" as "[[%Hvw Hb] Hv]".
  iMod (copy_spec (vnext v) (vn_next w) h with "H Hb") as "(H & Hb & Hc)"; [apply Hh; by left|].
  destruct (copy (vn_next w) h) as [h' c]. cbn [fst snd].
  iMod (write_spec _ _ _ (n_set_variables (fun ws => ws ++ [VNode (vn_name w) (vn_toks w) c])) with "H Hpc") as "[H Hpc]".
  assert (Hh' : forall v', v' ∈ vs -> height (vnext v') <= fuel) by (intros v' Hin; apply Hh; by right).
  iMod (IH Hh' ws _ (d ++ [v]) with "H Hpc Hv [Hd Hc]") as (ws') "(H & Hpc & Hv & Hd)".
  { iApply (big_sepL2_app with "Hd"). cbn. by iFrame. }
  iModIntro. iExists ws'. rewrite -app_assoc. cbn. by iFrame.
Qed.
End Clone.

Lemma clone_fuel_spec fuel : forall p a h, height p <= fuel ->
  interp h -∗ owns p a ==∗ interp (fst (h_clone_fuel fuel a h)) ∗ owns p a ∗ owns p (snd (h_clone_fuel fuel a h)).
Proof.
  induction fuel as [|fuel IH]; iIntros (p a h Hh) "H Hp"; [by destruct p; cbn in Hh; lia|].
  iDestruct (owns_node with "Hp") as "(%n & Ha & [%Hm %Hma] & Hs & Hv)". cbn [h_clone_fuel].
  iMod (newPath_spec with "H") as "[H Hpc]". destruct (h_newPath h) as [h1 pc]. cbn [fst snd].
  iDestruct (interp_lookup with "H Ha") as %Hn. rewrite Hn.
  iDestruct (owns_node with "Hpc") as "(%x & Hpc & _ & Hs0 & Hv0)". cbn [segments variables newPath].
  iDestruct (big_sepM2_lookup_iff with "Hs") as %Hiff.
  iMod (clone_segments_spec fuel _ (fun q b h => IH q b h) (segments p) (n_segments n) pc (range (n_segments n))
    with "H Hpc Hs Hs0") as (N') "(H & Hpc & Hs & Hs')".
  { intros k q Hq%height_segment. lia. }
  { rewrite range_perm. apply NoDup_fst_map_to_list. }
  { intros k b Hk%elem_of_range. by rewrite lookup_empty. }
  set (h2 := clone_segments _ _ _ _).
  iMod (clone_variables_spec fuel _ (fun q b h => IH q b h) pc (variables p) with "H Hpc Hv [Hv0]") as (ws') "(H & Hpc & Hv & Hv')".
  { intros v Hin%height_variable. lia. }
  { iExact "Hv0". }
  iMod (write_spec _ _ _ (n_set_methods (fun _ => n_methods n)) with "H Hpc") as "[H Hpc]".
  iMod (write_spec _ _ _ (n_set_methodAll (n_methodAll n)) with "H Hpc") as "[H Hpc]".
  iModIntro. iFrame "H". iSplitL "Ha Hs Hv".
  - iApply owns_node. iExists n. by iFrame.
  - iApply owns_node. iExists _. iFrame "Hpc". cbn. iFrame "Hv'". iSplit; [done|].
    assert (E : copied (segments p) (range (n_segments n)) ∅ = segments p); [|by rewrite E].
    apply map_eq. intros k. rewrite copied_lookup. destruct (decide _) as [|Hnd]; [done|].
    rewrite lookup_empty. destruct (segments p !! k) as [q|] eqn:Eq; [|done]. destruct Hnd. split; [|done].
    destruct (proj1 (Hiff k)) as [b Hb]; [by rewrite Eq|]. apply list_elem_of_fmap. exists (k, b). split; [done|]. by apply elem_of_range.
Qed.

Lemma clone_spec p a h :
  interp h -∗ owns p a ==∗ interp (fst (h_clone a h)) ∗ owns p a ∗ owns p (snd (h_clone a h)).
Proof.
  iIntros "H Hp". iDestruct (owns_height with "H Hp") as %Hh. by iApply (clone_fuel_spec with "H Hp").
Qed.

(** ** delRule

    What it writes to are the nodes of its tree. *)

Definition node_owns (n : node) (p : path) (a : nat) : iProp Σ :=
  a ↪[γ] n ∗ ⌜n_methods n = methods p /\ n_methodAll n = methodAll p⌝ ∗
  ([∗ map] q; b ∈ segments p; n_segments n, owns q b) ∗ ([∗ list] v; w ∈ variables p; n_variables n, owns_variable v w).

Lemma node_owns_owns n p a : node_owns n p a ⊢ owns p a.
Proof. iIntros "H". iApply owns_node. by iExists n. Qed.

Lemma big_sepL2_remove {A B} (Φ : A -> B -> iProp Σ) i : forall l1 l2,
  ([∗ list] x; y ∈ l1; l2, Φ x y) ⊢ [∗ list] x; y ∈ delete i l1; delete i l2, Φ x y.
Proof using.
  induction i as [|i IH]; intros [|x l1] [|y l2]; iIntros "H"; try done; cbn; [by iDestruct "H" as "[_ H]"|].
  iDestruct "H" as "[$ H]". by iApply IH.
Qed.

(** A node lives when the tree that it is the root of does. *)
Lemma h_alive_spec h p a : interp h -∗ owns p a -∗ ⌜h_alive a h = alive p⌝.
Proof.
  iIntros "H Hp". iDestruct (owns_node with "Hp") as "(%n & Ha & [%Hm _] & Hs & Hv)".
  iDestruct (interp_lookup with "H Ha") as %Hn. iDestruct (big_sepM2_dom with "Hs") as %Hd. iDestruct (big_sepL2_length with "Hv") as %Hl.
  iPureIntro. unfold h_alive, n_alive, alive. rewrite Hn Hm -Hl. by rewrite -(size_dom (segments p)) -(size_dom (n_segments n)) Hd.
Qed.

Section Delete.
Context (name : string) (del : nat -> heap -> heap * bool) (a : nat) (n : node) (p : path).
Context (del_spec : forall q b h, (exists k, segments p !! k = Some q) \/ (exists v, v ∈ variables p /\ q = vnext v) ->
  interp h -∗ owns q b ==∗ interp (fst (del b h)) ∗ ∃ q', owns q' b ∗ ⌜deleted name q (q', snd (del b h))⌝).

(** The tree after a loop, whose node has been written to only when a rule was deleted. *)
Definition after_loop (clean : Prop) (r : heap * bool) : iProp Σ :=
  (interp (fst r) ∗ if snd r then (∃ p', owns p' a ∗ ⌜deletes name p p'⌝)%I else (node_owns n p a ∗ ⌜clean⌝)%I)%I.

Lemma h_del_segments_spec kvs : (forall k b, (k, b) ∈ kvs -> n_segments n !! k = Some b) ->
  forall h, interp h -∗ node_owns n p a ==∗
    after_loop (forall k q, k ∈ kvs.*1 -> segments p !! k = Some q -> ~ has_name name q) (h_del_segments del a kvs h).
Proof using del_spec.
  induction kvs as [|[k b] kvs IH]; iIntros (Hk h) "H Hp"; cbn [h_del_segments].
  { iModIntro. iFrame. iPureIntro. by intros k q Hin%elem_of_nil. }
  iDestruct "Hp" as "(Ha & %Hm & Hs & Hv)". pose proof (Hk k b ltac:(by left)) as HN.
  iDestruct (big_sepM2_lookup_iff with "Hs") as %Hiff. destruct (proj2 (Hiff k)) as [q Hq]; [done|].
  iDestruct (big_sepM2_delete _ _ _ k q b Hq HN with "Hs") as "[Hb Hs]".
  iMod (del_spec q b h with "H Hb") as "(H & %q' & Hb & %Hdel)"; [left; by exists k|]. unfold deleted in Hdel.
  destruct (del b h) as [h' []]; cbn [fst snd] in *.
  - iDestruct (h_alive_spec with "H Hb") as %Hal. rewrite Hal.
    assert (Hd : deletes name p (set_segments (if alive q' then <[k := q']> else delete k) p)) by (by eapply deletes_segment).
    destruct (alive q').
    + iModIntro. iFrame "H". iExists _. iSplit; [|by iPureIntro]. iApply (node_owns_owns n). iFrame "Ha Hv". iSplit; [done|].
      cbn. iApply (big_sepM2_delete _ _ _ k q' b); [apply lookup_insert_eq|done|]. iFrame "Hb". by rewrite delete_insert_eq.
    + iMod (write_spec _ _ _ (n_set_segments (delete k)) with "H Ha") as "[H Ha]". iModIntro. iFrame "H".
      iExists _. iSplit; [|by iPureIntro]. iApply (node_owns_owns (n_set_segments (delete k) n)). by iFrame.
  - destruct Hdel as [-> Hnone].
    iMod (IH with "H [Ha Hs Hv Hb]") as "[H Hr]"; [intros k' b' Hin; apply Hk; by right| |].
    { iFrame "Ha Hv". iSplit; [done|]. iApply (big_sepM2_delete _ _ _ k q b Hq HN). iFrame. }
    iModIntro. iFrame "H". destruct (snd _); [done|]. iDestruct "Hr" as "[$ %Hc]". iPureIntro.
    intros k' q0 [->|Hin]%elem_of_cons Hq0; [by rewrite Hq in Hq0; injection Hq0 as <-|by eapply Hc].
Qed.

Lemma h_del_variables_spec ws : forall i, drop i (n_variables n) = ws ->
  (forall k q, segments p !! k = Some q -> ~ has_name name q) ->
  (forall v, v ∈ take i (variables p) -> ~ has_name name (vnext v)) ->
  forall h, interp h -∗ node_owns n p a ==∗
    after_loop (forall v, v ∈ variables p -> ~ has_name name (vnext v)) (h_del_variables del a i ws h).
Proof using del_spec.
  induction ws as [|w ws IH]; iIntros (i Hi Hseg Hbefore h) "H Hp"; cbn [h_del_variables].
  { iDestruct "Hp" as "(Ha & %Hm & Hs & Hv)". iDestruct (big_sepL2_length with "Hv") as %Hl. iModIntro. iFrame. iSplit; [done|].
    iPureIntro. intros v Hv. apply Hbefore. rewrite take_ge; [done|]. rewrite Hl.
    apply (f_equal length) in Hi. rewrite length_drop in Hi. cbn in Hi. lia. }
  iDestruct "Hp" as "(Ha & %Hm & Hs & Hv)".
  assert (Hw : n_variables n !! i = Some w) by (rewrite -(Nat.add_0_r i) -lookup_drop Hi; done).
  iDestruct (big_sepL2_length with "Hv") as %Hl. destruct (lookup_lt_is_Some_2 (variables p) i) as [v Hv].
  { rewrite Hl. by eapply lookup_lt_Some. }
  iDestruct (big_sepL2_insert_acc _ _ _ i v w Hv Hw with "Hv") as "[[%Hvw Hb] Hv]".
  iMod (del_spec (vnext v) (vn_next w) h with "H Hb") as "(H & %q' & Hb & %Hdel)".
  { right. exists v. split; [by eapply list_elem_of_lookup_2|done]. }
  iDestruct ("Hv" $! (Var (vname v) (vtoks v) q') w with "[Hb]") as "Hv"; [by iFrame|].
  rewrite (list_insert_id (n_variables n) i w); [|done]. unfold deleted in Hdel.
  destruct (del (vn_next w) h) as [h' []]; cbn [fst snd] in *.
  - pose proof (take_drop_middle _ _ _ Hv) as Esplit.
    assert (Hd := deletes_variable name p (take i (variables p)) v (drop (S i) (variables p)) q' Hseg (eq_sym Esplit) Hbefore Hdel).
    iDestruct (big_sepL2_lookup_acc _ _ _ i with "Hv") as "[[_ Hb] Hv]".
    { apply list_lookup_insert_eq. by eapply lookup_lt_Some. }
    { done. }
    iDestruct (h_alive_spec with "H Hb") as %Hal. iDestruct ("Hv" with "[Hb]") as "Hv"; [by iFrame|].
    cbn [vnext] in Hal. rewrite Hal.
    rewrite (insert_take_drop (variables p)); [|by eapply lookup_lt_Some].
    destruct (alive q').
    + iModIntro. iFrame "H". iExists _. iSplit; [|by iPureIntro]. iApply (node_owns_owns n). by iFrame.
    + iMod (write_spec _ _ _ (n_set_variables (delete i)) with "H Ha") as "[H Ha]". iModIntro. iFrame "H".
      iExists _. iSplit; [|by iPureIntro]. iApply (node_owns_owns (n_set_variables (delete i) n)). iFrame "Ha Hs".
      iSplit; [done|]. cbn. iDestruct (big_sepL2_remove _ i with "Hv") as "Hv".
      assert (Elen : i = length (take i (variables p))) by (rewrite length_take; apply lookup_lt_Some in Hv; lia).
      assert (Ed : forall (x : variable) l, delete i (take i (variables p) ++ x :: l) = take i (variables p) ++ l).
      { intros x l. rewrite {1}Elen. apply delete_middle. }
      by rewrite Ed.
  - destruct Hdel as [-> Hnone]. destruct v as [vn vt vq]. cbn [vname vtoks vnext] in *.
    rewrite (list_insert_id (variables p) i); [|done].
    iApply (IH (S i) with "H"); [by rewrite -(Nat.add_1_r i) -drop_drop Hi|done| |by iFrame].
    intros v. rewrite (take_S_r _ _ _ Hv) elem_of_app list_elem_of_singleton. intros [?| ->]; [by apply Hbefore|done].
Qed.
End Delete.

Lemma h_delRule_fuel_spec fuel name : forall p a h, height p <= fuel ->
  interp h -∗ owns p a ==∗ interp (fst (h_delRule_fuel fuel name a h)) ∗
    ∃ p', owns p' a ∗ ⌜deleted name p (p', snd (h_delRule_fuel fuel name a h))⌝.
Proof.
  induction fuel as [|fuel IH]; iIntros (p a h Hh) "H Hp"; [by destruct p; cbn in Hh; lia|]. cbn [h_delRule_fuel].
  iDestruct (owns_node with "Hp") as "(%n & Hp)". iAssert (node_owns n p a) with "Hp" as "Hp".
  iAssert ⌜h_nodes h !! a = Some n⌝%I as %Hn.
  { iDestruct "Hp" as "[Ha _]". iApply (interp_lookup with "H Ha"). }
  iAssert ⌜dom (segments p) = dom (n_segments n)⌝%I as %Hdom.
  { iDestruct "Hp" as "(_ & _ & Hs & _)". iApply (big_sepM2_dom with "Hs"). }
  assert (Hdel : forall q b h, (exists k, segments p !! k = Some q) \/ (exists v, v ∈ variables p /\ q = vnext v) ->
    interp h -∗ owns q b ==∗ interp (fst (h_delRule_fuel fuel name b h)) ∗
      ∃ q', owns q' b ∗ ⌜deleted name q (q', snd (h_delRule_fuel fuel name b h))⌝).
  { intros q b h' Hq. apply IH. destruct Hq as [[k Hq%height_segment]|(v & Hv%height_variable & ->)]; lia. }
  rewrite Hn. iMod (h_del_segments_spec name _ a n p Hdel (range (n_segments n)) with "H Hp") as "[H Hp]".
  { by intros k b Hk%elem_of_range. }
  destruct (h_del_segments _ _ _ _) as [h1 []]; cbn [fst snd]; [iModIntro; iFrame|].
  iDestruct "Hp" as "[Hp %Hseg]".
  assert (Hseg' : forall k q, segments p !! k = Some q -> ~ has_name name q).
  { intros k q Hq. apply (Hseg k q); [|done]. assert (Hk : k ∈ dom (n_segments n)) by (rewrite -Hdom; by apply elem_of_dom_2 in Hq).
    apply elem_of_dom in Hk as [b Hb]. apply list_elem_of_fmap. exists (k, b). split; [done|]. by apply elem_of_range. }
  iMod (h_del_variables_spec name _ a n p Hdel (n_variables n) 0 (drop_0 _) Hseg' with "H Hp") as "[H Hp]".
  { by intros v Hv%elem_of_nil. }
  destruct (h_del_variables _ _ _ _ _) as [h2 []]; cbn [fst snd]; [iModIntro; iFrame|].
  iDestruct "Hp" as "[Hp %Hvar]". iDestruct "Hp" as "(Ha & [%Hm %Hma] & Hs & Hv)". rewrite Hm.
  pose proof (del_methods_spec (range (methods p)) name) as Hmeth. destruct (del_methods _ _) as [k|].
  - iMod (write_spec _ _ _ (n_set_methods (delete k)) with "H Ha") as "[H Ha]". iModIntro. iFrame "H".
    iExists (set_methods (delete k) p). iSplit.
    + iApply (node_owns_owns (n_set_methods (delete k) n)). iFrame. cbn. by rewrite Hm.
    + iPureIntro. cbn. destruct Hmeth as (m & Hin%elem_of_range & Hname). by eapply deletes_method.
  - iModIntro. iFrame "H". iExists p. iSplit; [iApply (node_owns_owns n); by iFrame|]. iPureIntro. split; [done|].
    intros [(k & s & Hs & Hd)|[(v & Hv & Hd)|(verb & m & Hvm & Hname)]]%has_name_node.
    + by eapply Hseg'.
    + by eapply Hvar.
    + eapply Hmeth; [by apply elem_of_range|done].
Qed.

Lemma delRule_spec name p a h :
  interp h -∗ owns p a ==∗ interp (fst (h_delRule name a h)) ∗ ∃ p', owns p' a ∗ ⌜deleted name p (p', snd (h_delRule name a h))⌝.
Proof.
  iIntros "H Hp". iDestruct (owns_height with "H Hp") as %Hh. by iApply (h_delRule_fuel_spec with "H Hp").
Qed.

(** The calls of a registration, on a heap and on a value. *)
Lemma h_ops_spec ops : forall r p t,
  trees r p t ==∗ ∃ p', trees r p' (fst (h_ops ops t)) ∗ ⌜ops_tree ops p p' (snd (h_ops ops t))⌝.
Proof.
  induction ops as [|[x|name] ops IH]; iIntros (r p t) "H"; cbn [h_ops].
  - iModIntro. iExists p. iFrame. iPureIntro. constructor.
  - iMod (addRule_alike (ro_rule x) (ro_desc x) (ro_name x) r p t with "H") as "[H %Eo]". unfold mbind, st_bind.
    destruct (addRule _ _ _ p) as [p1 o1] eqn:E1, (addRule _ _ _ t) as [t1 o1']. cbn [fst snd] in *. subst o1'.
    destruct o1 as [[]|e|q|].
    + iMod (IH with "H") as (p') "[H %Hops]". iModIntro. iExists p'. iFrame. iPureIntro. by eapply ops_add.
    + iModIntro. iExists p1. iFrame. iPureIntro. by eapply ops_refused.
    + iModIntro. iExists p1. iFrame. iPureIntro. by eapply ops_refused.
    + iModIntro. iExists p1. iFrame. iPureIntro. by eapply ops_refused.
  - iDestruct "H" as "(H & Hp & %Hr)". subst r. iMod (delRule_spec name with "H Hp") as "(H & %p1 & Hp & %Hd)".
    iMod (IH (t_root t) p1 (HTree (fst (h_delRule name (t_root t) (t_heap t))) (t_root t)) with "[H Hp]") as (p') "[H %Hops]"; [by iFrame|].
    iModIntro. iExists p'. iFrame. iPureIntro. by eapply ops_del.
Qed.

(** ** The trees of a mux *)

(** The trees that were published, by their roots. *)
Definition published (m : hmux) (pubs : gmap nat path) : iProp Σ :=
  interp (hm_heap m) ∗ [∗ map] a ↦ p ∈ pubs, owns p a.

Definition is_current (m : hmux) (t : option path) (pubs : gmap nat path) : Prop :=
  hm_root m ≫= (pubs !!.) = t /\ (hm_root m = None -> t = None) /\ (t = None -> hm_root m = None).

Lemma copy_published m t pubs : is_current m t pubs ->
  published m pubs ==∗ interp (fst (h_copy m)) ∗ owns (default newPath t) (snd (h_copy m)) ∗ [∗ map] a ↦ p ∈ pubs, owns p a.
Proof.
  iIntros ([Ht [Hn Hn']]) "[H Hps]". unfold h_copy. destruct (hm_root m) as [a|].
  - cbn in Ht. destruct t as [p|]; [|by specialize (Hn' eq_refl)].
    iDestruct (big_sepM_lookup_acc _ _ a p Ht with "Hps") as "[Hp Hps]".
    iMod (clone_spec with "H Hp") as "(H & Hp & Hc)". iModIntro. iFrame "H Hc". by iApply "Hps".
  - rewrite (Hn eq_refl). iMod (newPath_spec with "H") as "[H Hc]". iModIntro. by iFrame.
Qed.

Lemma change_spec c m t pubs : is_current m t pubs ->
  published m pubs ==∗ ∃ t' pubs', published (h_change c m) pubs' ∗
    ⌜change_tree c t t' /\ pubs ⊆ pubs' /\ is_current (h_change c m) t' pubs'⌝.
Proof.
  iIntros (Hc) "H". iMod (copy_published m t pubs Hc with "H") as "(H & Hc & Hps)". unfold h_change.
  destruct (h_copy m) as [h a]. cbn [fst snd].
  destruct c as [ops|ops];
    (iMod (h_ops_spec ops a (default newPath t) (HTree h a) with "[H Hc]") as (p) "[(H & Hc & %Hr) %Hops]"; [by iFrame|]);
    rewrite -(clone_equal (default newPath t)) in Hops.
  - destruct (h_ops ops (HTree h a)) as [th o]. cbn [fst snd] in *.
    destruct o as [[]|e|q|]; [|iModIntro; iExists t, pubs; iFrame; iPureIntro; split; [by eapply change_refused|done]..].
    iAssert ⌜pubs !! a = None⌝%I as %Ha.
    { destruct (pubs !! a) as [p'|] eqn:E; [|done]. iDestruct (big_sepM_lookup _ _ a p' E with "Hps") as "Hp'".
      iDestruct (owns_node with "Hc") as "(%n & Ha & _)". iDestruct (owns_node with "Hp'") as "(%n' & Ha' & _)".
      iDestruct (ghost_map_elem_ne with "Ha Ha'") as %Hne. done. }
    iModIntro. iExists (Some p), (<[a := p]> pubs). iSplit.
    + iFrame "H". cbn. iApply (big_sepM_insert _ _ a p Ha). by iFrame.
    + iPureIntro. split; [by constructor|]. split; [by apply insert_subseteq|]. cbn. rewrite Hr. split_and!; [apply lookup_insert_eq|done|done].
  - iModIntro. iExists t, pubs. iFrame. iPureIntro. split; [by eapply change_discarded|done].
Qed.

Definition run_changes (cs : list change) (m : hmux) : hmux := foldl (fun m c => h_change c m) m cs.

Lemma changes_spec cs : forall m t pubs, is_current m t pubs ->
  published m pubs ==∗ ∃ t' pubs', published (run_changes cs m) pubs' ∗
    ⌜changes_tree cs t t' /\ pubs ⊆ pubs' /\ is_current (run_changes cs m) t' pubs'⌝.
Proof.
  induction cs as [|c cs IH]; iIntros (m t pubs Hc) "H"; cbn [run_changes foldl].
  { iModIntro. iExists t, pubs. iFrame. iPureIntro. split; [constructor|done]. }
  iMod (change_spec c m t pubs Hc with "H") as (t1 pubs1) "[H [%Ht1 [%Hsub %Hc1]]]".
  iMod (IH _ _ pubs1 Hc1 with "H") as (t2 pubs2) "[H [%Ht2 [%Hsub2 %Hc2]]]". iModIntro. iExists t2, pubs2. iFrame. iPureIntro.
  split; [by eapply changes_cons|]. split; [by etransitivity|done].
Qed.
End Heap.

(** C6 What a reader sees never changes: whatever registrations and removals a mux has
    had, a registration of a known connection, which deletes rules and adds others,
    among them, the pointer that it publishes is the root of the tree that the calls
    make of values; and whatever calls come after, accepted or refused, the nodes from
    that pointer are still that tree, so a request that has loaded it needs no lock. *)
Theorem published_tree_kept `{U : Unicode} `{P : Protoreflect} `{R : GoRange} cs1 :
  let m1 := run_changes cs1 new_hmux in
  exists t, changes_tree cs1 None t /\
    forall cs2, hm_root m1 ≫= h_read (hm_heap (run_changes cs2 m1)) = t.
Proof.
  intros m1. set (Σ := #[ghost_mapΣ nat node]).
  assert (H : forall cs2, exists t, changes_tree cs1 None t /\ hm_root m1 ≫= h_read (hm_heap (run_changes cs2 m1)) = t /\
    hm_root m1 ≫= h_read (hm_heap m1) = t).
  { intros cs2. apply (pure_soundness (PROP := iPropI Σ)), uPred.bupd_soundness; [apply _|].
    iMod (ghost_map_alloc_empty (K := nat) (V := node)) as (γ) "H".
    assert (Hc : is_current new_hmux None ∅) by done.
    iMod (changes_spec γ cs1 new_hmux None ∅ Hc with "[H]") as (t pubs1) "[H [%Ht [_ [%Hr [%Hn1 %Hn2]]]]]".
    { iSplitL "H"; [|done]. iFrame "H". by iPureIntro. }
    fold m1 in Hr, Hn1, Hn2 |- *.
    iAssert ⌜hm_root m1 ≫= h_read (hm_heap m1) = t⌝%I as %Hread1.
    { iDestruct "H" as "[H Hps]". destruct (hm_root m1) as [a|]; cbn in Hr |- *; [|iPureIntro; by rewrite Hn1].
      destruct (pubs1 !! a) as [p|] eqn:Ea; [|by specialize (Hn2 (eq_sym Hr))].
      iDestruct (big_sepM_lookup _ _ a p Ea with "Hps") as "Hp". iDestruct (h_read_spec with "H Hp") as %Hread. iPureIntro. by rewrite Hread. }
    assert (Hc1 : is_current m1 t pubs1) by done.
    iMod (changes_spec γ cs2 m1 _ pubs1 Hc1 with "H") as (t2 pubs2) "[[H Hps] [_ [%Hsub _]]]".
    iModIntro. iExists t. iSplit; [done|]. iSplit; [|done].
    destruct (hm_root m1) as [a|]; cbn in Hr |- *; [|iPureIntro; by rewrite Hn1].
    destruct (pubs1 !! a) as [p|] eqn:Ea; [|by specialize (Hn2 (eq_sym Hr))].
    iDestruct (big_sepM_lookup _ _ a p with "Hps") as "Hp"; [by eapply lookup_weaken|].
    iDestruct (h_read_spec with "H Hp") as %Hread. iPureIntro. by rewrite Hread. }
  destruct (H []) as (t & Ht & _ & Hm). exists t. split; [done|]. intros cs2. destruct (H cs2) as (t' & _ & H2 & H1). congruence.
Qed.

(** A service, then one whose rule is refused, then the removal of the first and a
    registration that replaces it: a reader of the first pointer still has its routes,
    in a heap of the nodes of five trees. *)
Example published_tree_example :
  let r := RuleOf Sample.get_rule Sample.method Sample.name in
  let refused := RuleOf Sample.get_rule Sample.other "/pkg.Library/Other" in
  let other := RuleOf Sample.all_get_rule Sample.other "/pkg.Library/Other" in
  let m1 := run_changes [Publish [OpAdd r]] new_hmux in
  let m2 := run_changes [Publish [OpAdd refused]; Discard [OpDel Sample.name]; Publish [OpDel Sample.name; OpDel Sample.name; OpAdd other]] m1 in
  hm_root m1 ≫= h_read (hm_heap m2) = Some Sample.with_get /\
  hm_root m2 ≫= h_read (hm_heap m2) = Some (fst (addRule Sample.all_get_rule Sample.other "/pkg.Library/Other" newPath)) /\
  size (h_nodes (hm_heap m1)) < size (h_nodes (hm_heap m2)).
Proof. split_and!; vm_compute; [done..|lia]. Qed.
