(* ===== verification/Metadata.v ===== *)
(** The metadata helpers of larking/grpc.go: which headers become metadata and back,
    the status message and the time-out of a request.  [metadata.Join] is gRPC's and
    the class [Metadata]. *)

From S2P Require Import Prelude Status IO Http Base64.

(** Metadata that two [SetHeader] calls give: the values of both, in their order. *)
Class Metadata := {
  Join : MD -> MD -> MD;
  Join_lookup a b k : Join a b !! k =
    match a !! k, b !! k with
    | None, None => None
    | x, y => Some (default [] x ++ default [] y)
    end;
}.

#[export] Instance plain_metadata : Metadata.
Proof.
  refine {| Join := merge (fun x y => match x, y with
                                      | None, None => None
                                      | x, y => Some (default [] x ++ default [] y)
                                      end) |}.
  intros a b k. rewrite lookup_merge. by destruct (a !! k), (b !! k).
Defined.

(** ** Errors and header names *)

(** [context.Canceled] and [io.EOF] end a stream and are no errors of it. *)
Definition isStreamError (err : option error) : bool :=
  match err with
  | None | Some EOF | Some ContextCanceled => false
  | Some _ => true
  end.

Definition isReservedHeader (k : string) : bool :=
  bool_decide (k ∈ ["content-type"; "user-agent"; "grpc-message-type"; "grpc-encoding";
    "grpc-message"; "grpc-status"; "grpc-timeout"; "grpc-status-details"; "te"]).

Definition isWhitelistedHeader (k : string) : bool :=
  bool_decide (k ∈ [":authority"; "user-agent"]).

Definition binHdrSuffix : string := "-bin".

(** ** Binary headers *)

Definition encodeBinHeader (b : string) : string := EncodeToString RawStdEncoding b.

Definition decodeBinHeader (v : string) : option string :=
  if (String.length v mod 4 =? 0)
  then DecodeString RawStdEncoding v
  else DecodeString RawStdEncoding v.

Section Metadata.
Context `{R : GoRange}.

(** ** newIncomingContext *)

(** The entry a header makes; a value that does not decode is left empty. *)
Definition incoming_entry (k : string) (vs : list string) : option (string * list string) :=
  let k := ToLower k in
  if isReservedHeader k && negb (isWhitelistedHeader k) then None
  else if HasSuffix k binHdrSuffix
  then Some (k, (fun v => default "" (decodeBinHeader v)) <$> vs)
  else Some (k, vs).

Definition put (m : Header) (e : option (string * list string)) : Header :=
  match e with Some (k, vs) => <[k := vs]> m | None => m end.

Definition newIncomingContext (ctx : context) (header : Header) : context * MD :=
  let md := foldl (fun md '(k, vs) => put md (incoming_entry k vs)) ∅ (range header) in
  (MkContext (Some md) (timeouts ctx) (ctx_errs ctx), md).

(** ** setOutgoingHeader *)

Definition outgoing_entry (k : string) (vs : list string) : option (string * list string) :=
  if isReservedHeader k then None
  else if HasSuffix k binHdrSuffix
  then Some (CanonicalMIMEHeaderKey k, encodeBinHeader <$> vs)
  else Some (CanonicalMIMEHeaderKey k, vs).

Definition setOutgoingHeader (md : MD) (header : Header) : Header :=
  foldl (fun h '(k, vs) => put h (outgoing_entry k vs)) header (range md).
End Metadata.

(** ** encodeGrpcMessage *)

Definition hex_digit (z : Z) : ascii :=
  ascii_of_N (Z.to_N (if (z <? 10)%Z then 48 + z else 87 + z)%Z).

(** [fmt.Sprintf("%%%02x", c)] *)
Definition escape_byte (c : ascii) : string :=
  String "%" (String (hex_digit (byteZ c / 16)) (String (hex_digit (byteZ c mod 16)) "")).

Definition escaped_byte (c : ascii) : bool :=
  ((byteZ c <? 32) || (126 <? byteZ c) || (byteZ c =? 37))%Z.

(** The loop: [sb] and [pos] at index [i], [rest] being [msg[i:]]. *)
Fixpoint encode_loop (msg rest sb : string) (pos i : nat) : string * nat :=
  match rest with
  | EmptyString => (sb, pos)
  | String c rest =>
      if escaped_byte c then
        let sb := if pos <? i then (sb ++ str_slice pos i msg)%string else sb in
        encode_loop msg rest (sb ++ escape_byte c)%string (S i) (S i)
      else encode_loop msg rest sb pos (S i)
  end.

Definition encodeGrpcMessage (msg : string) : string :=
  let '(sb, pos) := encode_loop msg msg "" 0 0 in
  if pos =? 0 then msg else sb.

(** ** decodeTimeout *)

(** Durations count nanoseconds. *)
Definition Hour : Z := 3600000000000.

Definition timeoutUnit (s : ascii) : Z :=
  if Ascii.eqb s "H" then Hour
  else if Ascii.eqb s "M" then 60000000000%Z
  else if Ascii.eqb s "S" then 1000000000%Z
  else if Ascii.eqb s "m" then 1000000%Z
  else if Ascii.eqb s "u" then 1000%Z
  else if Ascii.eqb s "n" then 1%Z
  else 0%Z.

Definition is_decimal (c : ascii) : bool := ((48 <=? byteZ c) && (byteZ c <=? 57))%Z.

Fixpoint decimal_acc (acc : Z) (s : string) : Z :=
  match s with
  | EmptyString => acc
  | String c s => decimal_acc (acc * 10 + (byteZ c - 48))%Z s
  end.

(** [strconv.ParseInt(s, 10, 64)]: an optional sign and digits. *)
Definition ParseInt (s : string) : option Z :=
  let '(neg, digits) := match s with
                        | String "-" t => (true, t)
                        | String "+" t => (false, t)
                        | _ => (false, s)
                        end in
  if String.eqb digits "" || negb (str_forallb is_decimal digits) then None else
  let v := if neg then (- decimal_acc 0 digits)%Z else decimal_acc 0 digits in
  if ((min_int64 <=? v) && (v <=? max_int64))%Z then Some v else None.

Definition decodeTimeout (s : string) : go Z :=
  let size := String.length s in
  if size <? 2 then Err (Errorf "transport: timeout string is too short: %q" [AStr s]) else
  if 9 <? size then Err (Errorf "transport: timeout string is too long: %q" [AStr s]) else
  match str_head (str_drop (size - 1) s) with
  | None => Panic IndexOutOfRange
  | Some u =>
      let d := timeoutUnit u in
      if (d =? 0)%Z then Err (Errorf "transport: timeout unit is not recognized: %q" [AStr s]) else
      match ParseInt (str_take (size - 1) s) with
      | None => Err (External "strconv.ParseInt")
      | Some t =>
          if ((d =? Hour) && (max_int64 `div` Hour <? t))%Z then Ok max_int64
          else Ok (wrap64 (d * t))
      end
  end.

(** ** Lemmas *)

Section Lemmas.
Context `{R : GoRange}.
Context {f : string -> list string -> option (string * list string)}.

(** What the loop over a map leaves at a key that no entry goes to, and at a key
    that one does. *)
Lemma puts_other l m K :
  (forall k vs ws, (k, vs) ∈ l -> f k vs <> Some (K, ws)) ->
  foldl (fun m '(k, vs) => put m (f k vs)) m l !! K = m !! K.
Proof.
  revert m. induction l as [|[k vs] l IH]; intros m H; [done|]. cbn [foldl]. rewrite IH.
  - destruct (f k vs) as [[K' ws]|] eqn:E; [|done]. simpl. apply lookup_insert_ne. intros ->.
    eapply H; [constructor|exact E].
  - intros k' vs' ws Hin. apply H. by constructor.
Qed.

Lemma puts_hit l m k vs K ws :
  (k, vs) ∈ l -> f k vs = Some (K, ws) ->
  (forall k' vs' ws', (k', vs') ∈ l -> f k' vs' = Some (K, ws') -> ws' = ws) ->
  foldl (fun m '(k, vs) => put m (f k vs)) m l !! K = Some ws.
Proof.
  induction l as [|[k0 vs0] l IH] using rev_ind; intros Hin Hf Hu; [by apply not_elem_of_nil in Hin|].
  rewrite foldl_app. cbn [foldl].
  destruct (f k0 vs0) as [[K' ws']|] eqn:E; cbn [put]; [destruct (decide (K' = K)) as [->|Hne]|].
  - rewrite lookup_insert_eq. f_equal. eapply Hu; [|exact E]. apply elem_of_app. right. by constructor.
  - rewrite lookup_insert_ne by done. apply IH; [|done|].
    + apply elem_of_app in Hin as [?|[= -> ->]%list_elem_of_singleton]; [done|]. congruence.
    + intros k' vs' ws'' H. apply Hu, elem_of_app. by left.
  - apply IH; [|done|].
    + apply elem_of_app in Hin as [?|[= -> ->]%list_elem_of_singleton]; [done|]. congruence.
    + intros k' vs' ws'' H. apply Hu, elem_of_app. by left.
Qed.

(** The same over the entries of a map, when no two of them go to one key. *)
Lemma puts_range (h m : Header) K ws :
  (forall k1 k2 vs1 vs2 ws1 ws2, h !! k1 = Some vs1 -> h !! k2 = Some vs2 ->
     f k1 vs1 = Some (K, ws1) -> f k2 vs2 = Some (K, ws2) -> k1 = k2) ->
  (exists k vs, h !! k = Some vs /\ f k vs = Some (K, ws)) ->
  foldl (fun m '(k, vs) => put m (f k vs)) m (range h) !! K = Some ws.
Proof.
  intros Hinj (k & vs & Hk & Hf). eapply puts_hit; [by apply elem_of_range|exact Hf|].
  intros k' vs' ws' Hk'%elem_of_range Hf'. assert (k' = k) by (eapply Hinj; eauto). congruence.
Qed.
End Lemmas.

(** The values of a binary header are encoded, and those of any other are kept. *)
Definition encode_values (k : string) (vs : list string) : list string :=
  if HasSuffix k binHdrSuffix then encodeBinHeader <$> vs else vs.
Definition decode_values (k : string) (vs : list string) : list string :=
  if HasSuffix k binHdrSuffix then (fun v => default "" (decodeBinHeader v)) <$> vs else vs.

Definition passes (k : string) : Prop := isReservedHeader k = true -> k = "user-agent".

Lemma decode_encode_values k vs : decode_values k (encode_values k vs) = vs.
Proof.
  unfold decode_values, encode_values. destruct (HasSuffix _ _); [|done].
  induction vs as [|v vs IH]; [done|]. cbn. f_equal; [|exact IH].
  unfold decodeBinHeader, encodeBinHeader. by destruct (_ =? _); rewrite base64_roundtrip.
Qed.

Lemma outgoing_entry_spec k vs K ws :
  outgoing_entry k vs = Some (K, ws) <->
  isReservedHeader k = false /\ K = CanonicalMIMEHeaderKey k /\ ws = encode_values k vs.
Proof.
  unfold outgoing_entry, encode_values. split.
  - destruct (isReservedHeader k); [done|]. destruct (HasSuffix k binHdrSuffix); by intros [= <- <-].
  - intros (-> & -> & ->). by destruct (HasSuffix k binHdrSuffix).
Qed.

Lemma reserved_lower k : isReservedHeader k = true -> ToLower k = k.
Proof.
  unfold isReservedHeader. rewrite bool_decide_eq_true. intros Hk.
  enough (Forall (fun k => ToLower k = k) ["content-type"; "user-agent"; "grpc-message-type"; "grpc-encoding";
    "grpc-message"; "grpc-status"; "grpc-timeout"; "grpc-status-details"; "te"]) as H
    by (rewrite Forall_forall in H; by apply H).
  by repeat constructor.
Qed.

Lemma whitelisted_reserved k :
  isReservedHeader k = true -> isWhitelistedHeader k = true <-> k = "user-agent".
Proof. unfold isReservedHeader, isWhitelistedHeader. rewrite !bool_decide_eq_true. set_solver. Qed.

Lemma incoming_entry_spec K vs k ws :
  incoming_entry K vs = Some (k, ws) <->
  k = ToLower K /\ passes k /\ ws = decode_values k vs.
Proof.
  unfold incoming_entry, decode_values.
  destruct (isReservedHeader (ToLower K) && negb (isWhitelistedHeader (ToLower K))) eqn:E.
  - apply andb_prop in E as [Hr Hw%negb_true_iff]. split; [done|]. intros (-> & Hp & _).
    pose proof (proj2 (whitelisted_reserved _ Hr) (Hp Hr)). congruence.
  - assert (Hp : passes (ToLower K)).
    { intros Hr. rewrite Hr in E. apply negb_false_iff in E. by apply whitelisted_reserved. }
    split.
    + destruct (HasSuffix (ToLower K) binHdrSuffix) eqn:Es; intros [= <- <-]; by rewrite Es.
    + intros (-> & _ & ->). by destruct (HasSuffix (ToLower K) binHdrSuffix).
Qed.

Lemma ascii_upper_lower c : ascii_upper (ascii_lower c) = ascii_upper c.
Proof. destruct c as [[] [] [] [] [] [] [] []]; reflexivity. Qed.

Lemma valid_lower c : validHeaderFieldByte (ascii_lower c) = validHeaderFieldByte c.
Proof. destruct c as [[] [] [] [] [] [] [] []]; reflexivity. Qed.

(** The canonical key depends on the lower case name only. *)
Lemma canonical_lower s : CanonicalMIMEHeaderKey (ToLower s) = if str_forallb validHeaderFieldByte s then CanonicalMIMEHeaderKey s else ToLower s.
Proof.
  unfold CanonicalMIMEHeaderKey.
  assert (str_forallb validHeaderFieldByte (ToLower s) = str_forallb validHeaderFieldByte s) as ->.
  { unfold ToLower. induction s as [|c s IH]; [done|]. cbn [str_map str_forallb]. by rewrite IH, valid_lower. }
  destruct (str_forallb _ s); [|done]. unfold ToLower. generalize true.
  induction s as [|c s IH]; intros u; [done|]. cbn [str_map canonical_from].
  rewrite ascii_upper_lower, ascii_lower_lower. by rewrite IH.
Qed.

(** A header map as net/http makes it: every key is a name in canonical form. *)
Definition canonical_header (h : Header) : Prop :=
  forall K vs, h !! K = Some vs -> str_forallb validHeaderFieldByte K = true /\ CanonicalMIMEHeaderKey K = K.

Lemma canonical_inj h K1 K2 vs1 vs2 :
  canonical_header h -> h !! K1 = Some vs1 -> h !! K2 = Some vs2 -> ToLower K1 = ToLower K2 -> K1 = K2.
Proof.
  intros Hc H1 H2 E. destruct (Hc _ _ H1) as [Hv1 <-], (Hc _ _ H2) as [Hv2 <-].
  pose proof (canonical_lower K1) as E1. pose proof (canonical_lower K2) as E2.
  rewrite Hv1 in E1. rewrite Hv2 in E2. congruence.
Qed.

(** A metadata map as gRPC makes it: lower case keys; these are not reserved. *)
Definition lower_keys (md : MD) : Prop := forall k vs, md !! k = Some vs -> ToLower k = k.

Section Theorems.
Context `{R : GoRange}.

Lemma setOutgoingHeader_other md h K :
  lower_keys md ->
  (forall k vs, md !! k = Some vs -> isReservedHeader k = false -> CanonicalMIMEHeaderKey k <> K) ->
  setOutgoingHeader md h !! K = h !! K.
Proof.
  intros Hl Hk. apply puts_other. intros k vs ws Hin%elem_of_range (Hr & -> & _)%outgoing_entry_spec.
  by eapply Hk.
Qed.

Lemma setOutgoingHeader_hit md h k vs :
  lower_keys md -> md !! k = Some vs -> isReservedHeader k = false ->
  setOutgoingHeader md h !! CanonicalMIMEHeaderKey k = Some (encode_values k vs).
Proof.
  intros Hl Hk Hr. apply puts_range.
  - intros k1 k2 vs1 vs2 ws1 ws2 H1 H2 (_ & E1 & _)%outgoing_entry_spec (_ & E2 & _)%outgoing_entry_spec.
    rewrite <-(Hl _ _ H1), <-(Hl _ _ H2), <-ToLower_CanonicalMIMEHeaderKey, <-(ToLower_CanonicalMIMEHeaderKey k2).
    congruence.
  - exists k, vs. split; [done|]. by apply outgoing_entry_spec.
Qed.

(** Metadata that a handler sends reaches the header map under the canonical
    names, binary values encoded, and can not touch the headers reserved to the
    protocol, nor any header of another name. *)
Theorem setOutgoingHeader_spec md h :
  lower_keys md ->
  (forall k vs, md !! k = Some vs -> isReservedHeader k = false ->
     setOutgoingHeader md h !! CanonicalMIMEHeaderKey k = Some (encode_values k vs)) /\
  (forall K, isReservedHeader (ToLower K) = true \/ md !! ToLower K = None ->
     setOutgoingHeader md h !! K = h !! K).
Proof.
  intros Hl. split; [intros; by apply setOutgoingHeader_hit|].
  intros K HK. apply setOutgoingHeader_other; [done|]. intros k vs Hk Hr <-.
  rewrite ToLower_CanonicalMIMEHeaderKey, (Hl _ _ Hk) in HK. destruct HK; congruence.
Qed.

Lemma newIncomingContext_lookup ctx h k ws :
  (forall K1 K2 vs1 vs2, h !! K1 = Some vs1 -> h !! K2 = Some vs2 -> ToLower K1 = ToLower K2 -> K1 = K2) ->
  snd (newIncomingContext ctx h) !! k = Some ws <->
  exists K vs, h !! K = Some vs /\ k = ToLower K /\ passes k /\ ws = decode_values k vs.
Proof.
  intros Hinj. unfold newIncomingContext. cbn [snd]. split.
  - intros H. destruct (decide (Exists (fun '(K, vs) => fst <$> incoming_entry K vs = Some k) (range h))) as [Hex|Hno].
    + apply Exists_exists in Hex as ([K vs] & Hin & Hf). apply elem_of_range in Hin.
      destruct (incoming_entry K vs) as [[k' ws']|] eqn:E; [|done]. injection Hf as <-.
      assert (snd (newIncomingContext ctx h) !! k' = Some ws') as H'.
      { apply puts_range; [|by exists K, vs]. intros K1 K2 vs1 vs2 ws1 ws2 H1 H2
          (? & _ & _)%incoming_entry_spec (? & _ & _)%incoming_entry_spec.
        eapply Hinj; [done..|congruence]. }
      apply incoming_entry_spec in E as (? & ? & ?). simpl in H'.
      exists K, vs. split_and!; [done..|congruence].
    + rewrite puts_other in H; [done|]. intros K vs ws' Hin E. apply Hno, Exists_exists.
      exists (K, vs). by rewrite E.
  - intros (K & vs & HK & -> & Hp & ->). apply puts_range.
    + intros K1 K2 vs1 vs2 ws1 ws2 H1 H2
        (? & _ & _)%incoming_entry_spec (? & _ & _)%incoming_entry_spec.
      eapply Hinj; [done..|congruence].
    + exists K, vs. split; [done|]. by apply incoming_entry_spec.
Qed.

(** The incoming metadata of a request: exactly its headers, by their lower case
    names, binary values decoded, without the headers reserved to the protocol;
    of those only user-agent passes. *)
Theorem newIncomingContext_spec ctx h k ws :
  canonical_header h ->
  snd (newIncomingContext ctx h) !! k = Some ws <->
  exists K vs, h !! K = Some vs /\ k = ToLower K /\ passes k /\ ws = decode_values k vs.
Proof. intros Hc. apply newIncomingContext_lookup. intros *. by apply canonical_inj. Qed.

(** C33 Metadata without reserved keys crosses the wire unchanged, binary values
    included: the receiver's incoming metadata is what the sender put out. *)
Theorem metadata_roundtrip ctx md :
  lower_keys md -> (forall k vs, md !! k = Some vs -> isReservedHeader k = false) ->
  snd (newIncomingContext ctx (setOutgoingHeader md ∅)) = md.
Proof.
  intros Hl Hr. set (h := setOutgoingHeader md ∅).
  assert (Hh : forall K ws, h !! K = Some ws <->
    exists k vs, md !! k = Some vs /\ K = CanonicalMIMEHeaderKey k /\ ws = encode_values k vs).
  { intros K ws. split.
    - intros H. destruct (md !! ToLower K) as [vs|] eqn:E.
      + destruct (decide (CanonicalMIMEHeaderKey (ToLower K) = K)) as [HK|HK].
        * exists (ToLower K), vs. pose proof (setOutgoingHeader_hit md ∅ _ _ Hl E (Hr _ _ E)) as H'.
          rewrite HK in H'. split_and!; [done..|]. unfold h in H. congruence.
        * unfold h in H. rewrite setOutgoingHeader_other in H; [done..|].
          intros k vs' Hk _ <-. apply HK. rewrite ToLower_CanonicalMIMEHeaderKey. by rewrite (Hl _ _ Hk).
      + unfold h in H. rewrite setOutgoingHeader_other in H; [done..|]. intros k vs' Hk _ <-.
        rewrite ToLower_CanonicalMIMEHeaderKey, (Hl _ _ Hk) in E. congruence.
    - intros (k & vs & Hk & -> & ->). by apply setOutgoingHeader_hit; [|done|eapply Hr]. }
  apply map_eq. intros k. apply option_eq. intros ws.
  rewrite newIncomingContext_lookup.
  - setoid_rewrite Hh. split.
    + intros (K & vs & (k' & vs' & Hk & -> & ->) & -> & _ & ->).
      rewrite ToLower_CanonicalMIMEHeaderKey, (Hl _ _ Hk), decode_encode_values. done.
    + intros Hk. exists (CanonicalMIMEHeaderKey k), (encode_values k ws).
      rewrite ToLower_CanonicalMIMEHeaderKey, (Hl _ _ Hk), decode_encode_values.
      split_and!; [by exists k, ws|done| |done]. intros Hres. by rewrite (Hr _ _ Hk) in Hres.
  - intros K1 K2 vs1 vs2 (k1 & ? & ? & -> & _)%Hh (k2 & ? & ? & -> & _)%Hh.
    rewrite !ToLower_CanonicalMIMEHeaderKey. erewrite (Hl k1), (Hl k2) by done. by intros ->.
Qed.
End Theorems.

(** A header reserved to the protocol is not touched by metadata. *)
Lemma setOutgoingHeader_reserved `{R : GoRange} md h K :
  lower_keys md -> isReservedHeader (ToLower K) = true -> setOutgoingHeader md h !! K = h !! K.
Proof.
  intros Hl HK. apply setOutgoingHeader_other; [done|]. intros k vs Hk Hr <-.
  rewrite ToLower_CanonicalMIMEHeaderKey, (Hl _ _ Hk) in HK. congruence.
Qed.

Lemma lower_keys_Join `{MDJ : Metadata} a b : lower_keys a -> lower_keys b -> lower_keys (Join a b).
Proof.
  intros Ha Hb k vs. rewrite Join_lookup. destruct (a !! k) eqn:Ea, (b !! k) eqn:Eb; intros [= <-]; eauto.
Qed.

Lemma lower_keys_empty : lower_keys ∅.
Proof. intros k vs. by rewrite lookup_empty. Qed.

(** A key of the header map is one of before, or one of the metadata. *)
Lemma setOutgoingHeader_inv `{R : GoRange} md h K ws :
  setOutgoingHeader md h !! K = Some ws ->
  h !! K = Some ws \/ exists k vs, md !! k = Some vs /\ isReservedHeader k = false /\ K = CanonicalMIMEHeaderKey k.
Proof.
  unfold setOutgoingHeader. assert (H : forall l h, Forall (fun '(k, vs) => md !! k = Some vs) l ->
    foldl (fun h '(k, vs) => put h (outgoing_entry k vs)) h l !! K = Some ws ->
    h !! K = Some ws \/ exists k vs, md !! k = Some vs /\ isReservedHeader k = false /\ K = CanonicalMIMEHeaderKey k).
  { clear. intros l. induction l as [|[k vs] l IH]; intros h Hl; cbn [foldl]; [by left|].
    apply Forall_cons in Hl as [Hk Hl]. intros [Hp|?]%IH; [|by right|done]. revert Hp.
    destruct (outgoing_entry k vs) as [[K' ws']|] eqn:E; simpl; [|by left].
    apply outgoing_entry_spec in E as (Hr & -> & _). rewrite lookup_insert_Some. intros [[<- _]|[_ ?]]; [|by left].
    right. by exists k, vs. }
  apply H. apply Forall_forall. by intros [k vs] Hin%elem_of_range.
Qed.

(** Setting the same metadata again changes nothing. *)
Lemma setOutgoingHeader_again `{R : GoRange} md h :
  lower_keys md -> setOutgoingHeader md (setOutgoingHeader md h) = setOutgoingHeader md h.
Proof.
  intros Hl. apply map_eq. intros K.
  destruct (decide (Exists (fun kv => isReservedHeader kv.1 = false /\ CanonicalMIMEHeaderKey kv.1 = K) (map_to_list md))) as [He|Hn].
  - apply Exists_exists in He as ([k vs] & Hk%elem_of_map_to_list & Hr & <-). by rewrite !(setOutgoingHeader_hit md _ k vs).
  - apply setOutgoingHeader_other; [done|]. intros k vs Hk Hr HK. apply Hn, Exists_exists. exists (k, vs).
    split; [by apply elem_of_map_to_list|done].
Qed.

(** ** The status message *)

(** Every byte outside the printable ones as a percent escape. *)
Fixpoint escape (s : string) : string :=
  match s with
  | EmptyString => EmptyString
  | String c s => ((if escaped_byte c then escape_byte c else String c "") ++ escape s)%string
  end.

(** What a client makes of it. *)
Definition unhex (c : ascii) : option Z :=
  let x := byteZ c in
  if ((48 <=? x) && (x <=? 57))%Z then Some (x - 48)%Z
  else if ((97 <=? x) && (x <=? 102))%Z then Some (x - 87)%Z else None.

Fixpoint unescape (s : string) : string :=
  match s with
  | String c ((String a (String b t)) as s') =>
      match Ascii.eqb c "%", unhex a, unhex b with
      | true, Some x, Some y => String (chr (16 * x + y)) (unescape t)
      | _, _, _ => String c (unescape s')
      end
  | _ => s
  end.

Definition clean (s : string) : bool := str_forallb (fun c => negb (escaped_byte c)) s.
Definition ends_escaped (s : string) : Prop :=
  exists t c, s = (t ++ String c "")%string /\ escaped_byte c = true.

Lemma escape_app s t : escape (s ++ t) = (escape s ++ escape t)%string.
Proof. induction s as [|c s IH]; simpl; [done|]. by rewrite IH, str_app_assoc. Qed.

Lemma escape_clean s : clean s = true -> escape s = s.
Proof.
  induction s as [|c s IH]; [done|]. unfold clean in *. simpl. intros [Hc Hs]%andb_prop.
  apply negb_true_iff in Hc. rewrite Hc. simpl. f_equal. auto.
Qed.

Lemma clean_snoc s c : clean s = true -> escaped_byte c = false -> clean (s ++ String c "") = true.
Proof.
  unfold clean. intros Hs Hc. induction s as [|d s IH]; simpl in *; [by rewrite Hc|].
  apply andb_prop in Hs as [Hd Hs]. rewrite Hd. simpl. auto.
Qed.

Lemma encode_loop_spec msg rest pre mid :
  msg = (pre ++ mid ++ rest)%string -> clean mid = true -> pre = "" \/ ends_escaped pre ->
  exists pre' tail, msg = (pre' ++ tail)%string /\ clean tail = true /\ (pre' = "" \/ ends_escaped pre') /\
    encode_loop msg rest (escape pre) (String.length pre) (String.length pre + String.length mid)
    = (escape pre', String.length pre').
Proof.
  revert pre mid. induction rest as [|c rest IH]; intros pre mid Hmsg Hmid Hpre.
  - exists pre, mid. rewrite str_app_nil_r in Hmsg. by split_and!.
  - cbn [encode_loop]. destruct (escaped_byte c) eqn:Ec.
    + set (pre' := (pre ++ mid ++ String c "")%string).
      assert (Hsb : (if String.length pre <? String.length pre + String.length mid
        then (escape pre ++ str_slice (String.length pre) (String.length pre + String.length mid) msg)%string
        else escape pre) = (escape pre ++ mid)%string).
      { destruct (Nat.ltb_spec (String.length pre) (String.length pre + String.length mid)).
        - by rewrite Hmsg, str_slice_mid.
        - destruct mid; [by rewrite str_app_nil_r|simpl in *; lia]. }
      rewrite Hsb. specialize (IH pre' "").
      assert (Hl : S (String.length pre + String.length mid) = String.length pre').
      { unfold pre'. rewrite !str_length_app. simpl. lia. }
      assert (He : ((escape pre ++ mid) ++ escape_byte c)%string = escape pre').
      { unfold pre'. rewrite !escape_app, (escape_clean mid Hmid). simpl. by rewrite Ec, str_app_assoc. }
      rewrite He, Hl. rewrite Nat.add_0_r in IH. apply IH; [|done|].
      * rewrite Hmsg. unfold pre'. by rewrite !str_app_assoc.
      * right. exists (pre ++ mid)%string, c. unfold pre'. by rewrite str_app_assoc.
    + specialize (IH pre (mid ++ String c "")%string). rewrite str_length_app in IH.
      replace (S (String.length pre + String.length mid))
        with (String.length pre + (String.length mid + String.length (String c ""))) by (simpl; lia).
      apply IH; [|by apply clean_snoc|done]. rewrite Hmsg. by rewrite !str_app_assoc.
Qed.

Lemma unhex_hex z : (0 <= z < 16)%Z -> unhex (hex_digit z) = Some z.
Proof.
  intros H. assert (z ∈ seqZ 0 16) as Hin by (apply elem_of_seqZ; lia). revert z Hin H.
  assert (Forall (fun z => unhex (hex_digit z) = Some z) (seqZ 0 16)) as Hf by (repeat constructor).
  intros z Hin _. rewrite Forall_forall in Hf. auto.
Qed.

Lemma unescape_cons c s : Ascii.eqb c "%" = false -> unescape (String c s) = String c (unescape s).
Proof. intros H. destruct s as [|a [|b t]]; [done..|]. cbn [unescape]. by rewrite H. Qed.

Lemma unescape_escape s : unescape (escape s) = s.
Proof.
  induction s as [|c s IH]; [done|]. cbn [escape]. destruct (escaped_byte c) eqn:E.
  - unfold escape_byte. cbn [append unescape]. pose proof (byteZ_range c) as Hc.
    rewrite !unhex_hex; [|apply Z.mod_pos_bound; lia|split; [apply Z.div_pos; lia|apply Z.div_lt_upper_bound; lia]].
    rewrite Ascii.eqb_refl, <-Z.div_mod by lia. by rewrite chr_byteZ, IH.
  - cbn [append]. rewrite unescape_cons; [by rewrite IH|]. destruct (Ascii.eqb_spec c "%") as [->|]; [|done].
    by rewrite <-E.
Qed.

Lemma unescape_clean s : clean s = true -> unescape s = s.
Proof. intros H. rewrite <-(escape_clean s H) at 1. apply unescape_escape. Qed.

Lemma escape_clean_out s : str_forallb (fun c => (32 <=? byteZ c) && (byteZ c <=? 126))%Z (escape s) = true.
Proof.
  assert (Hh : Forall (fun z => (32 <=? byteZ (hex_digit z)) && (byteZ (hex_digit z) <=? 126) = true)%Z (seqZ 0 16))
    by (repeat constructor).
  rewrite Forall_forall in Hh.
  induction s as [|c s IH]; [done|]. cbn [escape]. destruct (escaped_byte c) eqn:E.
  - unfold escape_byte. cbn [append str_forallb]. rewrite IH, !Hh; [done|..]; apply elem_of_seqZ;
      pose proof (byteZ_range c).
    + pose proof (Z.mod_pos_bound (byteZ c) 16 eq_refl). lia.
    + split; [apply Z.div_pos; lia|apply Z.div_lt_upper_bound; lia].
  - cbn [append str_forallb]. rewrite IH. unfold escaped_byte in E. lia.
Qed.

(** The status message on the wire is printable ASCII, and a client that undoes
    the escapes gets the message back when nothing in it needs one; otherwise it
    gets the message up to its last escaped byte, and the rest is lost. *)
Theorem encodeGrpcMessage_spec msg :
  exists pre tail, msg = (pre ++ tail)%string /\ clean tail = true /\ (pre = "" \/ ends_escaped pre) /\
    unescape (encodeGrpcMessage msg) = (if String.eqb pre "" then msg else pre) /\
    str_forallb (fun c => (32 <=? byteZ c) && (byteZ c <=? 126))%Z (encodeGrpcMessage msg) = true.
Proof.
  destruct (encode_loop_spec msg msg "" "") as (pre & tail & Hmsg & Ht & Hp & E); [done|done|by left|].
  exists pre, tail. split_and!; [done..| |]; unfold encodeGrpcMessage; change (escape "") with "" in E;
    change (String.length "" + String.length "") with 0 in E; change (String.length "") with 0 in E; rewrite E; destruct pre as [|c pre]; simpl; try done.
  - rewrite Hmsg. simpl. by apply unescape_clean.
  - exact (unescape_escape (String c pre)).
  - rewrite Hmsg. simpl. rewrite <-(escape_clean tail Ht). apply escape_clean_out.
  - apply (escape_clean_out (String c pre)).
Qed.

(** ** The time-out *)

(** A sign that the protocol has not, one to eight digits and a unit. *)
Inductive sign := NoSign | Plus | Minus.
Definition sign_text (s : sign) : string :=
  match s with NoSign => "" | Plus => "+" | Minus => "-" end.

Definition timeout_text (s : string) (sg : sign) (digits : string) (u : ascii) : Prop :=
  s = (sign_text sg ++ digits ++ String u "")%string /\ digits <> "" /\
  str_forallb is_decimal digits = true /\ String.length s <= 9 /\ timeoutUnit u <> 0%Z.

Definition duration (sg : sign) (v unit : Z) : Z :=
  match sg with
  | Minus => wrap64 (- (v * unit))
  | _ => Z.min (v * unit) max_int64
  end.

Lemma decimal_acc_bounds acc s :
  (0 <= acc)%Z -> str_forallb is_decimal s = true ->
  (0 <= decimal_acc acc s < (acc + 1) * 10 ^ Z.of_nat (String.length s))%Z.
Proof.
  revert acc. induction s as [|c s IH]; intros acc Ha; [simpl; lia|]. cbn [str_forallb decimal_acc String.length].
  intros [Hc Hs]%andb_prop. unfold is_decimal in Hc.
  rewrite Nat2Z.inj_succ, Z.pow_succ_r by lia.
  destruct (IH (acc * 10 + (byteZ c - 48))%Z ltac:(lia) Hs) as [H1 H2]. split; [done|].
  eapply Z.lt_le_trans; [exact H2|].
  pose proof (Z.pow_pos_nonneg 10 (Z.of_nat (String.length s)) ltac:(lia) ltac:(lia)). nia.
Qed.

Lemma decimal_head c digits t : is_decimal c = true ->
  match String c digits with
  | String "-" t' => (true, t')
  | String "+" t' => (false, t')
  | _ => (false, String c t)
  end = (false, String c t).
Proof.
  destruct c as [[] [] [] [] [] [] [] []]; (reflexivity || (intros H; discriminate H)).
Qed.

Lemma ParseInt_text sg digits :
  digits <> "" -> str_forallb is_decimal digits = true -> String.length digits <= 8 ->
  ParseInt (sign_text sg ++ digits) =
    Some (match sg with Minus => - decimal_acc 0 digits | _ => decimal_acc 0 digits end)%Z.
Proof.
  intros Hne Hd Hl. pose proof (decimal_acc_bounds 0 digits (Z.le_refl 0) Hd) as Hb.
  assert (10 ^ Z.of_nat (String.length digits) <= 10 ^ 8)%Z by (apply Z.pow_le_mono_r; lia).
  unfold ParseInt.
  assert ((match (sign_text sg ++ digits)%string with
           | String "-" t => (true, t) | String "+" t => (false, t) | _ => (false, (sign_text sg ++ digits)%string) end)
    = (match sg with Minus => true | _ => false end, digits)) as ->.
  { destruct sg; [|done..]. destruct digits as [|c digits]; [done|]. simpl in Hd. apply andb_prop in Hd as [Hc _].
    by apply decimal_head. }
  destruct (String.eqb_spec digits ""); [done|]. rewrite Hd. cbn [orb negb].
  unfold min_int64, max_int64.
  destruct sg; match goal with |- context [if ?b then _ else _] => destruct b eqn:E end; try done; lia.
Qed.

Lemma ParseInt_some t v :
  ParseInt t = Some v -> exists sg digits, t = (sign_text sg ++ digits)%string /\ digits <> "" /\
    str_forallb is_decimal digits = true.
Proof.
  unfold ParseInt. intros H.
  assert (exists sg digits, t = (sign_text sg ++ digits)%string /\
    match t with String "-" t' => (true, t') | String "+" t' => (false, t') | _ => (false, t) end =
    (match sg with Minus => true | _ => false end, digits)) as (sg & digits & Ht & E).
  { destruct t as [|c t]; [by exists NoSign, ""|].
    destruct c as [[] [] [] [] [] [] [] []];
      first [ by exists NoSign; eexists; split; reflexivity
            | by exists Minus, t; split; reflexivity | by exists Plus, t; split; reflexivity ]. }
  rewrite E in H. exists sg, digits. split; [done|].
  destruct (String.eqb_spec digits ""); [done|]. simpl in H.
  destruct (str_forallb is_decimal digits); [done|discriminate H].
Qed.

Lemma timeoutUnit_range u : timeoutUnit u <> 0%Z -> (1 <= timeoutUnit u <= Hour)%Z /\ (timeoutUnit u = Hour \/ timeoutUnit u <= 60000000000)%Z.
Proof.
  unfold timeoutUnit, Hour. repeat (destruct (Ascii.eqb _ _); [lia|]). done.
Qed.

Lemma decodeTimeout_text s sg digits u :
  timeout_text s sg digits u -> decodeTimeout s = Ok (duration sg (decimal_acc 0 digits) (timeoutUnit u)).
Proof.
  intros (-> & Hne & Hd & Hl & Hu). unfold decodeTimeout.
  rewrite !str_length_app in *. cbn [String.length] in *.
  assert (Hdl : 1 <= String.length digits) by (destruct digits; [done|simpl; lia]).
  destruct (Nat.ltb_spec (String.length (sign_text sg) + (String.length digits + 1)) 2); [lia|].
  destruct (Nat.ltb_spec 9 (String.length (sign_text sg) + (String.length digits + 1))); [lia|].
  replace (_ + _ - 1) with (String.length (sign_text sg ++ digits)%string) by (rewrite str_length_app; lia).
  rewrite <-str_app_assoc, str_drop_app, str_take_app. cbn [str_head].
  destruct (Z.eqb_spec (timeoutUnit u) 0); [done|].
  rewrite ParseInt_text by (done || lia).
  pose proof (decimal_acc_bounds 0 digits (Z.le_refl 0) Hd) as Hb.
  assert (10 ^ Z.of_nat (String.length digits) <= 10 ^ 8)%Z by (apply Z.pow_le_mono_r; lia).
  destruct (timeoutUnit_range u Hu) as [Hr Hc].
  generalize dependent (decimal_acc 0 digits). generalize dependent (timeoutUnit u). intros d Hu Hn Hr Hc v Hb.
  change (max_int64 `div` Hour)%Z with 2562047%Z.
  assert (Hpos : (if ((d =? Hour) && (2562047 <? v))%Z then Ok max_int64 else Ok (wrap64 (d * v)) : go Z)
    = Ok (Z.min (v * d) max_int64)).
  { destruct (Z.eqb_spec d Hour) as [->|Hne']; [destruct (Z.ltb_spec 2562047 v)|]; simpl.
    - f_equal. unfold max_int64, Hour in *. lia.
    - rewrite wrap64_id; [f_equal|]; unfold max_int64, min_int64, Hour in *; lia.
    - assert (v * d <= 10 ^ 8 * 60000000000)%Z by nia.
      rewrite wrap64_id; [f_equal|]; unfold max_int64, min_int64 in *; lia. }
  destruct sg; [exact Hpos..|]. cbn [duration].
  destruct (Z.ltb_spec 2562047 (- v)); [lia|].
  rewrite andb_false_r. f_equal. f_equal. lia.
Qed.

(** C40 A time-out is read as the protocol says, one to eight digits and a unit, and
    its duration is exact, hours that overflow being clamped; but a sign is taken
    too, and then the duration is negative or has wrapped around. *)
Theorem decodeTimeout_spec s :
  match decodeTimeout s with
  | Ok d => exists sg digits u, timeout_text s sg digits u /\ d = duration sg (decimal_acc 0 digits) (timeoutUnit u)
  | Err _ => ~ exists sg digits u, timeout_text s sg digits u
  | Panic _ | OutOfFuel => False
  end.
Proof.
  assert (Herr : forall e, decodeTimeout s = Err e -> ~ exists sg digits u, timeout_text s sg digits u).
  { intros e He (sg & digits & u & Ht). apply decodeTimeout_text in Ht. congruence. }
  destruct (decodeTimeout s) as [d|e|q|] eqn:E; [| by eapply Herr | |]; pose proof E as E0; unfold decodeTimeout in E;
    destruct (Nat.ltb_spec (String.length s) 2); try done; destruct (Nat.ltb_spec 9 (String.length s)); try done;
    pose proof (str_take_drop (String.length s - 1) s) as Hs;
    pose proof (str_length_drop (String.length s - 1) s) as Hl;
    (destruct (str_drop (String.length s - 1) s) as [|u [|? ?]]; simpl in Hl; [lia| |lia]); cbn [str_head] in E;
    destruct (Z.eqb_spec (timeoutUnit u) 0) as [|Hu]; try done;
    destruct (ParseInt _) as [t|] eqn:Et; try done; [|by destruct (_ && _)..].
  apply ParseInt_some in Et as (sg & digits & Ht & Hne & Hd).
  assert (Htext : timeout_text s sg digits u).
  { split_and!; [|done..]. by rewrite <-str_app_assoc, <-Ht. }
  exists sg, digits, u. split; [done|]. apply decodeTimeout_text in Htext as Hok.
  congruence.
Qed.

(** ** Witnesses *)

Definition sample_md : MD := {[ "x-tag" := ["a"; "b"]; "trace-bin" := [String "000" (String "255" "")] ]}.
Definition sample_header : Header := {[ "X-Tag" := ["a"]; "User-Agent" := ["u"]; "Te" := ["trailers"] ]}.

Lemma sample_md_lower : lower_keys sample_md /\ (forall k vs, sample_md !! k = Some vs -> isReservedHeader k = false).
Proof.
  enough (map_Forall (fun k _ => ToLower k = k /\ isReservedHeader k = false) sample_md) as H
    by (split; intros k vs Hk; by destruct (H k vs Hk)).
  apply (bool_decide_unpack _). by vm_compute.
Qed.

Lemma sample_header_canonical : canonical_header sample_header.
Proof.
  enough (map_Forall (fun K _ => str_forallb validHeaderFieldByte K = true /\ CanonicalMIMEHeaderKey K = K) sample_header) as H
    by exact H.
  apply (bool_decide_unpack _). by vm_compute.
Qed.

Lemma setOutgoingHeader_spec_witness :
  setOutgoingHeader sample_md ∅ !! "Trace-Bin" = Some ["AP8"] /\
  setOutgoingHeader sample_md sample_header !! "Te" = Some ["trailers"].
Proof.
  split.
  - apply (proj1 (setOutgoingHeader_spec sample_md ∅ (proj1 sample_md_lower)) "trace-bin" [String "000" (String "255" "")]);
      reflexivity.
  - rewrite (proj2 (setOutgoingHeader_spec sample_md sample_header (proj1 sample_md_lower)) "Te") by (left; reflexivity).
    reflexivity.
Defined.

Lemma newIncomingContext_spec_witness :
  snd (newIncomingContext (MkContext None [] []) sample_header) !! "user-agent" = Some ["u"] /\
  snd (newIncomingContext (MkContext None [] []) sample_header) !! "te" <> Some ["trailers"].
Proof.
  split.
  - apply (newIncomingContext_spec _ _ _ _ sample_header_canonical). exists "User-Agent", ["u"]. by repeat split.
  - rewrite (newIncomingContext_spec _ _ _ _ sample_header_canonical). intros (K & vs & _ & _ & Hp & _).
    discriminate (Hp eq_refl).
Defined.

Lemma metadata_roundtrip_witness :
  snd (newIncomingContext (MkContext None [] []) (setOutgoingHeader sample_md ∅)) = sample_md.
Proof. apply metadata_roundtrip; apply sample_md_lower. Defined.

(** A message that ends in plain text after an escape; a negative time-out. *)
Lemma encodeGrpcMessage_example :
  encodeGrpcMessage "50% off" = "50%25" /\ unescape (encodeGrpcMessage "50% off") = "50%".
Proof. split; reflexivity. Qed.

Lemma decodeTimeout_example :
  decodeTimeout "10S" = Ok 10000000000%Z /\ decodeTimeout "99999999H" = Ok max_int64 /\
  decodeTimeout "-1S" = Ok (-1000000000)%Z /\ decodeTimeout "-9999999H" = Ok 893491747419103232%Z.
Proof. repeat split; vm_compute; reflexivity. Qed.
