(* ===== verification/Compress.v ===== *)
(** The compressors of larking/compress.go.  The format is compress/gzip's, behind
    the class [Gzip]; what the program adds is the pooling of writers and readers,
    and the theorem says that pooling does not show. *)

From S2P Require Import Prelude Status IO.

(** [bytes.Buffer.ReadFrom], [io.ReadAll]: to the end, or to the first error. *)
Fixpoint ReadFrom (r : reader) : go string :=
  match r with
  | [] => Ok ""
  | Chunk d None :: r => rest ← ReadFrom r; Ok (d ++ rest)%string
  | Chunk d (Some EOF) :: _ => Ok d
  | Chunk d (Some e) :: _ => Err e
  end.

(** A reader of bytes, [bytes.NewReader]. *)
Definition bytes_reader (b : string) : reader := [Chunk b None].

(** All that a writer has passed on after a list of writes. *)
Definition emitted (emit : list string -> string) (ws : list string) : string :=
  str_concat ((fun n => emit (take (S n) ws)) <$> seq 0 (length ws)).

(** [compress/gzip]: what a writer of a level passes on at the last of its writes, and
    when it is closed; and the reader of what a stream holds, whose construction
    reads the header. *)
Class Gzip := {
  gunzip : reader -> go reader;
  gzip_emit : Z -> list string -> string;
  gzip_end : Z -> list string -> string;
  gunzip_writes l ws : (-2 <= l <= 9)%Z ->
    exists r, gunzip (bytes_reader (emitted (gzip_emit l) ws ++ gzip_end l ws)) = Ok r /\
      ReadFrom r = Ok (str_concat ws);
}.

(** A compressor as the streams use one: the reader of a compressed body, and a writer
    that compresses a body: the error of its construction, what it passes on at the
    last of a list of writes, and at its [Close] after them. *)
Record Compressor := MkCompressor {
  comp_Name : string;
  comp_decompress : reader -> go reader;
  comp_open : option error;
  comp_emit : list string -> string;
  comp_end : list string -> string;
}.

Section Gzip.
Context `{GZ : Gzip}.

Definition DefaultCompression : Z := (-1)%Z.

(** A pooled writer keeps the level it was made with; its destination and what it
    was given are reset.  A reader is a pointer, here a number. *)
Record gzipWriter := GzipWriter { gw_level : Z; gw_dst : string; gw_written : list string }.
Record gzipReader := GzipReader { gr_id : nat; gr_src : reader }.

Record CompressorGzip := MkCompressorGzip {
  Level : option Z;
  poolCompressor : list gzipWriter;
  poolDecompressor : list nat;
  next_id : nat;
}.

(** [sync.Pool.Get] returns any of the items, or none: the choice is [pick]. *)
Definition pool_get {A} (pick : nat) (pool : list A) : option A * list A :=
  (pool !! pick, delete pick pool).

Definition gzipName : string := "gzip".

(** [gzip.NewWriterLevel] knows the levels from -2 to 9. *)
Definition gzip_Compress (pick : nat) (dst : string) : st CompressorGzip error gzipWriter := fun c =>
  match pool_get pick (poolCompressor c) with
  | (Some z, pool) =>
      (MkCompressorGzip (Level c) pool (poolDecompressor c) (next_id c), Ok (GzipWriter (gw_level z) dst []))
  | (None, pool) =>
      let level := default DefaultCompression (Level c) in
      let c := MkCompressorGzip (Level c) pool (poolDecompressor c) (next_id c) in
      if ((-2 <=? level) && (level <=? 9))%Z then (c, Ok (GzipWriter level dst []))
      else (c, Err (External "gzip: invalid compression level"))
  end.

Definition gzipWriter_Write (b : string) (z : gzipWriter) : gzipWriter :=
  GzipWriter (gw_level z) (gw_dst z) (gw_written z ++ [b]).

(** The stream is complete when the writer is closed, and then it is pooled. *)
Definition gzipWriter_Close (z : gzipWriter) : st CompressorGzip error string := fun c =>
  (MkCompressorGzip (Level c) (z :: poolCompressor c) (poolDecompressor c) (next_id c),
   Ok (gw_dst z ++ emitted (gzip_emit (gw_level z)) (gw_written z) ++ gzip_end (gw_level z) (gw_written z))%string).

Definition gzip_Decompress (pick : nat) (r : reader) : st CompressorGzip error gzipReader := fun c =>
  match pool_get pick (poolDecompressor c) with
  | (Some z, pool) =>
      match gunzip r with
      | Ok src => (MkCompressorGzip (Level c) (poolCompressor c) pool (next_id c), Ok (GzipReader z src))
      | Err e => (MkCompressorGzip (Level c) (poolCompressor c) (z :: pool) (next_id c), Err e)
      | Panic p => (c, Panic p)
      | OutOfFuel => (c, OutOfFuel)
      end
  | (None, pool) =>
      match gunzip r with
      | Ok src => (MkCompressorGzip (Level c) (poolCompressor c) pool (S (next_id c)), Ok (GzipReader (next_id c) src))
      | Err e => (MkCompressorGzip (Level c) (poolCompressor c) pool (next_id c), Err e)
      | Panic p => (c, Panic p)
      | OutOfFuel => (c, OutOfFuel)
      end
  end.

(** The reader goes back to the pool with every [io.EOF] it returns. *)
Definition gzipReader_Read (k : nat) (z : gzipReader) (c : CompressorGzip) :
    CompressorGzip * gzipReader * string * option error :=
  let '(src, d, e) := Read (gr_src z) k in
  let c := match e with
           | Some EOF => MkCompressorGzip (Level c) (poolCompressor c) (gr_id z :: poolDecompressor c) (next_id c)
           | _ => c
           end in
  (c, GzipReader (gr_id z) src, d, e).

(** One message through a compressor: [Compress], [Write], [Close]. *)
Definition gzip_message (pick : nat) (b : string) : st CompressorGzip error string :=
  z ← gzip_Compress pick "";
  gzipWriter_Close (gzipWriter_Write b z).

(** The levels of the pooled writers are those that [NewWriterLevel] took. *)
Definition pool_ok (c : CompressorGzip) : Prop :=
  Forall (fun z => -2 <= gw_level z <= 9)%Z (poolCompressor c) /\
  (-2 <= default DefaultCompression (Level c) <= 9)%Z.

Lemma pool_get_ok {A} (P : A -> Prop) pick pool :
  Forall P pool -> Forall P (snd (pool_get pick pool)) /\ forall z, fst (pool_get pick pool) = Some z -> P z.
Proof.
  intros H. unfold pool_get. simpl. split; [by apply Forall_delete|]. intros z Hz. by eapply Forall_lookup_1.
Qed.

(** Whatever writers and readers are pooled, and whichever of them a call gets, a
    message that went through the compressor is what the decompressor reads. *)
Theorem gzip_roundtrip pick pick' b c :
  pool_ok c ->
  exists c1 z, gzip_message pick b c = (c1, Ok z) /\ pool_ok c1 /\
  exists c2 r, gzip_Decompress pick' (bytes_reader z) c1 = (c2, Ok r) /\ ReadFrom (gr_src r) = Ok b /\ pool_ok c2.
Proof.
  intros [Hp Hl]. unfold gzip_message, gzip_Compress, mbind, st_bind.
  destruct (pool_get_ok _ pick _ Hp) as [Hpool Hz].
  destruct (pool_get pick (poolCompressor c)) as [oz pool]. simpl in *.
  assert (Hdone : forall level, (-2 <= level <= 9)%Z ->
    exists c1 z, gzipWriter_Close (gzipWriter_Write b (GzipWriter level "" []))
      (MkCompressorGzip (Level c) pool (poolDecompressor c) (next_id c)) = (c1, Ok z) /\ pool_ok c1 /\
    exists c2 r, gzip_Decompress pick' (bytes_reader z) c1 = (c2, Ok r) /\ ReadFrom (gr_src r) = Ok b /\ pool_ok c2).
  { intros level Hlv. destruct (gunzip_writes level [b] Hlv) as (r & Hr & Hb). cbn [str_concat] in Hb. rewrite str_app_nil_r in Hb.
    eexists _, (emitted (gzip_emit level) [b] ++ gzip_end level [b])%string. split; [reflexivity|]. split; [by split; [constructor|]|].
    unfold gzip_Decompress. destruct (pool_get pick' _) as [[z|] pool']; rewrite Hr;
      eexists _, _; (split; [reflexivity|]); by (split; [|split; [constructor|]]). }
  destruct oz as [z|].
  - apply Hdone. by apply Hz.
  - destruct (Z.leb_spec (-2) (default DefaultCompression (Level c))), (Z.leb_spec (default DefaultCompression (Level c)) 9);
      try lia. by apply Hdone.
Qed.
End Gzip.

(** A stored instance: no compression, and a byte for the header. *)
Definition stored_emit (ws : list string) : string :=
  match ws with [w] => String "031" w | _ => default "" (last ws) end.
Definition stored_end (ws : list string) : string := match ws with [] => String "031" "" | _ => "" end.

Lemma stored_emitted w ws : emitted stored_emit (w :: ws) = String "031" (str_concat (w :: ws)).
Proof.
  unfold emitted. cbn [length seq fmap list_fmap take stored_emit str_concat]. simpl. f_equal. f_equal.
  rewrite <-seq_shift, <-list_fmap_compose. f_equal.
  apply list_eq. intros i. rewrite list_lookup_fmap. destruct (decide (i < length ws)) as [Hi|Hi].
  - rewrite lookup_seq_lt by done. destruct (lookup_lt_is_Some_2 ws i Hi) as [x Hx]. rewrite Hx. simpl. f_equal.
    rewrite (take_S_r ws i x Hx). destruct (take i ws) as [|y ys] eqn:Et; [done|].
    transitivity (default "" (last ((w :: y :: ys) ++ [x]))); [done|by rewrite last_snoc].
  - rewrite lookup_seq_ge by lia. simpl. symmetry. apply lookup_ge_None. lia.
Qed.

#[export] Instance stored_gzip : Gzip.
Proof.
  refine {| gunzip r := match r with
                        | Chunk (String "031" b) e :: r => Ok (Chunk b e :: r)
                        | _ => Err (External "gzip: invalid header")
                        end;
            gzip_emit l := stored_emit; gzip_end l := stored_end |}.
  - intros l ws _. destruct ws as [|w ws]; [exists (bytes_reader ""); by split|].
    rewrite stored_emitted. exists (bytes_reader (str_concat (w :: ws))). simpl. by rewrite !str_app_nil_r.
Defined.

Lemma gzip_roundtrip_witness :
  exists c1 z, gzip_message 0 "abc" (MkCompressorGzip None [GzipWriter 9 "x" ["y"]] [] 0) = (c1, Ok z) /\ pool_ok c1 /\
  exists c2 r, gzip_Decompress 0 (bytes_reader z) c1 = (c2, Ok r) /\ ReadFrom (gr_src r) = Ok "abc" /\ pool_ok c2.
Proof. apply gzip_roundtrip. split; [repeat constructor; simpl; lia|simpl; unfold DefaultCompression; lia]. Defined.
