(* ===== verification/Selector.v ===== *)
(** The rule selector of larking/mux.go: a trie over the components of the selectors
    of a service configuration, from which a method's name takes its HTTP rules. *)

#[local] Set Warnings "-register-all".
From S2P Require Import Prelude Status Http Proto.

Inductive ruleSelector :=
  RuleSelector (rs_path : gmap string ruleSelector) (rs_rules : list HttpRule).

Definition rs_path (r : ruleSelector) := let 'RuleSelector p _ := r in p.
Definition rs_rules (r : ruleSelector) := let 'RuleSelector _ rs := r in rs.

(** [ruleSelector{}] *)
Definition emptySelector : ruleSelector := RuleSelector ∅ [].

(** ** getRules *)

Fixpoint getRules_fuel (fuel : nat) (r : ruleSelector) (name : string) : list HttpRule :=
  match fuel with
  | O => []
  | S fuel =>
      let rules := rs_rules r in
      if String.eqb name "" then rules
      else
        let '(tag, name, _) := Cut name "." in
        match rs_path r !! tag with
        | Some r => rules ++ getRules_fuel fuel r name
        | None => rules
        end
  end.

Definition getRules (r : ruleSelector) (name : string) : list HttpRule :=
  getRules_fuel (S (String.length name)) r name.

(** ** setRules *)

Definition add_rule (rule : HttpRule) (r : ruleSelector) : ruleSelector :=
  RuleSelector (rs_path r) (rs_rules r ++ [rule]).

(** The closure [set], which changes the selector it is given in place. *)
Fixpoint set_fuel (fuel : nat) (rule : HttpRule) (r : ruleSelector) (selector : string) : go ruleSelector :=
  match fuel with
  | O => OutOfFuel
  | S fuel =>
      let '(tag, name, _) := Cut selector "." in
      if String.eqb tag "*" then
        if negb (String.eqb name "") then Panic (PanicCall "invalid selector")
        else Ok (add_rule rule r)
      else if String.eqb tag "" then Ok (add_rule rule r)
      else
        let rs := default emptySelector (rs_path r !! tag) in
        rs ← set_fuel fuel rule rs name;
        Ok (RuleSelector (<[tag := rs]> (rs_path r)) (rs_rules r))
  end.

Definition set_rule (rule : HttpRule) (r : ruleSelector) : go ruleSelector :=
  set_fuel (S (String.length (Selector rule))) rule r (Selector rule).

Fixpoint set_rules (rules : list HttpRule) (r : ruleSelector) : go ruleSelector :=
  match rules with
  | [] => Ok r
  | rule :: rules => r ← set_rule rule r; set_rules rules r
  end.

(** The old content of the selector is dropped first. *)
Definition setRules (rules : list HttpRule) (r : ruleSelector) : go ruleSelector :=
  set_rules rules emptySelector.

(** ** write, String *)

Section Write.
Context `{F : Fmt} `{R : GoRange} (rules_text : list HttpRule -> string).

Fixpoint rs_write (r : ruleSelector) (indent : string) : string :=
  match r with
  | RuleSelector p rules =>
      let texts := (fun rs => rs_write rs (indent ++ "  ")) <$> p in
      (str_concat ((fun '(key, text) => indent ++ key ++ ": " ++ String "010" text)%string <$> range texts)
       ++ indent ++ "rules: " ++ rules_text rules ++ String "010" "")%string
  end.

Definition rs_String (r : ruleSelector) : string := rs_write r "".
End Write.

(** ** What the selector means

    A name is its components between the dots.  A selector names a node: its
    components up to the first that is empty or a [*]; none when there is more after
    that [*]. *)

(** The components of a name. *)
Fixpoint components_fuel (fuel : nat) (name : string) : list string :=
  match fuel with
  | O => []
  | S fuel => if String.eqb name "" then [] else let '(tag, name, _) := Cut name "." in tag :: components_fuel fuel name
  end.
Definition components (name : string) : list string := components_fuel (S (String.length name)) name.

(** The components before the first that is empty or a [*]. *)
Fixpoint before_star (tags : list string) : list string :=
  match tags with
  | [] => []
  | tag :: tags => if String.eqb tag "" || String.eqb tag "*" then [] else tag :: before_star tags
  end.

(** A component [*] that is not the last, with no empty component before it. *)
Definition misplaced (selector : string) : Prop :=
  exists tags tag tags', components selector = tags ++ "*" :: tag :: tags' /\ "" ∉ tags.

(** The rules whose selector names the node [tags]. *)
Definition rules_at (rules : list HttpRule) (tags : list string) : list HttpRule :=
  filter (fun rule => before_star (components (Selector rule)) = tags) rules.

(** The rules of a method: those at each of the prefixes of its name, the
    shortest first. *)
Definition selected (rules : list HttpRule) (name : string) : list HttpRule :=
  mjoin ((fun n => rules_at rules (take n (components name))) <$> seq 0 (S (length (components name)))).

(** ** Proofs *)

(** The node at a list of components. *)
Fixpoint node (r : ruleSelector) (tags : list string) : option ruleSelector :=
  match tags with
  | [] => Some r
  | tag :: tags => rs_path r !! tag ≫= fun r => node r tags
  end.

(** The rules on the nodes from [r] down along [tags]. *)
Fixpoint along (r : ruleSelector) (tags : list string) : list HttpRule :=
  rs_rules r ++
  match tags with
  | [] => []
  | tag :: tags => match rs_path r !! tag with Some r => along r tags | None => [] end
  end.

Lemma getRules_along fuel r name :
  String.length name < fuel -> getRules_fuel fuel r name = along r (components_fuel fuel name).
Proof.
  revert r name. induction fuel as [|fuel IH]; intros r name Hf; [lia|]. cbn [getRules_fuel components_fuel].
  destruct (String.eqb_spec name "") as [->|Hne]; [simpl; by rewrite app_nil_r|].
  destruct (Cut name ".") as [[tag rest] f] eqn:E. apply Cut_length in E; [|done]. cbn [along].
  destruct (rs_path r !! tag) as [r'|]; [|by rewrite app_nil_r]. f_equal. apply IH. lia.
Qed.

(** The rules at a node, none where there is no node. *)
Definition node_rules (r : ruleSelector) (tags : list string) : list HttpRule :=
  match node r tags with Some r => rs_rules r | None => [] end.

Lemma node_rules_cons r tag tags : node_rules r (tag :: tags) =
  match rs_path r !! tag with Some r => node_rules r tags | None => [] end.
Proof. unfold node_rules. simpl. by destruct (rs_path r !! tag). Qed.

Lemma along_nodes r tags :
  along r tags = mjoin ((fun n => node_rules r (take n tags)) <$> seq 0 (S (length tags))).
Proof.
  revert r. induction tags as [|tag tags IH]; intros r; [done|]. cbn [along length].
  rewrite <-cons_seq, <-fmap_S_seq. cbn [fmap list_fmap mjoin list_join]. rewrite take_0. f_equal.
  rewrite <-list_fmap_compose. destruct (rs_path r !! tag) as [r'|] eqn:E.
  - rewrite IH. f_equal. apply list_fmap_ext. intros _ n _. simpl. by rewrite node_rules_cons, E.
  - symmetry. generalize (seq 0 (S (length tags))). intros l. induction l as [|n l IHl]; [done|].
    cbn. rewrite node_rules_cons, E. exact IHl.
Qed.

Lemma node_rules_empty tags : node_rules emptySelector tags = [].
Proof. by destruct tags as [|tag tags]; [|rewrite node_rules_cons]. Qed.

(** A component that is neither empty nor a [*] is passed. *)
Lemma misplaced_tags_cons tag tags0 :
  tag <> "" -> tag <> "*" ->
  (exists tags t tags', tag :: tags0 = tags ++ "*" :: t :: tags' /\ "" ∉ tags) <->
  (exists tags t tags', tags0 = tags ++ "*" :: t :: tags' /\ "" ∉ tags).
Proof.
  intros Hne Hns. split.
  - intros ([|x tags] & t & tags' & E & Hin); [by injection E|]. injection E as <- ->.
    exists tags, t, tags'. split; [done|]. intros H. apply Hin. by right.
  - intros (tags & t & tags' & -> & Hin). exists (tag :: tags), t, tags'. split; [done|].
    by rewrite not_elem_of_cons.
Qed.

(** Setting a rule adds it at the node of its selector, and nowhere else; it panics
    exactly when a [*] is misplaced. *)
Lemma set_fuel_spec fuel rule r selector :
  String.length selector < fuel ->
  let tags := components_fuel fuel selector in
  ((exists tags1 t tags', tags = tags1 ++ "*" :: t :: tags' /\ "" ∉ tags1) /\
   set_fuel fuel rule r selector = Panic (PanicCall "invalid selector")) \/
  (~ (exists tags1 t tags', tags = tags1 ++ "*" :: t :: tags' /\ "" ∉ tags1) /\
   exists r', set_fuel fuel rule r selector = Ok r' /\
     forall tags', node_rules r' tags' = node_rules r tags' ++ (if decide (before_star tags = tags') then [rule] else [])).
Proof.
  revert r selector. induction fuel as [|fuel IH]; intros r selector Hf; [lia|].
  cbn [components_fuel set_fuel]. destruct (Cut selector ".") as [[tag name] f] eqn:E.
  assert (Hadd : forall tags0, before_star tags0 = [] -> exists r', Ok (add_rule rule r) = (Ok r' : go ruleSelector) /\ forall tags',
    node_rules r' tags' = node_rules r tags' ++ (if decide (before_star tags0 = tags') then [rule] else [])).
  { intros tags0 ->. eexists. split; [done|]. intros [|t tags']; [done|]. rewrite !node_rules_cons. simpl. symmetry. apply app_nil_r. }
  destruct (String.eqb_spec selector "") as [->|Hs].
  { simpl in E. injection E as <- <- <-. simpl. right. split; [by intros ([|] & ? & ? & ? & _)|]. by apply (Hadd []). }
  apply Cut_length in E as Hl; [|done].
  destruct (String.eqb_spec tag "*") as [->|Hstar].
  { destruct fuel as [|fuel]; [lia|]. cbn [components_fuel]. destruct (String.eqb_spec name "") as [->|Hn]; simpl.
    - right. split; [|by apply (Hadd ["*"])]. intros ([|x [|? ?]] & ? & ? & E' & _); simplify_eq/=.
    - left. split; [|done]. destruct (Cut name ".") as [[t rest] f']. exists [], t, (components_fuel fuel rest).
      split; [done|apply not_elem_of_nil]. }
  destruct (String.eqb_spec tag "") as [->|Hne].
  { right. split; [|by apply (Hadd ("" :: _))]. intros ([|x tags] & ? & ? & E' & Hin); [done|]. injection E' as <- _. apply Hin. left. }
  assert (Hp : before_star (tag :: components_fuel fuel name) = tag :: before_star (components_fuel fuel name)).
  { simpl. destruct (String.eqb_spec tag ""), (String.eqb_spec tag "*"); done. }
  rewrite Hp, misplaced_tags_cons by done.
  destruct (IH (default emptySelector (rs_path r !! tag)) name ltac:(lia)) as [[Hm Hset]|[Hm (rs & Hset & Hrs)]];
    rewrite Hset; cbn [mbind outcome_bind]; [by left|]. right. split; [done|].
  eexists. split; [done|]. intros [|t tags'].
  { rewrite decide_False by done. symmetry. apply app_nil_r. }
  rewrite !node_rules_cons. simpl.
  destruct (decide (t = tag)) as [->|Ht].
  - rewrite lookup_insert_eq, Hrs. f_equal.
    + destruct (rs_path r !! tag); [done|apply node_rules_empty].
    + destruct (decide (before_star (components_fuel fuel name) = tags')) as [->|]; [by rewrite decide_True|by rewrite decide_False by congruence].
  - rewrite lookup_insert_ne, decide_False by congruence. by rewrite app_nil_r.
Qed.

Lemma set_rule_spec rule r :
  (misplaced (Selector rule) /\ set_rule rule r = Panic (PanicCall "invalid selector")) \/
  (~ misplaced (Selector rule) /\ exists r', set_rule rule r = Ok r' /\
     forall tags, node_rules r' tags = node_rules r tags ++ rules_at [rule] tags).
Proof. exact (set_fuel_spec _ rule r (Selector rule) (Nat.lt_succ_diag_r _)). Qed.

Lemma set_rules_spec rules r :
  (Exists (fun rule => misplaced (Selector rule)) rules /\ set_rules rules r = Panic (PanicCall "invalid selector")) \/
  (~ Exists (fun rule => misplaced (Selector rule)) rules /\
   exists r', set_rules rules r = Ok r' /\
     forall tags, node_rules r' tags = node_rules r tags ++ rules_at rules tags).
Proof.
  revert r. induction rules as [|rule rules IH]; intros r.
  - right. split; [intros H; inversion H|]. exists r. split; [done|]. intros tags. by rewrite app_nil_r.
  - cbn [set_rules]. rewrite Exists_cons.
    destruct (set_rule_spec rule r) as [[Hm ->]|[Hm (r' & -> & Hr')]]; cbn [mbind outcome_bind]; [left; by split; [left|]|].
    destruct (IH r') as [[Hms ->]|[Hms (r'' & -> & Hr'')]]; [left; by split; [right|]|].
    right. split; [by intros [?|?]|]. exists r''. split; [done|]. intros tags.
    rewrite Hr'', Hr', <-app_assoc. f_equal. symmetry. apply (filter_app _ [rule]).
Qed.

Lemma setRules_panics rules old :
  Exists (fun rule => misplaced (Selector rule)) rules -> setRules rules old = Panic (PanicCall "invalid selector").
Proof. intros H. by destruct (set_rules_spec rules emptySelector) as [[_ E]|[Hn _]]. Qed.

Lemma setRules_selected rules old :
  ~ Exists (fun rule => misplaced (Selector rule)) rules ->
  exists r, setRules rules old = Ok r /\ forall name, getRules r name = selected rules name.
Proof.
  intros H. destruct (set_rules_spec rules emptySelector) as [[? _]|[_ (r & E & Hr)]]; [done|].
  exists r. split; [exact E|]. intros name. unfold getRules. rewrite getRules_along by lia.
  rewrite along_nodes. unfold selected, components. f_equal. apply list_fmap_ext. intros _ n _.
  by rewrite Hr, node_rules_empty.
Qed.

(** What a selector gives that was set. *)
Lemma setRules_getRules_ok rules old r name : setRules rules old = Ok r -> getRules r name = selected rules name.
Proof.
  intros E. destruct (set_rules_spec rules emptySelector) as [[_ E']|[Hn _]]; [unfold setRules in E; congruence|].
  destruct (setRules_selected rules old Hn) as (r' & E' & H). rewrite E in E'. by injection E' as <-.
Qed.


(** A selector without a wildcard takes in what is below its name, and one with a
    wildcard also the name before it. *)
Lemma selector_prefix_example :
  let rule s := Rule s HttpRule_None "" "" [] in
  selected [rule "foo"; rule "foo.*"] "foo.Bar" = [rule "foo"; rule "foo.*"] /\
  selected [rule "foo"; rule "foo.*"] "foo" = [rule "foo"; rule "foo.*"] /\
  selected [rule "a.A,b.B"] "b.B" = [].
Proof. repeat split. Qed.

(** A [*] that is not the last component panics; one inside a component, or behind an
    empty one, does not. *)
Lemma misplaced_example :
  let set sel := setRules [Rule sel HttpRule_None "" "" []] emptySelector in
  set "foo.*.bar" = Panic (PanicCall "invalid selector") /\ is_ok (set "foo.b*") = true /\ is_ok (set "foo..*.bar") = true.
Proof. by vm_compute. Qed.

