(* ===== verification/Stream.v ===== *)
(** What the transports and the handlers promise each other: codecs and their
    streaming form, the calls of a [grpc.ServerStream] as a class that each
    transport implements, handlers as programs over those calls, the options of a
    mux, the interceptors of larking/log.go and the statistics of larking/stats.go. *)

#[local] Set Warnings "-register-all".
From S2P Require Import Prelude Status IO Http Proto Metadata Compress Codec Selector.

(** ** Codecs *)

(** What a [WriteNext] does: a program over the [Write] of the writer it is given. *)
Inductive wprog :=
  | WReturn (n : nat)
  | WError (e : error)
  | WWrite (b : string) (k : nat -> wprog).

(** An error of [Write] is returned. *)
Fixpoint run_writes {T} (Write : writer T) (p : wprog) : st T error nat :=
  match p with
  | WReturn n => mret n
  | WError e => throw e
  | WWrite b k => n ← Write b; run_writes Write (k n)
  end.

(** [StreamCodec]: [ReadNext] returns the length of the next message at the head of
    the buffer, and an error that may come with it. *)
Record StreamCodec := MkStreamCodec {
  ReadNext : Z -> rbuf -> rbuf * outcome error (Z * option error);
  WriteNext : string -> wprog;
}.

(** The [WriteNext] of the three codecs of larking/codec.go. *)
Definition proto_writes `{Protowire} (b : string) : wprog :=
  WWrite (AppendVarint "" (Z.of_nat (String.length b))) (fun _ => WWrite b WReturn).
Definition plain_writes (b : string) : wprog := WWrite b WReturn.

Lemma run_proto_writes `{Protowire} {T} (Write : writer T) b s :
  run_writes Write (proto_writes b) s = CodecProto_WriteNext Write b s.
Proof.
  unfold CodecProto_WriteNext. simpl. unfold mbind, st_bind. destruct (Write _ s) as [s1 [n| | |]]; [|done..].
  by destruct (Write b s1) as [s2 []].
Qed.

Lemma run_plain_writes {T} (Write : writer T) b s : run_writes Write (plain_writes b) s = Write b s.
Proof. simpl. unfold mbind, st_bind. by destruct (Write b s) as [s1 []]. Qed.

(** The writes of a program, in their order. *)
Definition list_Write : writer (list string) := fun b ws => (ws ++ [b], Ok (String.length b)).

(** On a writer that takes all that it is given, a program does the writes that it
    does on the list. *)
Lemma run_writes_list {T} (R : T -> list string -> Prop) (Write : writer T) :
  (forall b t ws, R t ws -> exists t', Write b t = (t', Ok (String.length b)) /\ R t' (ws ++ [b])) ->
  forall p t ws, R t ws -> exists t' ws' o, run_writes Write p t = (t', o) /\ run_writes list_Write p ws = (ws', o) /\ R t' ws'.
Proof.
  intros HW p. induction p as [n|e|b k IH]; intros t ws HR; [by eexists _, _, _|by eexists _, _, _|]. cbn [run_writes].
  destruct (HW b t ws HR) as (t' & E & HR'). unfold mbind, st_bind. rewrite E. cbn. by apply IH.
Qed.

(** The result of the codecs whose [ReadNext] returns no length with an error. *)
Definition read_result (m : st rbuf error Z) (b : rbuf) : rbuf * outcome error (Z * option error) :=
  match m b with
  | (b, Ok n) => (b, Ok (n, None))
  | (b, Err e) => (b, Ok (0%Z, Some e))
  | (b, Panic p) => (b, Panic p)
  | (b, OutOfFuel) => (b, OutOfFuel)
  end.

Section Codec.
Context `{P : Protoreflect}.

Record Codec := MkCodec {
  codec_Name : string;
  Marshal : Message -> go string;
  MarshalAppend : string -> Message -> go string;
  Unmarshal : string -> st Message error unit;
  streaming : option StreamCodec;
}.

(** ** Handlers

    A handler is a program over the calls of the stream it is given: it may do
    anything with what they return, and it returns a value or an error, or it does
    not return ([PStuck]). *)

Inductive prog (A : Type) :=
  | PReturn (a : A)
  | PError (e : error)
  | PPanic (p : panic)
  | PStuck
  | PContext (k : context -> prog A)
  | PSetHeader (md : MD) (k : option error -> prog A)
  | PSendHeader (md : MD) (k : option error -> prog A)
  | PSetTrailer (md : MD) (k : prog A)
  | PSendMsg (m : Message) (k : option error -> prog A)
  | PRecvMsg (m : Message) (k : Message -> option error -> prog A).
#[global] Arguments PReturn {A} a.
#[global] Arguments PError {A} e.
#[global] Arguments PPanic {A} p.
#[global] Arguments PStuck {A}.
#[global] Arguments PContext {A} k.
#[global] Arguments PSetHeader {A} md k.
#[global] Arguments PSendHeader {A} md k.
#[global] Arguments PSetTrailer {A} md k.
#[global] Arguments PSendMsg {A} m k.
#[global] Arguments PRecvMsg {A} m k.

(** Go on with the result. *)
Fixpoint pbind {A B} (p : prog A) (f : A -> prog B) : prog B :=
  match p with
  | PReturn a => f a
  | PError e => PError e
  | PPanic q => PPanic q
  | PStuck => PStuck
  | PContext k => PContext (fun c => pbind (k c) f)
  | PSetHeader md k => PSetHeader md (fun e => pbind (k e) f)
  | PSendHeader md k => PSendHeader md (fun e => pbind (k e) f)
  | PSetTrailer md k => PSetTrailer md (pbind k f)
  | PSendMsg m k => PSendMsg m (fun e => pbind (k e) f)
  | PRecvMsg m k => PRecvMsg m (fun m e => pbind (k m e) f)
  end.

(** Handle the error too. *)
Fixpoint pcatch {A B} (p : prog A) (f : A + error -> prog B) : prog B :=
  match p with
  | PReturn a => f (inl a)
  | PError e => f (inr e)
  | PPanic q => PPanic q
  | PStuck => PStuck
  | PContext k => PContext (fun c => pcatch (k c) f)
  | PSetHeader md k => PSetHeader md (fun e => pcatch (k e) f)
  | PSendHeader md k => PSendHeader md (fun e => pcatch (k e) f)
  | PSetTrailer md k => PSetTrailer md (pcatch k f)
  | PSendMsg m k => PSendMsg m (fun e => pcatch (k e) f)
  | PRecvMsg m k => PRecvMsg m (fun m e => pcatch (k m e) f)
  end.

(** [if err != nil { return err }] *)
Definition on_nil {A} (err : option error) (p : prog A) : prog A :=
  match err with Some e => PError e | None => p end.

(** A handler whose metadata has lower case keys, as the functions of
    google.golang.org/grpc/metadata make them. *)
Fixpoint lower_metadata {A} (p : prog A) : Prop :=
  match p with
  | PReturn _ | PError _ | PPanic _ | PStuck => True
  | PContext k => forall ctx, lower_metadata (k ctx)
  | PSetHeader md k | PSendHeader md k => lower_keys md /\ forall e, lower_metadata (k e)
  | PSetTrailer md k => lower_keys md /\ lower_metadata k
  | PSendMsg _ k => forall e, lower_metadata (k e)
  | PRecvMsg _ k => forall m e, lower_metadata (k m e)
  end.

(** ** grpc.ServerStream *)

(** [RecvMsg] fills the message it is given, also before an error. *)
Class ServerStream (S : Type) := {
  Context_ : S -> context;
  SetHeader : MD -> st S error unit;
  SendHeader : MD -> st S error unit;
  SetTrailer : MD -> S -> S;
  SendMsg : Message -> st S error unit;
  RecvMsg : st (S * Message) error unit;
}.

(** The error that a call returns, when it returns. *)
Definition returned {A} (o : go A) : option error := match o with Err e => Some e | _ => None end.

(** A handler on a stream.  A panic of a call, and of the handler, goes through. *)
Fixpoint run {S} `{ServerStream S} {A} (p : prog A) : st S error A := fun s =>
  match p with
  | PReturn a => (s, Ok a)
  | PError e => (s, Err e)
  | PPanic q => (s, Panic q)
  | PStuck => (s, OutOfFuel)
  | PContext k => run (k (Context_ s)) s
  | PSetHeader md k =>
      match SetHeader md s with
      | (s, Panic q) => (s, Panic q)
      | (s, OutOfFuel) => (s, OutOfFuel)
      | (s, o) => run (k (returned o)) s
      end
  | PSendHeader md k =>
      match SendHeader md s with
      | (s, Panic q) => (s, Panic q)
      | (s, OutOfFuel) => (s, OutOfFuel)
      | (s, o) => run (k (returned o)) s
      end
  | PSetTrailer md k => run k (SetTrailer md s)
  | PSendMsg m k =>
      match SendMsg m s with
      | (s, Panic q) => (s, Panic q)
      | (s, OutOfFuel) => (s, OutOfFuel)
      | (s, o) => run (k (returned o)) s
      end
  | PRecvMsg m k =>
      match RecvMsg (s, m) with
      | ((s, _), Panic q) => (s, Panic q)
      | ((s, _), OutOfFuel) => (s, OutOfFuel)
      | ((s, m), o) => run (k m (returned o)) s
      end
  end.

(** A call on one stream and a call on another do the same: equal outcomes, and
    related states after. *)
Definition simulates {S S' A B} (R : S -> S' -> Prop) (Q : A -> B -> Prop) (f : S -> A) (f' : S' -> B) : Prop :=
  forall s s', R s s' -> Q (f s) (f' s').

Definition same_result {S S' A} (R : S -> S' -> Prop) (x : S * go A) (y : S' * go A) : Prop :=
  R x.1 y.1 /\ x.2 = y.2.

(** The metadata that a handler sets, and the messages that it receives into. *)
Fixpoint calls_within {A} (K : MD -> Prop) (Q : Message -> Prop) (p : prog A) : Prop :=
  match p with
  | PReturn _ | PError _ | PPanic _ | PStuck => True
  | PContext k => forall ctx, calls_within K Q (k ctx)
  | PSetHeader md k | PSendHeader md k => K md /\ forall e, calls_within K Q (k e)
  | PSetTrailer md k => K md /\ calls_within K Q k
  | PSendMsg _ k => forall e, calls_within K Q (k e)
  | PRecvMsg m k => Q m /\ forall m e, calls_within K Q (k m e)
  end.

Lemma calls_within_all {A} (K : MD -> Prop) (Q : Message -> Prop) (p : prog A) :
  (forall md, K md) -> (forall m, Q m) -> calls_within K Q p.
Proof. intros HK HQ. induction p; simpl; auto. Qed.

(** The results of [RecvMsg]. *)
Definition same_receipt {S S' A} (R : S -> S' -> Prop) (x : S * Message * go A) (y : S' * Message * go A) : Prop :=
  R x.1.1 y.1.1 /\ x.1.2 = y.1.2 /\ x.2 = y.2.

(** Streams whose calls do the same run every handler to the same result, as far as
    they do the same for the metadata and the messages of the handler. *)
Section Simulation.
Context {S S' : Type} `{SS : ServerStream S, SS' : ServerStream S'} (R : S -> S' -> Prop).
Context (K : MD -> Prop) (Q : Message -> Prop).
Context (sim_context : simulates R eq (Context_ (S := S)) (Context_ (S := S'))).
Context (sim_header : forall md, K md -> simulates R (same_result R) (SetHeader (S := S) md) (SetHeader (S := S') md)).
Context (sim_send_header : forall md, K md -> simulates R (same_result R) (SendHeader (S := S) md) (SendHeader (S := S') md)).
Context (sim_trailer : forall md, K md -> simulates R R (SetTrailer (S := S) md) (SetTrailer (S := S') md)).
Context (sim_send : forall m, simulates R (same_result R) (SendMsg (S := S) m) (SendMsg (S := S') m)).
Context (sim_recv : forall m, Q m -> simulates R (same_receipt R) (fun s : S => RecvMsg (s, m)) (fun s : S' => RecvMsg (s, m))).

Lemma run_simulation_within {A} (p : prog A) :
  calls_within K Q p -> simulates R (same_result R) (run (S := S) p) (run (S := S') p).
Proof using All.
  induction p as [a|e|q| |k IH|md k IH|md k IH|md k IH|m k IH|m k IH]; intros Hp s s' Hs; cbn [run]; cbn [calls_within] in Hp; try by split.
  - rewrite (sim_context s s' Hs). by apply IH.
  - destruct Hp as [Hmd Hp], (sim_header md Hmd s s' Hs) as [H1 H2]. destruct (SetHeader md s) as [s1 o], (SetHeader md s') as [s1' o'].
    simpl in *. subst o'. destruct o; try (by apply IH); by split.
  - destruct Hp as [Hmd Hp], (sim_send_header md Hmd s s' Hs) as [H1 H2]. destruct (SendHeader md s) as [s1 o], (SendHeader md s') as [s1' o'].
    simpl in *. subst o'. destruct o; try (by apply IH); by split.
  - destruct Hp as [Hmd Hp]. apply IH; [done|]. by apply sim_trailer.
  - destruct (sim_send m s s' Hs) as [H1 H2]. destruct (SendMsg m s) as [s1 o], (SendMsg m s') as [s1' o'].
    simpl in *. subst o'. destruct o; try (by apply IH); by split.
  - destruct Hp as [Hm Hp], (sim_recv m Hm s s' Hs) as (H1 & H1' & H2).
    destruct (RecvMsg (s, m)) as [[s1 m1] o], (RecvMsg (s', m)) as [[s1' m1'] o'].
    simpl in *. subst o' m1'. destruct o; try (by apply IH); by split.
Qed.
End Simulation.

(** Without such a condition. *)
Lemma run_simulation {S S' : Type} `{SS : ServerStream S, SS' : ServerStream S'} (R : S -> S' -> Prop)
    (both := fun (x : S * Message) (y : S' * Message) => R x.1 y.1 /\ x.2 = y.2) :
  simulates R eq (Context_ (S := S)) (Context_ (S := S')) ->
  (forall md, simulates R (same_result R) (SetHeader (S := S) md) (SetHeader (S := S') md)) ->
  (forall md, simulates R (same_result R) (SendHeader (S := S) md) (SendHeader (S := S') md)) ->
  (forall md, simulates R R (SetTrailer (S := S) md) (SetTrailer (S := S') md)) ->
  (forall m, simulates R (same_result R) (SendMsg (S := S) m) (SendMsg (S := S') m)) ->
  simulates both (same_result both) (RecvMsg (S := S)) (RecvMsg (S := S')) ->
  forall {A} (p : prog A), simulates R (same_result R) (run (S := S) p) (run (S := S') p).
Proof.
  intros H1 H2 H3 H4 H5 H6 A p. apply (run_simulation_within R (fun _ => True) (fun _ => True)); auto.
  - intros m _ s s' Hs. destruct (H6 (s, m) (s', m)) as [[? ?] ?]; by split.
  - by apply calls_within_all.
Qed.

(** A property of a stream that its calls keep, given metadata with lower case keys,
    is kept by every handler that sets such. *)
Section Invariant.
Context {S : Type} `{SS : ServerStream S} (I : S -> Prop).
Context (inv_header : forall md s, lower_keys md -> I s -> I (fst (SetHeader md s))).
Context (inv_send_header : forall md s, lower_keys md -> I s -> I (fst (SendHeader md s))).
Context (inv_trailer : forall md s, lower_keys md -> I s -> I (SetTrailer md s)).
Context (inv_send : forall m s, I s -> I (fst (SendMsg m s))).
Context (inv_recv : forall m s, I s -> I (fst (fst (RecvMsg (s, m))))).

Lemma run_invariant {A} (p : prog A) s : lower_metadata p -> I s -> I (fst (run p s)).
Proof using All.
  revert s. induction p as [a|e|q| |k IH|md k IH|md k IH|md k IH|m k IH|m k IH]; intros s Hp Hs; cbn [run fst]; try done.
  - by apply IH.
  - destruct Hp as [Hmd Hk]. pose proof (inv_header md s Hmd Hs) as H.
    destruct (SetHeader md s) as [s1 []]; try exact H; by apply IH.
  - destruct Hp as [Hmd Hk]. pose proof (inv_send_header md s Hmd Hs) as H.
    destruct (SendHeader md s) as [s1 []]; try exact H; by apply IH.
  - destruct Hp as [Hmd Hk]. apply IH; [done|]. by apply inv_trailer.
  - pose proof (inv_send m s Hs) as H. destruct (SendMsg m s) as [s1 []]; try exact H; by apply IH.
  - pose proof (inv_recv m s Hs) as H. destruct (RecvMsg (s, m)) as [[s1 m1] []]; try exact H; by apply IH.
Qed.
End Invariant.

(** [serverTransportStream], larking/handler.go: a stream with the name of its
    method; the calls go to the stream. *)
Record serverTransportStream (S : Type) := ServerTransportStream { ServerStream_ : S; sts_method : string }.
#[global] Arguments ServerTransportStream {S}.
#[global] Arguments ServerStream_ {S}.
#[global] Arguments sts_method {S}.

Section Transport.
Context {S : Type} `{ServerStream S}.
Definition sts_Method (s : serverTransportStream S) : string := sts_method s.
Definition sts_SetHeader (md : MD) : st (serverTransportStream S) error unit := fun s =>
  let '(ss, o) := SetHeader md (ServerStream_ s) in (ServerTransportStream ss (sts_method s), o).
Definition sts_SendHeader (md : MD) : st (serverTransportStream S) error unit := fun s =>
  let '(ss, o) := SendHeader md (ServerStream_ s) in (ServerTransportStream ss (sts_method s), o).
Definition sts_SetTrailer (md : MD) : st (serverTransportStream S) error unit := fun s =>
  (ServerTransportStream (SetTrailer md (ServerStream_ s)) (sts_method s), Ok tt).
End Transport.

(** ** Interceptors *)

(** A unary handler takes the context and the request; a stream handler is a program
    over its stream, and a wrapped stream is the program wrapped. *)
Record StreamServerInfo := MkStreamServerInfo { FullMethod : string; IsClientStream : bool; IsServerStream : bool }.
Definition UnaryHandler := context -> Message -> prog Message.
Definition UnaryServerInterceptor := context -> Message -> string -> UnaryHandler -> prog Message.
Definition StreamServerInterceptor := StreamServerInfo -> prog unit -> prog unit.

(** larking/log.go *)
Definition NewContextFunc := context -> string -> bool -> bool -> context.

(** [logStream]: the stream with another context. *)
Fixpoint logStream {A} (f : context -> context) (p : prog A) : prog A :=
  match p with
  | PReturn a => PReturn a
  | PError e => PError e
  | PPanic q => PPanic q
  | PStuck => PStuck
  | PContext k => PContext (fun c => logStream f (k (f c)))
  | PSetHeader md k => PSetHeader md (fun e => logStream f (k e))
  | PSendHeader md k => PSendHeader md (fun e => logStream f (k e))
  | PSetTrailer md k => PSetTrailer md (logStream f k)
  | PSendMsg m k => PSendMsg m (fun e => logStream f (k e))
  | PRecvMsg m k => PRecvMsg m (fun m e => logStream f (k m e))
  end.

Definition NewUnaryContext (ctxFn : NewContextFunc) : UnaryServerInterceptor :=
  fun ctx req fullMethod handler => handler (ctxFn ctx fullMethod false false) req.

Definition NewStreamContext (ctxFn : NewContextFunc) : StreamServerInterceptor :=
  fun info handler =>
    logStream (fun ctx => ctxFn ctx (FullMethod info) (IsClientStream info) (IsServerStream info)) handler.

(** ** The options of a mux *)

(** A nil [Compressor] stands for no compression. *)
Record muxOptions := MuxOptions {
  types : Types;
  statsHandler : bool;
  files : Files;
  serviceConfig : option (list HttpRule);
  unaryInterceptor : option UnaryServerInterceptor;
  streamInterceptor : option StreamServerInterceptor;
  codecs : gmap string Codec;
  codecsByName : gmap string Codec;
  compressors : gmap string (option Compressor);
  httprules : ruleSelector;
  contentTypeOffers : list string;
  encodingTypeOffers : list string;
  maxReceiveMessageSize : Z;
  maxSendMessageSize : Z;
  connectionTimeout : Z;
}.

(** [unary] and [stream] are nil-safe. *)
Definition opts_unary (o : muxOptions) (ctx : context) (req : Message) (info : string) (handler : UnaryHandler) : prog Message :=
  match unaryInterceptor o with
  | Some ui => ui ctx req info handler
  | None => handler ctx req
  end.

Definition opts_stream (o : muxOptions) (info : StreamServerInfo) (handler : prog unit) : prog unit :=
  match streamInterceptor o with
  | Some si => si info handler
  | None => handler
  end.

(** A registered handler; the code compares pointers, here numbers. *)
Record handler := MkHandler {
  h_id : nat;
  h_desc : MethodDescriptor;
  h_handler : muxOptions -> prog unit;
  h_method : string;
}.

(** [o.readAll]: up to the limit, and to the first error, [io.EOF] at the end. *)
Section ReadAll.
Context `{G : GoAppend}.

Fixpoint readAll_loop (fuel : nat) (max : Z) (total : Z) (b : rbuf) : rbuf * go (string * error) :=
  match fuel with
  | O => (b, OutOfFuel)
  | S fuel =>
      let n0 := String.length (bytes b) in
      let '(b, err) := read_some b in
      let total := (total + Z.of_nat (String.length (bytes b) - n0))%Z in
      if (max <? total)%Z then (b, Err (Errorf "max receive message size reached" []))
      else match err with
           | Some e => (b, Ok (bytes b, e))
           | None => readAll_loop fuel max total b
           end
  end.

Definition readAll (o : muxOptions) (b : rbuf) : rbuf * go (string * error) :=
  readAll_loop (S (reader_size (src b))) (maxReceiveMessageSize o) 0 b.
End ReadAll.

Definition writeAll {T} (o : muxOptions) (Write : writer T) (b : string) : st T error unit :=
  if (maxSendMessageSize o <? Z.of_nat (String.length b))%Z
  then throw (Errorf "max send message size reached" [])
  else
    n ← Write b;
    if n =? String.length b then mret tt else throw ErrShortWrite.

(** ** Statistics, larking/stats.go *)

Inductive stat :=
  | InHeader (fullMethod remoteAddr compression : string) (header : MD)
  | Begin (isClientStream isServerStream : bool)
  | OutHeader (header : MD) (compression : string)
  | InPayload (client : bool) (payload : Message) (len wireLen : Z)
  | OutPayload (client : bool) (payload : Message) (len wireLen : Z)
  | OutTrailer (trailer : MD)
  | End_ (err : option error).

Definition payloadLen : Z := 1.
Definition sizeLen : Z := 4.
Definition headerLen : Z := payloadLen + sizeLen.

Definition outPayload (client : bool) (msg : Message) (payload : string) : stat :=
  OutPayload client msg (Z.of_nat (String.length payload)) (Z.of_nat (String.length payload) + headerLen).
Definition inPayload (client : bool) (msg : Message) (payload : string) : stat :=
  InPayload true msg (Z.of_nat (String.length payload)) (Z.of_nat (String.length payload) + headerLen).

Definition strAddr_Network (a : string) : string := if negb (String.eqb a "") then "tcp" else "".
Definition strAddr_String (a : string) : string := a.

(** [b[headerLen:]] *)
Definition skip_header (b : string) : go string :=
  if String.length b <? 5 then Panic SliceOutOfRange else Ok (str_drop 5 b).
End Codec.

#[global] Arguments prog {P} A.

(** ** gRPC statuses

    What the program uses of google.golang.org/grpc/status besides the code of an
    error: its message, its details and its message as protobuf. *)
Class GrpcStatus `{P : Protoreflect} := {
  status_Message : error -> string;
  status_Details : error -> option string;
  status_Proto : error -> Message;
  FromContextError : error -> error;
}.

#[export] Instance plain_status : @GrpcStatus plain_proto := {|
  status_Message e := match e with StatusError _ f _ => f | _ => "error" end;
  status_Details _ := None;
  status_Proto _ := XMsg (XMessage "google.rpc.Status" []) [];
  FromContextError e := match e with
                        | ContextCanceled => StatusError codes.Canceled "context canceled" []
                        | ContextDeadlineExceeded => StatusError codes.DeadlineExceeded "context deadline exceeded" []
                        | _ => StatusError codes.Unknown "context" []
                        end;
|}.
