(* ===== verification/Framing.v ===== *)
(** What a [StreamCodec] promises to the stream that uses it, as a class: [WriteNext]
    writes one frame, and [ReadNext] finds the message of the next frame however the
    bytes arrive, and reports the end of the stream.  The codecs for protobuf and
    JSON are instances. *)

#[local] Set Warnings "-register-all".
From S2P Require Import Prelude Status IO Http Proto Metadata Compress Codec CodecSpec Selector Stream.

Class Framing `{G : GoAppend} (sc : StreamCodec) := {
  (** the encodings that frame, and the bytes of their frames *)
  framed : string -> Prop;
  frame : string -> string;
  frame_write m b : framed m -> fst (run_writes buffer_Write (WriteNext sc m) b) = (b ++ frame m)%string /\
    is_ok (snd (run_writes buffer_Write (WriteNext sc m) b)) = true;
  frame_read limit s m rest : framed m -> (Z.of_nat (String.length m) <= limit)%Z ->
    buf_ok s -> no_error (src s) -> stream s = (frame m ++ rest)%string ->
    exists s', ReadNext sc limit s = (s', Ok (Z.of_nat (String.length m), None)) /\
      stream s' = (m ++ rest)%string /\ String.length m <= String.length (bytes s') /\ no_error (src s');
  frame_end limit s : (0 < limit)%Z -> buf_ok s -> no_error (src s) -> stream s = "" ->
    exists s', ReadNext sc limit s = (s', Ok (0%Z, Some EOF)) /\ stream s' = "";
}.

Lemma byte_at_end `{G : GoAppend} i s :
  buf_ok s -> no_error (src s) -> stream s = "" -> exists s', byte_at i s = (s', Err EOF) /\ stream s' = "".
Proof.
  intros Hok Hn Hs. pose proof (byte_at_spec i s Hok) as H. destruct (byte_at i s) as [s' [c|e|q|]]; [| |done|done].
  - destruct H as (b & Hb & _). by rewrite Hs, str_drop_ge in Hb by (simpl; lia).
  - destruct H as (Hs' & _ & He). destruct (He Hn) as [-> _]. exists s'. by rewrite Hs'.
Qed.

Section Proto.
Context `{G : GoAppend} `{W : Protowire}.

Definition proto_stream : StreamCodec :=
  MkStreamCodec (fun limit => read_result (CodecProto_ReadNext limit)) proto_writes.

#[export] Instance proto_framing : Framing proto_stream.
Proof.
  refine {| framed m := (Z.of_nat (String.length m) <= max_int64)%Z; frame := proto_frame |}.
  - intros m b _. cbn [WriteNext proto_stream]. rewrite run_proto_writes. unfold proto_frame, CodecProto_WriteNext.
    cbn. split; [|done]. apply str_app_assoc.
  - intros limit s m rest Hm Hl Hok Hn Hs. cbn [ReadNext proto_stream]. unfold read_result.
    destruct (CodecProto_ReadNext_frame limit s m rest Hok Hn Hm ltac:(by right) Hs) as (s' & -> & ? & ? & _ & ?).
    by exists s'.
  - intros limit s Hl Hok Hn Hs. cbn [ReadNext proto_stream]. unfold read_result, CodecProto_ReadNext.
    destruct (byte_at_end 0 s Hok Hn Hs) as (s' & E & Hs').
    unfold MaxVarintLen64. cbn [varint_loop].
    rewrite (st_bind_err (c ← byte_at 0; _) _ s s' EOF); [by exists s'|]. by apply st_bind_err.
Defined.
End Proto.

Section JSON.
Context `{G : GoAppend}.

Definition json_stream : StreamCodec :=
  MkStreamCodec (fun limit => read_result (CodecJSON_ReadNext limit)) plain_writes.

(** An object of balanced braces. *)
Definition json_object (m : string) : Prop := exists u, json_text u /\ m = String "{" (u ++ String "}" "").

#[export] Instance json_framing : Framing json_stream.
Proof.
  refine {| framed := json_object; frame m := m |}.
  - intros m b _. cbn [WriteNext json_stream]. by rewrite run_plain_writes.
  - intros limit s m rest (u & Hu & ->) Hl Hok Hn Hs. cbn [ReadNext json_stream]. unfold read_result, CodecJSON_ReadNext.
    simpl in Hl, Hs. rewrite str_length_app in Hl. simpl in Hl. rewrite str_app_assoc in Hs. simpl in Hs.
    pose proof (json_loop_spec (Z.to_nat limit) 0 scan_start limit s (stream s) Hok Hn) as H.
    rewrite str_drop_0 in H. specialize (H eq_refl ltac:(lia)). rewrite Hs in H.
    pose proof (json_scan_object "" u rest (Z.to_nat limit) 0 eq_refl Hu) as E. simpl in E.
    rewrite E in H by lia. destruct H as (s' & -> & Hs' & Hlen & _ & Hn'). exists s'.
    simpl. rewrite str_length_app. simpl. split_and!; [do 3 f_equal; lia| |lia|done].
    by rewrite Hs', str_app_assoc.
  - intros limit s Hl Hok Hn Hs. cbn [ReadNext json_stream]. unfold read_result, CodecJSON_ReadNext.
    destruct (byte_at_end 0 s Hok Hn Hs) as (s' & E & Hs'). destruct (Z.to_nat limit) as [|n] eqn:En; [lia|].
    cbn [json_loop]. rewrite (st_bind_err (byte_at 0) _ s s' EOF E). by exists s'.
Defined.
End JSON.
