(* ===== verification/GrpcStream.v ===== *)
(** The gRPC stream of larking/grpc.go, [streamGRPC]: headers, trailers, and the
    messages with their five-byte prefix, compressed or not.  The response writer is
    any [ResponseWriter], as gRPC-Web hands it another. *)

#[local] Set Warnings "-register-all".
From S2P Require Import Prelude Status IO Http Proto Metadata Compress Codec Selector Stream.

(** ** The prefix of a message *)

Definition byte_of (z : Z) : ascii := ascii_of_N (Z.to_N (z `mod` 256)).

(** [binary.BigEndian.PutUint32] and [Uint32] *)
Definition PutUint32 (z : Z) : string :=
  String (byte_of (z `div` 2 ^ 24)) (String (byte_of (z `div` 2 ^ 16))
    (String (byte_of (z `div` 2 ^ 8)) (String (byte_of z) ""))).

Definition Uint32 (s : string) : go Z :=
  match s with
  | String a (String b (String c (String d _))) =>
      Ok (byteZ a * 2 ^ 24 + byteZ b * 2 ^ 16 + byteZ c * 2 ^ 8 + byteZ d)%Z
  | _ => Panic IndexOutOfRange
  end.

(** [if cap(b) < n { b = make([]byte, 0, growcap(cap(b), n)) }; b = b[:n]] *)
Definition reslice (cap n : Z) : go Z :=
  c ← (if (cap <? n)%Z then growcap cap n else Ok cap);
  if (c <? n)%Z then Panic SliceOutOfRange else Ok c.

Section GRPC.
Context `{P : Protoreflect} `{R : GoRange} `{F : Fmt} `{GS : !GrpcStatus} `{MDJ : Metadata}.
Context {W : Type} `{RW : ResponseWriter W}.

(** [g_caps] are the capacities of the slices that [bytesPool] will give, 64 from
    the end of the list on; [g_stats] is what the statistics handler was told. *)
Record streamGRPC := StreamGRPC {
  g_opts : muxOptions;
  g_ctx : context;
  g_handler : handler;
  g_codec : Codec;
  g_comp : option Compressor;
  g_w : W;
  g_r : reader;
  g_header : MD;
  g_trailer : MD;
  g_contentType : string;
  g_messageEncoding : string;
  g_sentHeader : bool;
  g_caps : list Z;
  g_stats : list stat;
}.

Definition g_set_ctx (c : context) (s : streamGRPC) : streamGRPC :=
  StreamGRPC (g_opts s) c (g_handler s) (g_codec s) (g_comp s) (g_w s) (g_r s) (g_header s) (g_trailer s)
    (g_contentType s) (g_messageEncoding s) (g_sentHeader s) (g_caps s) (g_stats s).
Definition g_set_w (w : W) (s : streamGRPC) : streamGRPC :=
  StreamGRPC (g_opts s) (g_ctx s) (g_handler s) (g_codec s) (g_comp s) w (g_r s) (g_header s) (g_trailer s)
    (g_contentType s) (g_messageEncoding s) (g_sentHeader s) (g_caps s) (g_stats s).
Definition g_set_r (r : reader) (s : streamGRPC) : streamGRPC :=
  StreamGRPC (g_opts s) (g_ctx s) (g_handler s) (g_codec s) (g_comp s) (g_w s) r (g_header s) (g_trailer s)
    (g_contentType s) (g_messageEncoding s) (g_sentHeader s) (g_caps s) (g_stats s).
Definition g_set_header (h : MD) (s : streamGRPC) : streamGRPC :=
  StreamGRPC (g_opts s) (g_ctx s) (g_handler s) (g_codec s) (g_comp s) (g_w s) (g_r s) h (g_trailer s)
    (g_contentType s) (g_messageEncoding s) (g_sentHeader s) (g_caps s) (g_stats s).
Definition g_set_trailer (t : MD) (s : streamGRPC) : streamGRPC :=
  StreamGRPC (g_opts s) (g_ctx s) (g_handler s) (g_codec s) (g_comp s) (g_w s) (g_r s) (g_header s) t
    (g_contentType s) (g_messageEncoding s) (g_sentHeader s) (g_caps s) (g_stats s).
Definition g_set_sentHeader (b : bool) (s : streamGRPC) : streamGRPC :=
  StreamGRPC (g_opts s) (g_ctx s) (g_handler s) (g_codec s) (g_comp s) (g_w s) (g_r s) (g_header s) (g_trailer s)
    (g_contentType s) (g_messageEncoding s) b (g_caps s) (g_stats s).
Definition g_set_caps (c : list Z) (s : streamGRPC) : streamGRPC :=
  StreamGRPC (g_opts s) (g_ctx s) (g_handler s) (g_codec s) (g_comp s) (g_w s) (g_r s) (g_header s) (g_trailer s)
    (g_contentType s) (g_messageEncoding s) (g_sentHeader s) c (g_stats s).
Definition g_stat (st : stat) (s : streamGRPC) : streamGRPC :=
  StreamGRPC (g_opts s) (g_ctx s) (g_handler s) (g_codec s) (g_comp s) (g_w s) (g_r s) (g_header s) (g_trailer s)
    (g_contentType s) (g_messageEncoding s) (g_sentHeader s) (g_caps s)
    (if statsHandler (g_opts s) then g_stats s ++ [st] else g_stats s).

(** A call on the response writer, and a value of another kind of call. *)
Definition on_w {A} (m : st W error A) : st streamGRPC error A := fun s =>
  let '(w, o) := m (g_w s) in (g_set_w w s, o).
Definition lift {S A} (o : go A) : st S error A := fun s => (s, o).

(** ** Headers *)

Definition isDone : st streamGRPC error unit := fun s =>
  match ctx_errs (g_ctx s) with
  | [] => (s, Ok tt)
  | e :: es =>
      (g_set_ctx (MkContext (incoming (g_ctx s)) (timeouts (g_ctx s)) es) s,
       match e with Some e => Err (FromContextError e) | None => Ok tt end)
  end.

Definition errAlreadySent : error := Errorf "already sent headers" [].

Definition grpc_SetHeader (md : MD) : st streamGRPC error unit := fun s =>
  if g_sentHeader s then (s, Err errAlreadySent)
  else (g_set_header (Join (g_header s) md) s, Ok tt).

(** What [SendHeader] does to the header map. *)
Definition grpc_headers (contentType messageEncoding : string) (md : MD) (h : Header) : Header :=
  let h := header_Set "Content-Type" contentType h in
  let h := if negb (String.eqb messageEncoding "") then header_Set "Grpc-Encoding" messageEncoding h else h in
  let h := header_Add "Trailer" "Grpc-Status" h in
  let h := header_Add "Trailer" "Grpc-Message" h in
  let h := header_Add "Trailer" "Grpc-Status-Details-Bin" h in
  setOutgoingHeader md h.

Definition grpc_SendHeader (md : MD) : st streamGRPC error unit :=
  isDone;;
  s ← get;
  if g_sentHeader s then throw errAlreadySent
  else
    modify (fun s => g_set_header (Join (g_header s) md) s);;
    modify (fun s => g_set_w (w_set_header
      (grpc_headers (g_contentType s) (g_messageEncoding s) (g_header s)) (g_w s)) s);;
    modify (g_set_sentHeader true);;
    modify (fun s => g_stat (OutHeader (g_header s)
      (match g_comp s with Some c => comp_Name c | None => "" end)) s).

Definition grpc_SetTrailer (md : MD) (s : streamGRPC) : streamGRPC :=
  g_set_trailer (Join (g_trailer s) md) s.

(** ** Messages *)

(** The slice from the pool, cut to five bytes. *)
Definition pooled_slice : st streamGRPC error Z := fun s =>
  match g_caps s with
  | [] => (s, reslice 64 5)
  | c :: cs => (g_set_caps cs s, reslice c 5)
  end.

(** The five bytes that the prefix will take, whatever they hold. *)
Definition five : string := String "000" (String "000" (String "000" (String "000" (String "000" "")))).

(** [compress]: a message is one write, and the deferred [Close], whose error nobody
    looks at, completes it. *)
Definition compress (c : Compressor) (b : string) : go string :=
  match comp_open c with
  | Some e => Err e
  | None => Ok (comp_emit c [b] ++ comp_end c [b])%string
  end.

(** The compressed message and the slice for it. *)
Definition compress_frame (comp : option Compressor) (cap : Z) (b : string) (size : Z) : go (string * Z) :=
  match comp with
  | None => Ok (String "000" (PutUint32 size ++ str_drop 5 b), size)
  | Some c =>
      buf ← compress c (str_drop 5 b);
      let bufSize := Z.of_nat (String.length buf) in
      reslice cap (bufSize + 5);;
      let size := wrapu 32 bufSize in
      Ok (String "001" (PutUint32 size ++ buf), size)
  end.

Definition flush_w : st streamGRPC error unit := fun s =>
  if w_is_flusher (g_w s) then (g_set_w (w_Flush (g_w s)) s, Ok tt)
  else (s, Panic (PanicCall "interface conversion: not http.Flusher")).

(** The error of a call on the connection. *)
Definition conn_error (code : Z) (err : error) : error :=
  if isStreamError (Some err) then StatusError code (error_text err) [] else err.

Definition or_conn_error {S A} (code : Z) (m : st S error A) : st S error A := fun s =>
  match m s with
  | (s, Err e) => (s, Err (conn_error code e))
  | r => r
  end.

Definition errTooLarge (size max : Z) : error :=
  Errorf "grpc: received message larger than max (%d vs. %d)" [AInt size; AInt max].

Definition grpc_SendMsg (m : Message) : st streamGRPC error unit :=
  isDone;;
  s ← get;
  (if g_sentHeader s then mret tt else grpc_SendHeader ∅);;
  cap ← pooled_slice;
  s ← get;
  b ← lift (MarshalAppend (g_codec s) five m);
  let size := wrapu 32 (Z.of_nat (String.length b) - 5) in
  if (maxReceiveMessageSize (g_opts s) <? size)%Z
  then throw (errTooLarge size (maxReceiveMessageSize (g_opts s)))
  else
    '(frame, _) ← lift (compress_frame (g_comp s) (Z.max cap (Z.of_nat (String.length b))) b size);
    or_conn_error codes.Unavailable (on_w (w_Write frame));;
    flush_w;;
    if statsHandler (g_opts s)
    then payload ← lift (skip_header frame); modify (g_stat (outPayload false m payload))
    else mret tt.

Definition read_full (n : Z) : st streamGRPC error string := fun s =>
  let '(r, o) := ReadFull (g_r s) (Z.to_nat n) in (g_set_r r s, o).

(** The message of a frame. *)
Definition decompress_frame (comp : option Compressor) (messageEncoding : string) (cap : Z) (b : string) : go string :=
  match comp with
  | None => Err (Errorf "grpc: Decompressor is not installed for grpc-encoding %q" [AStr messageEncoding])
  | Some c =>
      r ← comp_decompress c (bytes_reader b);
      buf ← ReadFrom r;
      let size := wrapu 32 (Z.of_nat (String.length buf)) in
      reslice cap size;;
      Ok (str_take (Z.to_nat size) buf)
  end.

(** [RecvMsg] up to the bytes of the message. *)
Definition recv_payload : st streamGRPC error string :=
  isDone;;
  cap ← pooled_slice;
  head ← or_conn_error codes.Canceled (read_full 5);
  let isCompressed := match str_head head with Some c => (byteZ c =? 1)%Z | None => false end in
  size ← lift (Uint32 (str_drop 1 head));
  s ← get;
  if (maxReceiveMessageSize (g_opts s) <? size)%Z
  then throw (errTooLarge size (maxReceiveMessageSize (g_opts s)))
  else
    cap ← lift (reslice cap size);
    b ← read_full size;
    lift (if isCompressed then decompress_frame (g_comp s) (g_messageEncoding s) cap b else Ok b).

(** What is told to the statistics handler of a message received: the payload
    without five bytes of it. *)
Definition recv_stats (m : Message) (b : string) : st streamGRPC error unit :=
  s ← get;
  if statsHandler (g_opts s)
  then payload ← lift (skip_header b); modify (g_stat (inPayload false m payload))
  else mret tt.

Definition grpc_RecvMsg : st (streamGRPC * Message) error unit := fun '(s, m) =>
  match recv_payload s with
  | (s, Ok b) =>
      match Unmarshal (g_codec s) b m with
      | (m, Ok _) => let '(s, o) := recv_stats m b s in ((s, m), o)
      | (m, o) => ((s, m), o)
      end
  | (s, Err e) => ((s, m), Err e)
  | (s, Panic p) => ((s, m), Panic p)
  | (s, OutOfFuel) => ((s, m), OutOfFuel)
  end.

#[export] Instance grpc_stream : ServerStream streamGRPC := {|
  Context_ := g_ctx;
  SetHeader := grpc_SetHeader;
  SendHeader := grpc_SendHeader;
  SetTrailer := grpc_SetTrailer;
  SendMsg := grpc_SendMsg;
  RecvMsg := grpc_RecvMsg;
|}.
End GRPC.
