(* ===== verification/GrpcSpec.v ===== *)
(** What the gRPC stream guarantees: the frames of messages round trip, a stream
    sends nothing but frames, the header goes out once, and receiving is safe. *)

#[local] Set Warnings "-register-all".
From S2P Require Import Prelude Status IO Http Proto Metadata Compress Codec Selector Stream GrpcStream.

(** ** The prefix *)

Lemma byteZ_byte_of z : byteZ (byte_of z) = (z `mod` 256)%Z.
Proof. unfold byte_of. apply byteZ_of_Z. by apply Z.mod_pos_bound. Qed.

Lemma Uint32_PutUint32 z rest : (0 <= z < 2 ^ 32)%Z -> Uint32 (PutUint32 z ++ rest) = Ok z.
Proof.
  intros H. unfold PutUint32. cbn [append Uint32]. rewrite !byteZ_byte_of. f_equal.
  change (2 ^ 24)%Z with 16777216%Z. change (2 ^ 16)%Z with 65536%Z. change (2 ^ 8)%Z with 256%Z.
  change (2 ^ 32)%Z with 4294967296%Z in H. Z.to_euclidean_division_equations. lia.
Qed.

Lemma Uint32_range a b c d rest :
  exists z, Uint32 (String a (String b (String c (String d rest)))) = Ok z /\ (0 <= z < 2 ^ 32)%Z.
Proof.
  eexists. split; [reflexivity|]. pose proof (byteZ_range a). pose proof (byteZ_range b).
  pose proof (byteZ_range c). pose proof (byteZ_range d). lia.
Qed.

Lemma reslice_ok cap n :
  (0 <= cap <= max_int64)%Z -> (0 <= n <= max_int64)%Z -> exists c, reslice cap n = Ok c /\ (n <= c <= max_int64)%Z.
Proof.
  intros Hc Hn. unfold reslice. destruct (Z.ltb_spec cap n) as [Hlt|Hge].
  - destruct (growcap_enough' cap n Hc Hn) as (c & -> & Hr). exists c. cbn.
    destruct (Z.ltb_spec c n); [lia|done].
  - exists cap. cbn. destruct (Z.ltb_spec cap n); [lia|]. split; [done|lia].
Qed.

(** The frame of the encoding [e] of a message. *)
Inductive is_frame (comp : option Compressor) (e : string) : string -> Prop :=
  | frame_plain : comp = None ->
      is_frame comp e (String "000" (PutUint32 (Z.of_nat (String.length e)) ++ e))
  | frame_compressed c z : comp = Some c -> compress c e = Ok z -> (Z.of_nat (String.length z) < 2 ^ 32)%Z ->
      is_frame comp e (String "001" (PutUint32 (Z.of_nat (String.length z)) ++ z)).

(** The compressor keeps a message, and its size is one that the prefix holds. *)
Definition comp_ok (comp : option Compressor) (e : string) : Prop :=
  match comp with
  | None => True
  | Some c => exists z, compress c e = Ok z /\ (Z.of_nat (String.length z) < 2 ^ 32)%Z /\
      exists r, comp_decompress c (bytes_reader z) = Ok r /\ ReadFrom r = Ok e
  end.

(** ** Successful calls *)

Lemma wp_ok {S E A} (m : st S E A) Q s :
  wp m (fun _ => False) Q s -> exists s' a, m s = (s', Ok a) /\ Q a s'.
Proof. unfold wp. destruct (m s) as [s' [a|e|p|]]; try done. eauto. Qed.

Lemma wp_lift {S A} (o : go A) (R : error -> Prop) (Q : A -> S -> Prop) s a :
  o = Ok a -> Q a s -> wp (lift o) R Q s.
Proof. unfold wp, lift. by intros ->. Qed.

Lemma wp_run {S E A B} (m : st S E A) (f : A -> st S E B) (R : E -> Prop) (Q : B -> S -> Prop) s s' a :
  m s = (s', Ok a) -> wp (f a) R Q s' -> wp (m ≫= f) R Q s.
Proof. intros E1 H. unfold wp. by rewrite (st_bind_run _ _ _ _ _ E1). Qed.

Lemma or_conn_error_ok `{F : Fmt} {S A} code (m : st S error A) s s' a :
  m s = (s', Ok a) -> or_conn_error code m s = (s', Ok a).
Proof. unfold or_conn_error. by intros ->. Qed.

Section Spec.
Context `{P : Protoreflect} `{R : GoRange} `{F : Fmt} `{GS : !GrpcStatus} `{MDJ : Metadata}.
Context {Wr : Type} `{RW : ResponseWriter Wr} `{WL : !WriterLaws Wr}.

Definition stream := streamGRPC (W := Wr).

Definition caps_ok {W} (s : streamGRPC (W := W)) : Prop := Forall (fun c => 0 <= c <= max_int64)%Z (g_caps s).

(** A stream whose context is not done and whose client takes what is written. *)
Definition calm (s : stream) : Prop :=
  ctx_errs (g_ctx s) = [] /\ caps_ok s /\ w_up (g_w s).

(** What no call changes. *)
Definition same_stream {W} (s s' : streamGRPC (W := W)) : Prop :=
  g_opts s' = g_opts s /\ g_codec s' = g_codec s /\ g_comp s' = g_comp s /\
  g_messageEncoding s' = g_messageEncoding s /\ g_contentType s' = g_contentType s.

Lemma same_stream_trans {W} (s1 s2 s3 : streamGRPC (W := W)) : same_stream s1 s2 -> same_stream s2 s3 -> same_stream s1 s3.
Proof. unfold same_stream. intros (?&?&?&?&?) (?&?&?&?&?). split_and!; congruence. Qed.

Lemma wp_isDone {W} `{ResponseWriter W} R' (Q : unit -> streamGRPC (W := W) -> Prop) s :
  ctx_errs (g_ctx s) = [] -> Q tt s -> wp isDone R' Q s.
Proof. intros H1 HQ. unfold wp, isDone. by rewrite H1. Qed.

Lemma wp_pooled {W} R' (Q : Z -> streamGRPC (W := W) -> Prop) s :
  caps_ok s ->
  (forall c cs, (5 <= c <= max_int64)%Z -> Forall (fun c => 0 <= c <= max_int64)%Z cs -> Q c (g_set_caps cs s)) ->
  wp pooled_slice R' Q s.
Proof.
  intros Hc HQ. unfold caps_ok in Hc. unfold wp, pooled_slice. destruct (g_caps s) as [|c cs] eqn:E.
  - destruct (reslice_ok 64 5) as (c & -> & Hr); [unfold max_int64; lia..|].
    replace s with (g_set_caps [] s) by (rewrite <-E; by destruct s). apply HQ; [lia|constructor].
  - apply Forall_cons in Hc as [Hc Hcs]. destruct (reslice_ok c 5) as (c' & -> & Hr); [done|unfold max_int64; lia|].
    by apply HQ.
Qed.

Lemma wp_SendHeader md R' s :
  calm s -> g_sentHeader s = false ->
  wp (grpc_SendHeader md) R' (fun _ s' => calm s' /\ g_sentHeader s' = true /\ same_stream s s' /\
    w_body (g_w s') = w_body (g_w s) /\ g_r s' = g_r s /\ g_header s' = Join (g_header s) md /\
    w_header (g_w s') = grpc_headers (g_contentType s) (g_messageEncoding s) (Join (g_header s) md) (w_header (g_w s)))
    s.
Proof.
  intros (H1 & H2 & H3) Hs. unfold grpc_SendHeader. apply wp_bind, wp_isDone; [done|].
  apply wp_bind, wp_get. rewrite Hs. repeat (apply wp_bind, wp_modify). apply wp_modify.
  destruct s as [? ? ? ? ? w]. unfold calm, same_stream, caps_ok in *. simpl in *. rewrite body_set_header, header_set_header.
  split_and!; try done. by apply up_set_header.
Qed.

Lemma wp_on_w_Write b R' Q (s : stream) :
  w_up (g_w s) ->
  (forall w, w_up w -> w_body w = (w_body (g_w s) ++ b)%string -> Q (String.length b) (g_set_w w s)) ->
  wp (on_w (w_Write b)) R' Q s.
Proof. intros Hw HQ. unfold wp, on_w. destruct (up_Write b (g_w s) Hw) as (w & -> & Ha & Hb). by apply HQ. Qed.

Lemma str_drop_five e : str_drop 5 (five ++ e) = e.
Proof. cbn. by destruct e. Qed.

Lemma length_five e : String.length (five ++ e) = 5 + String.length e.
Proof. done. Qed.

Lemma compress_frame_ok comp cap e size :
  (0 <= cap <= max_int64)%Z -> size = Z.of_nat (String.length e) -> comp_ok comp e ->
  exists frame n, compress_frame comp cap (five ++ e) size = Ok (frame, n) /\ is_frame comp e frame /\
    5 <= String.length frame.
Proof.
  intros Hc -> Hok. unfold compress_frame. rewrite str_drop_five. destruct comp as [c|].
  - destruct Hok as (z & Hz & Hl & _). rewrite Hz. cbn [mbind outcome_bind].
    destruct (reslice_ok cap (Z.of_nat (String.length z) + 5)) as (c' & -> & _); [done|unfold max_int64; lia|].
    cbn. eexists _, _. split; [reflexivity|]. unfold wrapu. rewrite Z.mod_small by lia.
    split; [by econstructor|simpl; lia].
  - eexists _, _. split; [reflexivity|]. split; [by constructor|simpl; lia].
Qed.

(** What follows the write of a frame of a message [m]. *)
Definition after_write (m : Message) (frame : string) (stats : bool) : st stream error unit :=
  flush_w;;
  if stats then payload ← lift (skip_header frame); modify (g_stat (outPayload false m payload)) else mret tt.

Lemma wp_after_write m frame stats R' s :
  calm s -> 5 <= String.length frame ->
  wp (after_write m frame stats) R' (fun _ s' => calm s' /\ g_sentHeader s' = g_sentHeader s /\ same_stream s s' /\
    g_r s' = g_r s /\ w_body (g_w s') = w_body (g_w s)) s.
Proof.
  intros (H1 & H2 & H3) Hl. unfold after_write. apply wp_bind. unfold wp at 1, flush_w.
  rewrite up_is_flusher by done.
  assert (Hflush : calm (g_set_w (w_Flush (g_w s)) s)).
  { unfold calm. simpl. split_and!; [done|done|by apply up_Flush]. }
  pose proof (body_Flush (g_w s)) as Hb. destruct stats; [|by apply wp_ret].
  apply wp_bind. eapply wp_lift; [unfold skip_header; destruct (Nat.ltb_spec (String.length frame) 5); [lia|reflexivity]|].
  by apply wp_modify.
Qed.

(** Sending a message of a size within the limit writes its frame. *)
Lemma wp_SendMsg m e R' s :
  calm s -> MarshalAppend (g_codec s) five m = Ok (five ++ e)%string ->
  (Z.of_nat (String.length e) <= maxReceiveMessageSize (g_opts s))%Z -> (Z.of_nat (String.length e) < 2 ^ 32)%Z ->
  comp_ok (g_comp s) e ->
  wp (grpc_SendMsg m) R' (fun _ s' => calm s' /\ g_sentHeader s' = true /\ same_stream s s' /\ g_r s' = g_r s /\
    exists frame, is_frame (g_comp s) e frame /\ w_body (g_w s') = (w_body (g_w s) ++ frame)%string) s.
Proof.
  intros Hcalm Hm Hmax H32 Hcomp. pose proof Hcalm as (H1 & _).
  unfold grpc_SendMsg. apply wp_bind, wp_isDone; [done|]. apply wp_bind, wp_get. apply wp_bind.
  eapply wp_mono with (Q := fun _ s' => calm s' /\ g_sentHeader s' = true /\ same_stream s s' /\
    w_body (g_w s') = w_body (g_w s) /\ g_r s' = g_r s).
  { destruct (g_sentHeader s) eqn:Es; [by apply wp_ret|]. eapply wp_mono; [by apply wp_SendHeader|].
    intros _ s' (? & ? & ? & ? & ? & _). by split_and!. }
  intros _ s1 ((A1 & A2 & A3) & Hs1 & Hsame & Hb1 & Hr1).
  pose proof Hsame as (Ho & Hcod & Hcp & _). apply wp_bind, wp_pooled; [done|]. intros cap cs Hcap Hcs.
  apply wp_bind, wp_get. apply wp_bind. eapply wp_lift; [simpl; rewrite Hcod; exact Hm|].
  rewrite length_five.
  assert (wrapu 32 (Z.of_nat (5 + String.length e) - 5) = Z.of_nat (String.length e)) as ->
    by (unfold wrapu; rewrite Z.mod_small; lia).
  simpl g_opts. rewrite Ho. destruct (Z.ltb_spec (maxReceiveMessageSize (g_opts s)) (Z.of_nat (String.length e))); [lia|].
  simpl g_comp. rewrite Hcp.
  destruct (compress_frame_ok (g_comp s) (Z.max cap (Z.of_nat (5 + String.length e))) e _
    ltac:(unfold max_int64 in *; lia) eq_refl Hcomp) as (frame & n & Hf & Hframe & Hl5).
  apply wp_bind. eapply wp_lift; [exact Hf|]. cbv beta iota.
  fold (after_write m frame (statsHandler (g_opts s))).
  destruct (wp_ok (on_w (w_Write frame)) (fun _ s2 => calm s2 /\ g_sentHeader s2 = true /\ same_stream s s2 /\
    g_r s2 = g_r s /\ w_body (g_w s2) = (w_body (g_w s) ++ frame)%string) (g_set_caps cs s1))
    as (s2 & k & E2 & B & Hs2 & Hsame2 & Hr2 & Hb2).
  { apply wp_on_w_Write; [done|]. intros w Ha Hbw. simpl in *. rewrite Hbw, Hb1.
    by split_and!. }
  eapply wp_run; [by apply or_conn_error_ok|]. eapply wp_mono; [by apply wp_after_write|].
  intros _ s3 (C & Hs3 & Hsame3 & Hr3 & Hb3). split_and!; [done|congruence|by eapply same_stream_trans|congruence|].
  exists frame. split; [done|congruence].
Qed.

(** ** Receiving *)

Lemma wp_read_full {W} b rest R' (Q : string -> streamGRPC (W := W) -> Prop) s n :
  no_error (g_r s) -> reader_data (g_r s) = (b ++ rest)%string -> n = Z.of_nat (String.length b) ->
  (forall r, no_error r -> reader_data r = rest -> Q b (g_set_r r s)) ->
  wp (read_full n) R' Q s.
Proof.
  intros Hn Hd -> HQ. unfold wp, read_full. rewrite Nat2Z.id.
  destruct (ReadFull_ok (g_r s) b rest Hn Hd) as (r & -> & Hr & Hn'). by apply HQ.
Qed.

(** The parts of a frame: its flag, the size of its payload, and its payload. *)
Lemma is_frame_parts comp e frame :
  is_frame comp e frame -> (Z.of_nat (String.length e) < 2 ^ 32)%Z -> comp_ok comp e ->
  exists flag b, frame = (String flag (PutUint32 (Z.of_nat (String.length b)) ++ b))%string /\
    (Z.of_nat (String.length b) < 2 ^ 32)%Z /\
    forall enc cap, (0 <= cap <= max_int64)%Z ->
    (if (byteZ flag =? 1)%Z then decompress_frame comp enc cap b else Ok b) = Ok e.
Proof.
  intros [->|c z -> Hz Hl] H32 Hok.
  - exists "000"%char, e. split_and!; done.
  - exists "001"%char, z. split_and!; [done..|]. intros enc cap Hcap. simpl.
    destruct Hok as (z' & Hz' & _ & r & Hr & Hb). assert (z' = z) as -> by congruence.
    rewrite Hr. cbn [mbind outcome_bind]. rewrite Hb. cbn [mbind outcome_bind].
    unfold wrapu. rewrite Z.mod_small by lia.
    destruct (reslice_ok cap (Z.of_nat (String.length e))) as (c' & -> & _); [done|unfold max_int64; lia|].
    cbn [mbind outcome_bind]. by rewrite Nat2Z.id, str_take_ge.
Qed.

(** The payload of the frame at the head of the body. *)
Lemma recv_payload_frame {W} (s : streamGRPC (W := W)) e frame rest :
  is_frame (g_comp s) e frame -> (Z.of_nat (String.length e) < 2 ^ 32)%Z -> comp_ok (g_comp s) e ->
  (Z.of_nat (String.length frame) <= maxReceiveMessageSize (g_opts s) + 5)%Z ->
  ctx_errs (g_ctx s) = [] -> caps_ok s ->
  no_error (g_r s) -> reader_data (g_r s) = (frame ++ rest)%string ->
  exists r cs, recv_payload s = (g_set_r r (g_set_caps cs s), Ok e) /\ caps_ok (g_set_caps cs s) /\ no_error r /\ reader_data r = rest.
Proof.
  intros Hf H32 Hok Hmax Hctx Hcaps Hn Hd.
  destruct (is_frame_parts _ _ _ Hf H32 Hok) as (flag & b & -> & Hb & Hdec).
  assert (Hl : (Z.of_nat (String.length b) <= maxReceiveMessageSize (g_opts s))%Z) by (simpl in Hmax; lia).
  destruct (wp_ok recv_payload (fun x s' => x = e /\ exists r cs, s' = g_set_r r (g_set_caps cs s) /\
    caps_ok (g_set_caps cs s) /\ no_error r /\ reader_data r = rest) s)
    as (s' & x & E & -> & r & cs & -> & ?); [|by exists r, cs].
  unfold recv_payload. apply wp_bind. unfold isDone, wp at 1. rewrite Hctx.
  apply wp_bind, wp_pooled; [done|]. intros cap cs Hcap Hcs.
  set (head := String flag (PutUint32 (Z.of_nat (String.length b)))).
  destruct (wp_ok (read_full 5) (fun x s' => x = head /\ exists r, s' = g_set_r r (g_set_caps cs s) /\
    no_error r /\ reader_data r = (b ++ rest)%string) (g_set_caps cs s)) as (s1 & x & E1 & -> & r & -> & Hnr & Hdr).
  { apply (wp_read_full head (b ++ rest)); [done| |done|eauto].
    simpl. rewrite Hd. unfold head. simpl. by rewrite ?str_app_assoc. }
  eapply wp_run; [by apply or_conn_error_ok|]. unfold head. cbn [str_head append].
  apply wp_bind. eapply wp_lift; [apply (Uint32_PutUint32 (Z.of_nat (String.length b)) ""); lia|].
  apply wp_bind, wp_get. cbn [g_opts g_set_r g_set_caps].
  destruct (Z.ltb_spec (maxReceiveMessageSize (g_opts s)) (Z.of_nat (String.length b))); [lia|].
  destruct (reslice_ok cap (Z.of_nat (String.length b))) as (c' & Hc' & Hr'); [lia|unfold max_int64; lia|].
  apply wp_bind. eapply wp_lift; [exact Hc'|]. apply wp_bind.
  apply (wp_read_full b rest); [done|done|done|]. intros r' Hn' Hd'.
  eapply wp_lift; [apply Hdec; lia|]. split; [done|]. by exists r', cs.
Qed.

(** C18 Messages round trip: what [SendMsg] appends to the response is a frame from
    which [RecvMsg], on a stream with the same codec and compressor, decodes the
    encoding of the message and nothing else, however the bytes arrive, leaving
    what follows for the next call. *)
Theorem grpc_message_roundtrip (s : stream) m e :
  calm s -> MarshalAppend (g_codec s) five m = Ok (five ++ e)%string ->
  (Z.of_nat (String.length e) <= maxReceiveMessageSize (g_opts s))%Z -> (Z.of_nat (String.length e) < 2 ^ 32)%Z ->
  comp_ok (g_comp s) e ->
  exists s' frame, grpc_SendMsg m s = (s', Ok tt) /\ w_body (g_w s') = (w_body (g_w s) ++ frame)%string /\
  forall (t : stream) m0 rest,
    g_codec t = g_codec s -> g_comp t = g_comp s ->
    (Z.of_nat (String.length frame) <= maxReceiveMessageSize (g_opts t) + 5)%Z ->
    ctx_errs (g_ctx t) = [] -> caps_ok t -> statsHandler (g_opts t) = false ->
    no_error (g_r t) -> reader_data (g_r t) = (frame ++ rest)%string ->
    exists t', grpc_RecvMsg (t, m0) = ((t', fst (Unmarshal (g_codec s) e m0)), snd (Unmarshal (g_codec s) e m0)) /\
      no_error (g_r t') /\ reader_data (g_r t') = rest.
Proof.
  intros Hcalm Hm Hmax H32 Hcomp.
  destruct (wp_ok _ _ _ (wp_SendMsg m e (fun _ => False) s Hcalm Hm Hmax H32 Hcomp))
    as (s' & [] & E & _ & _ & _ & _ & frame & Hf & Hb).
  exists s', frame. split_and!; [done..|]. intros t m0 rest Hcod Hcp Ht Hctx Hcaps Hst Hn Hd.
  rewrite <-Hcp in Hf, Hcomp.
  destruct (recv_payload_frame t e frame rest Hf H32 Hcomp Ht Hctx Hcaps Hn Hd) as (r & cs & Et & _ & Hn' & Hd').
  exists (g_set_r r (g_set_caps cs t)). split; [|done]. unfold grpc_RecvMsg. rewrite Et. cbn [g_codec g_set_r g_set_caps]. rewrite Hcod.
  destruct (Unmarshal (g_codec s) e m0) as [m1 [[]|err|q|]]; try done.
  unfold recv_stats. rewrite bind_get. cbn [g_opts g_set_r g_set_caps]. by rewrite Hst.
Qed.
(** ** Whatever a handler does *)

(** A frame of the protocol: a flag, the length of the payload, the payload. *)
Definition wire_frame (f : string) : Prop :=
  exists flag b, f = String flag (PutUint32 (Z.of_nat (String.length b)) ++ b) /\ (Z.of_nat (String.length b) < 2 ^ 32)%Z.

(** The codec appends, and neither it nor the compressor makes 4 GB of a message. *)
Definition codec_ok (s : stream) : Prop :=
  (forall m b, MarshalAppend (g_codec s) five m = Ok b ->
     exists e, b = (five ++ e)%string /\ (Z.of_nat (String.length e) < 2 ^ 32)%Z) /\
  (forall c e z, g_comp s = Some c -> compress c e = Ok z -> (Z.of_nat (String.length z) < 2 ^ 32)%Z).

(** [s'] has sent frames since [s]. *)
Definition frames_since (s s' : stream) : Prop :=
  w_up (g_w s') /\ same_stream s s' /\
  exists frames, Forall wire_frame frames /\ w_body (g_w s') = (w_body (g_w s) ++ str_concat frames)%string.

Lemma frames_refl s : w_up (g_w s) -> frames_since s s.
Proof. intros H. split_and!; [done|done|]. exists []. split; [constructor|]. by rewrite str_app_nil_r. Qed.

Lemma frames_trans s1 s2 s3 : frames_since s1 s2 -> frames_since s2 s3 -> frames_since s1 s3.
Proof.
  intros (_ & H1 & fs1 & Hf1 & Hb1) (H2 & H3 & fs2 & Hf2 & Hb2).
  split_and!; [done|by eapply same_stream_trans|]. exists (fs1 ++ fs2). split; [by apply Forall_app|].
  by rewrite Hb2, Hb1, str_concat_app, str_app_assoc.
Qed.

(** A call that sends nothing. *)
Definition silent {A} (m : st stream error A) : Prop :=
  forall s, same_stream s (fst (m s)) /\ (w_up (g_w s) -> w_up (g_w (fst (m s)))) /\
    w_body (g_w (fst (m s))) = w_body (g_w s).

Lemma silent_frames {A} (m : st stream error A) s : silent m -> w_up (g_w s) -> frames_since s (fst (m s)).
Proof.
  intros Hm Hs. destruct (Hm s) as (H1 & H2 & H3). split_and!; [by apply H2|done|]. exists []. split; [constructor|].
  by rewrite str_app_nil_r.
Qed.

Lemma silent_bind {A B} (m : st stream error A) (f : A -> st stream error B) :
  silent m -> (forall a, silent (f a)) -> silent (m ≫= f).
Proof.
  intros Hm Hf s. unfold mbind, st_bind. specialize (Hm s). destruct (m s) as [s1 [a|e|p|]]; [|done..].
  destruct Hm as (H1 & H2 & H3). destruct (Hf a s1) as (H4 & H5 & H6). simpl in *.
  split_and!; [by eapply same_stream_trans|by auto|congruence].
Qed.

Lemma silent_const {A} (o : stream -> go A) : silent (fun s => (s, o s)).
Proof. by intros s. Qed.

Lemma silent_modify (f : stream -> stream) :
  (forall s, same_stream s (f s) /\ (w_up (g_w s) -> w_up (g_w (f s))) /\ w_body (g_w (f s)) = w_body (g_w s)) ->
  silent (modify f).
Proof. intros H s. apply H. Qed.

Lemma silent_isDone : silent isDone.
Proof. intros s. unfold isDone. by destruct (ctx_errs (g_ctx s)). Qed.

Lemma silent_pooled : silent pooled_slice.
Proof. intros s. unfold pooled_slice. by destruct (g_caps s). Qed.

Lemma silent_read_full n : silent (read_full n).
Proof. intros s. unfold read_full. by destruct (ReadFull _ _). Qed.

Lemma silent_or_conn_error {A} code (m : st stream error A) : silent m -> silent (or_conn_error code m).
Proof. intros Hm s. unfold or_conn_error. specialize (Hm s). by destruct (m s) as [s1 [a|e|p|]]. Qed.

Lemma silent_SendHeader md : silent (grpc_SendHeader md).
Proof.
  apply silent_bind; [apply silent_isDone|]. intros _. apply silent_bind; [apply (silent_const Ok)|].
  intros s. destruct (g_sentHeader s); [apply silent_const|].
  repeat (apply silent_bind; [apply silent_modify; intros []; split_and!; simpl; (done || apply up_set_header || apply body_set_header)|intros _]).
  apply silent_modify. by intros [].
Qed.

Lemma silent_SetHeader md : silent (grpc_SetHeader md).
Proof. intros s. unfold grpc_SetHeader. by destruct (g_sentHeader s). Qed.

Lemma silent_recv_payload : silent recv_payload.
Proof.
  apply silent_bind; [apply silent_isDone|]. intros _. apply silent_bind; [apply silent_pooled|]. intros cap.
  apply silent_bind; [apply silent_or_conn_error, silent_read_full|]. intros head. cbv zeta.
  apply silent_bind; [apply silent_const|]. intros size. apply silent_bind; [apply (silent_const Ok)|]. intros s.
  destruct (_ <? _)%Z; [apply silent_const|]. apply silent_bind; [apply silent_const|]. intros c.
  apply silent_bind; [apply silent_read_full|]. intros b. apply silent_const.
Qed.

Lemma frames_RecvMsg s m : w_up (g_w s) -> frames_since s (fst (fst (grpc_RecvMsg (s, m)))).
Proof.
  intros Hs. unfold grpc_RecvMsg. pose proof (silent_frames recv_payload s silent_recv_payload Hs) as H.
  destruct (recv_payload s) as [s1 [b|e|p|]]; [|done..]. destruct (Unmarshal _ _ _) as [m1 [u|e|p|]]; [|done..].
  assert (Hst : silent (recv_stats m1 b)).
  { apply silent_bind; [apply (silent_const Ok)|]. intros s'. destruct (statsHandler _); [|apply (silent_const (fun _ => Ok tt))].
    apply silent_bind; [apply silent_const|]. intros payload. apply silent_modify. by intros []. }
  simpl in H. pose proof (silent_frames (recv_stats m1 b) s1 Hst (proj1 H)) as H'.
  destruct (recv_stats m1 b s1) as [s2 o]. by eapply frames_trans.
Qed.
Lemma frames_bind {A B} (m : st stream error A) (f : A -> st stream error B) s :
  frames_since s (fst (m s)) -> (forall s1 a, m s = (s1, Ok a) -> frames_since s1 (fst (f a s1))) ->
  frames_since s (fst ((m ≫= f) s)).
Proof.
  intros Hm Hf. unfold mbind, st_bind. destruct (m s) as [s1 [a|e|p|]] eqn:E; [|done..].
  eapply frames_trans; [exact Hm|]. by apply Hf.
Qed.

Lemma silent_then {A B} (m : st stream error A) (f : A -> st stream error B) s :
  silent m -> w_up (g_w s) ->
  (forall s1 a, m s = (s1, Ok a) -> w_up (g_w s1) -> same_stream s s1 -> frames_since s1 (fst (f a s1))) ->
  frames_since s (fst ((m ≫= f) s)).
Proof.
  intros Hm Hs Hf. pose proof (silent_frames m s Hm Hs) as H. apply frames_bind; [done|].
  intros s1 a E. rewrite E in H. apply (Hf s1 a E); apply H.
Qed.

(** What is written is a frame of the protocol. *)
Lemma compress_frame_wire s cap m b frame n :
  codec_ok s -> MarshalAppend (g_codec s) five m = Ok b ->
  compress_frame (g_comp s) cap b (wrapu 32 (Z.of_nat (String.length b) - 5)) = Ok (frame, n) -> wire_frame frame.
Proof.
  intros [Hc Hz] Hm. destruct (Hc m b Hm) as (e & -> & He). rewrite length_five.
  assert (wrapu 32 (Z.of_nat (5 + String.length e) - 5) = Z.of_nat (String.length e)) as ->
    by (unfold wrapu; rewrite Z.mod_small; lia).
  unfold compress_frame. rewrite str_drop_five. destruct (g_comp s) as [c|] eqn:Ec.
  - destruct (compress c e) as [z|err|q|] eqn:E; try done. cbn [mbind outcome_bind].
    destruct (reslice _ _); try done. cbn. specialize (Hz c e z eq_refl E). unfold wrapu.
    rewrite Z.mod_small by lia. intros [= <- <-]. by exists "001"%char, z.
  - intros [= <- <-]. by exists "000"%char, e.
Qed.

Lemma frames_write frame s :
  wire_frame frame -> w_up (g_w s) -> frames_since s (fst (or_conn_error codes.Unavailable (on_w (w_Write frame)) s)).
Proof.
  intros Hf Hs. unfold or_conn_error, on_w.
  destruct (up_Write frame (g_w s) Hs) as (w & -> & Hw & Hb). split_and!; [done|done|].
  exists [frame]. split; [by repeat constructor|]. simpl. by rewrite Hb, str_app_nil_r.
Qed.

Lemma silent_flush : silent flush_w.
Proof.
  intros s. unfold flush_w. destruct (w_is_flusher (g_w s)); [|done].
  split_and!; [done|apply up_Flush|]. apply body_Flush.
Qed.

Lemma frames_SendMsg s m : codec_ok s -> w_up (g_w s) -> frames_since s (fst (grpc_SendMsg m s)).
Proof.
  intros Hok Hs. unfold grpc_SendMsg. apply silent_then; [apply silent_isDone|done|]. intros s1 _ _ Hs1 Hsame1.
  apply silent_then; [apply (silent_const Ok)|done|]. intros ? s1' [= <- <-] _ _.
  assert (Hsend : silent (if g_sentHeader s1 then mret tt else grpc_SendHeader ∅)).
  { destruct (g_sentHeader s1); [apply (silent_const (fun _ => Ok tt))|apply silent_SendHeader]. }
  apply silent_then; [done..|]. intros s2 _ _ Hs2 Hsame2.
  apply silent_then; [apply silent_pooled|done|]. intros s3 cap _ Hs3 Hsame3.
  apply silent_then; [apply (silent_const Ok)|done|]. intros ? s3' [= <- <-] _ _.
  assert (Hsame : same_stream s s3) by (eapply same_stream_trans; [done|by eapply same_stream_trans]).
  destruct Hsame as (Ho & Hc & Hcp & _).
  apply silent_then; [apply silent_const|done|]. intros ? b [= <- Hb] _ _.
  destruct (_ <? _)%Z; [by apply frames_refl|].
  apply silent_then; [apply silent_const|done|]. intros ? [frame n] [= <- Hf] _ _.
  rewrite Hc in Hb. rewrite Hcp in Hf.
  apply frames_bind; [eapply frames_write; [by eapply compress_frame_wire|done]|]. intros s4 k E.
  pose proof (frames_write frame s3 (compress_frame_wire _ _ _ _ _ _ Hok Hb Hf) Hs3) as Hw. rewrite E in Hw.
  destruct Hw as [Hs4 _]. apply silent_then; [apply silent_flush|exact Hs4|]. intros s5 _ _ Hs5 _.
  apply silent_frames; [|done]. destruct (statsHandler _); [|apply (silent_const (fun _ => Ok tt))].
  apply silent_bind; [apply silent_const|]. intros payload. apply silent_modify. by intros [].
Qed.

Lemma codec_ok_same s s' : same_stream s s' -> codec_ok s -> codec_ok s'.
Proof. intros (_ & Hc & Hp & _) [H1 H2]. unfold codec_ok. by rewrite Hc, Hp. Qed.

Lemma run_frames {A} (p : prog A) s :
  codec_ok s -> w_up (g_w s) -> frames_since s (fst (run p s)).
Proof.
  revert s. induction p as [a|e|msg| |k IH|md k IH|md k IH|md k IH|m k IH|m k IH]; intros s Hok Hs;
    cbn [run fst]; [by apply frames_refl..| | | | | |].
  - by apply IH.
  - pose proof (silent_frames (SetHeader md) s (silent_SetHeader md) Hs) as H.
    destruct (SetHeader md s) as [s1 [u|e|q|]]; try exact H;
      (eapply frames_trans; [exact H|]; apply IH; [by eapply codec_ok_same; [apply H|]|apply H]).
  - pose proof (silent_frames (SendHeader md) s (silent_SendHeader md) Hs) as H.
    destruct (SendHeader md s) as [s1 [u|e|q|]]; try exact H;
      (eapply frames_trans; [exact H|]; apply IH; [by eapply codec_ok_same; [apply H|]|apply H]).
  - assert (H : frames_since s (SetTrailer md s)).
    { split_and!; [done|done|]. exists []. split; [constructor|]. by rewrite str_app_nil_r. }
    eapply frames_trans; [exact H|]. apply IH; [by eapply codec_ok_same; [apply H|]|done].
  - pose proof (frames_SendMsg s m Hok Hs) as H. change (SendMsg m s) with (grpc_SendMsg m s).
    destruct (grpc_SendMsg m s) as [s1 [u|e|q|]]; try exact H;
      (eapply frames_trans; [exact H|]; apply IH; [by eapply codec_ok_same; [apply H|]|apply H]).
  - pose proof (frames_RecvMsg s m Hs) as H. change (frames_since s (fst (fst (RecvMsg (s, m))))) in H.
    destruct (RecvMsg (s, m)) as [[s1 m1] [u|e|q|]]; try exact H;
      (eapply frames_trans; [exact H|]; apply IH; [by eapply codec_ok_same; [apply H|]|apply H]).
Qed.

(** C19 Whatever a handler does with its stream, and however it ends, the response
    body is a sequence of whole frames, each a flag, the length of its payload in
    four bytes and the payload: no call leaves a part of one, none writes anything
    else, also where a call fails. *)
Theorem grpc_run_frames {A} (p : prog A) s :
  codec_ok s -> w_up (g_w s) -> frames_since s (fst (run p s)).
Proof. apply run_frames. Qed.

(** ** Receiving is safe, but for the statistics *)

(** The libraries return a value or an error. *)
Definition returns {A} (o : go A) : Prop := match o with Ok _ | Err _ => True | _ => False end.

Definition libs_return {W} (s : streamGRPC (W := W)) : Prop :=
  (forall c r, g_comp s = Some c -> returns (comp_decompress c r)) /\
  (forall b m, returns (snd (Unmarshal (g_codec s) b m))).

Lemma ReadFrom_returns r : returns (ReadFrom r).
Proof.
  induction r as [|[d [[]|]] r IH]; cbn [ReadFrom]; try exact I. by destruct (ReadFrom r).
Qed.

Lemma decompress_returns comp enc cap b :
  (0 <= cap <= max_int64)%Z -> (forall c r, comp = Some c -> returns (comp_decompress c r)) ->
  returns (decompress_frame comp enc cap b).
Proof.
  intros Hcap Hc. unfold decompress_frame. destruct comp as [c|]; [|exact I].
  specialize (Hc c (bytes_reader b) eq_refl). destruct (comp_decompress c _) as [r|e|q|]; try done. cbn.
  pose proof (ReadFrom_returns r). destruct (ReadFrom r) as [buf|e|q|]; try done. cbn.
  destruct (reslice_ok cap (wrapu 32 (Z.of_nat (String.length buf)))) as (c' & -> & _); [done| |exact I].
  unfold wrapu, max_int64. pose proof (Z.mod_pos_bound (Z.of_nat (String.length buf)) (2 ^ 32) eq_refl). lia.
Qed.

Lemma recv_payload_returns {W} (s : streamGRPC (W := W)) :
  caps_ok s -> libs_return s -> wp recv_payload (fun _ => True) (fun _ s' => same_stream s s') s.
Proof.
  intros Hcaps [Hcomp _]. unfold recv_payload. apply wp_bind. unfold isDone, wp at 1.
  assert (H : forall s1, same_stream s s1 -> caps_ok s1 -> wp (cap ← pooled_slice;
    head ← or_conn_error codes.Canceled (read_full 5);
    size ← lift (Uint32 (str_drop 1 head));
    s ← get;
    if (maxReceiveMessageSize (g_opts s) <? size)%Z
    then throw (errTooLarge size (maxReceiveMessageSize (g_opts s)))
    else
      cap ← lift (reslice cap size);
      b ← read_full size;
      lift (if match str_head head with Some c => (byteZ c =? 1)%Z | None => false end
            then decompress_frame (g_comp s) (g_messageEncoding s) cap b else Ok b)) (fun _ => True) (fun _ s' => same_stream s s') s1).
  { intros s1 Hsame1 Hc1. apply wp_bind, wp_pooled; [done|]. intros cap cs Hcap _.
    apply wp_bind. unfold wp at 1, or_conn_error, read_full. pose proof (ReadFull_spec (g_r (g_set_caps cs s1)) (Z.to_nat 5)) as Hf.
    destruct (ReadFull _ _) as [r [head|e|q|]]; try done. destruct Hf as [_ Hl].
    destruct head as [|flag [|a [|b [|c [|d rest]]]]]; simpl in Hl; try lia. cbn [str_drop str_head].
    destruct (Uint32_range a b c d rest) as (size & Hsize & Hrange). rewrite ?str_drop_0.
    apply wp_bind. eapply wp_lift; [exact Hsize|]. apply wp_bind, wp_get.
    destruct (_ <? _)%Z; [by apply wp_throw|].
    destruct (reslice_ok cap size) as (c' & Hc' & Hcr); [lia|unfold max_int64; lia|].
    apply wp_bind. eapply wp_lift; [exact Hc'|]. apply wp_bind. unfold wp at 1, read_full.
    pose proof (ReadFull_spec (g_r (g_set_r r (g_set_caps cs s1))) (Z.to_nat size)) as Hf2.
    destruct (ReadFull _ _) as [r2 [body|e|q|]]; try done. unfold wp, lift.
    destruct (byteZ flag =? 1)%Z; [|done].
    pose proof Hsame1 as (_ & _ & Hcp & _).
    pose proof (decompress_returns (g_comp s1) (g_messageEncoding s1) c' body ltac:(lia)) as Hd. simpl. rewrite Hcp in *.
    specialize (Hd Hcomp). by destruct (decompress_frame _ _ _ _). }
  destruct (ctx_errs (g_ctx s)) as [|[e|] es]; [by apply H|done|by apply H].
Qed.

(** Receiving a message returns it or an error, whatever the client sends: no
    slice is out of range and no read runs on.  The one exception is a statistics
    handler, which makes a message of fewer than five bytes panic. *)
Theorem grpc_recv_safe {W} (s : streamGRPC (W := W)) m :
  caps_ok s -> libs_return s ->
  match snd (grpc_RecvMsg (s, m)) with
  | Ok _ | Err _ => True
  | Panic q => q = SliceOutOfRange /\ statsHandler (g_opts s) = true /\
      exists s' b, recv_payload s = (s', Ok b) /\ String.length b < 5
  | OutOfFuel => False
  end.
Proof.
  intros Hcaps Hlibs. pose proof (recv_payload_returns s Hcaps Hlibs) as H. unfold wp in H. unfold grpc_RecvMsg.
  destruct (recv_payload s) as [s1 [b|e|q|]] eqn:E; try done.
  destruct H as (Ho & Hc & _). pose proof (proj2 Hlibs b m) as Hu. rewrite Hc.
  destruct (Unmarshal (g_codec s) b m) as [m1 [u|e|q|]]; try done.
  unfold recv_stats. rewrite bind_get, Ho. destruct (statsHandler (g_opts s)); [|done].
  unfold skip_header, lift, mbind, st_bind. destruct (Nat.ltb_spec (String.length b) 5); [|done]. simpl. eauto 10.
Qed.
End Spec.

(** ** What every handler keeps of the response writer

    A property of the writer that the calls of the stream on it keep: writes of at
    least a prefix, flushes, and the header with metadata in lower case. *)
Section Kept.
Context `{P : Protoreflect} `{R : GoRange} `{F : Fmt} `{GS : !GrpcStatus} `{MDJ : Metadata}.
Context {W : Type} `{RW : ResponseWriter W}.

Record stable (Q : W -> Prop) : Prop := {
  stable_write b w : 5 <= String.length b -> Q w -> Q (fst (w_Write b w));
  stable_flush w : Q w -> Q (w_Flush w);
  stable_headers ct me md w : lower_keys md -> Q w -> Q (w_set_header (grpc_headers ct me md) w);
}.

Context (Q : W -> Prop) (HQ : stable Q).
Local Abbreviation T := (streamGRPC (W := W)).

Definition well (s : T) : Prop := Q (g_w s) /\ lower_keys (g_header s) /\ lower_keys (g_trailer s).
Definition stays (s s' : T) : Prop := well s -> well s'.

#[local] Instance stays_refl : Reflexive stays.
Proof. by intros s H. Qed.
#[local] Instance stays_trans : Transitive stays.
Proof. intros s1 s2 s3 H1 H2 H. by apply H2, H1. Qed.

Lemma stays_const {A} (o : T -> go A) : keeps stays (fun s => (s, o s)).
Proof. by intros s H. Qed.
Lemma stays_lift {A} (o : go A) : keeps stays (lift o).
Proof. by intros s H. Qed.
Lemma stays_isDone : keeps stays isDone.
Proof. intros s. unfold isDone, stays. by destruct (ctx_errs (g_ctx s)). Qed.
Lemma stays_pooled : keeps stays pooled_slice.
Proof. intros s. unfold pooled_slice, stays. by destruct (g_caps s). Qed.
Lemma stays_read_full n : keeps stays (read_full n).
Proof. intros s. unfold read_full, stays. by destruct (ReadFull _ _). Qed.
Lemma stays_or_conn_error {A} code (m : st T error A) : keeps stays m -> keeps stays (or_conn_error code m).
Proof. intros Hm s. unfold or_conn_error. specialize (Hm s). by destruct (m s) as [s1 [a|e|p|]]. Qed.
Lemma stays_flush : keeps stays flush_w.
Proof using HQ. intros s. unfold flush_w. destruct (w_is_flusher (g_w s)); [|done]. intros (? & ? & ?). split_and!; [by apply stable_flush|done..]. Qed.
Lemma stays_write frame : 5 <= String.length frame -> keeps stays (on_w (w_Write frame)).
Proof using HQ.
  intros Hl s (H & Hh & Ht). unfold on_w. pose proof (stable_write Q HQ frame (g_w s) Hl H) as H'.
  by destruct (w_Write frame (g_w s)) as [w o].
Qed.
Lemma stays_stat sts : keeps (E := error) stays (modify (g_stat sts)).
Proof. by intros s H. Qed.

#[local] Hint Resolve stays_lift stays_isDone stays_pooled stays_read_full stays_or_conn_error stays_flush stays_stat : keeps.

Lemma stays_SendHeader md : lower_keys md -> keeps stays (grpc_SendHeader md).
Proof using HQ.
  intros Hmd. unfold grpc_SendHeader. apply keeps_bind; [apply _|keep|]. intros _.
  apply keeps_bind; [apply _|apply (stays_const Ok)|]. intros s. apply keeps_if; [keep|].
  intros s1 (H & Hh & Ht). unfold mbind, st_bind, modify. cbn [fst].
  assert (Hj : lower_keys (Join (g_header s1) md)) by (by apply lower_keys_Join).
  split_and!; [|exact Hj|exact Ht]. by apply (stable_headers Q HQ).
Qed.

Lemma frame_length comp cap b size frame n : compress_frame comp cap b size = Ok (frame, n) -> 5 <= String.length frame.
Proof.
  unfold compress_frame. destruct comp as [c|]; [|intros [= <- _]; simpl; lia].
  destruct (compress c _); [|done..]. cbn [mbind outcome_bind]. destruct (reslice _ _); [|done..].
  intros [= <- _]. simpl. lia.
Qed.

Lemma stays_SendMsg m : keeps stays (grpc_SendMsg m).
Proof using HQ.
  unfold grpc_SendMsg. apply keeps_bind; [apply _|keep|]. intros _. apply keeps_bind; [apply _|keep|]. intros s.
  apply keeps_bind; [apply _|apply keeps_if; [keep|apply stays_SendHeader, lower_keys_empty]|]. intros _.
  apply keeps_bind; [apply _|keep|]. intros cap. apply keeps_bind; [apply _|keep|]. intros s'.
  apply keeps_bind; [apply _|keep|]. intros b. cbv zeta. apply keeps_if; [keep|].
  intros s1. unfold mbind at 1, st_bind at 1, lift at 1.
  destruct (compress_frame _ _ _ _) as [[frame n]|e|q|] eqn:E; [|by cbn..]. apply frame_length in E.
  revert s1. apply keeps_bind; [apply _|apply stays_or_conn_error; by apply stays_write|]. intros _.
  apply keeps_bind; [apply _|keep|]. intros _. apply keeps_if; [|keep]. apply keeps_bind; [apply _|keep|]. intros payload. keep.
Qed.

Lemma stays_recv_payload : keeps stays recv_payload.
Proof.
  unfold recv_payload. apply keeps_bind; [apply _|keep|]. intros _. apply keeps_bind; [apply _|keep|]. intros cap.
  apply keeps_bind; [apply _|keep|]. intros head. cbv zeta. apply keeps_bind; [apply _|keep|]. intros size.
  apply keeps_bind; [apply _|keep|]. intros s. apply keeps_if; [keep|]. apply keeps_bind; [apply _|keep|]. intros c.
  apply keeps_bind; [apply _|keep|]. intros b. keep.
Qed.

Lemma stays_recv_stats m b : keeps stays (recv_stats m b).
Proof.
  unfold recv_stats. apply keeps_bind; [apply _|keep|]. intros s. apply keeps_if; [|keep].
  apply keeps_bind; [apply _|keep|]. intros payload. keep.
Qed.

Lemma run_well {A} (p : prog A) s : lower_metadata p -> well s -> well (fst (run p s)).
Proof using HQ.
  apply run_invariant; clear s.
  - intros md s Hmd (H & Hh & Ht). cbn. unfold grpc_SetHeader. destruct (g_sentHeader s); [done|].
    split_and!; [done|by apply lower_keys_Join|done].
  - intros md s Hmd H. by apply stays_SendHeader.
  - intros md s Hmd (H & Hh & Ht). split_and!; [done|done|by apply lower_keys_Join].
  - intros m s H. by apply stays_SendMsg.
  - intros m s H. cbn. pose proof (stays_recv_payload s H) as H1.
    destruct (recv_payload s) as [s1 [b|e|q|]]; try done. destruct (Unmarshal _ _ _) as [m1 [[]|e|q|]]; try done.
    pose proof (stays_recv_stats m1 b s1 H1) as H2. by destruct (recv_stats m1 b s1).
Qed.
End Kept.

(** ** Witnesses *)

(** A codec whose encoding of a message is its text, and the streams of a request. *)
Module SampleGRPC.
Definition text (m : xmsg) : string := match m with XText _ t => t | _ => "" end.
Definition message (t : string) : @Message plain_proto := XText (XMessage "pkg.M" []) t.
Definition codec : @Codec plain_proto :=
  MkCodec "text" (fun m => Ok (text m)) (fun b m => if String.length (text m) <? 1000 then Ok (b ++ text m)%string
                             else Err (External "too long")) (fun b m => (XText (xmsg_descriptor m) b, Ok tt)) None.
Definition gz : Compressor := MkCompressor "gzip" gunzip None (gzip_emit 0) (gzip_end 0).
Definition opts (stats : bool) : @muxOptions plain_proto :=
  MuxOptions (tt : @Types plain_proto) stats ([] : @Files plain_proto) None None None ∅ ∅ ∅ emptySelector [] [] 4194304 2147483647 120.
Definition echo : @handler plain_proto :=
  MkHandler 0 (XMethod "Echo" (XMessage "pkg.M" []) (XMessage "pkg.M" []) false false None)
    (fun _ => PRecvMsg (message "") (fun m e => on_nil e (PSendMsg m (fun e => on_nil e (PReturn tt))))) "/pkg.S/Echo".
Definition new_stream (stats : bool) (comp : option Compressor) (r : reader) : stream (P := plain_proto) (Wr := response) :=
  StreamGRPC (opts stats) (MkContext None [] []) echo codec comp new_response r ∅ ∅ "application/grpc" "" false [] [].
End SampleGRPC.
Import SampleGRPC.

Lemma grpc_message_roundtrip_witness :
  let s := new_stream false (Some gz) [] in
  exists s' frame, grpc_SendMsg (message "hello") s = (s', Ok tt) /\
  exists t', grpc_RecvMsg (new_stream false (Some gz) [Chunk (str_take 3 frame) None; Chunk (str_drop 3 frame) None], message "")
    = ((t', message "hello"), Ok tt).
Proof.
  intros s. destruct (grpc_message_roundtrip s (message "hello") "hello") as (s' & frame & H & Hb & Ht).
  - split; [done|]. split; [constructor|by split].
  - reflexivity.
  - simpl. lia.
  - simpl. lia.
  - simpl. eexists. split; [reflexivity|]. split; [simpl; lia|]. eexists. split; reflexivity.
  - exists s', frame. split; [exact H|].
    assert (Hf : frame = String "001" (PutUint32 6 ++ String "031" "hello")).
    { assert (E : grpc_SendMsg (message "hello") s = (s', Ok tt)) by exact H. vm_compute in E.
      injection E as <-. vm_compute in Hb. symmetry. exact Hb. }
    destruct (Ht (new_stream false (Some gz) [Chunk (str_take 3 frame) None; Chunk (str_drop 3 frame) None])
      (message "") "") as (t' & Hr & _); try reflexivity.
    + rewrite Hf. simpl. lia.
    + constructor.
    + repeat constructor.
    + change (reader_data _) with (str_take 3 frame ++ (str_drop 3 frame ++ ""))%string.
      by rewrite !str_app_nil_r, str_take_drop.
    + exists t'. exact Hr.
Defined.

Lemma grpc_run_frames_witness :
  let s := new_stream false None [Chunk (String "000" (PutUint32 2 ++ "hi")) None] in
  frames_since s (fst (run (h_handler echo (opts false)) s)) /\
  sent_body (g_w (fst (run (h_handler echo (opts false)) s))) = String "000" (PutUint32 2 ++ "hi").
Proof.
  intros s. split; [|vm_compute; reflexivity]. apply grpc_run_frames; [|by split].
  split; [|intros c e z [=]]. intros m b. cbn [MarshalAppend g_codec s new_stream codec].
  destruct (Nat.ltb_spec (String.length (text m)) 1000) as [Hl|]; [|done]. intros [= <-].
  exists (text m). split; [done|lia].
Defined.

(** An empty message, and a handler of statistics. *)
Lemma grpc_recv_safe_witness :
  let s := new_stream true None [Chunk (String "000" (PutUint32 0)) None] in
  (caps_ok s /\ libs_return s) /\ snd (grpc_RecvMsg (s, message "")) = Panic SliceOutOfRange /\
  statsHandler (g_opts s) = true.
Proof.
  intros s. assert (H : caps_ok s /\ libs_return s) by (split; [constructor|by split]).
  split; [exact H|]. split; [vm_compute; reflexivity|].
  pose proof (grpc_recv_safe s (message "") (proj1 H) (proj2 H)) as Hs.
  vm_compute in Hs. exact (proj1 (proj2 Hs)).
Defined.

(** A body that ends after a prefix is read as the end of the stream. *)
Lemma grpc_truncated_example :
  snd (grpc_RecvMsg (new_stream false None [Chunk (String "000" (PutUint32 7)) None], message "")) = Err EOF.
Proof. vm_compute. reflexivity. Qed.
