(* ===== verification/Mux.v ===== *)
(** The mux of larking/mux.go and its registration of larking/handler.go: options,
    default codecs and compressors, the state (routes, connections, handlers), and
    the operations that change and read it.  The calls of the reflection client are
    in Conn.v, the HTTP side in Serve.v. *)

#[local] Set Warnings "-register-all".
From S2P Require Import Prelude Status Runes IO Http Base64 Proto Params Metadata Compress Codec Selector Stream Framing Routes RouteTree RouteRules RouteAdd RouteSearch RouteDelete RouteNames.

(** ** Default codecs and compressors *)

(** [proto.MarshalOptions], [proto.Unmarshal], [protojson.MarshalOptions] and
    [protojson.UnmarshalOptions] with their zero values. *)
Class Marshaling `{P : Protoreflect} := {
  proto_Marshal : Message -> go string;
  proto_MarshalAppend : string -> Message -> go string;
  proto_Unmarshal : string -> st Message error unit;
  protojson_Marshal : Message -> go string;
  protojson_MarshalAppend : string -> Message -> go string;
  protojson_UnmarshalMessage : string -> st Message error unit;
}.

Section Mux.
Context `{U : Unicode} `{P : Protoreflect} `{MA : @Marshaling P} `{GZ : Gzip} `{G : GoAppend} `{W : Protowire} `{R : GoRange}.

Definition codecProto : Codec := {|
  codec_Name := codecName KProto;
  Marshal := proto_Marshal;
  MarshalAppend := proto_MarshalAppend;
  Unmarshal := proto_Unmarshal;
  streaming := Some proto_stream;
|}.

Definition codecJSON : Codec := {|
  codec_Name := codecName KJSON;
  Marshal := protojson_Marshal;
  MarshalAppend := protojson_MarshalAppend;
  Unmarshal := protojson_UnmarshalMessage;
  streaming := Some json_stream;
|}.

Definition codecHTTPBody : Codec := {|
  codec_Name := codecName KBody;
  Marshal _ := notImplemented;
  MarshalAppend _ _ := notImplemented;
  Unmarshal _ m := (m, notImplemented);
  streaming := Some (MkStreamCodec (fun limit => codecHTTPBody_ReadNext limit) plain_writes);
|}.

Definition defaultCodecs : gmap string Codec :=
  <["application/json" := codecJSON]> (<["application/protobuf" := codecProto]>
  (<["application/octet-stream" := codecProto]> (<["google.api.HttpBody" := codecHTTPBody]> ∅))).

(** [CompressorGzip], whose pools do not show (Compress.v). *)
Definition compressorGzip : Compressor :=
  MkCompressor gzipName gunzip
    None (gzip_emit DefaultCompression) (gzip_end DefaultCompression).

Definition defaultCompressors : gmap string (option Compressor) :=
  <["gzip" := Some compressorGzip]> (<["identity" := None]> ∅).

(** ** Options *)

Definition defaultServerMaxReceiveMessageSize : Z := 1024 * 1024 * 4.
Definition defaultServerMaxSendMessageSize : Z := 2 ^ 31 - 1.
Definition defaultServerConnectionTimeout : Z := 120 * 1000000000.

(** [protoregistry.GlobalFiles] and [GlobalTypes] are arguments. *)
Definition defaultMuxOptions (globalFiles : Files) (globalTypes : Types) : muxOptions := {|
  types := globalTypes; statsHandler := false; files := globalFiles; serviceConfig := None;
  unaryInterceptor := None; streamInterceptor := None;
  codecs := ∅; codecsByName := ∅; compressors := ∅; httprules := emptySelector;
  contentTypeOffers := []; encodingTypeOffers := [];
  maxReceiveMessageSize := defaultServerMaxReceiveMessageSize;
  maxSendMessageSize := defaultServerMaxSendMessageSize;
  connectionTimeout := defaultServerConnectionTimeout;
|}.

Definition MuxOption : Type := muxOptions -> go muxOptions.

Definition UnaryServerInterceptorOption (i : option UnaryServerInterceptor) : MuxOption := fun '(MuxOptions t s f sc u si cs cn cz hr ct et mr ms c) =>
  Ok (MuxOptions t s f sc i si cs cn cz hr ct et mr ms c).
Definition StreamServerInterceptorOption (i : option StreamServerInterceptor) : MuxOption := fun '(MuxOptions t s f sc u si cs cn cz hr ct et mr ms c) =>
  Ok (MuxOptions t s f sc u i cs cn cz hr ct et mr ms c).
Definition StatsOption (h : bool) : MuxOption := fun '(MuxOptions t s f sc u si cs cn cz hr ct et mr ms c) =>
  Ok (MuxOptions t h f sc u si cs cn cz hr ct et mr ms c).
Definition MaxReceiveMessageSizeOption (n : Z) : MuxOption := fun '(MuxOptions t s f sc u si cs cn cz hr ct et mr ms c) =>
  Ok (MuxOptions t s f sc u si cs cn cz hr ct et n ms c).
Definition MaxSendMessageSizeOption (n : Z) : MuxOption := fun '(MuxOptions t s f sc u si cs cn cz hr ct et mr ms c) =>
  Ok (MuxOptions t s f sc u si cs cn cz hr ct et mr n c).
Definition ConnectionTimeoutOption (d : Z) : MuxOption := fun '(MuxOptions t s f sc u si cs cn cz hr ct et mr ms c) =>
  Ok (MuxOptions t s f sc u si cs cn cz hr ct et mr ms d).
Definition TypesOption (ts : Types) : MuxOption := fun '(MuxOptions t s f sc u si cs cn cz hr ct et mr ms c) =>
  Ok (MuxOptions ts s f sc u si cs cn cz hr ct et mr ms c).
Definition FilesOption (fs : Files) : MuxOption := fun '(MuxOptions t s f sc u si cs cn cz hr ct et mr ms c) =>
  Ok (MuxOptions t s fs sc u si cs cn cz hr ct et mr ms c).
Definition CodecOption (contentType : string) (codec : Codec) : MuxOption := fun '(MuxOptions t s f sc u si cs cn cz hr ct et mr ms c) =>
  Ok (MuxOptions t s f sc u si (<[contentType := codec]> cs) cn cz hr ct et mr ms c).
Definition CompressorOption (contentEncoding : string) (comp : option Compressor) : MuxOption := fun '(MuxOptions t s f sc u si cs cn cz hr ct et mr ms c) =>
  Ok (MuxOptions t s f sc u si cs cn (<[contentEncoding := comp]> cz) hr ct et mr ms c).
(** [setRules] panics for a misplaced wildcard. *)
Definition ServiceConfigOption (rules : list HttpRule) : MuxOption := fun '(MuxOptions t s f sc u si cs cn cz hr ct et mr ms c) =>
  hr ← setRules rules emptySelector;
  Ok (MuxOptions t s f (Some rules) u si cs cn cz hr ct et mr ms c).

Fixpoint apply_options (os : list MuxOption) (o : muxOptions) : go muxOptions :=
  match os with
  | [] => Ok o
  | f :: os => o ← f o; apply_options os o
  end.

(** [sort.Strings] *)
Definition str_le (a b : string) : Prop := String.leb a b = true.
#[export] Instance str_le_dec : RelDecision str_le.
Proof. intros a b. unfold str_le. apply _. Defined.
Definition sort_Strings : list string -> list string := merge_sort str_le.

(** The codecs and the compressors that an option set stay; both lists of offers
    are made of the keys of the codecs. *)
Definition with_defaults (o : muxOptions) : muxOptions :=
  let codecs := codecs o ∪ defaultCodecs in
  let byName := foldl (fun m '(_, v) => <[codec_Name v := v]> m) ∅ (range codecs) in
  let compressors := compressors o ∪ defaultCompressors in
  MuxOptions (types o) (statsHandler o) (files o) (serviceConfig o) (unaryInterceptor o) (streamInterceptor o)
    codecs byName compressors (httprules o)
    (sort_Strings (contentTypeOffers o ++ (range codecs).*1))
    (sort_Strings (encodingTypeOffers o ++ (range codecs).*1))
    (maxReceiveMessageSize o) (maxSendMessageSize o) (connectionTimeout o).

(** ** State *)

(** A connection is a pointer, here a number. *)
Record connList := ConnList { cl_handlers : list handler; fdHash : string }.

Record state := State {
  st_path : path;
  st_conns : gmap nat connList;
  st_handlers : gmap string (list handler);
}.

Definition set_path_ (p : path) (s : state) : state := State p (st_conns s) (st_handlers s).
Definition set_conns (f : gmap nat connList -> gmap nat connList) (s : state) : state :=
  State (st_path s) (f (st_conns s)) (st_handlers s).
Definition set_handlers (f : gmap string (list handler) -> gmap string (list handler)) (s : state) : state :=
  State (st_path s) (st_conns s) (f (st_handlers s)).

(** [clone] of a nil state is the empty state; handlers are shared. *)
Definition state_clone (s : option state) : state :=
  match s with
  | None => State newPath ∅ ∅
  | Some s => State (clone (st_path s)) (st_conns s) (st_handlers s)
  end.

(** [next_handler] numbers the handlers that are allocated. *)
Record Mux := MkMux { opts : muxOptions; loadState : option state; next_handler : nat }.

Definition storeState (s : state) (m : Mux) : Mux := MkMux (opts m) (Some s) (next_handler m).

Definition NewMux (globalFiles : Files) (globalTypes : Types) (os : list MuxOption) : go Mux :=
  o ← apply_options os (defaultMuxOptions globalFiles globalTypes);
  Ok (MkMux (with_defaults o) None 0).

(** ** appendHandler *)

Definition implicitRule (h : handler) : HttpRule := Rule "" (HttpRule_Custom (Some (MkCustomHttpPattern "*" (h_method h)))) "*" "" [].

(** A call on [s.path]. *)
Definition on_path {A} (m : st path error A) : st state error A := fun s =>
  let '(p, o) := m (st_path s) in (set_path_ p s, o).

(** [if err := m; err != nil { return g(err) }], or a panic. *)
Definition map_err {S A} (g : error -> go A) (m : st S error A) : st S error A := fun s =>
  match m s with (s, Err e) => (s, g e) | r => r end.

(** All rules of a service configuration. *)
Fixpoint add_rules (fmt : string) (rules : list HttpRule) (desc : MethodDescriptor) (n : string) : st state error unit :=
  match rules with
  | [] => mret tt
  | rule :: rules =>
      map_err (fun e => Err (Errorf fmt [AStr (MethodFullName desc); AErr e])) (on_path (addRule rule desc n));;
      add_rules fmt rules desc n
  end.

Definition push_handler (h : handler) (s : state) : state :=
  set_handlers (fun hs => <[h_method h := default [] (hs !! h_method h) ++ [h]]> hs) s.

Definition appendHandler (o : muxOptions) (desc : MethodDescriptor) (h : handler) : st state error unit :=
  map_err (fun e => Panic (PanicCall "bug: %v")) (on_path (addRule (implicitRule h) desc (h_method h)));;
  add_rules "[%s] invalid ServiceConfig.http rule %s: %w" (getRules (httprules o) (MethodFullName desc)) desc (h_method h);;
  add_rules "[%s] invalid rule %s: %w" (option_list (MethodHTTP desc)) desc (h_method h);;
  modify (push_handler h).

(** ** removeHandler *)

(** One handler of a connection: the others of its method stay. *)
Definition remove_one (s : state) (hd : handler) : state :=
  let name := h_method hd in
  let hds := filter (fun mhd => h_id mhd <> h_id hd) (default [] (st_handlers s !! name)) in
  match hds with
  | [] => State (fst (delRule name (st_path s))) (st_conns s) (delete name (st_handlers s))
  | _ => set_handlers <[name := hds]> s
  end.

Definition removeHandler (cc : nat) (s : state) : state * bool :=
  match st_conns s !! cc with
  | None => (s, false)
  | Some cl => (set_conns (delete cc) (foldl remove_one s (cl_handlers cl)), true)
  end.

(** [DropConn] works on a copy of the state and does not store it. *)
Definition DropConn (cc : nat) (m : Mux) : Mux * bool :=
  let s := state_clone (loadState m) in
  (m, snd (removeHandler cc s)).

(** ** Registration, larking/handler.go *)

(** [grpc.ServiceDesc]: the handlers are generated code; a unary one decodes with
    [RecvMsg] of the stream. *)
Record MethodDesc := MkMethodDesc {
  md_MethodName : string;
  md_Handler : context -> option UnaryServerInterceptor -> prog Message;
}.
Record StreamDesc := MkStreamDesc {
  sd_StreamName : string;
  sd_Handler : prog unit;
  sd_ServerStreams : bool;
  sd_ClientStreams : bool;
}.
Record ServiceDesc := MkServiceDesc {
  ServiceName : string;
  Methods : list MethodDesc;
  Streams : list StreamDesc;
}.

(** The name of a method and what its handler does. *)
Definition unary_entry (d : MethodDesc) : string * (string -> muxOptions -> prog unit) :=
  (md_MethodName d, fun _ o =>
     PContext (fun ctx => pbind (md_Handler d ctx (unaryInterceptor o))
       (fun reply => PSendMsg reply (fun err => on_nil err (PReturn tt))))).

Definition stream_entry (d : StreamDesc) : string * (string -> muxOptions -> prog unit) :=
  (sd_StreamName d, fun method o =>
     opts_stream o (MkStreamServerInfo method (sd_ClientStreams d) (sd_ServerStreams d)) (sd_Handler d)).

Definition entries (gsd : ServiceDesc) : list (string * (string -> muxOptions -> prog unit)) :=
  (unary_entry <$> Methods gsd) ++ (stream_entry <$> Streams gsd).

Definition findMethod (sd : ServiceDescriptor) (name : string) : go MethodDescriptor :=
  match MethodByName sd name with
  | Some md => Ok md
  | None => Err (Errorf "missing method descriptor for %v" [AStr name])
  end.

Definition method_path (service name : string) : string := ("/" ++ service ++ "/" ++ name)%string.

Fixpoint register_entries (o : muxOptions) (sd : ServiceDescriptor) (service : string) (n : nat)
    (es : list (string * (string -> muxOptions -> prog unit))) : st state error unit :=
  match es with
  | [] => mret tt
  | (name, f) :: es =>
      let method := method_path service name in
      match findMethod sd name with
      | Ok md => appendHandler o md (MkHandler n md (f method) method);;
                 register_entries o sd service (S n) es
      | Err e => throw e
      | Panic p => crash p
      | OutOfFuel => stuck
      end
  end.

(** What is left when a call is over: the stored state only changes with success. *)
Definition commit (n : nat) (r : state * go unit) (m : Mux) : Mux * go unit :=
  let m' := MkMux (opts m) (loadState m) n in
  match r with
  | (s, Ok _) => (storeState s m', Ok tt)
  | (_, o) => (m', o)
  end.

Definition registerService (gsd : ServiceDesc) (m : Mux) : Mux * go unit :=
  let s := state_clone (loadState m) in
  match FindDescriptorByName (files (opts m)) (ServiceName gsd) with
  | FoundNothing e => (m, Err e)
  | FoundOther od => (m, Err (Errorf "invalid method descriptor %T" [AStr (OtherType od)]))
  | FoundService sd =>
      commit (next_handler m + length (entries gsd))
        (register_entries (opts m) sd (ServiceName gsd) (next_handler m) (entries gsd) s) m
  end.

(** [log.Fatalf] ends the program. The implementation is nil, or does or does not
    have the methods of the handler type. *)
Definition RegisterService (gsd : ServiceDesc) (ss : option bool) (m : Mux) : Mux * go unit :=
  match ss with
  | Some false => (m, Panic (PanicCall "larking: RegisterService found the handler of type %v that does not satisfy %v"))
  | _ => match registerService gsd m with
         | (m, Err e) => (m, Panic (PanicCall "larking: RegisterService error: %v"))
         | r => r
         end
  end.

(** ** Dispatch *)

(** [rand.Intn] picks; the number is reduced to its range. *)
Definition pickMethodHandler (pick : nat) (s : option state) (name : string) : go handler :=
  let hds := match s with Some s => default [] (st_handlers s !! name) | None => [] end in
  match hds !! (pick `mod` length hds) with
  | Some hd => Ok hd
  | None => Err (StatusError codes.Unimplemented "method %s not implemented" [AStr name])
  end.

Definition state_match (s : option state) (route verb : string) : go (method * list param) :=
  match s with
  | None => Err (StatusError codes.NotFound "not found" [])
  | Some s => match_route (st_path s) route verb
  end.
End Mux.
