(* ===== verification/MuxSpec.v ===== *)
(** The theorems of the mux: what registration leaves in its state, that a method is
    registered once, that a matched route has its handler, and what a new mux
    offers to negotiate. *)

#[local] Set Warnings "-register-all".
From S2P Require Import Prelude Status Runes IO Http Negotiate Base64 Proto Lexer LexerSpec Params Metadata Compress Codec Selector Stream Routes RouteTree RouteRules RouteWalk RouteAdd RouteSearch RouteDelete RouteNames Mux.

(** ** The template of a method's own path *)

Definition method_template (service name : string) : template :=
  MkTemplate (SPiece ∘ PLiteral <$> [service; name]) None.

Section Names.
Context `{U : Unicode} `{P : Protoreflect}.

(** Names of two letters or more that the lexer takes. *)
Definition names_ok (service name : string) : Prop := segment_literal service /\ segment_literal name.

#[export] Instance names_ok_dec service name : Decision (names_ok service name).
Proof. apply _. Defined.

Lemma method_template_text service name : template_text (method_template service name) = method_path service name.
Proof. unfold template_text, method_path, tokens_String. cbn. by rewrite ?str_app_nil_r. Qed.

Lemma method_template_ok service name : names_ok service name -> template_ok (method_template service name).
Proof.
  intros [Hs Hn]. split_and!; [done| |done|simpl; unfold max_tokens; lia].
  apply Forall_fmap, Forall_cons; split; [|apply Forall_singleton]; (split; [by apply Forall_singleton|done]).
Qed.

Lemma method_patterns_ok service name : names_ok service name -> patterns_ok pattern_ok (method_template service name).
Proof.
  intros [Hs Hn]. assert (H : forall v, segment_literal v -> pattern_ok [PLiteral v]).
  { intros v Hv. split; [split; [by apply Forall_singleton|simpl; unfold max_tokens; lia]|apply not_elem_of_nil]. }
  apply Forall_fmap, Forall_cons; split; [|apply Forall_singleton]; by apply H.
Qed.

Lemma segment_literal_path v : segment_literal v -> word isPath v.
Proof.
  intros (r & rs & E & Hr & _ & Hrs). split.
  - intros ->. by rewrite runes_nil in E.
  - rewrite E. assert (H : forall r, isLiteral r = true -> isPath r = true) by (intros x Hx; unfold isPath; by rewrite Hx).
    constructor; [by apply H, IsLetter_isLiteral|]. by eapply Forall_impl.
Qed.

Lemma method_path_lexed service name :
  names_ok service name ->
  run_lexer lexPath (method_path service name) = Ok (parts_tokens [(Slash, service); (Slash, name)]).
Proof.
  intros [Hs Hn]. apply lexPath_iff. split_and!; [|by rewrite <-method_template_text|simpl; unfold max_tokens; lia].
  by repeat first [apply segment_literal_path | constructor].
Qed.

(** ** Rules that keep the tree well formed *)

Definition good_rule (rule : HttpRule) : Prop :=
  registrable pattern_ok rule /\ Forall (registrable pattern_ok) (AdditionalBindings rule).

Lemma implicit_good h service name :
  names_ok service name -> h_method h = method_path service name -> good_rule (implicitRule h).
Proof.
  intros Hok E. split; [|constructor].
  apply (registrable_template _ "*" (method_template service name)).
  - by rewrite method_template_text, <-E.
  - exact (method_template_ok _ _ Hok).
  - exact (method_patterns_ok _ _ Hok).
Qed.

(** Every rule of the service configuration is good, and every annotation of a
    method. *)
Definition config_ok (o : muxOptions) : Prop := forall name, Forall good_rule (getRules (httprules o) name).
Definition annotation_ok (desc : MethodDescriptor) : Prop := forall rule, MethodHTTP desc = Some rule -> good_rule rule.

(** ** The invariant of the state *)

(** The node of a method's own path has that method for every verb. *)
Definition implicit_at (p : path) (name : string) : Prop :=
  exists service meth q m, name = method_path service meth /\ names_ok service meth /\
    node_at (template_edges (method_template service meth)) p = Some q /\
    methodAll q = Some m /\ method_name m = name.

Record state_ok (s : state) : Prop := {
  so_tree : tree pattern_ok 0 (st_path s);
  so_methods : all_methods (fun m => is_Some (st_handlers s !! method_name m)) (st_path s);
  so_handlers : forall name hds, st_handlers s !! name = Some hds ->
    (exists hd, hds = [hd] /\ h_method hd = name) /\ implicit_at (st_path s) name;
}.

Lemma state_ok_empty : state_ok (State newPath ∅ ∅).
Proof. split; [apply tree_newPath|apply all_methods_newPath|]. intros ??. simpl. by rewrite lookup_empty. Qed.

Lemma implicit_at_extends p p' name :
  tree pattern_ok 0 p' -> extends p p' -> implicit_at p name -> implicit_at p' name.
Proof.
  intros Ht He (sv & me & q & m & -> & Hok & Hq & Ha & Hm).
  destruct (node_at_extends _ _ _ _ _ _ He Ht Hq) as (q' & Hq' & He').
  destruct He' as [q q' _ Hall _ _]. exists sv, me, q', m. split_and!; [done|done|done|by apply (Hall m)|done].
Qed.
End Names.

Section Append.
Context `{U : Unicode} `{P : Protoreflect}.
Context (o : muxOptions) (Hcfg : config_ok o).

(** What a list of good rules for a name does, when it succeeds. *)
Definition grows (n : string) (s s' : state) : Prop :=
  st_handlers s' = st_handlers s /\ st_conns s' = st_conns s /\ extends (st_path s) (st_path s') /\
  tree pattern_ok 0 (st_path s') /\
  forall N : method -> Prop, (forall m, method_name m = n -> N m) ->
    all_methods N (st_path s) -> all_methods N (st_path s').

Lemma grows_refl n s : tree pattern_ok 0 (st_path s) -> grows n s s.
Proof. by intros ?. Qed.

Lemma grows_trans n s1 s2 s3 : grows n s1 s2 -> grows n s2 s3 -> grows n s1 s3.
Proof.
  intros (H1 & H2 & H3 & H4 & H5) (G1 & G2 & G3 & G4 & G5).
  split_and!; [congruence|congruence|by etransitivity|done|auto].
Qed.

Lemma on_path_grows f rule desc n s s' :
  good_rule rule -> tree pattern_ok 0 (st_path s) ->
  map_err (fun e => f e) (on_path (addRule rule desc n)) s = (s', Ok tt) -> (forall e, f e <> Ok tt) ->
  grows n s s' /\ addRule rule desc n (st_path s) = (st_path s', Ok tt).
Proof.
  intros [Hr Hrs] Ht. unfold map_err, on_path. destruct (addRule rule desc n (st_path s)) as [p [[]|e|q|]] eqn:E; simpl.
  - intros [= <-] _. split; [|done]. destruct (addRule_ok_keeps pattern_ok rule desc n _ _ _ Hr Hrs Ht E) as [Hp He].
    split_and!; [done..|]. intros N HN Hall.
    apply (all_methods_addRule N desc n (fun m Hm _ => HN m Hm) rule _ _ _ Hall E).
  - intros [= <- E'] H. by destruct (H e).
  - done.
  - done.
Qed.

Lemma add_rules_grows fmt rules desc n s s' :
  Forall good_rule rules -> tree pattern_ok 0 (st_path s) ->
  add_rules fmt rules desc n s = (s', Ok tt) -> grows n s s'.
Proof.
  intros Hrs. revert s. induction Hrs as [|r rules Hr _ IH]; intros s Ht; simpl.
  - intros [= <-]. by apply grows_refl.
  - intros (s1 & [] & E1 & E2)%st_bind_ok.
    destruct (on_path_grows _ r desc n s s1 Hr Ht E1) as [Hg _]; [done|].
    eapply grows_trans; [exact Hg|]. apply IH; [|done]. by destruct Hg as (_ & _ & _ & ? & _).
Qed.

(** The implicit rule at a node that has a method for every verb panics. *)
Lemma implicit_panics h desc p :
  tree pattern_ok 0 p -> implicit_at p (h_method h) ->
  addRule (implicitRule h) desc (h_method h) p = (p, Panic NilDereference).
Proof.
  intros Ht (sv & me & q & m & Hn & Hok & Hq & Ha & _).
  pose proof (addRule1_at (implicitRule h) desc (h_method h) p "*" (method_template sv me) q) as H.
  rewrite method_template_text in H. specialize (H ltac:(by rewrite <-Hn) (method_template_ok _ _ Hok) ltac:(done) Hq).
  pose proof (tree_no_star _ _ _ _ _ Ht Hq) as Hstar.
  rewrite Hstar, Ha in H. rewrite addRule_unfold. unfold mbind, st_bind. by rewrite H.
Qed.

(** A registered implicit rule. *)
Lemma implicit_registered h desc sv me p p' :
  names_ok sv me -> h_method h = method_path sv me -> tree pattern_ok 0 p ->
  addRule (implicitRule h) desc (h_method h) p = (p', Ok tt) -> implicit_at p' (h_method h).
Proof.
  intros Hok E Ht Hadd. rewrite addRule_no_bindings in Hadd by done.
  destruct (addRule1 (implicitRule h) desc (h_method h) p) as [p1 o1] eqn:E1.
  assert (Hpat : rule_pattern (implicitRule h) = Ok ("*", template_text (method_template sv me)))
    by (by rewrite method_template_text, <-E).
  destruct (addRule1_run _ _ _ _ _ _ _ _ Hpat (method_template_ok _ _ Hok) E1) as [[Hf _]|(fs & q & _ & Hq & H)]; [done|].
  pose proof (tree_place_template pattern_ok _ 0 p (method_patterns_ok _ _ Hok) Ht) as Hpt.
  rewrite (tree_no_star _ _ _ _ _ Hpt Hq) in H.
  destruct (methodAll q) as [y|] eqn:Ea; [destruct H as [_ ->]; by simplify_eq|].
  destruct H as [[_ [e ->]]|(m & Hm & -> & ->)]; [done|]. injection Hadd as <-.
  exists sv, me, (registerMethod "*" m q), m.
  split_and!; [done|done| |done|by eapply rule_method_name].
  exact (node_at_modify (template_edges (method_template sv me)) _ _ _ Hq).
Qed.

Lemma push_handler_lookup h s name :
  st_handlers (push_handler h s) !! name =
    if decide (name = h_method h) then Some (default [] (st_handlers s !! name) ++ [h]) else st_handlers s !! name.
Proof.
  unfold push_handler. simpl. destruct (decide (name = h_method h)) as [->|Hne]; [apply lookup_insert_eq|].
  by apply lookup_insert_ne.
Qed.

Lemma appendHandler_ok desc h sv me s s' :
  names_ok sv me -> annotation_ok desc -> h_method h = method_path sv me -> state_ok s ->
  appendHandler o desc h s = (s', Ok tt) ->
  state_ok s' /\ extends (st_path s) (st_path s') /\ st_conns s' = st_conns s /\
  st_handlers s !! h_method h = None /\ st_handlers s' = <[h_method h := [h]]> (st_handlers s).
Proof using Hcfg.
  intros Hok Hann E [Ht Hm Hh] Happ. unfold appendHandler in Happ.
  apply st_bind_ok in Happ as (s1 & [] & E1 & Happ). apply st_bind_ok in Happ as (s2 & [] & E2 & Happ).
  apply st_bind_ok in Happ as (s3 & [] & E3 & [= <-]).
  destruct (on_path_grows _ _ _ _ _ _ (implicit_good h sv me Hok E) Ht E1 ltac:(done)) as [Hg1 Hadd].
  assert (Ht1 : tree pattern_ok 0 (st_path s1)) by (by destruct Hg1 as (_ & _ & _ & ? & _)).
  pose proof (add_rules_grows _ _ _ _ _ _ (Hcfg _) Ht1 E2) as Hg2.
  assert (Ht2 : tree pattern_ok 0 (st_path s2)) by (by destruct Hg2 as (_ & _ & _ & ? & _)).
  assert (Hg3 : grows (h_method h) s2 s3).
  { eapply add_rules_grows; [|exact Ht2|exact E3]. destruct (MethodHTTP desc) as [r|] eqn:Er; [|constructor].
    constructor; [by apply Hann|constructor]. }
  assert (Hnew : st_handlers s !! h_method h = None).
  { destruct (st_handlers s !! h_method h) as [hds|] eqn:Eh; [|done]. exfalso.
    rewrite (implicit_panics h desc (st_path s) Ht (proj2 (Hh _ _ Eh))) in Hadd. done. }
  pose proof (implicit_registered h desc sv me _ _ Hok E Ht Hadd) as Himp.
  pose proof (grows_trans _ _ _ _ Hg2 Hg3) as Hg23.
  destruct (grows_trans _ _ _ _ Hg1 Hg23) as (Eh & Ec & He & Ht3 & Hall).
  assert (Hins : st_handlers (push_handler h s3) = <[h_method h := [h]]> (st_handlers s)).
  { unfold push_handler. simpl. by rewrite Eh, Hnew. }
  split_and!; [|exact He|exact Ec|exact Hnew|exact Hins]. split.
  - exact Ht3.
  - rewrite Hins. change (st_path (push_handler h s3)) with (st_path s3). apply Hall.
    + intros m ->. by rewrite lookup_insert_eq.
    + revert Hm. apply all_methods_mono. intros m Hs. destruct (decide (method_name m = h_method h)) as [->|Hne];
        [by rewrite lookup_insert_eq|by rewrite lookup_insert_ne].
  - intros name hds. rewrite Hins, lookup_insert_Some. change (st_path (push_handler h s3)) with (st_path s3).
    intros [[<- <-]|[_ Hl]].
    + split; [by exists h|]. destruct Hg23 as (_ & _ & He23 & Ht23 & _).
      exact (implicit_at_extends _ _ _ Ht23 He23 Himp).
    + destruct (Hh _ _ Hl) as [? Hi]. split; [done|].
      exact (implicit_at_extends _ _ _ Ht3 He Hi).
Qed.
End Append.

Section Register.
Context `{U : Unicode} `{P : Protoreflect}.

(** A service whose names the lexer takes and whose annotations are good. *)
Definition service_ok (o : muxOptions) (gsd : ServiceDesc) : Prop :=
  Forall (fun e => names_ok (ServiceName gsd) e.1) (entries gsd) /\
  forall sd, FindDescriptorByName (files o) (ServiceName gsd) = FoundService sd ->
    forall name md, MethodByName sd name = Some md -> annotation_ok md.

Lemma register_entries_ok o sd service n es s s' :
  config_ok o -> (forall name md, MethodByName sd name = Some md -> annotation_ok md) ->
  Forall (fun e => names_ok service e.1) es -> state_ok s ->
  register_entries o sd service n es s = (s', Ok tt) ->
  state_ok s' /\ st_conns s' = st_conns s /\
  (forall i name f, es !! i = Some (name, f) -> exists md, MethodByName sd name = Some md /\
     st_handlers s' !! method_path service name =
       Some [MkHandler (n + i) md (f (method_path service name)) (method_path service name)]) /\
  (forall name, is_Some (st_handlers s !! name) -> st_handlers s' !! name = st_handlers s !! name).
Proof.
  intros Hcfg Hann Hes. revert n s. induction Hes as [|[name f] es Hn Hes IH]; intros n s Hs; cbn [register_entries].
  { intros [= <-]. split_and!; [done|done|by intros []|done]. }
  unfold findMethod. destruct (MethodByName sd name) as [md|] eqn:Emd; [|done].
  pose proof (Hann _ _ Emd) as Ha.
  intros (s1 & [] & E1 & E2)%st_bind_ok.
  destruct (appendHandler_ok o Hcfg md (MkHandler n md (f (method_path service name)) (method_path service name))
    service name s s1 Hn Ha eq_refl Hs E1) as (Hs1 & _ & Hc1 & Hnew & Hh1).
  destruct (IH (S n) s1 Hs1 E2) as (Hs' & Hc & Hall & Hkeep). split_and!; [done|congruence| |].
  - intros [|i] name' f'; simpl.
    + intros [= <- <-]. exists md. split; [done|]. rewrite Nat.add_0_r.
      assert (Hl : st_handlers s1 !! method_path service name = Some [MkHandler n md (f (method_path service name)) (method_path service name)])
        by (rewrite Hh1; apply lookup_insert_eq).
      by rewrite Hkeep, Hl; [|eexists].
    + intros Hi. destruct (Hall i name' f' Hi) as (md' & ? & ?). exists md'. split; [done|].
      by rewrite Nat.add_succ_r.
  - intros name' [hds Hl]. simpl in *. assert (name' <> method_path service name) by congruence.
    assert (Hl' : st_handlers s1 !! name' = st_handlers s !! name') by (rewrite Hh1; by apply lookup_insert_ne).
    by rewrite Hkeep, Hl'; [|rewrite Hl', Hl; eexists].
Qed.

(** A method that has a handler is not registered again. *)
Lemma register_entries_twice o sd service n es s s' name hds :
  config_ok o -> (forall name md, MethodByName sd name = Some md -> annotation_ok md) ->
  Forall (fun e => names_ok service e.1) es -> state_ok s ->
  name ∈ es.*1 -> st_handlers s !! method_path service name = Some hds ->
  register_entries o sd service n es s = (s', Ok tt) -> False.
Proof.
  intros Hcfg Hann Hes. revert n s. induction Hes as [|[name' f] es Hn Hes IH]; intros n s Hs Hin Hh; cbn [register_entries].
  { by apply elem_of_nil in Hin. }
  unfold findMethod. destruct (MethodByName sd name') as [md|] eqn:Emd; [|done].
  pose proof (Hann _ _ Emd) as Ha.
  intros (s1 & [] & E1 & E2)%st_bind_ok.
  destruct (appendHandler_ok o Hcfg md (MkHandler n md (f (method_path service name')) (method_path service name'))
    service name' s s1 Hn Ha eq_refl Hs E1) as (Hs1 & _ & _ & Hnew & Hh1). simpl in *.
  rewrite elem_of_cons in Hin. destruct Hin as [->|Hin]; [congruence|].
  apply (IH (S n) s1 Hs1 Hin); [|exact E2]. rewrite Hh1, lookup_insert_ne; [done|congruence].
Qed.

Lemma register_first_panics o sd service s name f es md n :
  state_ok s -> MethodByName sd name = Some md -> is_Some (st_handlers s !! method_path service name) ->
  snd (register_entries o sd service n ((name, f) :: es) s) = Panic NilDereference.
Proof.
  intros [Ht _ Hall] Hmd [hds Hh]. cbn [register_entries]. unfold findMethod. rewrite Hmd.
  unfold appendHandler. unfold mbind, st_bind. unfold map_err at 1, on_path at 1.
  rewrite implicit_panics; [done|exact Ht|by eapply Hall].
Qed.

(** *** States after removals

    The registration of a known connection removes its handlers and then adds others.
    What every state keeps: each method of the tree has a handler, or a name in [D],
    the names whose handlers were removed. *)
Record state_wf (D : list string) (s : state) : Prop := {
  wf_tree : tree pattern_ok 0 (st_path s);
  wf_methods : all_methods (fun m => is_Some (st_handlers s !! method_name m) \/ method_name m ∈ D) (st_path s);
  wf_handlers : forall name hds, st_handlers s !! name = Some hds -> hds <> [] /\ Forall (fun hd => h_method hd = name) hds;
}.

Lemma state_ok_wf D s : state_ok s -> state_wf D s.
Proof.
  intros [Ht Hm Hh]. split; [done| |].
  - revert Hm. apply all_methods_mono. intros m. by left.
  - intros name hds Hl. destruct (Hh _ _ Hl) as [(hd & -> & Hn) _]. split; [done|]. by apply Forall_singleton.
Qed.

Lemma state_wf_more D D' s : D ⊆ D' -> state_wf D s -> state_wf D' s.
Proof.
  intros HD [Ht Hm Hh]. split; [done| |done]. revert Hm. apply all_methods_mono. intros m [?|?]; [by left|right; by apply HD].
Qed.

Lemma state_wf_conns f D s : state_wf D s -> state_wf D (set_conns f s).
Proof. by intros [? ? ?]. Qed.

Lemma appendHandler_wf D o desc h sv me s s' :
  config_ok o -> names_ok sv me -> annotation_ok desc -> h_method h = method_path sv me -> state_wf D s ->
  appendHandler o desc h s = (s', Ok tt) -> state_wf D s' /\ st_conns s' = st_conns s.
Proof.
  intros Hcfg Hok Hann E [Ht Hm Hh] Happ. unfold appendHandler in Happ.
  apply st_bind_ok in Happ as (s1 & [] & E1 & Happ). apply st_bind_ok in Happ as (s2 & [] & E2 & Happ).
  apply st_bind_ok in Happ as (s3 & [] & E3 & [= <-]).
  destruct (on_path_grows _ _ _ _ _ _ (implicit_good h sv me Hok E) Ht E1 ltac:(done)) as [Hg1 _].
  pose proof (add_rules_grows _ _ _ _ _ _ (Hcfg _) (proj1 (proj2 (proj2 (proj2 Hg1)))) E2) as Hg2.
  assert (Hg3 : grows (h_method h) s2 s3).
  { eapply add_rules_grows; [|by destruct Hg2 as (_ & _ & _ & ? & _)|exact E3]. destruct (MethodHTTP desc) as [r|] eqn:Er; [|constructor].
    constructor; [by apply Hann|constructor]. }
  destruct (grows_trans _ _ _ _ Hg1 (grows_trans _ _ _ _ Hg2 Hg3)) as (Eh & Ec & _ & Ht3 & Hall).
  split; [|exact Ec]. split; [exact Ht3| |].
  - apply Hall.
    + intros m ->. left. rewrite push_handler_lookup, decide_True by done. by eexists.
    + revert Hm. apply all_methods_mono. intros m [Hs|?]; [left|by right]. rewrite push_handler_lookup, Eh.
      destruct (decide _); [by eexists|done].
  - intros name hds. rewrite push_handler_lookup, Eh. destruct (decide (name = h_method h)) as [->|_]; [|apply Hh].
    intros [= <-]. split; [by destruct (default [] _)|]. apply Forall_app. split; [|by apply Forall_singleton].
    destruct (st_handlers s !! h_method h) as [l|] eqn:El; [by apply (Hh _ _ El)|constructor].
Qed.

Lemma register_entries_wf D o sd service n es s s' :
  config_ok o -> (forall name md, MethodByName sd name = Some md -> annotation_ok md) ->
  Forall (fun e => names_ok service e.1) es -> state_wf D s ->
  register_entries o sd service n es s = (s', Ok tt) -> state_wf D s'.
Proof.
  intros Hcfg Hann Hes. revert n s. induction Hes as [|[name f] es Hn Hes IH]; intros n s Hs; cbn [register_entries]; [by intros [= <-]|].
  unfold findMethod. destruct (MethodByName sd name) as [md|] eqn:Emd; [|done]. intros (s1 & [] & E1 & E2)%st_bind_ok.
  eapply IH; [|exact E2]. exact (proj1 (appendHandler_wf D o md (MkHandler n md (f (method_path service name)) (method_path service name)) service name s s1 Hcfg Hn (Hann _ _ Emd) eq_refl Hs E1)).
Qed.

(** A name whose last handler is removed goes to [D]. *)
Lemma remove_one_wf `{R : GoRange} D s hd : state_wf D s -> state_wf (h_method hd :: D) (remove_one s hd).
Proof.
  intros [Ht Hm Hh]. unfold remove_one. set (hds := filter _ _).
  assert (Hhds : Forall (fun h => h_method h = h_method hd) hds).
  { apply Forall_forall. intros h [_ Hin]%list_elem_of_filter. destruct (st_handlers s !! h_method hd) as [l|] eqn:E; [|by apply elem_of_nil in Hin].
    destruct (Hh _ _ E) as [_ Hl]. rewrite Forall_forall in Hl. by apply Hl. }
  clearbody hds. destruct hds as [|h hds]; split; cbn [st_path st_handlers set_handlers].
  - pose proof (delRule_fuel_spec pattern_ok (height (st_path s)) (h_method hd) 0 (st_path s) (Nat.le_refl _) Ht) as H.
    unfold delRule. destruct (delRule_fuel _ _ _) as [p' [|]]; [exact (proj1 H)|by destruct H as [-> _]].
  - apply all_methods_delRule. revert Hm. apply all_methods_mono. intros m Hs. rewrite elem_of_cons.
    destruct (decide (method_name m = h_method hd)) as [->|Hne]; [by right; left|]. rewrite lookup_delete_ne by done. tauto.
  - intros name l. rewrite lookup_delete_Some. intros [_ Hl]. by apply Hh.
  - exact Ht.
  - revert Hm. apply all_methods_mono. intros m Hs. rewrite elem_of_cons.
    destruct (decide (method_name m = h_method hd)) as [->|Hne]; [by right; left|]. rewrite lookup_insert_ne by done. tauto.
  - intros name l. rewrite lookup_insert_Some. intros [[<- <-]|[_ Hl]]; [done|by apply Hh].
Qed.

Lemma remove_all_wf `{R : GoRange} D cl s : state_wf D s -> state_wf ((h_method <$> cl) ++ D) (foldl remove_one s cl).
Proof.
  revert D s. induction cl as [|hd cl IH]; intros D s Hs; [done|]. cbn [foldl].
  eapply state_wf_more; [|apply IH, remove_one_wf, Hs]. rewrite fmap_cons. set_solver.
Qed.

(** The state of a mux; nil before the first registration. *)
Definition mux_wf (D : list string) (m : Mux) : Prop := state_wf D (state_clone (loadState m)).

Definition mux_ok (m : Mux) : Prop := state_ok (state_clone (loadState m)).

Lemma state_clone_some s : state_clone (Some s) = s.
Proof.
  destruct s as [p c h]. simpl. f_equal. induction p as [p IHs IHv] using path_ind_nested. rewrite clone_unfold.
  destruct p as [sg ms a vs]. simpl in *. f_equal.
  - apply map_eq. intros k. rewrite lookup_fmap. destruct (sg !! k) as [q|] eqn:E; simpl; [|done].
    f_equal. by eapply IHs.
  - clear IHs. induction vs as [|[n t q] vs IH]; [done|]. csimpl. pose proof (IHv (Var n t q) ltac:(left)) as Hq.
    simpl in Hq. rewrite Hq, IH; [done|]. intros v Hv. apply IHv. by right.
Qed.

Lemma handlers_clone m name :
  st_handlers (state_clone (loadState m)) !! name =
    match loadState m with Some s => st_handlers s !! name | None => None end.
Proof. destruct (loadState m) as [s|]; [by rewrite state_clone_some|apply lookup_empty]. Qed.

(** The handlers of a name, as both sides of the mux look them up. *)
Definition handlers_of (m : Mux) (name : string) : option (list handler) :=
  match loadState m with Some s => st_handlers s !! name | None => None end.

Lemma pick_state s name hd pick :
  st_handlers s !! name = Some [hd] -> pickMethodHandler pick (Some s) name = Ok hd.
Proof.
  unfold pickMethodHandler. intros ->. cbn [default from_option length]. by rewrite Nat.mod_1_r.
Qed.

Lemma pick_one m name hd pick :
  handlers_of m name = Some [hd] -> pickMethodHandler pick (loadState m) name = Ok hd.
Proof. unfold handlers_of. destruct (loadState m) as [s|]; [apply pick_state|done]. Qed.

Lemma pick_inv m name hd pick :
  mux_ok m -> pickMethodHandler pick (loadState m) name = Ok hd -> handlers_of m name = Some [hd].
Proof.
  unfold mux_ok, handlers_of, pickMethodHandler. destruct (loadState m) as [s|]; [|done].
  rewrite state_clone_some. intros [_ _ Hh]. destruct (st_handlers s !! name) as [hds|] eqn:E; [|done].
  destruct (Hh _ _ E) as [(hd' & -> & _) _]. cbn [default from_option length]. rewrite Nat.mod_1_r. by intros [= ->].
Qed.

(** Every name that has handlers has one for each number that is picked. *)
Lemma pick_wf D s name pick :
  state_wf D s -> is_Some (st_handlers s !! name) -> exists hd, h_method hd = name /\ pickMethodHandler pick (Some s) name = Ok hd.
Proof.
  intros [_ _ Hh] [hds Hl]. destruct (Hh _ _ Hl) as [Hne Hall]. unfold pickMethodHandler. rewrite Hl.
  change (default [] (Some hds)) with hds.
  assert (Hlt : pick `mod` length hds < length hds) by (apply Nat.mod_upper_bound; by destruct hds).
  destruct (hds !! (pick `mod` length hds)) as [hd|] eqn:Hd; [|by apply lookup_ge_None in Hd; lia].
  exists hd. split; [|done]. rewrite Forall_lookup in Hall. by eapply Hall.
Qed.

Lemma registerService_wf D gsd m m' r :
  config_ok (opts m) -> service_ok (opts m) gsd -> mux_wf D m -> registerService gsd m = (m', r) -> mux_wf D m'.
Proof.
  intros Hcfg [Hes Hann] Hm. unfold registerService.
  destruct (FindDescriptorByName _ _) as [sd|typ|e] eqn:Ef; [|by intros [= <- _]..].
  destruct (register_entries _ _ _ _ _ _) as [s' [[]|e|q|]] eqn:E; unfold commit; intros [= <- _]; try exact Hm.
  unfold mux_wf, storeState. cbn [loadState]. rewrite state_clone_some. by eapply (register_entries_wf D _ _ _ _ _ _ _ Hcfg (Hann sd eq_refl)).
Qed.

Lemma mux_ok_store s m : state_ok s -> mux_ok (storeState s m).
Proof. intros Hs. unfold mux_ok, storeState. cbn [loadState]. by rewrite state_clone_some. Qed.

Lemma registerService_keeps gsd m m' r :
  config_ok (opts m) -> service_ok (opts m) gsd -> mux_ok m -> registerService gsd m = (m', r) -> mux_ok m'.
Proof.
  intros Hcfg [Hes Hann] Hm. unfold registerService.
  destruct (FindDescriptorByName _ _) as [sd|typ|e] eqn:Ef; [|by intros [= <- _]..].
  destruct (register_entries _ _ _ _ _ _) as [s' [[]|e|q|]] eqn:E; unfold commit; intros [= <- _]; try exact Hm.
  apply mux_ok_store. by eapply (register_entries_ok _ _ _ _ _ _ _ Hcfg (Hann sd eq_refl) Hes Hm E).
Qed.

(** C11 A registration either succeeds or changes nothing: when it succeeds, each
    method of the service has exactly one handler, the one made for it with its
    descriptor, and every method that had a handler keeps it. *)
Theorem registerService_spec gsd m m' r :
  config_ok (opts m) -> service_ok (opts m) gsd -> mux_ok m ->
  registerService gsd m = (m', r) ->
  opts m' = opts m /\
  match r with
  | Ok _ => mux_ok m' /\
      (exists sd, FindDescriptorByName (files (opts m)) (ServiceName gsd) = FoundService sd /\
       forall i name f, entries gsd !! i = Some (name, f) -> exists md, MethodByName sd name = Some md /\
       forall pick, pickMethodHandler pick (loadState m') (method_path (ServiceName gsd) name) =
         Ok (MkHandler (next_handler m + i) md (f (method_path (ServiceName gsd) name)) (method_path (ServiceName gsd) name))) /\
      (forall pick name hd, pickMethodHandler pick (loadState m) name = Ok hd ->
         forall pick', pickMethodHandler pick' (loadState m') name = Ok hd)
  | _ => loadState m' = loadState m
  end.
Proof.
  intros Hcfg [Hes Hann] Hm. unfold registerService.
  destruct (FindDescriptorByName _ _) as [sd|typ|e] eqn:Ef; [|by intros [= <- <-]..].
  destruct (register_entries _ _ _ _ _ _) as [s' [[]|e|q|]] eqn:E; unfold commit; intros [= <- <-];
    [|by split..]. split; [done|].
  destruct (register_entries_ok _ _ _ _ _ _ _ Hcfg (Hann sd eq_refl) Hes Hm E) as (Hs' & _ & Hall & Hkeep).
  split_and!; [by apply mux_ok_store| |].
  - exists sd. split; [done|]. intros i name f Hi. destruct (Hall i name f Hi) as (md & Hmd & Hl). exists md.
    split; [done|]. intros pick. cbn [loadState storeState]. by apply pick_state.
  - intros pick name hd Hp pick'. apply (pick_inv m _ _ _ Hm) in Hp.
    cbn [loadState storeState]. apply pick_state.
    assert (Hl : st_handlers (state_clone (loadState m)) !! name = Some [hd]) by (by rewrite handlers_clone).
    by rewrite Hkeep, Hl; [|eexists].
Qed.

(** C23 In a well-formed mux the path of a registered method is a route for every
    verb: it leads to that method, unless a rule gave exactly this path to another
    method for this verb, and the method it leads to has a handler. *)
Theorem method_path_served m name hd verb :
  mux_ok m -> handlers_of m name = Some [hd] ->
  exists mt, state_match (loadState m) name verb = Ok (mt, []) /\
    (exists hd', forall pick, pickMethodHandler pick (loadState m) (method_name mt) = Ok hd') /\
    (method_name mt = name \/ exists es q s, loadState m = Some s /\ node_at es (st_path s) = Some q /\ methods q !! verb = Some mt).
Proof.
  unfold mux_ok, handlers_of. destruct (loadState m) as [s|] eqn:Es; [|done]. rewrite state_clone_some.
  intros [Ht Hall Hh] Hl. destruct (Hh _ _ Hl) as [_ (sv & me & q & y & -> & Hok & Hq & Ha & Hy)].
  assert (Hserve : forall mt, pick_method q verb = Ok (mt, []) ->
    state_match (Some s) (method_path sv me) verb = Ok (mt, []) /\
    exists hd', forall pick, pickMethodHandler pick (Some s) (method_name mt) = Ok hd').
  { intros mt Hp. split; [exact (match_literal_node _ _ [sv; me] None _ _ _ Hq Hp (method_path_lexed _ _ Hok))|].
    assert (Hs : is_Some (st_handlers s !! method_name mt)).
    { apply (all_methods_routes (fun m => is_Some (st_handlers s !! method_name m)) verb q [] mt []);
        [by econstructor|by eapply all_methods_node_at]. }
    destruct Hs as [hds Hs]. destruct (Hh _ _ Hs) as [(hd' & -> & _) _]. exists hd'. intros pick.
    rewrite <-Es. apply pick_one. unfold handlers_of. by rewrite Es. }
  unfold pick_method in Hserve. rewrite Ha in Hserve. destruct (methods q !! verb) as [mt|] eqn:Em.
  - exists mt. destruct (Hserve mt eq_refl) as [? ?]. split_and!; [done|done|]. right. by eexists _, q, s.
  - exists y. destruct (Hserve y eq_refl) as [? ?]. split_and!; [done|done|]. by left.
Qed.

(** No method is registered twice: registering a service again never succeeds, and
    when the method is its first one it panics with a nil dereference. *)
Theorem registerService_twice gsd m name hd m' r :
  config_ok (opts m) -> service_ok (opts m) gsd -> mux_ok m ->
  name ∈ (entries gsd).*1 -> handlers_of m (method_path (ServiceName gsd) name) = Some [hd] ->
  registerService gsd m = (m', r) ->
  is_ok r = false /\ loadState m' = loadState m /\
  (head (entries gsd).*1 = Some name ->
   (exists sd, FindDescriptorByName (files (opts m)) (ServiceName gsd) = FoundService sd /\ is_Some (MethodByName sd name)) ->
   r = Panic NilDereference).
Proof.
  intros Hcfg [Hes Hann] Hm Hin Hh. unfold registerService.
  destruct (FindDescriptorByName _ _) as [sd|typ|e] eqn:Ef.
  2,3: intros [= <- <-]; split_and!; [done|done|by intros _ (sd & [=] & _)].
  destruct (register_entries _ _ _ _ _ _) as [s' o] eqn:E.
  unfold handlers_of in Hh. rewrite <-handlers_clone in Hh.
  assert (Ho : is_ok o = false).
  { destruct o as [[]| | |]; [|done..]. by destruct (register_entries_twice _ _ _ _ _ _ _ name [hd] Hcfg (Hann sd eq_refl) Hes Hm Hin Hh E). }
  intros Hc. assert (r = o /\ loadState m' = loadState m) as [-> Hl].
  { destruct o as [[]| | |]; cbn in Hc; [done|..]; by injection Hc as <- <-. }
  split_and!; [done|done|]. intros Hhd (sd' & [= <-] & [md Hmd]).
  destruct (entries gsd) as [|[name' f] es]; [done|]. simpl in Hhd. injection Hhd as ->.
  pose proof (register_first_panics (opts m) sd (ServiceName gsd) (state_clone (loadState m)) name f es md
    (next_handler m) Hm Hmd ltac:(by eexists)) as Hp. by rewrite E in Hp.
Qed.
End Register.

(** ** A new mux *)

Lemma bestEncoding_cases specs offers :
  bestEncoding specs offers = "" \/ bestEncoding specs offers = "identity" \/ bestEncoding specs offers ∈ offers.
Proof.
  unfold bestEncoding. set (s := foldl _ _ offers).
  assert (H : s.1 = "identity" \/ s.1 ∈ offers).
  { apply (foldl_inv (fun s => s.1 = "identity" \/ s.1 ∈ offers)); [by left|]. intros a o Ho Ha.
    apply (foldl_inv (fun s => s.1 = "identity" \/ s.1 ∈ offers)); [done|]. intros [b q] x _ Hb.
    unfold encoding_step. destruct (_ && _); [by right|done]. }
  destruct s as [b q]. simpl in H. case_match; [by left|]. tauto.
Qed.

Section New.
Context `{U : Unicode} `{P : Protoreflect} `{MA : @Marshaling P} `{GZ : Gzip} `{G : GoAppend} `{W : Protowire} `{R : GoRange}.

(** The options that the package has. *)
Inductive package_option : MuxOption -> Prop :=
  | opt_unary i : package_option (UnaryServerInterceptorOption i)
  | opt_stream i : package_option (StreamServerInterceptorOption i)
  | opt_stats h : package_option (StatsOption h)
  | opt_receive n : package_option (MaxReceiveMessageSizeOption n)
  | opt_send n : package_option (MaxSendMessageSizeOption n)
  | opt_timeout d : package_option (ConnectionTimeoutOption d)
  | opt_types ts : package_option (TypesOption ts)
  | opt_files fs : package_option (FilesOption fs)
  | opt_codec t c : package_option (CodecOption t c)
  | opt_compressor e c : package_option (CompressorOption e c)
  | opt_config rules : package_option (ServiceConfigOption rules).

Lemma package_option_offers f o o' :
  package_option f -> f o = Ok o' ->
  contentTypeOffers o' = contentTypeOffers o /\ encodingTypeOffers o' = encodingTypeOffers o.
Proof.
  destruct o as [a b c d e g h i j k l m n q r]. destruct 1; cbn; try by intros [= <-].
  unfold mbind, outcome_bind. by destruct (setRules _ _); intros [= <-].
Qed.

Lemma apply_options_offers os o o' :
  Forall package_option os -> apply_options os o = Ok o' ->
  contentTypeOffers o' = contentTypeOffers o /\ encodingTypeOffers o' = encodingTypeOffers o.
Proof.
  intros Hos. revert o. induction Hos as [|f os Hf _ IH]; intros o; simpl; [by intros [= <-]|].
  unfold mbind, outcome_bind. destruct (f o) as [o1| | |] eqn:E; try done. intros H.
  destruct (package_option_offers _ _ _ Hf E) as [<- <-]. by apply IH.
Qed.

Lemma range_keys {A} (m : gmap string A) k : k ∈ (range m).*1 <-> is_Some (m !! k).
Proof.
  rewrite list_elem_of_fmap. split.
  - intros ([k' a] & -> & H%elem_of_range). by exists a.
  - intros [a H]. exists (k, a). split; [done|]. by apply elem_of_range.
Qed.

#[local] Instance str_le_total : Total str_le.
Proof.
  intros v w. unfold str_le, String.leb. rewrite (String.compare_antisym v).
  destruct (String.compare w v); simpl; auto.
Qed.

(** A new mux offers its content types in order, the defaults among them, and the
    very same list as content encodings: whatever a client accepts, the encoding
    negotiated for a response is identity, none or a content type, so a compressor is
    never chosen unless it is registered under one of these names. *)
Theorem NewMux_offers gf gt os m :
  Forall package_option os -> NewMux gf gt os = Ok m ->
  let o := opts m in
  (forall k, k ∈ contentTypeOffers o <-> is_Some (codecs o !! k)) /\ Sorted str_le (contentTypeOffers o) /\
  (forall k, is_Some (defaultCodecs !! k) -> is_Some (codecs o !! k)) /\
  (forall n c, codecsByName o !! n = Some c -> codec_Name c = n /\ exists k, codecs o !! k = Some c) /\
  encodingTypeOffers o = contentTypeOffers o /\
  (forall h e, negotiateContentEncoding h (encodingTypeOffers o) = Ok e ->
     e = "identity" \/ e = "" \/ is_Some (codecs o !! e)).
Proof.
  intros Hos. unfold NewMux, mbind, outcome_bind.
  destruct (apply_options os _) as [o0| | |] eqn:E; try done. intros [= <-].
  destruct (apply_options_offers _ _ _ Hos E) as [Hct Het]. cbn in Hct, Het. unfold with_defaults. cbn [opts].
  rewrite Hct, Het. cbn [contentTypeOffers encodingTypeOffers codecs codecsByName app]. clear Hct Het E.
  set (cs := codecs o0 ∪ defaultCodecs). unfold sort_Strings.
  assert (Hk : forall k, k ∈ merge_sort str_le (range cs).*1 <-> is_Some (cs !! k)).
  { intros k. rewrite merge_sort_Permutation. apply range_keys. }
  split_and!; [done|apply Sorted_merge_sort, _| | |done|].
  - intros k [c Hc]. unfold cs. destruct (codecs o0 !! k) as [c'|] eqn:Ec.
    + exists c'. by apply lookup_union_Some_l.
    + exists c. by rewrite lookup_union_r.
  - apply (foldl_inv (fun mp : gmap string Codec => forall n c, mp !! n = Some c -> codec_Name c = n /\ exists k, cs !! k = Some c)).
    + intros n c. by rewrite lookup_empty.
    + intros mp [k c] Hin%elem_of_range IH n c'. rewrite lookup_insert_Some. intros [[<- <-]|[_ Hl]]; [by eauto|by apply IH].
  - intros h e. unfold negotiateContentEncoding, mbind, outcome_bind. destruct (parseAccept _) as [specs| | |]; try done.
    intros [= <-]. destruct (bestEncoding_cases specs (merge_sort str_le (range cs).*1)) as [?|[?|?%Hk]]; tauto.
Qed.
End New.

(** ** Witnesses *)

(** A library service with one annotated method, and a mux of its file. *)
#[export] Instance text_marshaling : @Marshaling plain_proto := {|
  proto_Marshal m := Ok (match m with XText _ t => t | _ => "" end);
  proto_MarshalAppend b m := Ok (b ++ match m with XText _ t => t | _ => "" end)%string;
  proto_Unmarshal b m := (XText (xmsg_descriptor m) b, Ok tt);
  protojson_Marshal m := Ok (match m with XText _ t => t | _ => "{}" end);
  protojson_MarshalAppend b m := Ok (b ++ match m with XText _ t => t | _ => "{}" end)%string;
  protojson_UnmarshalMessage b m := (XText (xmsg_descriptor m) b, Ok tt);
|}.

Module SampleMux.
Definition getShelf : @MethodDescriptor plain_proto :=
  XMethod "pkg.Library.GetShelf" Sample.request Sample.request false false (Some Sample.get_rule).
Definition library : @Files plain_proto := [XFile "library.proto" [XService "pkg.Library" [getShelf]]].
Definition service : @ServiceDesc plain_proto :=
  MkServiceDesc "pkg.Library" [MkMethodDesc "GetShelf" (fun _ _ =>
    PRecvMsg (P := plain_proto) (XText Sample.request "") (fun m e => on_nil e (PReturn m)))] [].
Definition mux0 : @Mux plain_proto := MkMux (with_defaults (defaultMuxOptions (library : @Files plain_proto) (tt : @Types plain_proto))) None 0.
Definition mux1 : @Mux plain_proto := fst (registerService service mux0).
End SampleMux.
Import SampleMux.

Lemma sample_config_ok : config_ok (opts mux0).
Proof. intros name. simpl. unfold getRules. cbn. case_match; [constructor|]. by destruct (Cut _ _) as [[? ?] ?]. Qed.

Lemma sample_service_ok : service_ok (opts mux0) service.
Proof.
  split; [apply Forall_singleton; decide_it|]. intros sd [= <-] name md. cbn.
  case_match; [|done]. intros [= <-] rule [= <-]. exact sample_registrable.
Qed.

Lemma sample_registered : registerService service mux0 = (mux1, Ok tt).
Proof.
  unfold mux1. assert (H : snd (registerService service mux0) = Ok tt) by (vm_compute; reflexivity).
  rewrite <-H. apply surjective_pairing.
Qed.

Lemma registerService_spec_witness :
  opts mux1 = opts mux0 /\ mux_ok mux1 /\
      (exists sd, FindDescriptorByName (files (opts mux0)) (ServiceName service) = FoundService sd /\
       forall i name f, entries service !! i = Some (name, f) -> exists md, MethodByName sd name = Some md /\
       forall pick, pickMethodHandler pick (loadState mux1) (method_path (ServiceName service) name) =
         Ok (MkHandler (0 + i) md (f (method_path (ServiceName service) name)) (method_path (ServiceName service) name))) /\
      (forall pick name hd, pickMethodHandler pick (loadState mux0) name = Ok hd ->
         forall pick', pickMethodHandler pick' (loadState mux1) name = Ok hd).
Proof.
  apply (registerService_spec service mux0 mux1 (Ok tt));
    [exact sample_config_ok|exact sample_service_ok|exact state_ok_empty|exact sample_registered].
Defined.

Lemma sample_mux_ok : mux_ok mux1.
Proof.
  exact (registerService_keeps service mux0 mux1 (Ok tt) sample_config_ok sample_service_ok state_ok_empty sample_registered).
Qed.

Lemma sample_handler : exists hd, handlers_of mux1 "/pkg.Library/GetShelf" = Some [hd].
Proof. eexists. vm_compute. reflexivity. Qed.

Lemma method_path_served_witness :
  exists mt, state_match (loadState mux1) "/pkg.Library/GetShelf" "PATCH" = Ok (mt, []) /\
    (exists hd', forall pick, pickMethodHandler pick (loadState mux1) (method_name mt) = Ok hd') /\
    (method_name mt = "/pkg.Library/GetShelf" \/
     exists es q s, loadState mux1 = Some s /\ node_at es (st_path s) = Some q /\ methods q !! "PATCH" = Some mt).
Proof.
  destruct sample_handler as [hd H]. exact (method_path_served mux1 "/pkg.Library/GetShelf" hd "PATCH" sample_mux_ok H).
Defined.

Lemma registerService_twice_witness :
  exists m' r, registerService service mux1 = (m', r) /\ is_ok r = false /\ loadState m' = loadState mux1 /\
  (head (entries service).*1 = Some "GetShelf" ->
   (exists sd, FindDescriptorByName (files (opts mux1)) (ServiceName service) = FoundService sd /\ is_Some (MethodByName sd "GetShelf")) ->
   r = Panic NilDereference).
Proof.
  destruct (registerService service mux1) as [m' r] eqn:E. exists m', r. split; [done|].
  destruct sample_handler as [hd H].
  apply (registerService_twice service mux1 "GetShelf" hd m' r);
    [exact sample_config_ok|exact sample_service_ok|exact sample_mux_ok|left|exact H|exact E].
Defined.

Lemma NewMux_offers_witness :
  exists m, NewMux (library : @Files plain_proto) (tt : @Types plain_proto) [MaxReceiveMessageSizeOption 100] = Ok m /\
  let o := opts m in
  (forall k, k ∈ contentTypeOffers o <-> is_Some (codecs o !! k)) /\ Sorted str_le (contentTypeOffers o) /\
  (forall k, is_Some (defaultCodecs !! k) -> is_Some (codecs o !! k)) /\
  (forall n c, codecsByName o !! n = Some c -> codec_Name c = n /\ exists k, codecs o !! k = Some c) /\
  encodingTypeOffers o = contentTypeOffers o /\
  (forall h e, negotiateContentEncoding h (encodingTypeOffers o) = Ok e ->
     e = "identity" \/ e = "" \/ is_Some (codecs o !! e)).
Proof.
  eexists. split; [reflexivity|].
  apply (NewMux_offers (library : @Files plain_proto) (tt : @Types plain_proto) [MaxReceiveMessageSizeOption 100]);
    [repeat constructor|reflexivity].
Defined.
