(* ===== verification/RoutePrint.v ===== *)
(** The text of a routing tree, [path.String] of larking/rules.go: the entries of each
    map are sorted, so the text does not depend on the order in which Go ranges. *)

#[local] Set Warnings "-register-all".
From S2P Require Import Prelude Status Runes IO Http Proto Lexer Params Metadata Compress Codec Selector Stream Routes RouteTree RouteRules RouteAdd RouteDelete Mux.

(** [strings.Join] *)
Fixpoint Join (l : list string) (sep : string) : string :=
  match l with
  | [] => ""
  | [s] => s
  | s :: l => (s ++ sep ++ Join l sep)%string
  end.

Definition in_quotes (s : string) : string := String "034" (s ++ String "034" "").

(** One of the lists of [path.String], when it is not empty. *)
Definition part (open close : string) (l : list string) : list string :=
  match l with
  | [] => []
  | _ => [(open ++ Join (sort_Strings l) "," ++ close)%string]
  end.

(** The text of a node, of those of its entries. *)
Definition node_String (sp sv sm : list string) : string :=
  ("path{" ++ Join (part "segments{" "}" sp ++ part "variables[" "]" sv ++ part "methods{" "}" sm) "," ++ "}")%string.

Definition method_String `{P : Protoreflect} (m : method) : string := method_name m.

Section Print.
Context `{P : Protoreflect} `{R : GoRange}.

(** The fuel bounds the height of the tree. *)
Fixpoint path_String_fuel (fuel : nat) (p : path) : string :=
  match fuel with
  | O => ""
  | S fuel =>
      let sp := (fun '(k, pp) => (in_quotes k ++ ":" ++ path_String_fuel fuel pp)%string) <$> range (segments p) in
      let sv := (fun vv => (String "034" "{" ++ vname vv ++ "}" ++ String "034" "->" ++ path_String_fuel fuel (vnext vv))%string) <$> variables p in
      let sm := (fun '(k, mm) => (in_quotes k ++ ":" ++ method_String mm)%string) <$> range (methods p) in
      node_String sp sv sm
  end.

Definition path_String (p : path) : string := path_String_fuel (height p) p.
End Print.

(** ** Theorems *)

#[local] Instance str_le_trans : Transitive str_le.
Proof.
  intros a. unfold str_le, String.leb. induction a as [|x a IH]; intros [|y b] [|z c]; cbn; try done.
  unfold Ascii.compare. destruct (N.compare_spec (Ascii.N_of_ascii x) (Ascii.N_of_ascii y)) as [E|E|E]; try done;
    destruct (N.compare_spec (Ascii.N_of_ascii y) (Ascii.N_of_ascii z)) as [E'|E'|E']; try done;
    destruct (N.compare_spec (Ascii.N_of_ascii x) (Ascii.N_of_ascii z)) as [E''|E''|E'']; try done; try lia.
  apply IH.
Qed.
#[local] Instance str_le_antisym : AntiSymm eq str_le.
Proof. intros a b. apply String.leb_antisym. Qed.
#[local] Instance str_le_total : Total str_le.
Proof. intros a b. apply String.leb_total. Qed.

Lemma part_perm open close l l' : l ≡ₚ l' -> part open close l = part open close l'.
Proof.
  intros H. unfold part. destruct l as [|a l], l' as [|a' l']; [done|by apply Permutation_nil_cons in H|by symmetry in H; apply Permutation_nil_cons in H|].
  assert (E : sort_Strings (a :: l) = sort_Strings (a' :: l')); [|by rewrite E].
  apply (StronglySorted_unique str_le); [apply (StronglySorted_merge_sort str_le)..|unfold sort_Strings; by rewrite !merge_sort_Permutation].
Qed.

Lemma node_perm sp sp' sv sv' sm sm' :
  sp ≡ₚ sp' -> sv ≡ₚ sv' -> sm ≡ₚ sm' -> node_String sp sv sm = node_String sp' sv' sm'.
Proof. intros H1 H2 H3. unfold node_String. by rewrite (part_perm _ _ _ _ H1), (part_perm _ _ _ _ H2), (part_perm _ _ _ _ H3). Qed.

Section Order.
Context `{P : Protoreflect} (R1 R2 : GoRange).

Lemma entries_perm {A} (f g : string * A -> string) (m : gmap string A) :
  (forall k a, m !! k = Some a -> f (k, a) = g (k, a)) -> f <$> range (GoRange := R1) m ≡ₚ g <$> range (GoRange := R2) m.
Proof.
  intros H. transitivity (f <$> range (GoRange := R2) m); [by rewrite !range_perm|].
  apply reflexive_eq, list_fmap_ext. intros i [k a] Hi. apply H.
  apply list_elem_of_lookup_2 in Hi. by apply elem_of_range in Hi.
Qed.

Lemma print_orders f1 f2 p :
  height p <= f1 -> height p <= f2 -> path_String_fuel (R := R1) f1 p = path_String_fuel (R := R2) f2 p.
Proof.
  revert f2 p. induction f1 as [|f1 IH]; intros [|f2] p H1 H2; [done|destruct p; cbn in *; lia..|].
  cbn [path_String_fuel]. cbv zeta. apply node_perm.
  - apply entries_perm. intros k q Hq%height_segment. rewrite (IH f2 q); [done|lia..].
  - apply reflexive_eq, list_fmap_ext. intros i v Hv%list_elem_of_lookup_2%height_variable.
    rewrite (IH f2 (vnext v)); [done|lia..].
  - by apply entries_perm.
Qed.

(** The text of a tree is the same whatever the orders in which its maps are ranged
    over, and whatever the fuel over its height. *)
Theorem path_String_order fuel p :
  height p <= fuel -> path_String_fuel (R := R1) fuel p = path_String (R := R2) p.
Proof. intros H. by apply print_orders. Qed.
End Order.

(** The text of a tree of one rule, ranged over backwards too. *)
Definition backwards : GoRange.
Proof.
  refine {| range A m := reverse (map_to_list m) |}. intros A m. apply reverse_Permutation.
Defined.

Lemma path_String_order_witness :
  path_String_fuel (R := backwards) 9 Sample.with_get = path_String Sample.with_get.
Proof. apply (path_String_order backwards sorted_range). vm_compute. lia. Defined.

(** The method for every verb is not in the text. *)
Example path_String_methodAll m : path_String (set_methodAll (Some m) newPath) = "path{}".
Proof. reflexivity. Qed.
