(* ===== verification/HttpStream.v ===== *)
(** The HTTP stream of larking/http.go, [streamHTTP]: one or many messages in the body
    of a request and of its response, by the codec of their content type, and the
    body readers and writers for google.api.HttpBody. *)

#[local] Set Warnings "-register-all".
From S2P Require Import Prelude Status IO Http Proto Params Metadata Compress Codec Selector Stream Routes GrpcStream.

Section HTTP.
Context `{P : Protoreflect} {M : Messages} `{R : GoRange} `{F : Fmt} `{GA : GoAppend} `{GS : !GrpcStatus} `{MDJ : Metadata}.
Context {W : Type} `{RW : ResponseWriter W}.

(** The body is written to the response writer, or to a compressor's writer on it,
    which keeps what it was given.  [h_caps] are the capacities of the slices of
    [bytesPool], 64 from the end of the list on; [h_stats] is what the statistics
    handler was told. *)
Record streamHTTP := StreamHTTP {
  h_opts : muxOptions;
  h_ctx : context;
  h_meth : method;
  h_w : W;
  h_comp : option (Compressor * list string);
  h_rbuf : string;
  h_r : reader;
  h_header : MD;
  h_trailer : MD;
  h_params : list param;
  h_contentType : string;
  h_accept : string;
  h_acceptEncoding : string;
  h_recvCount : Z;
  h_sendCount : Z;
  h_sentHeader : bool;
  h_hasBody : bool;
  h_rEOF : bool;
  h_caps : list nat;
  h_stats : list stat;
}.

Definition h_set_w (w : W) (s : streamHTTP) : streamHTTP :=
  let 'StreamHTTP o c m _ cz b r h t ps ct a ae rc sc sh hb re cs st := s in StreamHTTP o c m w cz b r h t ps ct a ae rc sc sh hb re cs st.
Definition h_set_comp (cz : option (Compressor * list string)) (s : streamHTTP) : streamHTTP :=
  let 'StreamHTTP o c m w _ b r h t ps ct a ae rc sc sh hb re cs st := s in StreamHTTP o c m w cz b r h t ps ct a ae rc sc sh hb re cs st.
Definition h_set_input (b : string) (r : reader) (s : streamHTTP) : streamHTTP :=
  let 'StreamHTTP o c m w cz _ _ h t ps ct a ae rc sc sh hb re cs st := s in StreamHTTP o c m w cz b r h t ps ct a ae rc sc sh hb re cs st.
Definition h_set_header (h : MD) (s : streamHTTP) : streamHTTP :=
  let 'StreamHTTP o c m w cz b r _ t ps ct a ae rc sc sh hb re cs st := s in StreamHTTP o c m w cz b r h t ps ct a ae rc sc sh hb re cs st.
Definition h_set_trailer (t : MD) (s : streamHTTP) : streamHTTP :=
  let 'StreamHTTP o c m w cz b r h _ ps ct a ae rc sc sh hb re cs st := s in StreamHTTP o c m w cz b r h t ps ct a ae rc sc sh hb re cs st.
Definition h_set_recvCount (rc : Z) (s : streamHTTP) : streamHTTP :=
  let 'StreamHTTP o c m w cz b r h t ps ct a ae _ sc sh hb re cs st := s in StreamHTTP o c m w cz b r h t ps ct a ae rc sc sh hb re cs st.
Definition h_set_sendCount (sc : Z) (s : streamHTTP) : streamHTTP :=
  let 'StreamHTTP o c m w cz b r h t ps ct a ae rc _ sh hb re cs st := s in StreamHTTP o c m w cz b r h t ps ct a ae rc sc sh hb re cs st.
Definition h_set_sentHeader (sh : bool) (s : streamHTTP) : streamHTTP :=
  let 'StreamHTTP o c m w cz b r h t ps ct a ae rc sc _ hb re cs st := s in StreamHTTP o c m w cz b r h t ps ct a ae rc sc sh hb re cs st.
Definition h_set_rEOF (re : bool) (s : streamHTTP) : streamHTTP :=
  let 'StreamHTTP o c m w cz b r h t ps ct a ae rc sc sh hb _ cs st := s in StreamHTTP o c m w cz b r h t ps ct a ae rc sc sh hb re cs st.
Definition h_set_caps (cs : list nat) (s : streamHTTP) : streamHTTP :=
  let 'StreamHTTP o c m w cz b r h t ps ct a ae rc sc sh hb re _ st := s in StreamHTTP o c m w cz b r h t ps ct a ae rc sc sh hb re cs st.
Definition h_set_stats (st : list stat) (s : streamHTTP) : streamHTTP :=
  let 'StreamHTTP o c m w cz b r h t ps ct a ae rc sc sh hb re cs _ := s in StreamHTTP o c m w cz b r h t ps ct a ae rc sc sh hb re cs st.

Definition h_stat (x : stat) (s : streamHTTP) : streamHTTP :=
  if statsHandler (h_opts s) then h_set_stats (h_stats s ++ [x]) s else s.

(** ** Headers and trailers *)

Definition http_SetHeader (md : MD) : st streamHTTP error unit := fun s =>
  if h_sentHeader s then (s, Err errAlreadySent)
  else (h_set_header (Join (h_header s) md) s, Ok tt).

(** The code is sent with the body. *)
Definition http_SendHeader (md : MD) : st streamHTTP error unit := fun s =>
  if h_sentHeader s then (s, Err errAlreadySent) else
  let s := h_set_header (Join (h_header s) md) s in
  let s := h_set_w (w_set_header (setOutgoingHeader (h_header s)) (h_w s)) s in
  let s := h_set_sentHeader true s in
  (h_stat (OutHeader (h_header s) (h_acceptEncoding s)) s, Ok tt).

Definition http_SetTrailer (md : MD) (s : streamHTTP) : streamHTTP :=
  h_set_trailer (Join (h_trailer s) md) s.

(** ** Writing *)

(** [s.w.Write] *)
Definition http_Write : writer streamHTTP := fun b s =>
  match h_comp s with
  | None => let '(w, o) := w_Write b (h_w s) in (h_set_w w s, o)
  | Some (c, ws) =>
      let ws := ws ++ [b] in
      let s := h_set_comp (Some (c, ws)) s in
      let out := comp_emit c ws in
      if String.eqb out "" then (s, Ok (String.length b))
      else match w_Write out (h_w s) with
           | (w, Ok _) => (h_set_w w s, Ok (String.length b))
           | (w, Err e) => (h_set_w w s, Err e)
           | (w, Panic p) => (h_set_w w s, Panic p)
           | (w, OutOfFuel) => (h_set_w w s, OutOfFuel)
           end
  end.

(** [if fRsp, ok := s.w.(http.Flusher); ok { defer fRsp.Flush() }]: the writers of the
    compressors are no [http.Flusher]. *)
Definition http_flush (s : streamHTTP) : streamHTTP :=
  match h_comp s with
  | None => if w_is_flusher (h_w s) then h_set_w (w_Flush (h_w s)) s else s
  | Some _ => s
  end.

(** [codec, ok := c.(StreamCodec)]; the error message calls a method of the nil
    interface when it is none. *)
Definition stream_codec {S} (c : Codec) : st S error StreamCodec :=
  match streaming c with Some sc => mret sc | None => crash NilDereference end.

Definition writeMsg (c : Codec) (b contentType : string) : st streamHTTP error Z :=
  s ← get;
  let count := h_sendCount s in
  (if (count =? 0)%Z then
     modify (fun s => h_set_w (w_set_header (header_Set "Content-Type" contentType) (h_w s)) s);;
     if h_sentHeader s then mret tt else http_SendHeader ∅
   else mret tt);;
  modify (fun s => h_set_sendCount (h_sendCount s + 1) s);;
  if IsStreamingServer (desc (h_meth s)) then
    sc ← stream_codec c;
    run_writes http_Write (WriteNext sc b);;
    mret count
  else writeAll (h_opts s) http_Write b;; mret count.

(** ** Codecs *)

Definition getCodec (o : muxOptions) (mediaType : string) (cur : Message) : go Codec :=
  match codecs o !! MessageFullName (Descriptor cur) with
  | Some c => Ok c
  | None =>
      match codecs o !! mediaType with
      | Some c => Ok c
      | None => Err (StatusError codes.Internal "no codec registered for content-type %q" [AStr mediaType])
      end
  end.

(** [for _, fd := range fds { cur = cur.Mutable(fd).Message() }]; the messages on the
    way are made. *)
Definition mutable_path (fds : list FieldDescriptor) : st Message error Message := at_message fds get.

Definition is_HttpBody (cur : Message) : bool := String.eqb (MessageFullName (Descriptor cur)) "google.api.HttpBody".

(** A known field of a message; a nil descriptor panics. *)
Definition named_field (cur : Message) (name : string) : go FieldDescriptor :=
  match ByName (Fields (Descriptor cur)) name with Some fd => Ok fd | None => Panic NilDereference end.

Definition set_named (name : string) (v : Value) : st Message error unit := fun cur =>
  match named_field cur name with
  | Ok fd => if typed fd v && negb (IsList fd) && negb (IsMap fd) then (Put cur fd (Single v), Ok tt)
             else (cur, Panic (PanicCall "type mismatch"))
  | Err e => (cur, Err e) | Panic p => (cur, Panic p) | OutOfFuel => (cur, OutOfFuel)
  end.

(** [cur.Get(fdData).Bytes()]; [String()] of the content type, a string field. *)
Definition get_named (cur : Message) (name : string) : go content :=
  fd ← named_field cur name; Ok (Get cur fd).
Definition Value_Bytes (c : content) : go string :=
  match c with Single (ValueOfBytes b) => Ok b | _ => Panic (PanicCall "type mismatch") end.
Definition Value_String (c : content) : string :=
  match c with Single (ValueOfString t) => t | _ => "<invalid>" end.

(** ** SendMsg *)

(** [f] on the reply, whose fields on the way are made. *)
Definition from_message {A} (m : Message) (f : st Message error A) : st streamHTTP error (Message * A) := fun s =>
  let '(m, o) := f m in (s, a ← o; Ok (m, a)).

Definition encode_reply (cur : Message) (c : Codec) (accept : string) : go (string * string) :=
  if is_HttpBody cur then
    ct ← get_named cur "content_type";
    data ← get_named cur "data";
    b ← Value_Bytes data;
    Ok (b, Value_String ct)
  else
    match MarshalAppend c "" cur with
    | Ok b => Ok (b, accept)
    | Err e => Err (StatusError codes.Internal "%s: error while marshaling: %v" [AStr (codec_Name c); AErr e])
    | Panic p => Panic p
    | OutOfFuel => OutOfFuel
    end.

Definition send_reply (m : Message) : st streamHTTP error unit :=
  s ← get;
  '(m, cur) ← from_message m (mutable_path (resp (h_meth s)));
  c ← lift (getCodec (h_opts s) (h_accept s) cur);
  '(b, contentType) ← lift (encode_reply cur c (h_accept s));
  writeMsg c b contentType;;
  modify (h_stat (outPayload false m b)).

Definition http_SendMsg (m : Message) : st streamHTTP error unit := fun s =>
  let '(s, o) := send_reply m s in (http_flush s, o).

(** ** RecvMsg *)

(** The slice from the pool with the bytes left over appended to it. *)
Definition pooled : st streamHTTP error nat := fun s =>
  match h_caps s with [] => (s, Ok 64) | c :: cs => (h_set_caps cs s, Ok c) end.

Definition appended_cap (cap n : nat) : nat := if n <=? cap then cap else n `max` append_cap cap.

Definition readMsg (c : Codec) : st streamHTTP error (Z * string) :=
  s ← get;
  if h_rEOF s then throw EOF else
  let count := h_recvCount s in
  modify (fun s => h_set_recvCount (h_recvCount s + 1) s);;
  cap ← pooled;
  s ← get;
  if IsStreamingClient (desc (h_meth s)) then
    sc ← stream_codec c;
    let '(rb, o) := ReadNext sc (maxReceiveMessageSize (h_opts s))
      (RBuf (h_rbuf s) (appended_cap cap (String.length (h_rbuf s))) (h_r s)) in
    modify (h_set_input (h_rbuf s) (src rb));;
    '(n, err) ← lift o;
    (match err with Some EOF => modify (h_set_rEOF true) | _ => mret tt end);;
    if ((n <? 0) || (Z.of_nat (String.length (bytes rb)) <? n))%Z then crash SliceOutOfRange
    else
      modify (h_set_input (str_drop (Z.to_nat n) (bytes rb)) (src rb));;
      match err with
      | None | Some EOF => mret (count, str_take (Z.to_nat n) (bytes rb))
      | Some e => throw e
      end
  else
    let '(rb, o) := readAll (h_opts s) (RBuf "" cap (h_r s)) in
    modify (h_set_input (h_rbuf s) (src rb));;
    '(b, err) ← lift o;
    match err with
    | EOF => modify (h_set_rEOF true);; mret (count, b)
    | e => throw e
    end.

(** The stream and the message that is received into. *)
Definition on_stream {A} (f : st streamHTTP error A) : st (streamHTTP * Message) error A := fun '(s, m) =>
  let '(s, o) := f s in ((s, m), o).
Definition on_args {A} (f : st Message error A) : st (streamHTTP * Message) error A := fun '(s, m) =>
  let '(m, o) := f m in ((s, m), o).

(** What the bytes of a message do to the message that the body is for. *)
Definition decode_body (c : Codec) (contentType b : string) : st Message error unit := fun cur =>
  if is_HttpBody cur then
    (set_named "content_type" (ValueOfString contentType);;
     set_named "data" (ValueOfBytes b)) cur
  else
    match Unmarshal c b cur with
    | (cur, Err e) => (cur, Err (StatusError codes.Internal "%s: error while unmarshaling: %v" [AStr (codec_Name c); AErr e]))
    | r => r
    end.

Definition decodeRequestArgs : st (streamHTTP * Message) error Z :=
  '(s, _) ← get;
  cur ← on_args (mutable_path (body (h_meth s)));
  c ← lift (getCodec (h_opts s) (h_contentType s) cur);
  '(count, b) ← on_stream (readMsg c);
  on_args (at_message (body (h_meth s)) (decode_body c (h_contentType s) b));;
  msg ← on_args (mutable_path (body (h_meth s)));
  on_stream (modify (h_stat (inPayload false msg b)));;
  mret count.

(** A request without a body is one message. *)
Definition no_body : st streamHTTP error Z := fun s =>
  let count := h_recvCount s in
  let s := h_set_recvCount (h_recvCount s + 1) s in
  if h_rEOF s then (s, Err EOF) else (h_set_rEOF true s, Ok count).

Definition http_RecvMsg : st (streamHTTP * Message) error unit :=
  '(s, _) ← get;
  count ← (if hasBody (h_meth s) && h_hasBody s then decodeRequestArgs else on_stream no_body);
  if (count =? 0)%Z then on_args (params_set (h_params s)) else mret tt.

#[export] Instance http_stream : ServerStream streamHTTP := {|
  Context_ := h_ctx;
  SetHeader := http_SetHeader;
  SendHeader := http_SendHeader;
  SetTrailer := http_SetTrailer;
  SendMsg := http_SendMsg;
  RecvMsg := http_RecvMsg;
|}.
(** ** Bodies as readers and writers *)

(** The transport stream that a context carries: none, one of another package, or
    the stream of a transport of this one. *)
Inductive transport := NoTransport | UnknownTransport | OtherStream (typ : string) | HTTPTransport.

Definition streamHTTPFromCtx (t : transport) : go unit :=
  match t with
  | NoTransport => Err (Errorf "invalid server transport stream" [])
  | UnknownTransport => Err (Errorf "unknown server transport stream" [])
  | OtherStream typ => Err (Errorf "expected HTTP stream got %T" [AStr typ])
  | HTTPTransport => Ok tt
  end.

(** [if !ok { return nil, fmt.Errorf(...) }] *)
Definition require {S} (ok : bool) (fmt : string) (args : list arg) : st S error unit :=
  if ok then mret tt else throw (Errorf fmt args).

(** The checks on the message and on its body field. *)
Definition http_body_message (fds : list FieldDescriptor) (want : string) : st Message error Message :=
  msg ← get;
  let name := MessageFullName (Descriptor msg) in
  require (String.eqb name want) "expected %s got %s" [AStr want; AStr name];;
  cur ← mutable_path fds;
  require (is_HttpBody cur) "expected body type of google.api.HttpBody got %s"
    [AStr (MessageFullName (Descriptor cur))];;
  mret cur.

(** [AsHTTPBodyReader]: the reader is the stream's own. *)
Definition AsHTTPBodyReader (t : transport) : st (streamHTTP * Message) error reader :=
  lift (streamHTTPFromCtx t);;
  '(s, _) ← get;
  require (IsStreamingClient (desc (h_meth s))) "expected streaming client" [];;
  require (negb (0 <? h_recvCount s)%Z) "expected first message" [];;
  on_args (http_body_message (body (h_meth s)) (MessageFullName (Input (desc (h_meth s)))));;
  on_args (at_message (body (h_meth s)) (set_named "content_type" (ValueOfString (h_contentType s))));;
  on_args (params_set (h_params s));;
  on_stream (modify (fun s => h_set_recvCount (h_recvCount s + 1) s));;
  mret (h_r s).

(** [AsHTTPBodyWriter]: the writer is [http_Write] on the stream. *)
Definition AsHTTPBodyWriter (t : transport) : st (streamHTTP * Message) error unit :=
  lift (streamHTTPFromCtx t);;
  '(s, _) ← get;
  require (IsStreamingServer (desc (h_meth s))) "expected streaming server" [];;
  require (negb (0 <? h_sendCount s)%Z) "expected first message" [];;
  cur ← on_args (http_body_message (resp (h_meth s)) (MessageFullName (Output (desc (h_meth s)))));
  ct ← lift (get_named cur "content_type");
  on_stream (modify (fun s => h_set_w (w_set_header (header_Set "Content-Type" (Value_String ct)) (h_w s)) s));;
  (if h_sentHeader s then mret tt else on_stream (http_SendHeader ∅));;
  on_stream (modify (fun s => h_set_sendCount (h_sendCount s + 1) s)).
End HTTP.
