(* ===== verification/HttpSpec.v ===== *)
(** What the HTTP stream guarantees: the reply of a handler is the body of the
    response, the body of a request is one message however it arrives, and the
    messages of a client stream are the frames of the body. *)

#[local] Set Warnings "-register-all".
From S2P Require Import Prelude Status IO Http Base64 Proto Params Metadata Compress Codec CodecSpec Selector Stream Framing Routes GrpcStream GrpcSpec HttpStream.

(** ** readAll *)

Section ReadAll.
Context `{G : GoAppend} `{P : Protoreflect}.

Lemma readAll_loop_spec fuel max total b :
  buf_ok b -> no_error (src b) -> reader_size (src b) < fuel ->
  let size := (total + Z.of_nat (String.length (reader_data (src b))))%Z in
  exists b', readAll_loop fuel max total b =
    (b', if (max <? size)%Z then Err (Errorf "max receive message size reached" []) else Ok (IO.stream b, EOF)).
Proof.
  revert total b. induction fuel as [|fuel IH]; intros total b Hok Hn Hf; [lia|]. cbn [readAll_loop]. cbv zeta.
  destruct (read_some b) as [b1 e] eqn:E.
  destruct (read_some_spec _ _ _ Hok E) as (Hs & Hok1 & Hl & _ & Hdec & Hne). destruct (Hne Hn) as [Hn1 He].
  assert (Hsum : String.length (bytes b) + String.length (reader_data (src b)) =
    String.length (bytes b1) + String.length (reader_data (src b1))).
  { rewrite <-!str_length_app. unfold IO.stream in Hs. by rewrite <-Hs. }
  destruct He as [->|[-> Hend]].
  - destruct (Z.ltb_spec max (total + Z.of_nat (String.length (bytes b1) - String.length (bytes b)))).
    + exists b1. destruct (Z.ltb_spec max (total + Z.of_nat (String.length (reader_data (src b))))); [done|lia].
    + destruct (IH (total + Z.of_nat (String.length (bytes b1) - String.length (bytes b)))%Z b1 Hok1 Hn1
        ltac:(specialize (Hdec eq_refl); lia)) as [b' ->]. exists b'. rewrite Hs.
      replace (total + Z.of_nat (String.length (bytes b1) - String.length (bytes b)) +
        Z.of_nat (String.length (reader_data (src b1))))%Z with (total + Z.of_nat (String.length (reader_data (src b))))%Z by lia.
      done.
  - assert (Hz : String.length (reader_data (src b)) = 0).
    { apply (f_equal String.length) in Hend. unfold IO.stream in Hend. rewrite str_length_app in Hend. lia. }
    assert (Hb1 : bytes b1 = IO.stream b).
    { rewrite <-Hs. unfold IO.stream. destruct (reader_data (src b1)); [by rewrite str_app_nil_r|simpl in *; lia]. }
    rewrite Hb1. exists b1. rewrite <-Hb1.
    replace (String.length (bytes b1) - String.length (bytes b)) with 0 by lia.
    rewrite Hz. by destruct (max <? total + Z.of_nat 0)%Z.
Qed.

Lemma readAll_spec o b :
  buf_ok b -> no_error (src b) -> bytes b = "" ->
  exists b', readAll o b = (b',
    if (maxReceiveMessageSize o <? Z.of_nat (String.length (reader_data (src b))))%Z
    then Err (Errorf "max receive message size reached" []) else Ok (reader_data (src b), EOF)).
Proof.
  intros Hok Hn Hb. unfold readAll.
  destruct (readAll_loop_spec (S (reader_size (src b))) (maxReceiveMessageSize o) 0 b Hok Hn ltac:(lia)) as [b' ->].
  exists b'. rewrite Z.add_0_l. unfold IO.stream. by rewrite Hb.
Qed.
End ReadAll.

Section Spec.
Context `{P : Protoreflect} {M : Messages} `{R : GoRange} `{F : Fmt} `{GA : GoAppend} `{GS : !GrpcStatus} `{MDJ : Metadata}.
Abbreviation stream := (streamHTTP (W := response)).

(** A stream that has sent nothing, to a client that takes what is written. *)
Definition fresh_reply (s : stream) : Prop :=
  h_comp s = None /\ rs_answers (h_w s) = [] /\ rs_sent (h_w s) = false /\ h_sendCount s = 0%Z /\
  h_sentHeader s = false /\ lower_keys (h_header s).

(** The header map of the response. *)
Definition reply_header (s : stream) (contentType : string) : Header :=
  setOutgoingHeader (Join (h_header s) ∅) (header_Set "Content-Type" contentType (rs_header (h_w s))).

Lemma reply_header_type s ct : lower_keys (h_header s) -> reply_header s ct !! "Content-Type" = Some [ct].
Proof.
  intros Hl. unfold reply_header. rewrite setOutgoingHeader_reserved;
    [apply lookup_insert_eq|apply lower_keys_Join; [done|apply lower_keys_empty]|done].
Qed.

Lemma http_Write_plain (s : stream) b :
  h_comp s = None -> rs_answers (h_w s) = [] ->
  http_Write b s = (h_set_w (rs_emit (EvBody b) (send_header (h_w s))) s, Ok (String.length b)).
Proof.
  intros Hc Ha. unfold http_Write. rewrite Hc. change (w_Write b (h_w s)) with (response_Write b (h_w s)).
  unfold response_Write. by rewrite send_header_answers, Ha.
Qed.

Lemma writeAll_ok {T} o (Write : writer T) b s s' :
  (Z.of_nat (String.length b) <= maxSendMessageSize o)%Z -> Write b s = (s', Ok (String.length b)) ->
  writeAll o Write b s = (s', Ok tt).
Proof.
  intros Hb E. unfold writeAll. destruct (Z.ltb_spec (maxSendMessageSize o) (Z.of_nat (String.length b))); [lia|].
  rewrite (st_bind_run _ _ _ _ _ E). by rewrite Nat.eqb_refl.
Qed.

(** The stream after its first message. *)
Definition replied (s : stream) (b ct : string) (s' : stream) : Prop :=
  h_comp s' = None /\ rs_flusher (h_w s') = rs_flusher (h_w s) /\ rs_sent (h_w s') = true /\
  h_sendCount s' = 1%Z /\ h_sentHeader s' = true /\ h_opts s' = h_opts s /\
  rs_events (h_w s') = rs_events (h_w s) ++ [EvHeader 200 (reply_header s ct); EvBody b].

Lemma writeMsg_unary (s : stream) c b ct :
  IsStreamingServer (desc (h_meth s)) = false -> fresh_reply s ->
  (Z.of_nat (String.length b) <= maxSendMessageSize (h_opts s))%Z ->
  exists s', writeMsg c b ct s = (s', Ok 0%Z) /\ replied s b ct s'.
Proof.
  intros Hst (Hc & Ha & Hsent & Hn & Hsh & _) Hb.
  unfold writeMsg. rewrite bind_get, Hn. cbn [Z.eqb]. rewrite Hsh, Hst.
  set (s1 := h_set_w (w_set_header (header_Set "Content-Type" ct) (h_w s)) s).
  assert (H1 : (modify (fun s : stream => h_set_w (w_set_header (header_Set "Content-Type" ct) (h_w s)) s);;
    http_SendHeader ∅) s = http_SendHeader ∅ s1) by done.
  destruct (http_SendHeader ∅ s1) as [s2 o2] eqn:E2. unfold http_SendHeader in E2.
  assert (Hs1 : h_sentHeader s1 = false) by (by destruct s). rewrite Hs1 in E2. injection E2 as <- <-.
  rewrite (st_bind_run _ _ _ _ _ H1), bind_modify.
  match goal with |- context [writeAll (h_opts s) http_Write b;; _] => idtac end.
  match goal with |- exists s', (_ ≫= _) ?x = _ /\ _ => set (s3 := x) end.
  assert (H3 : h_comp s3 = None /\ rs_answers (h_w s3) = []).
  { unfold s3, h_stat. destruct s as [o c' mt w]; destruct w. simpl in *. by destruct (statsHandler o). }
  rewrite (st_bind_run _ _ _ _ _ (writeAll_ok _ _ _ _ _ Hb (http_Write_plain s3 b (proj1 H3) (proj2 H3)))).
  eexists. split; [reflexivity|]. clear H1 H3 Hs1. unfold s3, s1, h_stat, replied, reply_header.
  destruct s as [o c' mt w]; destruct w. simpl in *. subst.
  destruct (statsHandler o); simpl; split_and!; try done; by rewrite <-app_assoc.
Qed.

Lemma unary_sent (s : stream) m m' cur c b ct :
  IsStreamingServer (desc (h_meth s)) = false -> fresh_reply s ->
  mutable_path (resp (h_meth s)) m = (m', Ok cur) ->
  getCodec (h_opts s) (h_accept s) cur = Ok c -> encode_reply cur c (h_accept s) = Ok (b, ct) ->
  (Z.of_nat (String.length b) <= maxSendMessageSize (h_opts s))%Z ->
  exists s', http_SendMsg m s = (s', Ok tt) /\
    rs_events (h_w s') = rs_events (h_w s) ++ [EvHeader 200 (reply_header s ct); EvBody b] ++
      (if rs_flusher (h_w s) then [EvFlush] else []) /\
    reply_header s ct !! "Content-Type" = Some [ct] /\ h_sendCount s' = 1%Z /\ h_comp s' = None.
Proof.
  intros Hst Hf Hcur Hc He Hb. destruct (writeMsg_unary s c b ct Hst Hf Hb) as (s1 & E1 & Hcz & Hfl & Hsent & Hn & _ & Ho & Hev).
  assert (Hsend : send_reply m s = (h_stat (outPayload false m' b) s1, Ok tt)).
  { unfold send_reply. rewrite bind_get.
    assert (H1 : from_message m (mutable_path (resp (h_meth s))) s = (s, Ok (m', cur))) by (unfold from_message; by rewrite Hcur).
    rewrite (st_bind_run _ _ _ _ _ H1). cbn beta iota.
    rewrite (st_bind_run _ _ s s c) by (unfold lift; by rewrite Hc).
    rewrite (st_bind_run _ _ s s (b, ct)) by (unfold lift; by rewrite He). cbn beta iota.
    by rewrite (st_bind_run _ _ _ _ _ E1). }
  unfold http_SendMsg. rewrite Hsend. eexists. split; [reflexivity|].
  split_and!; [|by apply reply_header_type; destruct Hf as (_ & _ & _ & _ & _ & ?)|..].
  - unfold http_flush, h_stat. destruct s1 as [o1 ? ? w1 cz1]; destruct w1. simpl in *. subst.
    destruct (statsHandler _); simpl; destruct (rs_flusher (h_w s)); simpl; by rewrite <-?app_assoc, ?app_nil_r.
  - unfold http_flush, h_stat. destruct s1 as [o1 ? ? w1 cz1]; destruct w1. simpl in *. subst.
    destruct (statsHandler _); simpl; by destruct (rs_flusher (h_w s)).
  - unfold http_flush, h_stat. destruct s1 as [o1 ? ? w1 cz1]; destruct w1. simpl in *. subst.
    destruct (statsHandler _); simpl; by destruct (rs_flusher (h_w s)).
Qed.

(** The reply of a unary method is the response: status 200, the negotiated
    content type (or the body's own), the metadata that was set, and as body exactly
    the encoding of the response field of the reply. *)
Theorem http_send_reply (s : stream) m m' cur c b ct :
  IsStreamingServer (desc (h_meth s)) = false -> fresh_reply s ->
  mutable_path (resp (h_meth s)) m = (m', Ok cur) ->
  getCodec (h_opts s) (h_accept s) cur = Ok c -> encode_reply cur c (h_accept s) = Ok (b, ct) ->
  (Z.of_nat (String.length b) <= maxSendMessageSize (h_opts s))%Z ->
  exists s', http_SendMsg m s = (s', Ok tt) /\
    rs_events (h_w s') = rs_events (h_w s) ++ [EvHeader 200 (reply_header s ct); EvBody b] ++
      (if rs_flusher (h_w s) then [EvFlush] else []) /\
    reply_header s ct !! "Content-Type" = Some [ct] /\ h_sendCount s' = 1%Z.
Proof.
  intros Hst Hf Hcur Hc He Hb. destruct (unary_sent s m m' cur c b ct Hst Hf Hcur Hc He Hb) as (s' & ? & ? & ? & ? & _).
  by exists s'.
Qed.

(** *** Receiving *)

(** What receiving does not change. *)
Definition same_request (s s' : stream) : Prop :=
  h_opts s' = h_opts s /\ h_meth s' = h_meth s /\ h_contentType s' = h_contentType s /\
  h_params s' = h_params s /\ h_hasBody s' = h_hasBody s.

Lemma pooled_run (s : stream) : exists cs cap, pooled s = (h_set_caps cs s, Ok cap).
Proof.
  unfold pooled. destruct (h_caps s) as [|c cs] eqn:E; [|by eexists _, _]. exists [], 64.
  destruct s; simpl in *; by subst.
Qed.

Lemma readMsg_unary (s : stream) c :
  IsStreamingClient (desc (h_meth s)) = false -> h_rEOF s = false -> no_error (h_r s) ->
  exists s', same_request s s' /\
    if (maxReceiveMessageSize (h_opts s) <? Z.of_nat (String.length (reader_data (h_r s))))%Z
    then readMsg c s = (s', Err (Errorf "max receive message size reached" []))
    else readMsg c s = (s', Ok (h_recvCount s, reader_data (h_r s))) /\ h_rEOF s' = true /\ h_recvCount s' = (h_recvCount s + 1)%Z.
Proof.
  intros Hst He Hn. unfold readMsg. rewrite bind_get, He, bind_modify.
  set (s0 := h_set_recvCount _ s). destruct (pooled_run s0) as (cs & cap & Hp).
  rewrite (st_bind_run _ _ _ _ _ Hp), bind_get. set (s1 := h_set_caps cs s0).
  assert (H1 : h_meth s1 = h_meth s /\ h_opts s1 = h_opts s /\ h_r s1 = h_r s /\ same_request s s1) by (by destruct s).
  destruct H1 as (Hm & Ho & Hr & Hsame). rewrite Hm, Hst, Ho, Hr.
  destruct (readAll_spec (h_opts s) (RBuf "" cap (h_r s))) as [b' Hb']; [unfold buf_ok; simpl; lia|done|done|].
  simpl in Hb'. rewrite Hb', bind_modify. set (s2 := h_set_input (h_rbuf s1) (src b') s1).
  destruct (maxReceiveMessageSize (h_opts s) <? _)%Z.
  - exists s2. split; [by destruct s|]. by rewrite (st_bind_err _ _ _ s2 (Errorf "max receive message size reached" [])).
  - exists (h_set_rEOF true s2). split_and!; [by destruct s..| |by destruct s|by destruct s].
    by rewrite (st_bind_run _ _ s2 s2 (reader_data (h_r s), EOF)).
Qed.

Lemma on_args_run {A} (f : st Message error A) (s : stream) m m' o :
  f m = (m', o) -> on_args f (s, m) = ((s, m'), o).
Proof. unfold on_args. by intros ->. Qed.

Lemma on_stream_run {A} (f : st stream error A) (s s' : stream) m o :
  f s = (s', o) -> on_stream f (s, m) = ((s', m), o).
Proof. unfold on_stream. by intros ->. Qed.

(** What the bytes of a message do to the message that is received into. *)
Definition receive_into (mt : method) (c : Codec) (contentType : string) (ps : list param) (b : string) : st Message error unit :=
  at_message (body mt) (decode_body c contentType b);;
  mutable_path (body mt);;
  params_set ps.

Lemma h_set_stats_id (s : stream) : h_set_stats (h_stats s) s = s.
Proof. by destruct s. Qed.

Lemma h_stat_stats x (s : stream) : exists sts, h_stat x s = h_set_stats sts s.
Proof. unfold h_stat. destruct (statsHandler _); [by eexists|exists (h_stats s); by rewrite h_set_stats_id]. Qed.

Lemma http_RecvMsg_run (s s' : stream) m m1 cur c count b m2 o :
  hasBody (h_meth s) && h_hasBody s = true ->
  mutable_path (body (h_meth s)) m = (m1, Ok cur) -> getCodec (h_opts s) (h_contentType s) cur = Ok c ->
  readMsg c s = (s', Ok (count, b)) ->
  receive_into (h_meth s) c (h_contentType s) (if (count =? 0)%Z then h_params s else []) b m1 = (m2, o) ->
  exists sts, http_RecvMsg (s, m) = ((h_set_stats sts s', m2), o).
Proof.
  intros Hb Hm Hc Hr Hin. unfold http_RecvMsg. rewrite bind_get, Hb. unfold decodeRequestArgs.
  rewrite st_bind_assoc, bind_get, st_bind_assoc, (st_bind_run _ _ _ _ _ (on_args_run _ s _ _ _ Hm)).
  rewrite st_bind_assoc, (st_bind_run _ _ (s, m1) (s, m1) c) by (unfold lift; by rewrite Hc).
  rewrite st_bind_assoc, (st_bind_run _ _ _ _ _ (on_stream_run _ _ _ m1 _ Hr)). cbn beta iota.
  unfold receive_into in Hin. unfold mbind, st_bind in Hin |- *.
  unfold on_args at 1. destruct (at_message _ _ m1) as [m3 [[]|e|q|]];
    try by (injection Hin as <- <-; exists (h_stats s'); by rewrite h_set_stats_id).
  unfold on_args at 1. destruct (mutable_path _ m3) as [m4 [msg|e|q|]];
    try by (injection Hin as <- <-; exists (h_stats s'); by rewrite h_set_stats_id).
  unfold on_stream, modify. destruct (h_stat_stats (inPayload false msg b) s') as [sts ->]. exists sts. cbn.
  destruct (count =? 0)%Z; [|by injection Hin as <- <-]. unfold on_args. by rewrite Hin.
Qed.

(** Receiving leaves alone what sending uses. *)
Definition same_reply (s s' : stream) : Prop :=
  h_w s' = h_w s /\ h_comp s' = h_comp s /\ h_header s' = h_header s /\ h_trailer s' = h_trailer s /\ h_sendCount s' = h_sendCount s /\
  h_sentHeader s' = h_sentHeader s /\ h_opts s' = h_opts s /\ h_meth s' = h_meth s /\ h_accept s' = h_accept s /\
  h_ctx s' = h_ctx s.

#[local] Instance same_reply_refl : Reflexive same_reply.
Proof. by intros s. Qed.
#[local] Instance same_reply_trans : Transitive same_reply.
Proof. unfold same_reply. intros s1 s2 s3 H1 H2. destruct_and!. split_and!; congruence. Qed.

Lemma keeps_lift {A} Q `{!Reflexive Q} (o : go A) : keeps (S := stream) Q (lift o).
Proof. by intros s. Qed.

Lemma h_stat_reply x (s : stream) : same_reply s (h_stat x s).
Proof. destruct (h_stat_stats x s) as [sts ->]. by destruct s. Qed.

Lemma readMsg_reply c : keeps same_reply (readMsg c).
Proof.
  unfold readMsg. apply keeps_bind; [apply _|keep|]. intros s0. apply keeps_if; [keep|].
  apply keeps_bind; [apply _|apply keeps_modify; by intros []|]. intros _. apply keeps_bind; [apply _| |].
  { intros s. destruct (pooled_run s) as (cs & cap & ->). by destruct s. }
  intros cap. apply keeps_bind; [apply _|keep|]. intros s1. apply keeps_if.
  - apply keeps_bind; [apply _|unfold stream_codec; case_match; keep|]. intros sc. destruct (ReadNext _ _ _) as [rb o].
    apply keeps_bind; [apply _|apply keeps_modify; by intros []|]. intros _.
    apply keeps_bind; [apply _|apply keeps_lift, _|]. intros [n err]. apply keeps_bind; [apply _|destruct err as [[]|]; keep|].
    { apply keeps_modify; by intros []. }
    intros _. apply keeps_if; [keep|]. apply keeps_bind; [apply _|apply keeps_modify; by intros []|]. intros _.
    destruct err as [[]|]; keep.
  - destruct (readAll _ _) as [rb o]. apply keeps_bind; [apply _|apply keeps_modify; by intros []|]. intros _.
    apply keeps_bind; [apply _|apply keeps_lift, _|]. intros [b err].
    destruct err; try keep. apply keeps_bind; [apply _|apply keeps_modify; by intros []|]. intros _. keep.
Qed.

Lemma http_RecvMsg_reply (s s' : stream) m m' o : http_RecvMsg (s, m) = ((s', m'), o) -> same_reply s s'.
Proof.
  assert (H : keeps (fun x y : stream * Message => same_reply x.1 y.1) http_RecvMsg).
  { set (Q := fun x y : stream * Message => same_reply x.1 y.1).
    assert (HR : Reflexive Q) by (by intros x). assert (HT : Transitive Q) by (intros x y z; apply same_reply_trans).
    assert (Hs : forall A (f : st stream error A), keeps same_reply f -> keeps Q (on_stream f)).
    { intros A f Hf [s0 m0]. unfold on_stream. specialize (Hf s0). by destruct (f s0). }
    assert (Ha : forall A (f : st Message error A), keeps Q (on_args f)).
    { intros A f [s0 m0]. unfold on_args. by destruct (f m0). }
    assert (Hl : forall A (o : go A), keeps Q (lift o)) by (intros A o0 x; apply HR).
    unfold http_RecvMsg, decodeRequestArgs. apply keeps_bind; [done|keep|]. intros [s0 m0].
    apply keeps_bind; [done| |intros; apply keeps_if; keep].
    apply keeps_if; [|apply Hs; intros s2; unfold no_body; case_match; by destruct s2].
    apply keeps_bind; [done|keep|]. intros [s1 m1]. apply keeps_bind; [done|auto|]. intros cur.
    apply keeps_bind; [done|auto|]. intros c. apply keeps_bind; [done|apply Hs, readMsg_reply|]. intros [count b].
    apply keeps_bind; [done|auto|]. intros _. apply keeps_bind; [done|auto|]. intros msg.
    apply keeps_bind; [done|apply Hs, keeps_modify; intros; apply h_stat_reply|]. keep. }
  intros E. specialize (H (s, m)). by rewrite E in H.
Qed.

(** The read error of a message is the error of [RecvMsg]. *)
Lemma http_RecvMsg_err (s s' : stream) m m1 cur c e :
  hasBody (h_meth s) && h_hasBody s = true ->
  mutable_path (body (h_meth s)) m = (m1, Ok cur) -> getCodec (h_opts s) (h_contentType s) cur = Ok c ->
  readMsg c s = (s', Err e) -> http_RecvMsg (s, m) = ((s', m1), Err e).
Proof.
  intros Hb Hm Hc Hr. unfold http_RecvMsg. rewrite bind_get, Hb. unfold decodeRequestArgs.
  rewrite st_bind_assoc, bind_get, st_bind_assoc, (st_bind_run _ _ _ _ _ (on_args_run _ s _ _ _ Hm)).
  rewrite st_bind_assoc, (st_bind_run _ _ (s, m1) (s, m1) c) by (unfold lift; by rewrite Hc).
  by rewrite st_bind_assoc, (st_bind_err _ _ _ _ _ (on_stream_run _ _ _ m1 _ Hr)).
Qed.

Lemma unary_received (s : stream) m m1 cur c m2 o :
  hasBody (h_meth s) && h_hasBody s = true -> IsStreamingClient (desc (h_meth s)) = false ->
  h_rEOF s = false -> h_recvCount s = 0%Z -> no_error (h_r s) ->
  mutable_path (body (h_meth s)) m = (m1, Ok cur) -> getCodec (h_opts s) (h_contentType s) cur = Ok c ->
  receive_into (h_meth s) c (h_contentType s) (h_params s) (reader_data (h_r s)) m1 = (m2, o) ->
  exists s', if (maxReceiveMessageSize (h_opts s) <? Z.of_nat (String.length (reader_data (h_r s))))%Z
    then http_RecvMsg (s, m) = ((s', m1), Err (Errorf "max receive message size reached" []))
    else http_RecvMsg (s, m) = ((s', m2), o) /\
      forall m' m1' cur' c', mutable_path (body (h_meth s)) m' = (m1', Ok cur') ->
        getCodec (h_opts s) (h_contentType s) cur' = Ok c' -> http_RecvMsg (s', m') = ((s', m1'), Err EOF).
Proof.
  intros Hb Hst He Hn Hne Hm Hc Hin.
  destruct (readMsg_unary s c Hst He Hne) as (s' & (Ho & Hmt & Hct & _ & Hhb) & Hr).
  destruct (maxReceiveMessageSize (h_opts s) <? _)%Z.
  - exists s'. by eapply http_RecvMsg_err.
  - destruct Hr as (Hr & Heof & _). rewrite Hn in Hr.
    destruct (http_RecvMsg_run s s' m m1 cur c 0 _ m2 o Hb Hm Hc Hr Hin) as [sts E].
    exists (h_set_stats sts s'). split; [exact E|]. intros m' m1' cur' c' Hm' Hc'.
    assert (Hs : h_opts (h_set_stats sts s') = h_opts s /\ h_meth (h_set_stats sts s') = h_meth s /\
      h_contentType (h_set_stats sts s') = h_contentType s /\ h_hasBody (h_set_stats sts s') = h_hasBody s /\
      h_rEOF (h_set_stats sts s') = true) by (by destruct s').
    destruct Hs as (Ho' & Hmt' & Hct' & Hhb' & Heof').
    eapply (http_RecvMsg_err _ _ _ _ cur' c'); rewrite ?Hmt', ?Hhb', ?Ho', ?Hct'; [done|done|done|].
    unfold readMsg. by rewrite bind_get, Heof'.
Qed.

(** C17 The body of a unary request is one message: in whatever pieces it arrives,
    [RecvMsg] decodes all of it by the codec of its content type into the body field,
    then sets the parameters of path and query, and the next call is [io.EOF]; a body
    over the limit is refused before anything is decoded. *)
Theorem http_recv_body (s : stream) m m1 cur c m2 o :
  hasBody (h_meth s) && h_hasBody s = true -> IsStreamingClient (desc (h_meth s)) = false ->
  h_rEOF s = false -> h_recvCount s = 0%Z -> no_error (h_r s) ->
  mutable_path (body (h_meth s)) m = (m1, Ok cur) -> getCodec (h_opts s) (h_contentType s) cur = Ok c ->
  receive_into (h_meth s) c (h_contentType s) (h_params s) (reader_data (h_r s)) m1 = (m2, o) ->
  exists s', if (maxReceiveMessageSize (h_opts s) <? Z.of_nat (String.length (reader_data (h_r s))))%Z
    then http_RecvMsg (s, m) = ((s', m1), Err (Errorf "max receive message size reached" []))
    else http_RecvMsg (s, m) = ((s', m2), o) /\
      forall m' m1' cur' c', mutable_path (body (h_meth s)) m' = (m1', Ok cur') ->
        getCodec (h_opts s) (h_contentType s) cur' = Ok c' -> http_RecvMsg (s', m') = ((s', m1'), Err EOF).
Proof. apply unary_received. Qed.

(** *** Client streams *)

(** What the stream still has to read. *)
Definition unread (s : stream) : string := (h_rbuf s ++ reader_data (h_r s))%string.

Section ClientStream.
Context (c : Codec) (sc : StreamCodec) (Hsc : streaming c = Some sc) `{FR : !Framing sc}.

Lemma appended_ok cap b r : buf_ok (RBuf b (appended_cap cap (String.length b)) r).
Proof. unfold buf_ok, appended_cap. simpl. destruct (Nat.leb_spec (String.length b) cap); lia. Qed.

(** [readMsg] on a client stream, up to the codec. *)
Lemma readMsg_codec (s : stream) rb n err :
  IsStreamingClient (desc (h_meth s)) = true -> h_rEOF s = false ->
  (forall cap, buf_ok (RBuf (h_rbuf s) cap (h_r s)) ->
     exists rb', ReadNext sc (maxReceiveMessageSize (h_opts s)) (RBuf (h_rbuf s) cap (h_r s)) = (rb', Ok (n, err)) /\
       (0 <= n <= Z.of_nat (String.length (bytes rb')))%Z /\ rb rb') ->
  err = None \/ err = Some EOF ->
  exists s' rb', rb rb' /\ readMsg c s = (s', Ok (h_recvCount s, str_take (Z.to_nat n) (bytes rb'))) /\
    same_request s s' /\ h_recvCount s' = (h_recvCount s + 1)%Z /\
    h_rEOF s' = match err with None => false | Some _ => true end /\
    h_rbuf s' = str_drop (Z.to_nat n) (bytes rb') /\ h_r s' = src rb'.
Proof using Hsc.
  intros Hst He Hread Herr. unfold readMsg. rewrite bind_get, He, bind_modify.
  set (s0 := h_set_recvCount _ s). destruct (pooled_run s0) as (cs & cap & Hp).
  rewrite (st_bind_run _ _ _ _ _ Hp), bind_get. set (s1 := h_set_caps cs s0).
  assert (H1 : h_meth s1 = h_meth s /\ h_opts s1 = h_opts s /\ h_r s1 = h_r s /\ h_rbuf s1 = h_rbuf s) by (by destruct s).
  destruct H1 as (Hm & Ho & Hr & Hb). rewrite Hm, Hst, Ho, Hr, Hb. unfold stream_codec. rewrite Hsc.
  destruct (Hread _ (appended_ok cap (h_rbuf s) (h_r s))) as (rb' & E & Hn & Hrb).
  rewrite (st_bind_run (mret sc) _ s1 s1 sc eq_refl), E, bind_modify.
  rewrite (st_bind_run _ _ _ _ (n, err) (eq_refl : lift (Ok (n, err)) _ = _)). cbn beta iota.
  set (s2 := h_set_input (h_rbuf s) (src rb') s1).
  exists (h_set_input (str_drop (Z.to_nat n) (bytes rb')) (src rb')
    (match err with None => s2 | Some _ => h_set_rEOF true s2 end)), rb'. split; [done|].
  destruct (Z.ltb_spec n 0), (Z.ltb_spec (Z.of_nat (String.length (bytes rb'))) n); try lia.
  destruct Herr as [->| ->]; unfold mbind at 1, st_bind at 1; cbn [mret st_ret modify orb]; rewrite bind_modify;
    (split; [reflexivity|]); unfold s2, s1, s0; destruct s; simpl in *; by split_and!.
Qed.

Lemma readMsg_frame (s : stream) b rest :
  IsStreamingClient (desc (h_meth s)) = true -> h_rEOF s = false -> no_error (h_r s) ->
  framed b -> (Z.of_nat (String.length b) <= maxReceiveMessageSize (h_opts s))%Z ->
  unread s = (frame b ++ rest)%string ->
  exists s', readMsg c s = (s', Ok (h_recvCount s, b)) /\ same_request s s' /\
    h_recvCount s' = (h_recvCount s + 1)%Z /\ h_rEOF s' = false /\ no_error (h_r s') /\ unread s' = rest.
Proof using Hsc FR.
  intros Hst He Hn Hf Hmax Hun.
  destruct (readMsg_codec s (fun rb => IO.stream rb = (b ++ rest)%string /\ String.length b <= String.length (bytes rb) /\ no_error (src rb))
    (Z.of_nat (String.length b)) None Hst He) as (s' & rb & (Hs & Hl & Hne) & E & Hsame & Hcnt & Heof & Hbuf & Hr).
  - intros cap Hok. destruct (frame_read (maxReceiveMessageSize (h_opts s)) (RBuf (h_rbuf s) cap (h_r s)) b rest Hf Hmax Hok Hn Hun)
      as (rb' & E & Hs & Hl & Hne). exists rb'. split_and!; [done|lia|lia|done..].
  - by left.
  - rewrite Nat2Z.id in *. exists s'.
    destruct (app_eq_length b rest (bytes rb) (reader_data (src rb)) (eq_sym Hs) Hl) as (w & Hw & Hrest).
    rewrite Hw, str_take_app in E. rewrite Hw, str_drop_app in Hbuf.
    split_and!; [done|done|done|done|by rewrite Hr|]. unfold unread. by rewrite Hbuf, Hr.
Qed.

Lemma readMsg_end (s : stream) :
  IsStreamingClient (desc (h_meth s)) = true -> h_rEOF s = false -> no_error (h_r s) ->
  (0 < maxReceiveMessageSize (h_opts s))%Z -> unread s = "" ->
  exists s', readMsg c s = (s', Ok (h_recvCount s, "")) /\ same_request s s' /\ h_rEOF s' = true /\ h_recvCount s' = (h_recvCount s + 1)%Z.
Proof using Hsc FR.
  intros Hst He Hn Hmax Hun.
  destruct (readMsg_codec s (fun rb => IO.stream rb = "") 0 (Some EOF) Hst He)
    as (s' & rb & Hs & E & Hsame & Hcnt & Heof & _).
  - intros cap Hok. destruct (frame_end (maxReceiveMessageSize (h_opts s)) (RBuf (h_rbuf s) cap (h_r s)) Hmax Hok Hn Hun)
      as (rb' & E & Hs). exists rb'. split_and!; [done|lia|lia|done].
  - by right.
  - exists s'. rewrite str_take_0 in E. by split_and!.
Qed.

(** A body of messages, each in its frame. *)
Definition frames (bs : list string) : string := str_concat (frame <$> bs).

(** As many calls of [RecvMsg] as there are messages to come, each on a new message. *)
Fixpoint receive (n : nat) (m : Message) : st stream error (list Message) := fun s =>
  match n with
  | O => (s, Ok [])
  | S n =>
      match http_RecvMsg (s, m) with
      | ((s, a), Ok _) =>
          match receive n m s with
          | (s, Ok l) => (s, Ok (a :: l))
          | (s, Err e) => (s, Err e)
          | (s, Panic p) => (s, Panic p)
          | (s, OutOfFuel) => (s, OutOfFuel)
          end
      | ((s, _), Err e) => (s, Err e)
      | ((s, _), Panic p) => (s, Panic p)
      | ((s, _), OutOfFuel) => (s, OutOfFuel)
      end
  end.

(** The messages that the encodings are, the parameters set on the first one. *)
Fixpoint decoded (s : stream) (ps : list param) (m1 : Message) (bs : list string) (ms : list Message) : Prop :=
  match bs, ms with
  | [], [] => True
  | b :: bs, m :: ms =>
      receive_into (h_meth s) c (h_contentType s) ps b m1 = (m, Ok tt) /\ decoded s [] m1 bs ms
  | _, _ => False
  end.

Lemma decoded_same s s' ps m1 bs ms : same_request s s' -> decoded s' ps m1 bs ms -> decoded s ps m1 bs ms.
Proof.
  intros (_ & Hm & Hct & _). revert ps ms. induction bs as [|b bs IH]; intros ps [|m ms]; simpl; try done.
  rewrite Hm, Hct. intros [? ?]. split; [done|]. by apply IH.
Qed.

Lemma same_request_trans (s1 s2 s3 : stream) : same_request s1 s2 -> same_request s2 s3 -> same_request s1 s3.
Proof. unfold same_request. intros (?&?&?&?&?) (?&?&?&?&?). split_and!; congruence. Qed.

Lemma same_request_sym (s1 s2 : stream) : same_request s1 s2 -> same_request s2 s1.
Proof. unfold same_request. intros (?&?&?&?&?). by split_and!. Qed.

Lemma receive_frames (s : stream) m m1 cur bs ms :
  hasBody (h_meth s) && h_hasBody s = true -> IsStreamingClient (desc (h_meth s)) = true ->
  h_rEOF s = false -> no_error (h_r s) -> (0 <= h_recvCount s)%Z ->
  mutable_path (body (h_meth s)) m = (m1, Ok cur) -> getCodec (h_opts s) (h_contentType s) cur = Ok c ->
  Forall (fun b => framed b /\ (Z.of_nat (String.length b) <= maxReceiveMessageSize (h_opts s))%Z) bs ->
  unread s = frames bs ->
  decoded s (if (h_recvCount s =? 0)%Z then h_params s else []) m1 bs ms ->
  exists s', receive (length bs) m s = (s', Ok ms) /\ same_request s s' /\ h_rEOF s' = false /\
    h_recvCount s' = (h_recvCount s + Z.of_nat (length bs))%Z /\ no_error (h_r s') /\ unread s' = "".
Proof using Hsc FR.
  intros Hb Hst He Hn Hcount Hm Hc Hbs. revert s ms Hb Hst He Hn Hcount Hm Hc Hbs.
  induction bs as [|b bs IH]; intros s ms Hb Hst He Hn Hcount Hm Hc Hbs Hun Hd.
  { destruct ms; [|done]. exists s. rewrite Z.add_0_r. by split_and!. }
  destruct ms as [|a ms]; [done|]. destruct Hd as [Ha Hd]. apply Forall_cons in Hbs as [[Hf Hl] Hbs].
  destruct (readMsg_frame s b (frames bs) Hst He Hn Hf Hl Hun)
    as (s1 & Hr & Hsame & Hcnt & Heof & Hn1 & Hun1).
  destruct (http_RecvMsg_run s s1 m m1 cur c _ b a (Ok tt) Hb Hm Hc Hr Ha) as [sts E].
  set (s2 := h_set_stats sts s1) in *.
  assert (H2 : same_request s s2 /\ h_recvCount s2 = (h_recvCount s + 1)%Z /\ h_rEOF s2 = false /\ no_error (h_r s2) /\
    unread s2 = frames bs) by (unfold s2; destruct s1; simpl in *; by split_and!).
  destruct H2 as (Hsame2 & Hcnt2 & Heof2 & Hn2 & Hun2). pose proof Hsame2 as (Ho & Hmt & Hct & Hps & Hhb).
  destruct (IH s2 ms) as (s' & E' & Hs' & He' & Hcnt' & Hn' & Hun'); rewrite ?Hmt, ?Hhb, ?Ho, ?Hct; try done; [rewrite Hcnt2; lia|..].
  - rewrite Hcnt2. destruct (Z.eqb_spec (h_recvCount s + 1) 0); [lia|].
    eapply decoded_same; [apply same_request_sym, Hsame2|]. exact Hd.
  - exists s'. cbn [receive length]. rewrite E, E'. split_and!; [done|by eapply same_request_trans|done|lia|done|done].
Qed.

(** C32 A client stream over HTTP: the messages that [RecvMsg] delivers are the frames
    of the body in their order, each decoded on its own and the parameters set on the
    first only, in whatever pieces the body arrives.  After the last frame there is
    one more message, decoded from no bytes; only the call after it is [io.EOF]. *)
Theorem http_client_stream (s : stream) m m1 cur bs ms m2 :
  hasBody (h_meth s) && h_hasBody s = true -> IsStreamingClient (desc (h_meth s)) = true ->
  h_rEOF s = false -> no_error (h_r s) -> h_recvCount s = 0%Z -> bs <> [] ->
  (0 < maxReceiveMessageSize (h_opts s))%Z ->
  mutable_path (body (h_meth s)) m = (m1, Ok cur) -> getCodec (h_opts s) (h_contentType s) cur = Ok c ->
  Forall (fun b => framed b /\ (Z.of_nat (String.length b) <= maxReceiveMessageSize (h_opts s))%Z) bs ->
  unread s = frames bs -> decoded s (h_params s) m1 bs ms ->
  receive_into (h_meth s) c (h_contentType s) [] "" m1 = (m2, Ok tt) ->
  exists s' s'', receive (length bs) m s = (s', Ok ms) /\
    http_RecvMsg (s', m) = ((s'', m2), Ok tt) /\ http_RecvMsg (s'', m) = ((s'', m1), Err EOF).
Proof using Hsc FR.
  intros Hb Hst He Hn Hcount Hne Hmax Hm Hc Hbs Hun Hd Hend.
  assert (Hd' : decoded s (if (h_recvCount s =? 0)%Z then h_params s else []) m1 bs ms) by (by rewrite Hcount).
  destruct (receive_frames s m m1 cur bs ms Hb Hst He Hn ltac:(lia) Hm Hc Hbs Hun Hd')
    as (s' & E & (Ho & Hmt & Hct & Hps & Hhb) & He' & Hcnt & Hn' & Hun').
  assert (Hb' : hasBody (h_meth s') && h_hasBody s' = true) by (by rewrite Hmt, Hhb).
  destruct (readMsg_end s') as (s1 & Hr & (Ho1 & Hmt1 & Hct1 & _ & Hhb1) & Heof & _); [by rewrite Hmt|done|done|by rewrite Ho|done|].
  assert (Hend' : receive_into (h_meth s') c (h_contentType s') (if (h_recvCount s' =? 0)%Z then h_params s' else []) "" m1 = (m2, Ok tt)).
  { rewrite Hmt, Hct, Hcnt, Hcount. destruct bs; [done|]. by destruct (Z.eqb_spec (0 + Z.of_nat (length (s0 :: bs))) 0); [simpl in *; lia|]. }
  destruct (http_RecvMsg_run s' s1 m m1 cur c (h_recvCount s') "" m2 (Ok tt) Hb') as [sts E1];
    [by rewrite Hmt|by rewrite Ho, Hct|exact Hr|exact Hend'|].
  exists s', (h_set_stats sts s1). split_and!; [done|done|].
  assert (Hs : h_opts (h_set_stats sts s1) = h_opts s /\ h_meth (h_set_stats sts s1) = h_meth s /\
    h_contentType (h_set_stats sts s1) = h_contentType s /\ h_hasBody (h_set_stats sts s1) = h_hasBody s /\
    h_rEOF (h_set_stats sts s1) = true) by (destruct s1; simpl in *; split_and!; congruence).
  destruct Hs as (Ho2 & Hmt2 & Hct2 & Hhb2 & Heof2).
  eapply (http_RecvMsg_err _ _ _ _ cur c); rewrite ?Hmt2, ?Hhb2, ?Ho2, ?Hct2; [done|done|done|].
  unfold readMsg. by rewrite bind_get, Heof2.
Qed.
End ClientStream.
End Spec.

(** ** Witnesses *)

(** Streams of a mux with one codec: a message is its JSON text.  The method has no
    path variables, its body is the request. *)
Module SampleHTTP.
Definition text (m : xmsg) : string := match m with XText _ t => t | _ => "" end.
Definition message (t : string) : @Message plain_proto := XText (XMessage "pkg.M" []) t.
Definition codec : @Codec plain_proto :=
  MkCodec "json" (fun m => Ok (text m)) (fun b m => Ok (b ++ text m)%string)
    (fun b m => (XText (xmsg_descriptor m) b, Ok tt)) (Some json_stream).
Definition opts : @muxOptions plain_proto :=
  MuxOptions (tt : @Types plain_proto) true ([] : @Files plain_proto) None None None {["application/json" := codec]} ∅ ∅
    emptySelector [] [] 4194304 2147483647 120.
Definition method (client server : bool) : @method plain_proto :=
  Method (XMethod "pkg.S.Call" (XMessage "pkg.M" []) (XMessage "pkg.M" []) client server None) "/pkg.S/Call" [] [] [] true.
Definition new_stream (client : bool) (r : reader) : streamHTTP (P := plain_proto) :=
  StreamHTTP opts (MkContext None [] []) (method client false) new_response None "" r (<["k" := ["v"]]> ∅) ∅ []
    "application/json" "application/json" "" 0 0 false true false [] [].
End SampleHTTP.
Import SampleHTTP.

Lemma http_send_reply_witness :
  let s := new_stream false [] in
  exists s', http_SendMsg (message "{}") s = (s', Ok tt) /\
    rs_events (h_w s') = [EvHeader 200 (reply_header s "application/json"); EvBody "{}"; EvFlush] /\
    reply_header s "application/json" !! "Content-Type" = Some ["application/json"] /\ h_sendCount s' = 1%Z.
Proof.
  intros s. apply (http_send_reply s (message "{}") (message "{}") (message "{}") codec "{}" "application/json"); try reflexivity.
  - split_and!; try reflexivity. intros k vs. simpl.
    destruct (decide (k = "k")) as [->|Hk]; [done|]. rewrite lookup_insert_ne by done. by rewrite lookup_empty.
  - simpl. lia.
Defined.

Lemma http_recv_body_witness :
  let s := new_stream false [Chunk "{" None; Chunk "}" None] in
  exists s', http_RecvMsg (s, message "") = ((s', message "{}"), Ok tt).
Proof.
  intros s.
  destruct (http_recv_body s (message "") (message "") (message "") codec (message "{}") (Ok tt)) as (s' & H); try reflexivity.
  - repeat constructor.
  - exists s'. revert H. simpl. tauto.
Defined.

(** Two objects that arrive cut in the middle: two messages, then one of no bytes,
    then the end. *)
Lemma http_client_stream_witness :
  let s := new_stream true [Chunk "{a}{" None; Chunk "b}" None] in
  exists s' s'', receive 2 (message "") s = (s', Ok [message "{a}"; message "{b}"]) /\
    http_RecvMsg (s', message "") = ((s'', message ""), Ok tt) /\
    http_RecvMsg (s'', message "") = ((s'', message ""), Err EOF).
Proof.
  intros s. apply (http_client_stream codec json_stream eq_refl s (message "") (message "") (message "")
    ["{a}"; "{b}"] [message "{a}"; message "{b}"] (message "")); try reflexivity.
  - repeat constructor.
  - done.
  - assert (H : forall x, plain x = true -> json_object (String "{" (String x "}"))).
    { intros x Hx. exists (String x ""). split; [|done]. by repeat constructor. }
    rewrite !Forall_cons. split_and!; [by apply H|simpl; lia|by apply H|simpl; lia|constructor].
  - by split_and!.
Defined.
