(* ===== verification/WsStream.v ===== *)
(** The WebSocket stream of larking/websocket.go, [streamWS].  The connection is
    github.com/gobwas/ws's, behind the class [WebSocket]. *)

#[local] Set Warnings "-register-all".
From S2P Require Import Prelude Status IO Http Proto Params Metadata Compress Codec Selector Stream Routes GrpcStream Mux HttpStream.

(** A connection after the upgrade: whole messages of the client, text messages and
    raw bytes to it, and the close frames that the program sends.  Reading a message
    may write to the connection, control frames that answer the client's. *)
Class WebSocket := {
  Conn : Type;
  ReadClientData : st Conn error string;
  WriteServerText : string -> st Conn error unit;
  conn_Write : string -> st Conn error nat;
  conn_Close : Conn -> Conn;
  (** [ws.CompileFrame(ws.NewCloseFrame(ws.NewCloseFrameBody(code, reason)))] *)
  CompileCloseFrame : Z -> string -> go string;
  CompiledClose : string;
}.

Definition kindWebsocket : string := "WEBSOCKET".

Section WS.
Context `{P : Protoreflect} {M : Messages} `{MDJ : Metadata} `{WS : WebSocket} `{MA : @Marshaling P}.

Record streamWS := StreamWS {
  ws_ctx : context;
  ws_conn : Conn;
  ws_meth : method;
  ws_header : MD;
  ws_trailer : MD;
  ws_params : list param;
  ws_recvN : Z;
  ws_sendN : Z;
  ws_sentHeader : bool;
}.

Definition ws_set_conn (c : Conn) (s : streamWS) : streamWS :=
  StreamWS (ws_ctx s) c (ws_meth s) (ws_header s) (ws_trailer s) (ws_params s) (ws_recvN s) (ws_sendN s) (ws_sentHeader s).
Definition ws_set_header (h : MD) (s : streamWS) : streamWS :=
  StreamWS (ws_ctx s) (ws_conn s) (ws_meth s) h (ws_trailer s) (ws_params s) (ws_recvN s) (ws_sendN s) (ws_sentHeader s).
Definition ws_set_trailer (t : MD) (s : streamWS) : streamWS :=
  StreamWS (ws_ctx s) (ws_conn s) (ws_meth s) (ws_header s) t (ws_params s) (ws_recvN s) (ws_sendN s) (ws_sentHeader s).
Definition ws_set_counts (r n : Z) (s : streamWS) : streamWS :=
  StreamWS (ws_ctx s) (ws_conn s) (ws_meth s) (ws_header s) (ws_trailer s) (ws_params s) r n (ws_sentHeader s).
Definition ws_set_sentHeader (b : bool) (s : streamWS) : streamWS :=
  StreamWS (ws_ctx s) (ws_conn s) (ws_meth s) (ws_header s) (ws_trailer s) (ws_params s) (ws_recvN s) (ws_sendN s) b.

Definition ws_SetHeader (md : MD) : st streamWS error unit := fun s =>
  (if ws_sentHeader s then s else ws_set_header (Join (ws_header s) md) s, Ok tt).

Definition ws_SendHeader (md : MD) : st streamWS error unit := fun s => (ws_set_sentHeader true s, Ok tt).

Definition ws_SetTrailer (md : MD) (s : streamWS) : streamWS :=
  ws_set_trailer (Join (ws_trailer s) md) (ws_set_sentHeader true s).

(** A call on the connection. *)
Definition on_conn {A} (f : st Conn error A) : st streamWS error A := fun s =>
  let '(c, o) := f (ws_conn s) in (ws_set_conn c s, o).

Definition ws_SendMsg (m : Message) : st streamWS error unit :=
  modify (fun s => ws_set_counts (ws_recvN s) (ws_sendN s + 1) s);;
  s ← get;
  cur ← lift (snd (mutable_path (resp (ws_meth s)) m));
  b ← lift (protojson_Marshal cur);
  on_conn (WriteServerText b).

Definition ws_stream_ {A} (f : st streamWS error A) : st (streamWS * Message) error A := fun '(s, m) =>
  let '(s, o) := f s in ((s, m), o).
Definition ws_args {A} (f : st Message error A) : st (streamWS * Message) error A := fun '(s, m) =>
  let '(m, o) := f m in ((s, m), o).

Definition ws_RecvMsg : st (streamWS * Message) error unit :=
  ws_stream_ (modify (fun s => ws_set_counts (ws_recvN s + 1) (ws_sendN s) s));;
  '(s, _) ← get;
  (if hasBody (ws_meth s) then
     ws_args (mutable_path (body (ws_meth s)));;
     b ← ws_stream_ (on_conn ReadClientData);
     ws_args (at_message (body (ws_meth s)) (protojson_UnmarshalMessage b))
   else mret tt);;
  if (ws_recvN s =? 1)%Z then ws_args (params_set (ws_params s)) else mret tt.

#[export] Instance ws_stream : ServerStream streamWS := {|
  Context_ := ws_ctx;
  SetHeader := ws_SetHeader;
  SendHeader := ws_SendHeader;
  SetTrailer := ws_SetTrailer;
  SendMsg := ws_SendMsg;
  RecvMsg := ws_RecvMsg;
|}.
End WS.

(** What is written to a connection: the text messages and the frames of the program,
    and the control frames with which the library answers those of the client. *)
Inductive sent := SentText (b : string) | SentFrame (b : string) | SentControl (b : string).

(** A connection on which what the client sends is a list: reading a message answers
    the pings before it, and a close frame, after which there is nothing to read. *)
Inductive client_frame := Data (b : string) | Ping (b : string) | CloseByClient (b : string).
Record script_conn := ScriptConn { sc_in : list client_frame; sc_out : list sent; sc_closed : bool }.

Fixpoint script_read (fs : list client_frame) (out : list sent) : list client_frame * list sent * outcome error string :=
  match fs with
  | [] => ([], out, Err EOF)
  | Data b :: fs => (fs, out, Ok b)
  | Ping b :: fs => script_read fs (out ++ [SentControl ("pong " ++ b)%string])
  | CloseByClient b :: _ => ([], out ++ [SentControl ("close " ++ b)%string], Err (External ("closed: " ++ b)%string))
  end.

#[export] Instance script_websocket : WebSocket := {|
  Conn := script_conn;
  ReadClientData c := let '(fs, out, o) := script_read (sc_in c) (sc_out c) in (ScriptConn fs out (sc_closed c), o);
  WriteServerText b c := (ScriptConn (sc_in c) (sc_out c ++ [SentText b]) (sc_closed c), Ok tt);
  conn_Write b c := (ScriptConn (sc_in c) (sc_out c ++ [SentFrame b]) (sc_closed c), Ok (String.length b));
  conn_Close c := ScriptConn (sc_in c) (sc_out c) true;
  CompileCloseFrame code reason := Ok (String (byte_of code) reason);
  CompiledClose := "close";
|}.
