(* ===== verification/Web.v ===== *)
(** gRPC-Web, larking/web.go: the response writer that moves the trailers of a gRPC
    response into the last frame of its body, with base64 for the text format. *)

#[local] Set Warnings "-register-all".
From S2P Require Import Prelude Status IO Http Base64 Proto Metadata Compress Codec Selector Stream GrpcStream Mux.

Definition grpcBase : string := "application/grpc".
Definition grpcWeb : string := "application/grpc-web".
Definition grpcWebText : string := "application/grpc-web-text".

(** The type, the encoding, and whether the request is gRPC-Web. *)
Definition isWebRequest (r : Request) : string * string * bool :=
  let ct := header_Get (req_Header r) "Content-Type" in
  if negb (HasPrefix ct "application/grpc-web") || negb (String.eqb (req_Method r) "POST") then ("", "", false)
  else
    let '(typ, enc, ok) := Cut ct "+" in
    let enc := if ok then enc else "proto" in
    (typ, enc, String.eqb typ grpcWeb || String.eqb typ grpcWebText).

(** ** encoding/base64 over a stream *)

(** [base64.NewEncoder]: whole groups of three bytes are written, up to two bytes
    wait for the next call; an error stays. *)
Record encoder := Encoder { enc_pending : string; enc_err : option error }.

Definition encoder_Write {T} (Write : writer T) (b : string) : st (T * encoder) error nat := fun '(w, e) =>
  match enc_err e with
  | Some err => ((w, e), Err err)
  | None =>
      let data := (enc_pending e ++ b)%string in
      let n := 3 * (String.length data / 3) in
      let e' := Encoder (str_drop n data) None in
      if n =? 0 then ((w, e'), Ok (String.length b))
      else match Write (EncodeToString StdEncoding (str_take n data)) w with
           | (w, Ok _) => ((w, e'), Ok (String.length b))
           | (w, Err err) => ((w, Encoder (enc_pending e') (Some err)), Err err)
           | (w, Panic p) => ((w, e'), Panic p)
           | (w, OutOfFuel) => ((w, e'), OutOfFuel)
           end
  end.

(** [base64.NewDecoder]: what a reader of encoded data reads as. *)
Class Base64Reader := {
  NewDecoder : reader -> reader;
  NewDecoder_encoded r s : no_error r -> reader_data r = EncodeToString StdEncoding s ->
    ReadFrom (NewDecoder r) = Ok s;
}.

(** A decoder that reads all of its reader at once. *)
#[export] Instance whole_decoder : Base64Reader.
Proof.
  refine {| NewDecoder r :=
    match ReadFrom r with
    | Ok d => match DecodeString StdEncoding d with
              | Some s => bytes_reader s
              | None => [Chunk "" (Some (External "base64: illegal data"))]
              end
    | Err e => [Chunk "" (Some e)]
    | _ => []
    end |}.
  intros r s Hr Hd. assert (E : ReadFrom r = Ok (reader_data r)).
  { clear Hd. induction Hr as [|[d e] r Hd Hr IH]; [done|]. simpl in *. subst e. rewrite IH. done. }
  rewrite E, Hd, base64_roundtrip. simpl. by rewrite str_app_nil_r.
Defined.

(** ** http.Header.Write *)

Definition is_trim (c : ascii) : bool := let x := byteZ c in ((x =? 32) || (x =? 9) || (x =? 10) || (x =? 13))%Z.
Fixpoint trim_front (s : string) : string :=
  match s with String c s' => if is_trim c then trim_front s' else s | _ => s end.
Fixpoint trim_back (s : string) : string :=
  match s with
  | String c s' => match trim_back s' with
                   | EmptyString => if is_trim c then "" else String c ""
                   | s' => String c s'
                   end
  | _ => ""
  end.
Definition newline_to_space (c : ascii) : ascii := if ((byteZ c =? 10) || (byteZ c =? 13))%Z then " "%char else c.
Definition header_value (v : string) : string := trim_back (trim_front (str_map newline_to_space v)).

Definition crlf : string := String "013" (String "010" "").
Definition header_line (k v : string) : string := (k ++ ": " ++ header_value v ++ crlf)%string.
Definition valid_field_name (k : string) : bool := negb (String.eqb k "") && str_forallb validHeaderFieldByte k.

(** The lines of the keys in order; a key that is no field name is left out. *)
Definition key_le (x y : string * list string) : Prop := str_le x.1 y.1.
#[export] Instance key_le_dec : RelDecision key_le.
Proof. intros x y. unfold key_le. apply _. Defined.

Definition Header_Write (h : Header) : string :=
  str_concat ((fun '(k, vs) => if valid_field_name k then str_concat (header_line k <$> vs) else "")
    <$> merge_sort key_le (map_to_list h)).

Section Web.
Context `{R : GoRange} `{MDJ : Metadata}.
Context {W : Type} `{RW : ResponseWriter W}.

(** ** webWriter *)

Record webWriter := WebWriter {
  ww_w : W;
  ww_enc64 : option encoder;
  ww_seenHeaders : gset string;
  ww_typ : string;
  ww_enc : string;
  ww_wroteHeader : bool;
  ww_wroteResp : bool;
}.

Definition newWebWriter (w : W) (typ enc : string) : webWriter :=
  WebWriter w (if String.eqb typ grpcWebText then Some (Encoder "" None) else None) ∅ typ enc false false.

Definition ww_set_w (w : W) (x : webWriter) : webWriter :=
  WebWriter w (ww_enc64 x) (ww_seenHeaders x) (ww_typ x) (ww_enc x) (ww_wroteHeader x) (ww_wroteResp x).

(** [http.TrailerPrefix] *)
Definition TrailerPrefix : string := "Trailer:".

Definition seeHeaders (x : webWriter) : webWriter :=
  let w := w_set_header (header_Set "Content-Type" (ww_typ x ++ "+" ++ ww_enc x)) (ww_w x) in
  let keys := filter (fun k => HasPrefix k TrailerPrefix = false) (dom (w_header w)) in
  WebWriter w (ww_enc64 x) keys (ww_typ x) (ww_enc x) true (ww_wroteResp x).

(** [w.resp.Write] *)
Definition resp_Write (b : string) : st webWriter error nat := fun x =>
  match ww_enc64 x with
  | None => let '(w, o) := w_Write b (ww_w x) in (ww_set_w w x, o)
  | Some e =>
      let '((w, e), o) := encoder_Write w_Write b (ww_w x, e) in
      (WebWriter w (Some e) (ww_seenHeaders x) (ww_typ x) (ww_enc x) (ww_wroteHeader x) (ww_wroteResp x), o)
  end.

Definition web_Write (b : string) : st webWriter error nat := fun x =>
  resp_Write b (if ww_wroteHeader x then x else seeHeaders x).

Definition web_WriteHeader (code : Z) : st webWriter error unit := fun x =>
  let x := seeHeaders x in
  let '(w, o) := w_WriteHeader code (ww_w x) in (ww_set_w w x, o).

Definition web_Flush (x : webWriter) : webWriter :=
  if (ww_wroteHeader x || ww_wroteResp x) && w_is_flusher (ww_w x) then ww_set_w (w_Flush (ww_w x)) x else x.

#[export] Instance web_response_writer : ResponseWriter webWriter := {|
  w_header x := w_header (ww_w x);
  w_set_header f x := ww_set_w (w_set_header f (ww_w x)) x;
  w_WriteHeader := web_WriteHeader;
  w_Write := web_Write;
  w_is_flusher _ := true;
  w_Flush := web_Flush;
|}.

(** ** Trailers *)

(** The headers that were set after the header was sent, or as trailers. *)
Definition web_trailers (seen : gset string) (hdr : Header) : Header :=
  foldl (fun tr '(key, val) =>
    if decide (key ∈ seen) then tr else <[ToLower (TrimPrefix key TrailerPrefix) := val]> tr) ∅ (range hdr).

Definition trailer_frame (buf : string) : string :=
  (String "128" (PutUint32 (wrapu 32 (Z.of_nat (String.length buf)))) ++ buf)%string.

Definition writeTrailer : st webWriter error unit :=
  x ← get;
  let buf := Header_Write (web_trailers (ww_seenHeaders x) (w_header (ww_w x))) in
  web_Write (String "128" (PutUint32 (wrapu 32 (Z.of_nat (String.length buf)))));;
  web_Write buf;;
  mret tt.

Definition flushWithTrailer : st webWriter error unit := fun x =>
  if ww_wroteHeader x || ww_wroteResp x then
    match writeTrailer x with
    | (x, Ok _) => (web_Flush x, Ok tt)
    | (x, Err _) => (x, Ok tt)
    | r => r
    end
  else (web_Flush x, Ok tt).
End Web.

#[global] Arguments webWriter W : clear implicits.
