(* ===== verification/Serve.v ===== *)
(** How the mux of larking/mux.go serves a request: over gRPC (larking/grpc.go,
    [serveGRPC]), over gRPC-Web (larking/web.go, [serveGRPCWeb]), and over HTTP and
    WebSockets (larking/http.go, [serveHTTP] and [encError]). *)

#[local] Set Warnings "-register-all".
From stdpp Require Import pretty.
From S2P Require Import Prelude Status Runes IO Http Negotiate Base64 Proto Lexer Params Metadata Compress Codec Selector Stream Routes RouteSearch GrpcStream Mux HttpStream WsStream Web.

(** [code.Code_name] of google.rpc, and [json.Marshal] of a [twirpError]. *)
Class Twirp := {
  Code_name : Z -> string;
  twirp_Marshal : string -> string -> go string;
}.

(** The statistics handler puts a tag on the context. *)
Class StatsTag := { TagRPC : context -> string -> context }.
#[export] Instance no_tag : StatsTag := {| TagRPC ctx _ := ctx |}.

Section Serve.
Context `{U : Unicode} `{P : Protoreflect} {M : Messages} `{MA : @Marshaling P} `{R : GoRange} `{F : Fmt} `{GA : GoAppend}
  `{GS : !GrpcStatus} `{MDJ : Metadata} `{WS : WebSocket} `{TW : Twirp} `{ST : StatsTag} `{BR : Base64Reader}.

(** What a call is served with besides the request: the handler that [rand.Intn]
    picks and the capacities of the pooled slices. *)
Record env := Env { e_pick : nat; e_caps : list Z }.

(** The response writer, the connection of a WebSocket, and the statistics. *)
Record exchange (W : Type) := Exchange { x_w : W; x_conn : option Conn; x_stats : list stat }.
#[global] Arguments Exchange {W}.
#[global] Arguments x_w {W}.
#[global] Arguments x_conn {W}.
#[global] Arguments x_stats {W}.

Section Writer.
Context {W : Type} `{RW : ResponseWriter W}.

Definition x_set_w (w : W) (x : exchange W) : exchange W := Exchange w (x_conn x) (x_stats x).
Definition on_writer {A} (f : st W error A) : st (exchange W) error A := fun x =>
  let '(w, o) := f (x_w x) in (x_set_w w x, o).
Definition with_headers (f : Header -> Header) : st (exchange W) error unit :=
  modify (fun x => x_set_w (w_set_header f (x_w x)) x).
Definition tell (m : Mux) (ss : list stat) : st (exchange W) error unit :=
  if statsHandler (opts m) then modify (fun x => Exchange (x_w x) (x_conn x) (x_stats x ++ ss)) else mret tt.

(** An outcome without an error of its own. *)
Definition sure {A} (o : outcome unit A) : go A :=
  match o with Ok a => Ok a | Panic p => Panic p | _ => OutOfFuel end.

(** ** Errors *)

(** [if err != nil { panic(err) }] *)
Definition must {S A} (o : go A) : st S error A := fun s =>
  (s, match o with Err e => Panic (PanicCall "error") | o => o end).

Definition encError (m : Mux) (r : Request) (err : error) : st W error unit :=
  let code := FromError (Some err) in
  if negb (String.eqb (header_Get (req_Header r) "Twirp-Version") "") then
    modify (w_set_header (header_Set "Content-Type" "application/json"));;
    status ← lift (HTTPStatusCode code);
    w_WriteHeader status;;
    b ← must (twirp_Marshal (ToLower (Code_name code)) (status_Message err));
    ignore (w_Write b)
  else
    accept ← lift (sure (negotiateContentType (req_Header r) (contentTypeOffers (opts m)) "application/json"));
    modify (w_set_header (header_Set "Content-Type" accept));;
    status ← lift (HTTPStatusCode code);
    w_WriteHeader status;;
    match codecs (opts m) !! accept with
    | None => crash NilDereference
    | Some c => b ← must (Marshal c (status_Proto err)); ignore (w_Write b)
    end.

(** ** gRPC *)

Definition grpcGetCodec (m : Mux) (ct : string) : option Codec :=
  let '(typ, enc, ok) := Cut ct "+" in
  let enc := if ok then enc else "proto" in
  if negb (String.eqb typ "application/grpc") then None else codecsByName (opts m) !! enc.

Definition grpcGetCompressor (m : Mux) (me : string) : option (option Compressor) :=
  if String.eqb me "" then None else compressors (opts m) !! me.

Definition FormatInt (z : Z) : string := pretty z.

(** The status of a call, as trailers. *)
Definition status_headers (herr : option error) (h : Header) : Header :=
  let h := header_Set "Grpc-Status" (FormatInt (FromError herr)) h in
  match herr with
  | None => h
  | Some e =>
      let h := if negb (String.eqb (status_Message e) "")
               then header_Set "Grpc-Message" (encodeGrpcMessage (status_Message e)) h else h in
      match status_Details e with
      | Some b => header_Set "Grpc-Status-Details-Bin" (encodeBinHeader b) h
      | None => h
      end
  end.

(** The statistics at the start and at the end of a call. *)
Definition begin_stats (fullMethod : string) (hd : handler) (r : Request) (md : MD) : list stat :=
  [InHeader fullMethod (RemoteAddr r) (header_Get (req_Header r) "Content-Encoding") md;
   Begin (IsStreamingClient (h_desc hd)) (IsStreamingServer (h_desc hd))].
Definition end_stats (trailer : MD) (herr : option error) : list stat := [OutTrailer trailer; End_ herr].

(** [ctx = sh.TagRPC(ctx, ...)] with a statistics handler. *)
Definition tagged (m : Mux) (ctx : context) (hd : handler) : context :=
  if statsHandler (opts m) then TagRPC ctx (h_method hd) else ctx.

(** [decodeTimeout] and [context.WithTimeout]; the text of a malformed one. *)
Definition grpc_context (r : Request) : context * MD * go unit :=
  let '(ctx, md) := newIncomingContext (req_Context r) (req_Header r) in
  let v := header_Get (req_Header r) "grpc-timeout" in
  if String.eqb v "" then (ctx, md, Ok tt)
  else match decodeTimeout v with
       | Ok to => (MkContext (incoming ctx) (timeouts ctx ++ [to]) (ctx_errs ctx), md, Ok tt)
       | Err e => (ctx, md, Err e)
       | Panic p => (ctx, md, Panic p)
       | OutOfFuel => (ctx, md, OutOfFuel)
       end.

(** The call of the handler: the stream and what it returned. *)
Definition call_grpc (m : Mux) (caps : list Z) (r : Request) (hd : handler) (ctx : context) (codec : Codec)
    (comp : option Compressor) : st (exchange W) error (streamGRPC (W := W) * option error) := fun x =>
  let s := StreamGRPC (opts m) ctx hd codec comp (x_w x) (req_Body r) ∅ ∅
    (header_Get (req_Header r) "Content-Type") (header_Get (req_Header r) "Grpc-Encoding") false caps (x_stats x) in
  match run (h_handler hd (opts m)) s with
  | (s, Ok _) => (Exchange (g_w s) (x_conn x) (g_stats s), Ok (s, None))
  | (s, Err e) => (Exchange (g_w s) (x_conn x) (g_stats s), Ok (s, Some e))
  | (s, Panic p) => (Exchange (g_w s) (x_conn x) (g_stats s), Panic p)
  | (s, OutOfFuel) => (Exchange (g_w s) (x_conn x) (g_stats s), OutOfFuel)
  end.

(** After the handler: the header if it was not sent, and the status. *)
Definition finish_grpc (m : Mux) (s : streamGRPC (W := W)) (herr : option error) : st (exchange W) error unit := fun x =>
  let '(s, o) := if g_sentHeader s then (s, Ok tt) else grpc_SendHeader ∅ s in
  let x := Exchange (g_w s) (x_conn x) (g_stats s) in
  match o with
  | Ok _ =>
      (modify (fun x => x_set_w (w_Flush (x_w x)) x);;
       with_headers (status_headers herr);;
       with_headers (setOutgoingHeader (g_trailer s));;
       if statsHandler (opts m) then
         with_headers (setOutgoingHeader (g_trailer s));;
         tell m (end_stats (g_trailer s) herr)
       else mret tt) x
  | Err _ => (x, Ok tt)
  | Panic p => (x, Panic p)
  | OutOfFuel => (x, OutOfFuel)
  end.

Definition grpc_error (msg : string) (args : list arg) (code : Z) : st (exchange W) error unit :=
  on_writer (http_Error (Sprintf msg args) code).

Definition serveGRPC (m : Mux) (e : env) (r : Request) : st (exchange W) error unit :=
  x ← get;
  if negb (ProtoMajor r =? 2)%Z then grpc_error "gRPC requires HTTP/2" [] http.StatusBadRequest
  else if negb (String.eqb (req_Method r) "POST")
  then grpc_error "invalid gRPC request method %q" [AStr (req_Method r)] http.StatusBadRequest
  else if negb (w_is_flusher (x_w x)) then grpc_error "Streaming unsupported" [] http.StatusInternalServerError
  else
    let contentType := header_Get (req_Header r) "Content-Type" in
    match grpcGetCodec m contentType with
    | None => grpc_error "invalid gRPC request content-type %q" [AStr contentType] http.StatusUnsupportedMediaType
    | Some codec =>
        let me := header_Get (req_Header r) "Grpc-Encoding" in
        match (if String.eqb me "" then Some None else grpcGetCompressor m me) with
        | None => grpc_error "invalid gRPC request message-encoding %q" [AStr me] http.StatusUnsupportedMediaType
        | Some comp =>
            match grpc_context r with
            | (_, _, Panic p) => crash p
            | (_, _, OutOfFuel) => stuck
            | (_, _, Err err) => grpc_error "malformed grpc-timeout: %v" [AErr err] http.StatusBadRequest
            | (ctx, md, Ok _) =>
                let name := URL_Path r in
                match pickMethodHandler (e_pick e) (loadState m) name with
                | Ok hd =>
                    tell m (begin_stats name hd r md);;
                    '(s, herr) ← call_grpc m (e_caps e) r hd (tagged m ctx hd) codec comp;
                    finish_grpc m s herr
                | Panic p => crash p
                | OutOfFuel => stuck
                | Err _ => grpc_error "no handler for gRPC method %q" [AStr name] http.StatusNotFound
                end
            end
        end
    end.

(** ** HTTP *)

Definition isWebsocketRequest (r : Request) : bool :=
  existsb (fun h => String.eqb h "websocket") (default [] (req_Header r !! "Upgrade")).

(** The compressor of a name, none for an unknown name and for nil. *)
Definition find_compressor (m : Mux) (name : string) : option Compressor :=
  match compressors (opts m) !! name with Some (Some c) => Some c | _ => None end.

(** The branch of a WebSocket: the connection is closed whatever happens. *)
Definition close_frame (herr : option error) : go string :=
  match herr with
  | None => Ok CompiledClose
  | Some e => code ← WSStatusCode (FromError (Some e)); CompileCloseFrame code (status_Message e)
  end.

Definition serve_websocket (m : Mux) (Upgrade : Request -> W -> W * outcome error Conn) (r : Request)
    (ctx : context) (mt : method) (ps : list param) (hd : handler) : st (exchange W) error unit := fun x =>
  match Upgrade r (x_w x) with
  | (w, Err e) => (x_set_w w x, Err e)
  | (w, Panic p) => (x_set_w w x, Panic p)
  | (w, OutOfFuel) => (x_set_w w x, OutOfFuel)
  | (w, Ok conn) =>
      let '(s, o) := run (h_handler hd (opts m)) (StreamWS ctx conn mt ∅ ∅ ps 0 0 false) in
      let closed c := Exchange w (Some (conn_Close c)) (x_stats x) in
      match o with
      | Panic p => (closed (ws_conn s), Panic p)
      | OutOfFuel => (closed (ws_conn s), OutOfFuel)
      | _ =>
          match close_frame (returned o) with
          | Ok frame =>
              match conn_Write frame (ws_conn s) with
              | (c, Ok _) => tell m [End_ None] (closed c)
              | (c, Err e) => (closed c, Err e)
              | (c, Panic p) => (closed c, Panic p)
              | (c, OutOfFuel) => (closed c, OutOfFuel)
              end
          | Err e => (closed (ws_conn s), Err e)
          | Panic p => (closed (ws_conn s), Panic p)
          | OutOfFuel => (closed (ws_conn s), OutOfFuel)
          end
      end
  end.

(** The writer of the response: a compressor's, when one was negotiated. *)
Definition open_compressor (m : Mux) (acceptEncoding : string) : st (exchange W) error (option (Compressor * list string)) :=
  match find_compressor m acceptEncoding with
  | None => mret None
  | Some c =>
      with_headers (header_Set "Content-Encoding" acceptEncoding);;
      match comp_open c with Some e => throw e | None => mret (Some (c, [])) end
  end.

(** [defer z.Close()], whose error nobody looks at. *)
Definition close_compressor (cz : option (Compressor * list string)) : st (exchange W) error unit :=
  match cz with
  | None => mret tt
  | Some (c, ws) => let out := comp_end c ws in
      if String.eqb out "" then mret tt else ignore (on_writer (w_Write out))
  end.

(** After the handler: trailers and statistics, and the error of the handler. *)
Definition finish_http (m : Mux) (r : Request) (s : streamHTTP (W := W)) (herr : option error) : st (exchange W) error unit :=
  (if statsHandler (opts m) then
     with_headers (setOutgoingHeader (h_trailer s));;
     tell m (end_stats (h_trailer s) herr)
   else mret tt);;
  match herr with
  | None => mret tt
  | Some e =>
      (if h_sentHeader s then mret tt else with_headers (header_Set "Content-Encoding" "identity"));;
      on_writer (encError m r e)
  end.

Definition default_string (d s : string) : string := if String.eqb s "" then d else s.

(** The call of the handler on the stream of the body. *)
Definition call_http (m : Mux) (r : Request) (hd : handler) (s : streamHTTP (W := W)) : st (exchange W) error unit := fun x =>
  let '(s, o) := run (h_handler hd (opts m)) s in
  let x := Exchange (h_w s) (x_conn x) (h_stats s) in
  let '(x, o) := match o with
                 | Panic p => (x, Panic p)
                 | OutOfFuel => (x, OutOfFuel)
                 | _ => finish_http m r s (returned o) x
                 end in
  let '(x, _) := close_compressor (h_comp s) x in
  (x, o).

Definition serve_body (m : Mux) (e : env) (r : Request) (ctx : context) (mt : method) (ps : list param)
    (hd : handler) : st (exchange W) error unit :=
  let contentType := default_string "application/json" (header_Get (req_Header r) "Content-Type") in
  body ← lift (match find_compressor m (header_Get (req_Header r) "Content-Encoding") with
               | Some c => comp_decompress c (req_Body r)
               | None => Ok (req_Body r)
               end);
  accept ← lift (sure (negotiateContentType (req_Header r) (contentTypeOffers (opts m)) contentType));
  acceptEncoding ← lift (sure (negotiateContentEncoding (req_Header r) (encodingTypeOffers (opts m))));
  cz ← open_compressor m acceptEncoding;
  x ← get;
  call_http m r hd (StreamHTTP (opts m) ctx mt (x_w x) cz "" body ∅ ∅ ps contentType accept acceptEncoding 0 0 false
    ((0 <? ContentLength r) || (ContentLength r =? -1))%Z false (Z.to_nat <$> e_caps e) (x_stats x)).

Definition serveHTTP (m : Mux) (e : env) (Upgrade : Request -> W -> W * outcome error Conn) (r : Request) :
    st (exchange W) error unit :=
  let '(ctx, md) := newIncomingContext (req_Context r) (req_Header r) in
  let isWebsocket := isWebsocketRequest r in
  let verb := if isWebsocket then kindWebsocket else req_Method r in
  '(mt, ps) ← lift (state_match (loadState m) (URL_Path r) verb);
  qs ← lift (parseQueryParams (Fields (Input (desc mt))) (range (URL_Query r)));
  hd ← lift (pickMethodHandler (e_pick e) (loadState m) (method_name mt));
  tell m (begin_stats (method_name mt) hd r md);;
  if isWebsocket then serve_websocket m Upgrade r (tagged m ctx hd) mt (ps ++ qs) hd
  else serve_body m e r (tagged m ctx hd) mt (ps ++ qs) hd.
End Writer.

(** ** gRPC-Web *)

(** [strings.EqualFold] of a string and one of ASCII letters: besides their cases,
    the Kelvin sign folds to k and the long s to s. *)
Definition fold_rune (r : Z) : Z :=
  if (r =? 8490)%Z then 107%Z else if (r =? 383)%Z then 115%Z
  else if between 65 90 r then (r + 32)%Z else r.
Definition EqualFold (s t : string) : bool := bool_decide (fold_rune <$> runes s = fold_rune <$> runes t).

Section Dispatch.
Context {W : Type} `{RW : ResponseWriter W}.

(** The request that [serveGRPC] gets: HTTP/2, and the content type of gRPC. *)
Definition web_request (r : Request) (typ enc : string) : Request :=
  MkRequest (req_Method r) (URL_Path r) (URL_Query r) 2 0
    (header_Set "Content-Type" (grpcBase ++ "+" ++ enc) (header_Del "Content-Length" (req_Header r)))
    (if String.eqb typ grpcWebText then NewDecoder (req_Body r) else req_Body r)
    (ContentLength r) (RemoteAddr r) (req_Context r).

Definition serveGRPCWeb (m : Mux) (e : env) (r : Request) : st (exchange W) error unit := fun x =>
  let '(typ, enc, ok) := isWebRequest r in
  if negb ok then
    grpc_error "invalid gRPC-Web content type: %v" [AStr (header_Get (req_Header r) "Content-Type")] http.StatusBadRequest x
  else if EqualFold (header_Get (req_Header r) "Upgrade") "websocket" then
    grpc_error "unimplemented websocket support" [] http.StatusInternalServerError x
  else
    match serveGRPC m e (web_request r typ enc) (Exchange (newWebWriter (x_w x) typ enc) (x_conn x) (x_stats x)) with
    | (y, Ok _) =>
        let '(ww, o) := flushWithTrailer (x_w y) in (Exchange (ww_w ww) (x_conn y) (x_stats y), o)
    | (y, o) => (Exchange (ww_w (x_w y)) (x_conn y) (x_stats y), o)
    end.

(** ** ServeHTTP *)

(** The path gets a leading slash and loses a trailing one. *)
Definition clean_path (p : string) : string :=
  TrimSuffix (if HasPrefix p "/" then p else "/" ++ p)%string "/".

Definition with_path (p : string) (r : Request) : Request :=
  MkRequest (req_Method r) p (URL_Query r) (ProtoMajor r) (ProtoMinor r) (req_Header r) (req_Body r)
    (ContentLength r) (RemoteAddr r) (req_Context r).

Definition ServeHTTP (m : Mux) (e : env) (Upgrade : Request -> W -> W * outcome error Conn) (r : Request) :
    st (exchange W) error unit := fun x =>
  let ct := header_Get (req_Header r) "Content-Type" in
  if (ProtoMajor r =? 2)%Z && HasPrefix ct "application/grpc" then serveGRPC m e r x
  else if HasPrefix ct "application/grpc-web" then serveGRPCWeb m e r x
  else
    let r := with_path (clean_path (URL_Path r)) r in
    match serveHTTP m e Upgrade r x with
    | (x, Err err) => on_writer (encError m r err) x
    | y => y
    end.
End Dispatch.
End Serve.
