(* ===== verification/ServeSpec.v ===== *)
(** What a mux answers: a unary call over HTTP from the request to the response, the
    errors, the status of a gRPC call, and the requests that are turned away. *)

#[local] Set Warnings "-register-all".
From S2P Require Import Prelude Status Runes IO Http Negotiate Base64 Proto Lexer Params Metadata Compress Codec Selector Stream Routes RouteAdd RouteSearch GrpcStream GrpcSpec Mux MuxSpec HttpStream HttpSpec WsStream Web Serve.

Section Serve.
Context `{U : Unicode} `{P : Protoreflect} {M : Messages} `{MA : @Marshaling P} `{R : GoRange} `{F : Fmt} `{GA : GoAppend}
  `{GS : !GrpcStatus} `{MDJ : Metadata} `{WS : WebSocket} `{TW : Twirp} `{ST : StatsTag} `{BR : Base64Reader}.

(** ** A unary call over HTTP *)

Definition content_type (r : Request) : string :=
  default_string "application/json" (header_Get (req_Header r) "Content-Type").

Definition has_body (r : Request) : bool := ((0 <? ContentLength r) || (ContentLength r =? -1))%Z.

(** The message that a request is for a method, from an empty one: the body and the
    parameters, or the parameters alone. *)
Definition request_message (o : muxOptions) (mt : method) (r : Request) (ps : list param) (req0 m2 : Message) : Prop :=
  if hasBody mt && has_body r then
    no_error (req_Body r) /\ (Z.of_nat (String.length (reader_data (req_Body r))) <= maxReceiveMessageSize o)%Z /\
    exists m1 cur c, mutable_path (body mt) req0 = (m1, Ok cur) /\ getCodec o (content_type r) cur = Ok c /\
      receive_into mt c (content_type r) ps (reader_data (req_Body r)) m1 = (m2, Ok tt)
  else params_set ps req0 = (m2, Ok tt).

(** The bytes and the content type of a reply. *)
Definition reply_bytes (o : muxOptions) (mt : method) (accept : string) (reply : Message) (b ct : string) : Prop :=
  (Z.of_nat (String.length b) <= maxSendMessageSize o)%Z /\
  exists m' cur c, mutable_path (resp mt) reply = (m', Ok cur) /\ getCodec o accept cur = Ok c /\
    encode_reply cur c accept = Ok (b, ct).

Lemma no_grpc_web ct : HasPrefix ct "application/grpc" = false -> HasPrefix ct "application/grpc-web" = false.
Proof.
  intros H. apply not_true_is_false. intros [t ->]%HasPrefix_spec. revert H. simpl. congruence.
Qed.

Lemma RecvMsg_request (s : streamHTTP (W := response)) o mt r ps req0 m2 :
  h_opts s = o -> h_meth s = mt -> h_contentType s = content_type r -> h_params s = ps -> h_r s = req_Body r ->
  h_hasBody s = has_body r -> h_recvCount s = 0%Z -> h_rEOF s = false -> IsStreamingClient (desc mt) = false ->
  request_message o mt r ps req0 m2 ->
  exists s', http_RecvMsg (s, req0) = ((s', m2), Ok tt) /\ same_reply s s'.
Proof.
  intros Ho Hm Hct Hps Hr Hb Hn He Hst. unfold request_message. destruct (hasBody mt && has_body r) eqn:Hbody.
  - intros (Hne & Hl & m1 & cur & c & E1 & E2 & E3). subst o mt ps. rewrite <-Hct in E2, E3. rewrite <-Hr in Hne, Hl, E3.
    destruct (unary_received s req0 m1 cur c m2 (Ok tt)) as [s' H]; [by rewrite Hb|done..|].
    destruct (Z.ltb_spec (maxReceiveMessageSize (h_opts s)) (Z.of_nat (String.length (reader_data (h_r s))))); [lia|].
    destruct H as [H _]. exists s'. split; [exact H|by eapply http_RecvMsg_reply].
  - intros E. unfold http_RecvMsg. rewrite bind_get, Hm, Hb, Hbody. unfold no_body.
    set (s1 := h_set_recvCount (h_recvCount s + 1) s). assert (He1 : h_rEOF s1 = false) by (by destruct s).
    set (s2 := h_set_rEOF true s1).
    assert (H1 : on_stream (fun s => let count := h_recvCount s in let s := h_set_recvCount (h_recvCount s + 1) s in
      if h_rEOF s then (s, Err EOF) else (h_set_rEOF true s, Ok count)) (s, req0) = ((s2, req0), Ok (h_recvCount s))).
    { unfold on_stream. cbv zeta. change (h_set_recvCount (h_recvCount s + 1) s) with s1. by rewrite He1. }
    rewrite (st_bind_run _ _ _ _ _ H1), Hn. cbn [Z.eqb]. exists s2. split; [|by destruct s].
    unfold on_args. by rewrite Hps, E.
Qed.

(** A request that is neither gRPC nor a WebSocket's, for a method that is found, with
    nothing compressed. *)
Record http_call (m : Mux) (e : env) (r : Request) (mt : method) (ps : list param) (hd : handler) (accept : string) : Prop := {
  hc_http : HasPrefix (header_Get (req_Header r) "Content-Type") "application/grpc" = false;
  hc_ws : isWebsocketRequest r = false;
  hc_match : exists ps1 qs, state_match (loadState m) (clean_path (URL_Path r)) (req_Method r) = Ok (mt, ps1) /\
    parseQueryParams (Fields (Input (desc mt))) (range (URL_Query r)) = Ok qs /\ ps = ps1 ++ qs;
  hc_handler : pickMethodHandler (e_pick e) (loadState m) (method_name mt) = Ok hd;
  hc_encoding : find_compressor m (header_Get (req_Header r) "Content-Encoding") = None;
  hc_accept : negotiateContentType (req_Header r) (contentTypeOffers (opts m)) (content_type r) = Ok accept;
  hc_acceptEncoding : exists ae, negotiateContentEncoding (req_Header r) (encodingTypeOffers (opts m)) = Ok ae /\
    find_compressor m ae = None;
}.

Definition call_context (m : Mux) (r : Request) (hd : handler) : context :=
  tagged m (fst (newIncomingContext (req_Context r) (req_Header r))) hd.

(** Up to the transport: a request that is not gRPC, for a method that is found. *)
Lemma ServeHTTP_matched {W} `{RW : ResponseWriter W} m e up r (x : exchange W) mt ps1 qs hd :
  HasPrefix (header_Get (req_Header r) "Content-Type") "application/grpc" = false ->
  state_match (loadState m) (clean_path (URL_Path r)) (if isWebsocketRequest r then kindWebsocket else req_Method r) = Ok (mt, ps1) ->
  parseQueryParams (Fields (Input (desc mt))) (range (URL_Query r)) = Ok qs ->
  pickMethodHandler (e_pick e) (loadState m) (method_name mt) = Ok hd ->
  exists sts, let r' := with_path (clean_path (URL_Path r)) r in
  ServeHTTP m e up r x =
    match (if isWebsocketRequest r then serve_websocket m up r' (call_context m r hd) mt (ps1 ++ qs) hd
           else serve_body m e r' (call_context m r hd) mt (ps1 ++ qs) hd) (Exchange (x_w x) (x_conn x) sts) with
    | (x, Err err) => on_writer (encError m r' err) x
    | y => y
    end.
Proof.
  intros Hg Hm Hq Hp.
  exists (x_stats x ++ (if statsHandler (opts m) then begin_stats (method_name mt) hd r (snd (newIncomingContext (req_Context r) (req_Header r))) else [])).
  cbv zeta. unfold ServeHTTP. rewrite Hg, (no_grpc_web _ Hg), andb_false_r. unfold serveHTTP, call_context.
  cbn [req_Context req_Header req_Method URL_Path URL_Query with_path].
  destruct (newIncomingContext (req_Context r) (req_Header r)) as [ctx md] eqn:Ec.
  change (isWebsocketRequest (with_path (clean_path (URL_Path r)) r)) with (isWebsocketRequest r).
  rewrite (st_bind_run _ _ x x (mt, ps1)) by (unfold lift; by rewrite Hm). cbn beta iota.
  rewrite (st_bind_run _ _ x x qs) by (unfold lift; by rewrite Hq).
  rewrite (st_bind_run _ _ x x hd) by (unfold lift; by rewrite Hp).
  set (x1 := Exchange (x_w x) (x_conn x) _).
  rewrite (st_bind_run _ _ x x1 tt) by (unfold tell, x1; destruct (statsHandler (opts m)); [done|by rewrite app_nil_r; destruct x]).
  by destruct (isWebsocketRequest r).
Qed.

(** Up to the call of the handler. *)
Lemma ServeHTTP_call m e up r (x : exchange response) mt ps hd accept :
  http_call m e r mt ps hd accept ->
  exists ae sts, negotiateContentEncoding (req_Header r) (encodingTypeOffers (opts m)) = Ok ae /\
  ServeHTTP m e up r x =
    match call_http m (with_path (clean_path (URL_Path r)) r) hd
      (StreamHTTP (opts m) (call_context m r hd) mt (x_w x) None "" (req_Body r) ∅ ∅ ps
        (content_type r) accept ae 0 0 false (has_body r) false (Z.to_nat <$> e_caps e) sts)
      (Exchange (x_w x) (x_conn x) sts) with
    | (x, Err err) => on_writer (encError m (with_path (clean_path (URL_Path r)) r) err) x
    | y => y
    end.
Proof.
  intros [Hg Hw (ps1 & qs & Hm & Hq & ->) Hp He Ha (ae & Hae & Hz)]. exists ae.
  destruct (ServeHTTP_matched m e up r x mt ps1 qs hd Hg) as [sts ->]; [by rewrite Hw|done|done|].
  exists sts. split; [done|]. rewrite Hw. set (x1 := Exchange (x_w x) (x_conn x) sts).
  unfold serve_body. cbn [req_Context req_Header req_Method req_Body with_path ContentLength]. rewrite He.
  rewrite (st_bind_run _ _ x1 x1 (req_Body r) eq_refl).
  fold (content_type r). rewrite Ha, (st_bind_run _ _ x1 x1 accept eq_refl), Hae, (st_bind_run _ _ x1 x1 ae eq_refl).
  unfold open_compressor. rewrite Hz, (st_bind_run _ _ x1 x1 None eq_refl), bind_get. reflexivity.
Qed.

(** The handler of a unary method reads the request into an empty message first. *)
Definition reads_request (m : Mux) (hd : handler) (req0 : Message) (k : context -> Message -> option error -> prog unit) : Prop :=
  h_handler hd (opts m) = PContext (fun ctx => PRecvMsg req0 (k ctx)).

Lemma call_received m r hd req0 k (s : streamHTTP (W := response)) ps m2 x :
  reads_request m hd req0 k -> IsStreamingClient (desc (h_meth s)) = false ->
  h_opts s = opts m -> h_contentType s = content_type r -> h_params s = ps -> h_r s = req_Body r ->
  h_hasBody s = has_body r -> h_recvCount s = 0%Z -> h_rEOF s = false -> h_comp s = None ->
  request_message (opts m) (h_meth s) r ps req0 m2 ->
  exists s1, same_reply s s1 /\
    forall r', call_http m r' hd s x =
      let '(s2, o) := run (k (h_ctx s) m2 None) s1 in
      let x2 := Exchange (h_w s2) (x_conn x) (h_stats s2) in
      let '(x3, o) := match o with
                      | Panic p => (x2, Panic p)
                      | OutOfFuel => (x2, OutOfFuel)
                      | _ => finish_http m r' s2 (returned o) x2
                      end in
      (fst (close_compressor (h_comp s2) x3), o).
Proof.
  intros Hk Hst Ho Hct Hps Hr Hb Hn He Hz Hreq.
  destruct (RecvMsg_request s _ _ _ _ _ _ Ho eq_refl Hct Hps Hr Hb Hn He Hst Hreq) as (s1 & E & Hsame).
  exists s1. split; [exact Hsame|]. intros r'. unfold call_http. rewrite Hk. cbn [run]. change (RecvMsg (s, req0)) with (http_RecvMsg (s, req0)).
  rewrite E. cbn [returned]. change (Context_ s) with (h_ctx s).
  destruct (run (k (h_ctx s) m2 None) s1) as [s2 o]. cbv zeta. destruct (match o with Ok _ => _ | _ => _ end) as [x3 o3].
  by destruct (close_compressor (h_comp s2) x3).
Qed.

(** C1 A unary call over HTTP: a request whose path, verb and query name a method of
    the mux is answered with status 200, the negotiated content type and the encoding
    of what the handler makes of the request message, which is the body decoded by
    its content type with the parameters of path and query set in it. *)
Theorem http_unary m e up r (x : exchange response) mt ps hd accept req0 k m2 reply b ct :
  http_call m e r mt ps hd accept ->
  IsStreamingClient (desc mt) = false -> IsStreamingServer (desc mt) = false ->
  rs_answers (x_w x) = [] -> rs_sent (x_w x) = false ->
  reads_request m hd req0 k -> request_message (opts m) mt r ps req0 m2 ->
  k (call_context m r hd) m2 None = PSendMsg reply (fun err => on_nil err (PReturn tt)) ->
  reply_bytes (opts m) mt accept reply b ct ->
  exists x' h, ServeHTTP m e up r x = (x', Ok tt) /\ h !! "Content-Type" = Some [ct] /\
    rs_events (x_w x') = rs_events (x_w x) ++ [EvHeader 200 h; EvBody b] ++ (if rs_flusher (x_w x) then [EvFlush] else []).
Proof.
  intros Hcall Hcl Hsv Ha Hs Hk Hreq Hreply (Hlen & m' & cur & c & E1 & E2 & E3).
  destruct (ServeHTTP_call m e up r x _ _ _ _ Hcall) as (ae & sts & _ & ->).
  set (s := StreamHTTP _ _ _ _ _ _ _ _ _ _ _ _ _ _ _ _ _ _ _ _).
  destruct (call_received m r hd req0 k s ps m2 (Exchange (x_w x) (x_conn x) sts) Hk Hcl eq_refl eq_refl eq_refl eq_refl
    eq_refl eq_refl eq_refl eq_refl Hreq) as (s1 & (Hw & Hcz & Hh & _ & Hn & Hsh & Ho & Hm & Hac & _) & ->).
  change (h_ctx s) with (call_context m r hd). rewrite Hreply. cbn [run]. change (SendMsg reply s1) with (http_SendMsg reply s1).
  destruct (unary_sent s1 reply m' cur c b ct) as (s2 & E & Hev & Htype & _ & Hcz2).
  - by rewrite Hm.
  - unfold fresh_reply. rewrite Hcz, Hw, Hn, Hsh, Hh. split_and!; first [done|exact lower_keys_empty].
  - by rewrite Hm.
  - by rewrite Ho, Hac.
  - by rewrite Hac.
  - by rewrite Ho.
  - rewrite E. cbn [returned on_nil run]. unfold finish_http, close_compressor. rewrite Hcz2.
    unfold tell, with_headers. rewrite Hw in Hev.
    destruct (statsHandler (opts m)); eexists _, (reply_header s1 ct); (split; [reflexivity|]); (split; [exact Htype|exact Hev]).
Qed.

(** ** Errors *)

Lemma HTTPStatusCode_range c st : HTTPStatusCode c = Ok st -> (200 <= st <= 504)%Z.
Proof.
  unfold HTTPStatusCode. destruct (Z.of_nat (length codeToHTTPStatus) <? c)%Z eqn:E; [intros [= <-]; by split|].
  apply Z.ltb_ge in E. unfold array_index. destruct (Z.ltb_spec c 0); [done|].
  destruct (codeToHTTPStatus !! Z.to_nat c) as [v|] eqn:Ev; [|done]. intros [= <-].
  assert (HF : Forall (fun v => (200 <= v <= 504)%Z) codeToHTTPStatus) by (repeat constructor; done).
  exact (proj1 (Forall_lookup _ _) HF _ _ Ev).
Qed.

(** How an error is sent: the codec and the content type that the request accepts. *)
Definition error_bytes (m : Mux) (r : Request) (err : error) (st : Z) (accept b : string) : Prop :=
  header_Get (req_Header r) "Twirp-Version" = "" /\
  negotiateContentType (req_Header r) (contentTypeOffers (opts m)) "application/json" = Ok accept /\
  HTTPStatusCode (FromError (Some err)) = Ok st /\
  exists c, codecs (opts m) !! accept = Some c /\ Marshal c (status_Proto err) = Ok b.

Lemma encError_run m r r' err (w : response) st accept b :
  req_Header r' = req_Header r -> error_bytes m r err st accept b -> rs_answers w = [] -> rs_sent w = false ->
  exists w' h, encError m r' err w = (w', Ok tt) /\ h !! "Content-Type" = Some [accept] /\
    rs_events w' = rs_events w ++ [EvHeader st h; EvBody b].
Proof.
  intros Hr (Ht & Hn & Hc & c & Hl & Hm) Ha Hs. unfold encError. rewrite Hr, Ht. cbn [String.eqb negb].
  rewrite Hn, (st_bind_run _ _ w w accept eq_refl), bind_modify.
  set (w1 := w_set_header _ w). rewrite Hc, (st_bind_run _ _ w1 w1 st eq_refl).
  pose proof (HTTPStatusCode_range _ _ Hc) as Hst.
  set (w2 := Response (rs_header w1) true (rs_events w1 ++ [EvHeader st (rs_header w1)]) [] (rs_flusher w1)).
  assert (Hw : w_WriteHeader st w1 = (w2, Ok tt)).
  { unfold w_WriteHeader, response_writer, WriteHeader. destruct (Z.ltb_spec st 100), (Z.ltb_spec 999 st); try lia.
    destruct w; simpl in *. by subst. }
  rewrite (st_bind_run _ _ _ _ _ Hw), Hl.
  rewrite (st_bind_run _ _ w2 w2 b) by (unfold must; by rewrite Hm).
  eexists _, (rs_header w1). split; [reflexivity|]. split; [apply lookup_insert_eq|].
  destruct w; simpl in *. subst. by rewrite <-app_assoc.
Qed.

(** C26 An error of a unary handler, returned before it replies, is the response: the
    HTTP status of its code, and its status in the codec that the request accepts. *)
Theorem http_unary_error m e up r (x : exchange response) mt ps hd accept req0 k m2 err st acceptErr b :
  http_call m e r mt ps hd accept -> IsStreamingClient (desc mt) = false ->
  rs_answers (x_w x) = [] -> rs_sent (x_w x) = false ->
  reads_request m hd req0 k -> request_message (opts m) mt r ps req0 m2 ->
  k (call_context m r hd) m2 None = PError err -> error_bytes m r err st acceptErr b ->
  exists x' h, ServeHTTP m e up r x = (x', Ok tt) /\ h !! "Content-Type" = Some [acceptErr] /\
    rs_events (x_w x') = rs_events (x_w x) ++ [EvHeader st h; EvBody b].
Proof.
  intros Hcall Hcl Ha Hs Hk Hreq Herr Hb.
  destruct (ServeHTTP_call m e up r x _ _ _ _ Hcall) as (ae & sts & _ & ->).
  set (s := StreamHTTP _ _ _ _ _ _ _ _ _ _ _ _ _ _ _ _ _ _ _ _).
  destruct (call_received m r hd req0 k s ps m2 (Exchange (x_w x) (x_conn x) sts) Hk Hcl eq_refl eq_refl eq_refl eq_refl
    eq_refl eq_refl eq_refl eq_refl Hreq) as (s1 & (Hw & Hcz & Hh & Htr & Hn & Hsh & Ho & Hm & Hac & _) & ->).
  change (h_ctx s) with (call_context m r hd). rewrite Herr. cbn [run returned]. unfold finish_http, close_compressor.
  rewrite Hcz, Hsh. change (h_sentHeader s) with false. change (h_w s) with (x_w x) in Hw.
  set (r' := with_path _ r).
  assert (H : forall w, rs_answers w = [] -> rs_sent w = false -> rs_events w = rs_events (x_w x) ->
    exists w' h, encError m r' err w = (w', Ok tt) /\ h !! "Content-Type" = Some [acceptErr] /\
      rs_events w' = rs_events (x_w x) ++ [EvHeader st h; EvBody b]).
  { intros w Hwa Hws Hwe. destruct (encError_run m r r' err w st acceptErr b eq_refl Hb Hwa Hws) as (w' & h & ? & ? & Hev).
    exists w', h. by rewrite Hev, Hwe. }
  unfold tell, with_headers, on_writer. rewrite <-Hw in H, Ha, Hs.
  destruct (statsHandler (opts m)).
  - destruct (H (w_set_header (header_Set "Content-Encoding" "identity") (w_set_header (setOutgoingHeader (h_trailer s1)) (h_w s1)))
      ltac:(by destruct (h_w s1)) ltac:(by destruct (h_w s1)) ltac:(by destruct (h_w s1))) as (w' & h & E & ? & ?).
    eexists (Exchange w' _ _), h. split_and!; [|done|by rewrite <-Hw]. 
    unfold mbind, st_bind, mret, st_ret, modify. cbn [x_w x_set_w]. rewrite E. reflexivity.
  - destruct (H (w_set_header (header_Set "Content-Encoding" "identity") (h_w s1))
      ltac:(by destruct (h_w s1)) ltac:(by destruct (h_w s1)) ltac:(by destruct (h_w s1))) as (w' & h & E & ? & ?).
    eexists (Exchange w' _ _), h. split_and!; [|done|by rewrite <-Hw].
    unfold mbind, st_bind, mret, st_ret, modify. cbn [x_w x_set_w]. rewrite E. reflexivity.
Qed.

(** A request that no route serves is answered with the error of the match: its
    HTTP status, and nothing of the mux is called. *)
Theorem http_no_route m e up r (x : exchange response) err st accept b :
  HasPrefix (header_Get (req_Header r) "Content-Type") "application/grpc" = false ->
  state_match (loadState m) (clean_path (URL_Path r)) (if isWebsocketRequest r then kindWebsocket else req_Method r) = Err err ->
  error_bytes m r err st accept b -> rs_answers (x_w x) = [] -> rs_sent (x_w x) = false ->
  exists x' h, ServeHTTP m e up r x = (x', Ok tt) /\ h !! "Content-Type" = Some [accept] /\
    rs_events (x_w x') = rs_events (x_w x) ++ [EvHeader st h; EvBody b] /\ x_stats x' = x_stats x.
Proof.
  intros Hg Hm Hb Ha Hs. unfold ServeHTTP. rewrite Hg, (no_grpc_web _ Hg), andb_false_r.
  unfold serveHTTP. cbn [req_Context req_Header req_Method URL_Path URL_Query with_path].
  destruct (newIncomingContext (req_Context r) (req_Header r)) as [ctx md] eqn:Ec.
  change (isWebsocketRequest (with_path (clean_path (URL_Path r)) r)) with (isWebsocketRequest r).
  rewrite (st_bind_err _ _ x x err) by (unfold lift; by rewrite Hm).
  set (r' := with_path _ r).
  destruct (encError_run m r r' err (x_w x) st accept b eq_refl Hb Ha Hs) as (w' & h & E & ? & ?).
  exists (x_set_w w' x), h. split_and!; [unfold on_writer; by rewrite E|done|done|done].
Qed.

(** ** gRPC *)

(** A request that passes the checks of [serveGRPC] for a handler of the mux. *)
Record grpc_call (m : Mux) (e : env) (r : Request) (hd : handler) (codec : Codec) (comp : option Compressor) (ctx : context) : Prop := {
  gc_http2 : ProtoMajor r = 2%Z;
  gc_post : req_Method r = "POST";
  gc_codec : grpcGetCodec m (header_Get (req_Header r) "Content-Type") = Some codec;
  gc_comp : (if String.eqb (header_Get (req_Header r) "Grpc-Encoding") "" then Some None
             else grpcGetCompressor m (header_Get (req_Header r) "Grpc-Encoding")) = Some comp;
  gc_context : exists md, grpc_context r = (ctx, md, Ok tt);
  gc_handler : pickMethodHandler (e_pick e) (loadState m) (URL_Path r) = Ok hd;
}.

Section GRPC.
Context {W : Type} `{RW : ResponseWriter W} `{WL : !WriterLaws W}.

(** The stream that the handler gets. *)
Definition grpc_stream_of (m : Mux) (e : env) (r : Request) (hd : handler) (codec : Codec) (comp : option Compressor)
    (ctx : context) (w : W) (sts : list stat) : streamGRPC (W := W) :=
  StreamGRPC (opts m) (tagged m ctx hd) hd codec comp w (req_Body r) ∅ ∅
    (header_Get (req_Header r) "Content-Type") (header_Get (req_Header r) "Grpc-Encoding") false (e_caps e) sts.

Definition grpc_begin (m : Mux) (r : Request) (hd : handler) (sts : list stat) : list stat :=
  if statsHandler (opts m) then sts ++ begin_stats (URL_Path r) hd r (snd (fst (grpc_context r))) else sts.

Lemma serveGRPC_call m e r hd codec comp ctx (x : exchange W) :
  grpc_call m e r hd codec comp ctx -> w_up (x_w x) ->
  serveGRPC m e r x =
    ('(s, herr) ← call_grpc m (e_caps e) r hd (tagged m ctx hd) codec comp; finish_grpc m s herr)
      (Exchange (x_w x) (x_conn x) (grpc_begin m r hd (x_stats x))).
Proof using WL.
  intros [Hp Hm Hc Hz [md Hctx] Hh] Hf. unfold serveGRPC. rewrite bind_get, Hp, Hm. cbn [Z.eqb Pos.eqb negb].
  rewrite up_is_flusher by done. cbn [negb].
  replace (String.eqb "POST" "POST") with true by done. cbn [negb]. rewrite Hc, Hz, Hctx, Hh.
  unfold grpc_begin, tell. rewrite Hctx. cbn [fst snd]. destruct (statsHandler (opts m)); [by rewrite bind_modify|].
  rewrite (st_bind_run _ _ x x tt eq_refl). by destruct x.
Qed.

(** The status of an outcome, its trailer and the header map before. *)
Lemma status_headers_spec md herr (h : Header) :
  lower_keys md ->
  setOutgoingHeader md (status_headers herr h) !! "Grpc-Status" = Some [FormatInt (FromError herr)] /\
  setOutgoingHeader md (status_headers herr h) !! "Grpc-Message" =
    match herr with
    | Some e => if String.eqb (status_Message e) "" then h !! "Grpc-Message" else Some [encodeGrpcMessage (status_Message e)]
    | None => h !! "Grpc-Message"
    end.
Proof.
  intros Hl. rewrite !setOutgoingHeader_reserved by done. unfold status_headers, header_Set.
  change (CanonicalMIMEHeaderKey "Grpc-Status") with "Grpc-Status". change (CanonicalMIMEHeaderKey "Grpc-Message") with "Grpc-Message".
  change (CanonicalMIMEHeaderKey "Grpc-Status-Details-Bin") with "Grpc-Status-Details-Bin".
  destruct herr as [e|]; [|by rewrite lookup_insert_eq, lookup_insert_ne].
  destruct (status_Details e), (String.eqb (status_Message e) ""); cbn [negb];
    by rewrite ?lookup_insert_eq, ?lookup_insert_ne, ?lookup_insert_eq, ?lookup_insert_ne, ?lookup_insert_eq by done.
Qed.

(** The header map is set any number of times. *)
Definition set_headers (fs : list (Header -> Header)) (w : W) : W := foldr w_set_header w fs.

Lemma body_set_headers fs w : w_body (set_headers fs w) = w_body w.
Proof. induction fs as [|f fs IH]; [done|]. cbn. by rewrite body_set_header. Qed.

(** After the handler: the header goes out, if it did not; then the header map takes
    the status and the trailer. *)
Lemma finish_grpc_run Q m (s : streamGRPC (W := W)) herr (x : exchange W) :
  stable Q -> well Q s -> g_sentHeader s = true \/ ctx_errs (g_ctx s) = [] ->
  exists x' w fs, finish_grpc m s herr x = (x', Ok tt) /\ x_w x' = set_headers fs w /\ Q w /\ w_body w = w_body (g_w s) /\
    w_header (x_w x') = setOutgoingHeader (g_trailer s) (status_headers herr (w_header w)).
Proof using WL.
  intros HQ Hw Hs. unfold finish_grpc.
  assert (E : exists s', (if g_sentHeader s then (s, Ok tt) else grpc_SendHeader ∅ s) = (s', Ok tt) /\ well Q s' /\
    g_trailer s' = g_trailer s /\ w_body (g_w s') = w_body (g_w s)).
  { destruct (g_sentHeader s) eqn:E; [by exists s|]. destruct Hs as [|Hs]; [done|].
    pose proof (stays_SendHeader Q HQ ∅ lower_keys_empty s Hw) as H1. destruct (silent_SendHeader ∅ s) as (_ & _ & H2).
    exists (fst (grpc_SendHeader ∅ s)). split; [|split; [exact H1|split; [|exact H2]]];
      unfold grpc_SendHeader, isDone, mbind, st_bind; rewrite Hs; unfold get; by rewrite E. }
  destruct E as (s' & -> & (Hq & _ & Ht) & Htr & Hb). rewrite <-Htr in *. set (h := status_headers herr (w_header (g_w s'))).
  assert (Hq' : Q (w_Flush (g_w s'))) by by apply (stable_flush Q HQ).
  unfold tell. destruct (statsHandler (opts m)).
  - eexists _, (w_Flush (g_w s')), [setOutgoingHeader (g_trailer s'); setOutgoingHeader (g_trailer s'); status_headers herr].
    split_and!; [reflexivity|done|done|by rewrite body_Flush|]. cbn. by rewrite !header_set_header, setOutgoingHeader_again.
  - eexists _, (w_Flush (g_w s')), [setOutgoingHeader (g_trailer s'); status_headers herr].
    split_and!; [reflexivity|done|done|by rewrite body_Flush|]. cbn. by rewrite !header_set_header.
Qed.

(** A gRPC call from the handler to its end. *)
Lemma serveGRPC_run Q m e r hd codec comp ctx (x : exchange W) s1 o :
  stable Q -> grpc_call m e r hd codec comp ctx -> w_up (x_w x) -> Q (x_w x) -> lower_metadata (h_handler hd (opts m)) ->
  run (h_handler hd (opts m)) (grpc_stream_of m e r hd codec comp ctx (x_w x) (grpc_begin m r hd (x_stats x))) = (s1, o) ->
  (o = Ok tt \/ exists err, o = Err err) -> g_sentHeader s1 = true \/ ctx_errs (g_ctx s1) = [] ->
  exists x' w fs, serveGRPC m e r x = (x', Ok tt) /\ x_w x' = set_headers fs w /\ Q w /\ w_body w = w_body (g_w s1) /\
    w_header (x_w x') = setOutgoingHeader (g_trailer s1) (status_headers (returned o) (w_header w)) /\ lower_keys (g_trailer s1).
Proof using WL.
  intros HQ Hcall Hup Hx Hl Hrun Ho Hs. rewrite (serveGRPC_call _ _ _ _ _ _ _ _ Hcall Hup).
  set (x0 := Exchange _ _ _). set (x1 := Exchange (g_w s1) (x_conn x) (g_stats s1)).
  assert (E : call_grpc m (e_caps e) r hd (tagged m ctx hd) codec comp x0 = (x1, Ok (s1, returned o))).
  { unfold call_grpc. unfold grpc_stream_of in Hrun. cbn [x0 x_w x_stats x_conn]. rewrite Hrun. by destruct Ho as [->|[err ->]]. }
  rewrite (st_bind_run _ _ _ _ _ E). cbn beta iota.
  assert (Hwell : well Q s1).
  { change s1 with (fst (s1, o)). rewrite <-Hrun. apply run_well; [done|done|]. split_and!; [done|apply lower_keys_empty..]. }
  destruct (finish_grpc_run Q m s1 (returned o) x1 HQ Hwell Hs) as (x' & w & fs & ? & ? & ? & ? & ?).
  exists x', w, fs. by split_and!; [..|apply Hwell].
Qed.

(** C9 Every gRPC call that reaches its handler ends with the status of what the
    handler returned: its code is the trailer Grpc-Status and its message, when there
    is one, is Grpc-Message, whatever metadata the handler set as trailer; the body
    holds what the handler sent and nothing after it. *)
Theorem grpc_status m e r hd codec comp ctx (x : exchange W) s1 o :
  grpc_call m e r hd codec comp ctx -> w_up (x_w x) -> lower_metadata (h_handler hd (opts m)) ->
  run (h_handler hd (opts m)) (grpc_stream_of m e r hd codec comp ctx (x_w x) (grpc_begin m r hd (x_stats x))) = (s1, o) ->
  (o = Ok tt \/ exists err, o = Err err) -> g_sentHeader s1 = true \/ ctx_errs (g_ctx s1) = [] ->
  exists x', serveGRPC m e r x = (x', Ok tt) /\ w_body (x_w x') = w_body (g_w s1) /\
    w_header (x_w x') !! "Grpc-Status" = Some [FormatInt (FromError (returned o))] /\
    (forall err, o = Err err -> status_Message err <> "" ->
       w_header (x_w x') !! "Grpc-Message" = Some [encodeGrpcMessage (status_Message err)]).
Proof using WL.
  intros Hcall Hw Hl Hrun Ho Hs.
  destruct (serveGRPC_run (fun _ => True) m e r hd codec comp ctx x s1 o) as (x' & w & fs & E & Hx & _ & Hb & Hh & Ht); [by split|done..|].
  destruct (status_headers_spec (g_trailer s1) (returned o) (w_header w) Ht) as [Hst Hmsg]. rewrite <-Hh in Hst, Hmsg.
  exists x'. split_and!; [done|by rewrite Hx, body_set_headers|done|]. intros err -> Hne. rewrite Hmsg. cbn [returned].
  by destruct (String.eqb_spec (status_Message err) "").
Qed.
End GRPC.

(** The content types of gRPC-Web are no codec of [serveGRPC]. *)
Lemma grpc_web_no_codec m ct : HasPrefix ct "application/grpc-web" = true -> grpcGetCodec m ct = None.
Proof.
  intros [t ->]%HasPrefix_spec. unfold grpcGetCodec. destruct (Cut _ "+") as [[typ enc] ok] eqn:E.
  destruct (String.eqb_spec typ "application/grpc") as [->|]; [|done]. exfalso. destruct ok.
  - apply Cut_found in E as [H _]. revert H. simpl. congruence.
  - apply Cut_not_found in E as [H _]. revert H. simpl. congruence.
Qed.

Lemma http_Error_run msg code (w : response) :
  rs_answers w = [] -> rs_sent w = false -> (100 <= code <= 999)%Z ->
  exists w' h, http_Error msg code w = (w', Ok tt) /\ rs_events w' = rs_events w ++ [EvHeader code h; EvBody (msg ++ String "010" "")].
Proof.
  intros Ha Hs Hc. unfold http_Error. rewrite !bind_modify. set (w1 := w_set_header _ _).
  set (w2 := Response (rs_header w1) true (rs_events w1 ++ [EvHeader code (rs_header w1)]) [] (rs_flusher w1)).
  assert (Hw : w_WriteHeader code w1 = (w2, Ok tt)).
  { unfold w_WriteHeader, response_writer, WriteHeader. destruct (Z.ltb_spec code 100), (Z.ltb_spec 999 code); try lia.
    destruct w; simpl in *. by subst. }
  rewrite (st_bind_run _ _ _ _ _ Hw). eexists _, (rs_header w1). split; [reflexivity|].
  destruct w; simpl in *. subst. by rewrite <-app_assoc.
Qed.

(** gRPC-Web is not served over HTTP/2: the request is taken for gRPC by the prefix
    of its content type, and refused as an unsupported media type. *)
Theorem grpc_web_over_http2 m e up r (x : exchange response) :
  ProtoMajor r = 2%Z -> req_Method r = "POST" -> HasPrefix (header_Get (req_Header r) "Content-Type") "application/grpc-web" = true ->
  rs_flusher (x_w x) = true -> rs_answers (x_w x) = [] -> rs_sent (x_w x) = false ->
  exists x' h b, ServeHTTP m e up r x = (x', Ok tt) /\ x_stats x' = x_stats x /\
    rs_events (x_w x') = rs_events (x_w x) ++ [EvHeader 415 h; EvBody b].
Proof.
  intros Hp Hm Hct Hf Ha Hs. unfold ServeHTTP. rewrite Hp.
  assert (Hg : HasPrefix (header_Get (req_Header r) "Content-Type") "application/grpc" = true).
  { apply HasPrefix_spec in Hct as [t ->]. reflexivity. }
  rewrite Hg. cbn [Z.eqb Pos.eqb andb]. unfold serveGRPC. rewrite bind_get, Hp, Hm. cbn [Z.eqb Pos.eqb negb].
  change (w_is_flusher (x_w x)) with (rs_flusher (x_w x)). rewrite Hf. cbn [negb].
  replace (String.eqb "POST" "POST") with true by done. cbn [negb]. rewrite (grpc_web_no_codec m _ Hct).
  unfold grpc_error. set (msg := Sprintf _ _).
  destruct (http_Error_run msg 415 (x_w x) Ha Hs ltac:(lia)) as (w' & h & E & Hev).
  exists (x_set_w w' x), h, (msg ++ String "010" "")%string. split; [|by split].
  unfold on_writer. change http.StatusUnsupportedMediaType with 415%Z. by rewrite E.
Qed.
End Serve.

(** What the compressor for gzip makes of a message is read back. *)
Lemma compressorGzip_ok `{GZ : Gzip} e :
  (forall z, compress compressorGzip e = Ok z -> Z.of_nat (String.length z) < 2 ^ 32)%Z -> comp_ok (Some compressorGzip) e.
Proof.
  intros Hz. destruct (gunzip_writes DefaultCompression [e] ltac:(unfold DefaultCompression; lia)) as (r & Hr & He).
  cbn [str_concat] in He. rewrite str_app_nil_r in He.
  exists (gzip_emit DefaultCompression [e] ++ gzip_end DefaultCompression [e])%string. split; [done|]. split; [by apply Hz|].
  exists r. split; [|done]. rewrite <-Hr. cbn [comp_decompress compressorGzip]. unfold emitted. cbn [seq length fmap list_fmap take str_concat].
  by rewrite str_app_nil_r.
Qed.

(** ** Witnesses *)

#[export] Instance plain_twirp : Twirp := {|
  Code_name c := "UNKNOWN";
  twirp_Marshal code msg := Ok ("{" ++ code ++ "}")%string;
|}.

Module SampleServe.
Import SampleMux.
Definition request (method path ct : string) (body : reader) : Request :=
  MkRequest method path ∅ 1 1 {["Content-Type" := [ct]]} body (-1) "10.0.0.1:80" (MkContext None [] []).
Definition post (body : reader) : Request := request "POST" "/pkg.Library/GetShelf" "application/json" body.
Definition start : exchange response := Exchange new_response None [].
Definition e0 : env := Env 0 [].
Definition no_upgrade (r : Request) (w : response) : response * outcome error Conn := (w, Err (External "no upgrade")).
Definition req0 : @Message plain_proto := XText Sample.request "".
Definition text (t : string) : @Message plain_proto := XText Sample.request t.
Definition shelf_handler : @handler plain_proto :=
  MkHandler 0 getShelf (snd (unary_entry (List.hd (MkMethodDesc "" (fun _ _ => PError EOF)) (Methods service))) "/pkg.Library/GetShelf")
    "/pkg.Library/GetShelf".
Definition shelf_method : @method plain_proto := Method getShelf "/pkg.Library/GetShelf" [] [] [] true.
End SampleServe.
Import SampleMux SampleServe.

Lemma sample_call body : http_call mux1 e0 (post body) shelf_method [] shelf_handler "application/json".
Proof.
  split; try reflexivity.
  - exists [], []. split_and!; vm_compute; reflexivity.
  - exists "identity". split; vm_compute; reflexivity.
Qed.

Lemma http_unary_witness :
  exists x' h, ServeHTTP mux1 e0 no_upgrade (post [Chunk "he" None; Chunk "llo" None]) start = (x', Ok tt) /\
    h !! "Content-Type" = Some ["application/json"] /\ rs_events (x_w x') = [EvHeader 200 h; EvBody "hello"; EvFlush].
Proof.
  apply (http_unary mux1 e0 no_upgrade (post [Chunk "he" None; Chunk "llo" None]) start shelf_method [] shelf_handler "application/json" req0
    (fun ctx m err => pbind (on_nil err (PReturn m)) (fun reply => PSendMsg reply (fun err => on_nil err (PReturn tt))))
    (text "hello") (text "hello") "hello" "application/json"); try reflexivity.
  - apply sample_call.
  - split; [by repeat constructor|]. split; [vm_compute; discriminate|]. exists req0, req0, codecJSON. split_and!; reflexivity.
  - split; [vm_compute; discriminate|]. exists (text "hello"), (text "hello"), codecJSON. split_and!; reflexivity.
Defined.

(** A service whose handler fails. *)
Module SampleFailure.
Import SampleMux SampleServe.
Definition failure : error := StatusError codes.NotFound "no shelf" [].
Definition failing : @ServiceDesc plain_proto :=
  MkServiceDesc "pkg.Library" [MkMethodDesc "GetShelf" (fun _ _ =>
    PRecvMsg (P := plain_proto) (XText Sample.request "") (fun m e => on_nil e (PError failure)))] [].
Definition mux2 : @Mux plain_proto := fst (registerService failing mux0).
Definition failing_handler : @handler plain_proto :=
  MkHandler 0 getShelf (snd (unary_entry (List.hd (MkMethodDesc "" (fun _ _ => PError EOF)) (Methods failing))) "/pkg.Library/GetShelf")
    "/pkg.Library/GetShelf".
End SampleFailure.
Import SampleFailure.

Lemma http_unary_error_witness :
  exists x' h, ServeHTTP mux2 e0 no_upgrade (post [Chunk "hello" None]) start = (x', Ok tt) /\
    h !! "Content-Type" = Some ["application/json"] /\ rs_events (x_w x') = [EvHeader 404 h; EvBody "{}"].
Proof.
  apply (http_unary_error mux2 e0 no_upgrade (post [Chunk "hello" None]) start shelf_method [] failing_handler "application/json" req0
    (fun ctx m err => pbind (on_nil err (PError failure)) (fun reply => PSendMsg reply (fun err => on_nil err (PReturn tt))))
    (text "hello") failure 404 "application/json" "{}"); try reflexivity.
  - split; try reflexivity.
    + exists [], []. split_and!; vm_compute; reflexivity.
    + exists "identity". split; vm_compute; reflexivity.
  - split; [by repeat constructor|]. split; [vm_compute; discriminate|]. exists req0, req0, codecJSON. split_and!; reflexivity.
  - split_and!; try reflexivity. exists codecJSON. split; reflexivity.
Defined.

Lemma http_no_route_witness :
  exists x' h, ServeHTTP mux1 e0 no_upgrade (request "GET" "/nothing/" "" []) start = (x', Ok tt) /\
    h !! "Content-Type" = Some ["application/json"] /\ rs_events (x_w x') = [EvHeader 404 h; EvBody "{}"] /\ x_stats x' = [].
Proof.
  apply (http_no_route mux1 e0 no_upgrade (request "GET" "/nothing/" "" []) start errNotFound 404 "application/json" "{}"); try reflexivity.
  split_and!; try reflexivity. exists codecJSON. split; reflexivity.
Defined.

Definition grpc_request : Request :=
  MkRequest "POST" "/pkg.Library/GetShelf" ∅ 2 0 {["Content-Type" := ["application/grpc+json"]]}
    [Chunk (String "000" (PutUint32 5 ++ "hello")) None] (-1) "10.0.0.1:80" (MkContext None [] []).

Lemma shelf_lower o : lower_metadata (h_handler shelf_handler o).
Proof. intros ctx m [e|]; [exact I|]. intros [e|]; exact I. Qed.

Lemma grpc_status_witness :
  exists x', serveGRPC mux1 e0 grpc_request start = (x', Ok tt) /\
    sent_body (x_w x') = String "000" (PutUint32 5 ++ "hello") /\
    rs_header (x_w x') !! "Grpc-Status" = Some ["0"].
Proof.
  set (ctx := fst (fst (grpc_context grpc_request))).
  set (s := grpc_stream_of mux1 e0 grpc_request shelf_handler codecJSON None ctx new_response []).
  destruct (run (h_handler shelf_handler (opts mux1)) s) as [s1 o] eqn:E.
  assert (Ho : o = Ok tt) by (change o with (snd (s1, o)); rewrite <-E; vm_compute; reflexivity).
  assert (Hs : g_trailer s1 = ∅ /\ g_sentHeader s1 = true /\ sent_body (g_w s1) = String "000" (PutUint32 5 ++ "hello")).
  { change s1 with (fst (s1, o)). rewrite <-E. split_and!; vm_compute; reflexivity. }
  destruct Hs as (Ht & Hsent & Hbody).
  destruct (grpc_status mux1 e0 grpc_request shelf_handler codecJSON None ctx start s1 o) as (x' & H1 & H2 & H3 & _).
  - split; try reflexivity. exists (snd (fst (grpc_context grpc_request))). reflexivity.
  - by split.
  - exact (shelf_lower _).
  - exact E.
  - by left.
  - by left.
  - exists x'. rewrite Ho in H3. rewrite <-Hbody. split_and!; [exact H1|exact H2|exact H3].
Defined.

Lemma grpc_web_over_http2_witness :
  exists x' h b, ServeHTTP mux1 e0 no_upgrade
    (MkRequest "POST" "/pkg.Library/GetShelf" ∅ 2 0 {["Content-Type" := ["application/grpc-web+proto"]]} [] (-1) "" (MkContext None [] [])) start
    = (x', Ok tt) /\ x_stats x' = [] /\ rs_events (x_w x') = [EvHeader 415 h; EvBody b].
Proof. apply grpc_web_over_http2; reflexivity. Defined.

(** The same request over HTTP/1.1 is served; its status is the last frame. *)
Example grpc_web_example :
  let r := MkRequest "POST" "/pkg.Library/GetShelf" ∅ 1 1 {["Content-Type" := ["application/grpc-web+json"]]}
    [Chunk (String "000" (PutUint32 5 ++ "hello")) None] (-1) "" (MkContext None [] []) in
  sent_body (x_w (fst (ServeHTTP mux1 e0 no_upgrade r start))) =
    (String "000" (PutUint32 5 ++ "hello") ++ trailer_frame ("grpc-status: 0" ++ crlf))%string.
Proof. vm_compute. reflexivity. Qed.

(** A codec that is offered as content type, and that nothing can be marshalled with. *)
Example accept_HttpBody_panics :
  is_panic (snd (ServeHTTP mux1 e0 no_upgrade (MkRequest "GET" "/nothing" ∅ 1 1 {["Accept" := ["google.api.HttpBody"]]} [] 0 "" (MkContext None [] [])) start))
  = true.
Proof. vm_compute. reflexivity. Qed.
