(* ===== verification/GrpcServe.v ===== *)
(** A gRPC call from the request to the response: every handler runs on the stream of
    grpc.go as on an ideal stream, whose input and output are the encodings of
    messages; the frames of the request are its input, and the response is the frames
    of its output, compressed or not, with the status of its outcome. *)

#[local] Set Warnings "-register-all".
From S2P Require Import Prelude Status Runes IO Http Negotiate Base64 Proto Lexer Params Metadata Compress Codec Selector Stream Routes RouteAdd RouteSearch GrpcStream GrpcSpec Mux MuxSpec HttpStream HttpSpec WsStream Web Serve ServeSpec.

Section Dialogue.
Context `{U : Unicode} `{P : Protoreflect} {M : Messages} `{MA : @Marshaling P} `{R : GoRange} `{F : Fmt} `{GA : GoAppend}
  `{GS : !GrpcStatus} `{MDJ : Metadata} `{WS : WebSocket} `{TW : Twirp} `{ST : StatsTag} `{BR : Base64Reader}.
Context {Wr : Type} `{RW : ResponseWriter Wr} `{WL : !WriterLaws Wr}.

(** ** The ideal stream

    Whether the header was sent, the metadata, the encodings of the messages to
    receive, and of those sent. *)
Record dialogue := Dialogue {
  d_sent : bool; d_header : MD; d_trailer : MD; d_in : list string; d_out : list string;
}.

Context (o : muxOptions) (codec : Codec) (comp : option Compressor) (ctx : context).

Definition d_open (md : MD) (d : dialogue) : dialogue :=
  Dialogue true (Join (d_header d) md) (d_trailer d) (d_in d) (d_out d).

Definition d_SetHeader (md : MD) : st dialogue error unit := fun d =>
  if d_sent d then (d, Err errAlreadySent)
  else (Dialogue false (Join (d_header d) md) (d_trailer d) (d_in d) (d_out d), Ok tt).

Definition d_SendHeader (md : MD) : st dialogue error unit := fun d =>
  if d_sent d then (d, Err errAlreadySent) else (d_open md d, Ok tt).

Definition d_SetTrailer (md : MD) (d : dialogue) : dialogue :=
  Dialogue (d_sent d) (d_header d) (Join (d_trailer d) md) (d_in d) (d_out d).

(** The first message sends the header; one over the limit is refused. *)
Definition d_SendMsg (m : Message) : st dialogue error unit := fun d =>
  let d := if d_sent d then d else d_open ∅ d in
  match MarshalAppend codec five m with
  | Ok b =>
      let e := str_drop 5 b in
      let size := Z.of_nat (String.length e) in
      if (maxReceiveMessageSize o <? size)%Z then (d, Err (errTooLarge size (maxReceiveMessageSize o)))
      else (Dialogue (d_sent d) (d_header d) (d_trailer d) (d_in d) (d_out d ++ [e]), Ok tt)
  | Err e => (d, Err e)
  | Panic q => (d, Panic q)
  | OutOfFuel => (d, OutOfFuel)
  end.

Definition d_RecvMsg : st (dialogue * Message) error unit := fun '(d, m) =>
  match d_in d with
  | [] => ((d, m), Err EOF)
  | e :: es =>
      let '(m, o) := Unmarshal codec e m in
      ((Dialogue (d_sent d) (d_header d) (d_trailer d) es (d_out d), m), o)
  end.

Definition ideal_grpc : ServerStream dialogue := {|
  Context_ _ := ctx;
  SetHeader := d_SetHeader;
  SendHeader := d_SendHeader;
  SetTrailer := d_SetTrailer;
  SendMsg := d_SendMsg;
  RecvMsg := d_RecvMsg;
|}.

(** ** The simulation *)

(** A frame of a message that the stream takes. *)
Definition framed (e f : string) : Prop :=
  is_frame comp e f /\ (Z.of_nat (String.length e) < 2 ^ 32)%Z /\
  (Z.of_nat (String.length f) <= maxReceiveMessageSize o + 5)%Z /\ comp_ok comp e.

(** The codec appends to the slice that it is given, and the compressor gives back
    what it was given, for messages within the limit. *)
Record laws : Prop := {
  codec_appends m b : MarshalAppend codec five m = Ok b ->
    exists e, b = (five ++ e)%string /\ (Z.of_nat (String.length e) < 2 ^ 32)%Z;
  compressor_keeps e : (Z.of_nat (String.length e) <= maxReceiveMessageSize o)%Z -> comp_ok comp e;
}.
Context (HL : laws).

(** Messages that a statistics handler, when there is one, is told of: of a shorter
    one the code cuts more bytes than it has, and panics. *)
Definition told (payloads : list string) : Prop :=
  statsHandler o = true -> Forall (fun e => 5 <= String.length e) payloads.
Local Abbreviation stream := (streamGRPC (W := Wr)).

(** The stream of the code and the ideal one, on a response with [base] before. *)
Record in_dialogue (base : string) (s : stream) (d : dialogue) : Prop := {
  id_calm : calm s;
  id_opts : g_opts s = o;
  id_codec : g_codec s = codec;
  id_comp : g_comp s = comp;
  id_ctx : g_ctx s = ctx;
  id_sent : g_sentHeader s = d_sent d;
  id_header : g_header s = d_header d;
  id_trailer : g_trailer s = d_trailer d;
  id_body : no_error (g_r s) /\ exists fs, Forall2 framed (d_in d) fs /\ reader_data (g_r s) = str_concat fs;
  id_told : told (d_in d);
  id_reply : exists fs, Forall2 (is_frame comp) (d_out d) fs /\ w_body (g_w s) = (base ++ str_concat fs)%string;
}.

Context (base : string).
Local Abbreviation sim := (in_dialogue base).

Lemma calm_isDone (s : stream) : calm s -> isDone s = (s, Ok tt).
Proof. intros [H _]. unfold isDone. by rewrite H. Qed.

Lemma sim_SetHeader md : simulates sim (same_result sim) (grpc_SetHeader md) (d_SetHeader md).
Proof.
  intros s d H. unfold grpc_SetHeader, d_SetHeader. rewrite (id_sent _ _ _ H).
  destruct (d_sent d) eqn:E; [by split|]. split; [|done]. destruct H; split; cbn; try done; congruence.
Qed.

Lemma sim_SetTrailer md : simulates sim sim (grpc_SetTrailer md) (d_SetTrailer md).
Proof. intros s d H. destruct H; split; cbn; try done; congruence. Qed.

(** The header goes out. *)
Lemma open_header md s d : sim s d -> d_sent d = false -> exists s', grpc_SendHeader md s = (s', Ok tt) /\ sim s' (d_open md d).
Proof using HL WL.
  intros H Hs. pose proof (id_sent _ _ _ H) as Hs'. rewrite Hs in Hs'.
  unfold grpc_SendHeader. rewrite (st_bind_run _ _ s s tt (calm_isDone s (id_calm _ _ _ H))), bind_get, Hs'.
  rewrite !bind_modify. eexists. split; [reflexivity|].
  destruct H as [(H1 & H2 & H3) Ho ? ? ? ? Hh ? ? ? ?]. cbn in Ho. unfold g_stat. cbn [g_opts g_set_sentHeader g_set_w g_set_header].
  split; cbn; try done.
  - split_and!; [done|done|]. by apply up_set_header.
  - by rewrite Hh.
  - by rewrite body_set_header.
Qed.

Lemma sim_SendHeader md : simulates sim (same_result sim) (grpc_SendHeader md) (d_SendHeader md).
Proof using HL WL.
  intros s d H. unfold d_SendHeader. destruct (d_sent d) eqn:Hs.
  - unfold grpc_SendHeader. rewrite (st_bind_run _ _ s s tt (calm_isDone s (id_calm _ _ _ H))), bind_get, (id_sent _ _ _ H), Hs. by split.
  - destruct (open_header md s d H Hs) as (s' & -> & H'). by split.
Qed.

Lemma sim_caps cs s d : caps_ok (g_set_caps cs s) -> sim s d -> sim (g_set_caps cs s) d.
Proof. intros Hcs H. destruct H as [(H1 & H2 & H3) ? ? ? ? ? ? ? ? ?]. by split. Qed.

Lemma pooled_slice_run (s : stream) : caps_ok s ->
  exists cap cs, pooled_slice s = (g_set_caps cs s, Ok cap) /\ (5 <= cap <= max_int64)%Z /\ caps_ok (g_set_caps cs s).
Proof.
  intros Hc. destruct (wp_ok pooled_slice (fun cap s' => exists cs, s' = g_set_caps cs s /\ (5 <= cap <= max_int64)%Z /\ caps_ok (g_set_caps cs s)) s)
    as (s' & cap & E & cs & -> & ?); [|by exists cap, cs].
  apply wp_pooled; [done|]. intros cap cs Hcap Hcs. by exists cs.
Qed.

(** A frame goes out. *)
Lemma sim_write e frame s d :
  is_frame comp e frame -> sim s d ->
  exists s', (or_conn_error codes.Unavailable (on_w (w_Write frame));; flush_w) s = (s', Ok tt) /\
    sim s' (Dialogue (d_sent d) (d_header d) (d_trailer d) (d_in d) (d_out d ++ [e])).
Proof using WL.
  intros Hf H. destruct H as [(H1 & H2 & H3) ? ? ? ? ? ? ? ? ? (fs & Hfs & Hb)].
  destruct (up_Write frame (g_w s) H3) as (w & Ew & Hup & Hbw).
  assert (E : or_conn_error codes.Unavailable (on_w (w_Write frame)) s = (g_set_w w s, Ok (String.length frame))).
  { apply or_conn_error_ok. unfold on_w. by rewrite Ew. }
  rewrite (st_bind_run _ _ _ _ _ E). unfold flush_w. cbn [g_w g_set_w]. rewrite up_is_flusher by done.
  eexists. split; [reflexivity|]. split; cbn; try done.
  - split_and!; [done|done|by apply up_Flush].
  - exists (fs ++ [frame]). split; [apply Forall2_app; [done|by repeat constructor]|].
    rewrite body_Flush, Hbw, Hb, str_concat_app. cbn [str_concat]. by rewrite str_app_nil_r, str_app_assoc.
Qed.

Lemma skip_header_ok b : 5 <= String.length b -> lift (skip_header b) = (mret (str_drop 5 b) : st stream error string).
Proof using Type. intros H. unfold skip_header. destruct (Nat.ltb_spec (String.length b) 5); [lia|done]. Qed.

Lemma is_frame_long e f : is_frame comp e f -> 5 <= String.length f.
Proof using Type. intros []; cbn; lia. Qed.

(** What a statistics handler is told changes nothing else. *)
Lemma sim_g_stat st s d : sim s d -> sim (g_stat st s) d.
Proof using Type. intros [(H1 & H2 & H3) ? ? ? ? ? ? ? ? ? ?]. unfold g_stat. split; cbn; try done. Qed.

Lemma grpc_sim_SendMsg m : simulates sim (same_result sim) (grpc_SendMsg m) (d_SendMsg m).
Proof using HL WL.
  intros s d H. unfold grpc_SendMsg, d_SendMsg.
  rewrite (st_bind_run _ _ s s tt (calm_isDone s (id_calm _ _ _ H))), bind_get.
  set (d1 := if d_sent d then d else d_open ∅ d).
  assert (Hopen : exists s1, (if g_sentHeader s then mret tt else grpc_SendHeader ∅) s = (s1, Ok tt) /\ sim s1 d1).
  { unfold d1. rewrite (id_sent _ _ _ H). destruct (d_sent d) eqn:E; [by exists s|by apply open_header]. }
  destruct Hopen as (s1 & E1 & H1). rewrite (st_bind_run _ _ _ _ _ E1).
  destruct (pooled_slice_run s1) as (cap & cs & E2 & Hcap & Hcs); [apply (id_calm _ _ _ H1)|]. rewrite (st_bind_run _ _ _ _ _ E2), bind_get.
  apply (sim_caps cs) in H1; [|done]. set (s2 := g_set_caps cs s1) in *.
  rewrite (id_codec _ _ _ H1), (id_opts _ _ _ H1), (id_comp _ _ _ H1).
  destruct (MarshalAppend codec five m) as [b|e|q|] eqn:Em; [|by split..].
  rewrite (st_bind_run _ _ s2 s2 b eq_refl). destruct (codec_appends HL m b Em) as (e & -> & He).
  rewrite length_five, str_drop_five.
  assert (wrapu 32 (Z.of_nat (5 + String.length e) - 5) = Z.of_nat (String.length e)) as ->
    by (unfold wrapu; rewrite Z.mod_small; lia). cbv zeta.
  destruct (Z.ltb_spec (maxReceiveMessageSize o) (Z.of_nat (String.length e))) as [Hmax|Hmax]; [by split|].
  destruct (compress_frame_ok comp (Z.max cap (Z.of_nat (5 + String.length e))) e _
    ltac:(unfold max_int64 in *; lia) eq_refl (compressor_keeps HL e Hmax)) as (frame & n & Ef & Hframe & _).
  rewrite (st_bind_run _ _ s2 s2 (frame, n)) by (unfold lift; by rewrite Ef). cbv beta iota.
  destruct (sim_write e frame s2 d1 Hframe H1) as (s3 & E3 & H3).
  rewrite <-st_bind_assoc. rewrite (st_bind_run _ _ _ _ _ E3).
  destruct (statsHandler o); [|by split].
  rewrite (skip_header_ok frame (is_frame_long _ _ Hframe)), (st_bind_run _ _ s3 s3 _ eq_refl).
  split; [by apply sim_g_stat|done].
Qed.

(** *** Receiving *)

Lemma recv_end s d : sim s d -> d_in d = [] -> exists s', recv_payload s = (s', Err EOF) /\ sim s' d.
Proof using Type.
  intros H Hin. unfold recv_payload. rewrite (st_bind_run _ _ s s tt (calm_isDone s (id_calm _ _ _ H))).
  destruct (pooled_slice_run s) as (cap & cs & E2 & Hcap & Hcs); [apply (id_calm _ _ _ H)|]. rewrite (st_bind_run _ _ _ _ _ E2).
  apply (sim_caps cs) in H; [|done]. set (s2 := g_set_caps cs s) in *.
  destruct (id_body _ _ _ H) as (Hn & fs & Hfs & Hd). rewrite Hin in Hfs. apply Forall2_nil_inv_l in Hfs. subst fs.
  destruct (ReadFull_end (g_r s2) 5 Hn Hd ltac:(lia)) as (r & Er & Hn' & Hd').
  assert (E3 : or_conn_error codes.Canceled (read_full 5) s2 = (g_set_r r s2, Err EOF)).
  { unfold or_conn_error, read_full. change (Z.to_nat 5) with 5. by rewrite Er. }
  rewrite (st_bind_err _ _ _ _ _ E3). exists (g_set_r r s2). split; [done|].
  destruct H; split; cbn; try done. split; [done|]. rewrite Hin. exists []. by split; [constructor|].
Qed.

Lemma recv_frame s d e es : sim s d -> d_in d = e :: es ->
  exists s', recv_payload s = (s', Ok e) /\ sim s' (Dialogue (d_sent d) (d_header d) (d_trailer d) es (d_out d)).
Proof using Type.
  intros H Hin. pose proof (id_body _ _ _ H) as (Hn & fs & Hfs & Hd). rewrite Hin in Hfs.
  apply Forall2_cons_inv_l in Hfs as (f & fs' & (Hf & He & Hlen & Hok) & Hfs & ->). cbn [str_concat] in Hd.
  pose proof (id_calm _ _ _ H) as (Hctx & Hcaps & Hup). rewrite <-(id_comp _ _ _ H) in Hf, Hok. rewrite <-(id_opts _ _ _ H) in Hlen.
  destruct (recv_payload_frame s e f (str_concat fs') Hf He Hok Hlen Hctx Hcaps Hn Hd) as (r & cs & E & Hcs & Hn' & Hd').
  eexists. split; [exact E|]. apply (sim_caps cs) in H; [|done]. destruct H as [? ? ? ? ? ? ? ? ? Ht ?]; split; cbn; try done.
  - split; [done|]. by exists fs'.
  - intros Hst. specialize (Ht Hst). rewrite Hin in Ht. by apply Forall_cons in Ht as [_ ?].
Qed.

Definition both (x : stream * Message) (y : dialogue * Message) : Prop := sim x.1 y.1 /\ x.2 = y.2.

Lemma grpc_sim_RecvMsg : simulates both (same_result both) grpc_RecvMsg d_RecvMsg.
Proof using HL.
  intros [s m] [d m'] [H E]. cbn in H, E. subst m'. unfold grpc_RecvMsg, d_RecvMsg.
  destruct (d_in d) as [|e es] eqn:Hin.
  - destruct (recv_end s d H Hin) as (s' & -> & H'). by split.
  - destruct (recv_frame s d e es H Hin) as (s' & -> & H'). rewrite (id_codec _ _ _ H').
    destruct (Unmarshal codec e m) as [m1 [[]|err|q|]]; [|by split..].
    unfold recv_stats. rewrite bind_get, (id_opts _ _ _ H'). destruct (statsHandler o) eqn:Est; [|by split].
    assert (He : 5 <= String.length e).
    { pose proof (id_told _ _ _ H Est) as Ht. rewrite Hin in Ht. by apply Forall_cons in Ht as [? _]. }
    rewrite (skip_header_ok e He), (st_bind_run _ _ s' s' _ eq_refl). split; [|done]. split; [by apply sim_g_stat|done].
Qed.

(** Every handler does the same on both. *)
Lemma run_dialogue {A} (p : prog A) s d : sim s d ->
  exists s' d' r, run p s = (s', r) /\ run (H := ideal_grpc) p d = (d', r) /\ sim s' d'.
Proof using HL WL.
  intros H. pose proof (run_simulation (SS' := ideal_grpc) sim) as Hs.
  destruct (Hs (fun s d H => id_ctx _ _ _ H) sim_SetHeader sim_SendHeader sim_SetTrailer grpc_sim_SendMsg grpc_sim_RecvMsg A p s d H) as [H1 H2].
  destruct (run p s) as [s' r], (run p d) as [d' r']. cbn in *. subst r'. by exists s', d', r.
Qed.
End Dialogue.

(** ** The call *)

Section Call.
Context `{U : Unicode} `{P : Protoreflect} {M : Messages} `{MA : @Marshaling P} `{R : GoRange} `{F : Fmt} `{GA : GoAppend}
  `{GS : !GrpcStatus} `{MDJ : Metadata} `{WS : WebSocket} `{TW : Twirp} `{ST : StatsTag} `{BR : Base64Reader}.
Context {Wr : Type} `{RW : ResponseWriter Wr} `{WL : !WriterLaws Wr}.

(** C7 A gRPC call is the run of its handler on a stream of messages: the frames of
    the request body, in whatever pieces they arrive, are the messages it receives,
    up to the end of the stream, when the context is not done and each message is five
    bytes or more if there is a statistics handler; the response body is the frames of the messages it
    sent, in order and nothing else; and the status of its outcome is the trailer
    Grpc-Status, with its message as Grpc-Message. *)
Theorem grpc_serves m e r hd codec comp ctx (x : exchange Wr) payloads frames d o :
  grpc_call m e r hd codec comp ctx -> w_up (x_w x) -> lower_metadata (h_handler hd (opts m)) ->
  laws (opts m) codec comp -> told (opts m) payloads -> ctx_errs (tagged m ctx hd) = [] -> Forall (fun c => 0 <= c <= max_int64)%Z (e_caps e) ->
  no_error (req_Body r) -> reader_data (req_Body r) = str_concat frames -> Forall2 (framed (opts m) comp) payloads frames ->
  run (H := ideal_grpc (opts m) codec (tagged m ctx hd)) (h_handler hd (opts m)) (Dialogue false ∅ ∅ payloads []) = (d, o) ->
  (o = Ok tt \/ exists err, o = Err err) ->
  exists x' replies, serveGRPC m e r x = (x', Ok tt) /\
    Forall2 (is_frame comp) (d_out d) replies /\ w_body (x_w x') = (w_body (x_w x) ++ str_concat replies)%string /\
    w_header (x_w x') !! "Grpc-Status" = Some [FormatInt (FromError (returned o))] /\
    (forall err, o = Err err -> status_Message err <> "" ->
       w_header (x_w x') !! "Grpc-Message" = Some [encodeGrpcMessage (status_Message err)]).
Proof using WL.
  intros Hcall Hup Hlow HL Htold Hctx Hcaps Hn Hbody Hfs Hrun Ho.
  set (s0 := grpc_stream_of m e r hd codec comp ctx (x_w x) (grpc_begin m r hd (x_stats x))).
  assert (H0 : in_dialogue (opts m) codec comp (tagged m ctx hd) (w_body (x_w x)) s0 (Dialogue false ∅ ∅ payloads [])).
  { split; try done.
    - split; [done|]. by exists frames.
    - exists []. split; [constructor|]. by rewrite str_app_nil_r. }
  destruct (run_dialogue (opts m) codec comp (tagged m ctx hd) HL (w_body (x_w x)) (h_handler hd (opts m)) s0 _ H0)
    as (s1 & d' & o' & Es & Ed & H1).
  rewrite Hrun in Ed. injection Ed as <- <-.
  assert (Hsent : g_sentHeader s1 = true \/ ctx_errs (g_ctx s1) = []) by (right; apply H1).
  destruct (serveGRPC_run (fun _ => True) m e r hd codec comp ctx x s1 o) as (x' & w & fs & E & Hx & _ & Hb & Hh & Ht); [by split|done..|].
  destruct (status_headers_spec (g_trailer s1) (returned o) (w_header w) Ht) as [Hst Hmsg]. rewrite <-Hh in Hst, Hmsg.
  destruct (id_reply _ _ _ _ _ _ _ H1) as (replies & Hr & Hw).
  exists x', replies. split_and!; [done|done|by rewrite Hx, body_set_headers, Hb|done|]. intros err -> Hne. rewrite Hmsg. cbn [returned].
  by destruct (String.eqb_spec (status_Message err) "").
Qed.
End Call.

(** ** Witness

    A handler that answers each message with itself, compressed. *)

Module SampleChat.
Import SampleGRPC.
Fixpoint chat (n : nat) : @prog plain_proto unit :=
  match n with
  | O => PReturn tt
  | S n => PRecvMsg (message "") (fun m err =>
      match err with
      | Some EOF => PReturn tt
      | Some e => PError e
      | None => PSendMsg m (fun err => on_nil err (chat n))
      end)
  end.
Definition hd : @handler plain_proto :=
  MkHandler 0 (XMethod "pkg.S.Chat" (XMessage "pkg.M" []) (XMessage "pkg.M" []) true true None) (fun _ => chat 5) "/pkg.S/Chat".
Definition opts : @muxOptions plain_proto :=
  MuxOptions (tt : @Types plain_proto) false ([] : @Files plain_proto) None None None ∅ {["text" := codec]} {["gzip" := Some gz]}
    emptySelector [] [] 1000 2147483647 120.
Definition mux : @Mux plain_proto := MkMux opts (Some (State newPath ∅ {["/pkg.S/Chat" := [hd]]})) 1.
Definition frame (e : string) : string := String "001" (PutUint32 (Z.of_nat (String.length e) + 1) ++ String "031" e).
Definition pieces : reader := [Chunk (str_take 7 (frame "hi")) None; Chunk (str_drop 7 (frame "hi") ++ frame "ho") None].
Definition request : Request :=
  MkRequest "POST" "/pkg.S/Chat" ∅ 2 0 {["Content-Type" := ["application/grpc+text"]; "Grpc-Encoding" := ["gzip"]]}
    pieces (-1) "10.0.0.1:80" (MkContext None [] []).
End SampleChat.

Lemma sample_laws : laws SampleChat.opts SampleGRPC.codec (Some SampleGRPC.gz).
Proof.
  split.
  - intros m b. cbn [MarshalAppend SampleGRPC.codec]. destruct (Nat.ltb_spec (String.length (SampleGRPC.text m)) 1000) as [Hl|]; [|discriminate].
    intros [= <-]. exists (SampleGRPC.text m). split; [reflexivity|lia].
  - intros e He. change (maxReceiveMessageSize SampleChat.opts) with 1000%Z in He. exists (String "031" e). split; [unfold compress; simpl; by rewrite str_app_nil_r|].
    split; [cbn [String.length]; lia|]. exists (bytes_reader e). split; [reflexivity|]. unfold ReadFrom, bytes_reader. simpl. by rewrite str_app_nil_r.
Qed.

Lemma sample_frame e : String.length e < 900 -> framed SampleChat.opts (Some SampleGRPC.gz) e (SampleChat.frame e).
Proof.
  intros He. split_and!.
  - unfold SampleChat.frame. replace (Z.of_nat (String.length e) + 1)%Z with (Z.of_nat (String.length (String "031" e))) by (cbn [String.length]; lia).
    apply (frame_compressed _ _ SampleGRPC.gz); [reflexivity|unfold compress; simpl; by rewrite str_app_nil_r|cbn [String.length]; lia].
  - lia.
  - change (maxReceiveMessageSize SampleChat.opts) with 1000%Z. unfold SampleChat.frame. cbn [String.length PutUint32 append]. lia.
  - apply (compressor_keeps _ _ _ sample_laws). change (maxReceiveMessageSize SampleChat.opts) with 1000%Z. lia.
Qed.

Lemma grpc_serves_witness :
  exists x' replies, serveGRPC SampleChat.mux (Env 0 []) SampleChat.request (Exchange new_response None []) = (x', Ok tt) /\
    Forall2 (is_frame (Some SampleGRPC.gz)) ["hi"; "ho"] replies /\ sent_body (x_w x') = str_concat replies /\
    rs_header (x_w x') !! "Grpc-Status" = Some ["0"].
Proof.
  set (ctx := fst (fst (grpc_context SampleChat.request))).
  destruct (grpc_serves SampleChat.mux (Env 0 []) SampleChat.request SampleChat.hd SampleGRPC.codec (Some SampleGRPC.gz) ctx
    (Exchange new_response None []) ["hi"; "ho"] [SampleChat.frame "hi"; SampleChat.frame "ho"]
    (Dialogue true ∅ ∅ [] ["hi"; "ho"]) (Ok tt)) as (x' & replies & E & Hr & Hb & Hs & _).
  - split; try reflexivity. exists (snd (fst (grpc_context SampleChat.request))). reflexivity.
  - split; reflexivity.
  - intros m1 [[]|]; try exact I. intros [e1|]; [exact I|].
    do 4 (intros ? [[]|]; try exact I; intros [?|]; [exact I|]). exact I.
  - exact sample_laws.
  - intros [=].
  - reflexivity.
  - constructor.
  - repeat constructor.
  - reflexivity.
  - repeat constructor; apply sample_frame; cbn; lia.
  - reflexivity.
  - by left.
  - exists x', replies. split; [exact E|]. split; [exact Hr|]. split; [exact Hb|exact Hs].
Defined.
