(* ===== verification/HttpServe.v ===== *)
(** A call over HTTP, unary or streaming, from the request to the response: every
    handler runs on the stream of http.go as on an ideal stream, whose input is the
    list of the messages of the body; the body of the response is what the replies
    are, in their order, and what its status line is depends on whether a reply was
    tried before the handler failed. *)

#[local] Set Warnings "-register-all".
From S2P Require Import Prelude Status Runes IO Http Negotiate Base64 Proto Lexer Params Metadata Compress Codec CodecSpec Selector Stream Framing Routes RouteAdd RouteSearch GrpcStream GrpcSpec Mux MuxSpec HttpStream HttpSpec WsStream Web Serve ServeSpec.

Section Dialogue.
Context `{U : Unicode} `{P : Protoreflect} {M : Messages} `{MA : @Marshaling P} `{R : GoRange} `{F : Fmt} `{GA : GoAppend}
  `{GS : !GrpcStatus} `{MDJ : Metadata} `{WS : WebSocket} `{TW : Twirp} `{ST : StatsTag} `{BR : Base64Reader}.
Local Abbreviation stream := (streamHTTP (W := response)).

(** ** The ideal stream

    Whether the header was sent and the metadata; the encodings of the messages to
    receive, and whether none was received yet; the content type, from the first
    message on; the content type that the response began with; and what was sent. *)
Record dialogue := Dialogue {
  d_sent : bool; d_header : MD; d_trailer : MD;
  d_in : list string; d_fresh : bool;
  d_type : option string; d_begun : option (option string); d_out : list string;
}.

Context (o : muxOptions) (ctx : context) (mt : method) (ps : list param) (contentType accept : string) (with_body : bool).

Definition d_SetHeader (md : MD) : st dialogue error unit := fun d =>
  if d_sent d then (d, Err errAlreadySent)
  else (Dialogue false (Join (d_header d) md) (d_trailer d) (d_in d) (d_fresh d) (d_type d) (d_begun d) (d_out d), Ok tt).

Definition d_SendHeader (md : MD) : st dialogue error unit := fun d =>
  if d_sent d then (d, Err errAlreadySent)
  else (Dialogue true (Join (d_header d) md) (d_trailer d) (d_in d) (d_fresh d) (d_type d) (d_begun d) (d_out d), Ok tt).

Definition d_SetTrailer (md : MD) (d : dialogue) : dialogue :=
  Dialogue (d_sent d) (d_header d) (Join (d_trailer d) md) (d_in d) (d_fresh d) (d_type d) (d_begun d) (d_out d).

(** The first message settles the content type, and sends the metadata. *)
Definition d_open (ct : string) (d : dialogue) : dialogue :=
  match d_type d with
  | Some _ => d
  | None => Dialogue true (if d_sent d then d_header d else Join (d_header d) ∅) (d_trailer d) (d_in d) (d_fresh d)
              (Some ct) (d_begun d) (d_out d)
  end.

Definition d_begin (d : dialogue) : dialogue :=
  Dialogue (d_sent d) (d_header d) (d_trailer d) (d_in d) (d_fresh d) (d_type d)
    (Some (default (d_type d) (d_begun d))) (d_out d).

Definition d_set_out (ws : list string) (d : dialogue) : dialogue :=
  Dialogue (d_sent d) (d_header d) (d_trailer d) (d_in d) (d_fresh d) (d_type d) (d_begun d) ws.

(** A message on the wire: the frame of the codec, or all of its bytes. *)
Definition reply_writes (c : Codec) (b : string) : st (list string) error unit :=
  if IsStreamingServer (desc mt) then
    sc ← stream_codec c;
    run_writes list_Write (WriteNext sc b);; mret tt
  else writeAll o list_Write b.

(** The part of a reply that the rule names, its encoding, and its content type. *)
Definition encoded (m : Message) : go (Codec * string * string) :=
  cur ← snd (mutable_path (resp mt) m);
  c ← getCodec o accept cur;
  '(b, ct) ← encode_reply cur c accept;
  Ok (c, b, ct).

(** [SendMsg] begins the response also when it fails. *)
Definition d_SendMsg (m : Message) : st dialogue error unit := fun d =>
  match encoded m with
  | Ok (c, b, ct) =>
      let d := d_open ct d in
      let '(ws, r) := reply_writes c b (d_out d) in (d_begin (d_set_out ws d), r)
  | Err e => (d_begin d, Err e)
  | Panic q => (d_begin d, Panic q)
  | OutOfFuel => (d_begin d, OutOfFuel)
  end.

(** The next message, decoded into the part that the rule names, or nothing for a
    request or a rule without body; the parameters are set in the first. *)
Definition d_RecvMsg : st (dialogue * Message) error unit := fun '(d, m) =>
  let next es := Dialogue (d_sent d) (d_header d) (d_trailer d) es false (d_type d) (d_begun d) (d_out d) in
  let ps := if d_fresh d then ps else [] in
  if hasBody mt && with_body then
    match mutable_path (body mt) m with
    | (m, Ok cur) =>
        match getCodec o contentType cur, d_in d with
        | Ok c, [] => ((d, m), Err EOF)
        | Ok c, e :: es => let '(m, r) := receive_into mt c contentType ps e m in ((next es, m), r)
        | Err e, _ => ((d, m), Err e)
        | Panic q, _ => ((d, m), Panic q)
        | OutOfFuel, _ => ((d, m), OutOfFuel)
        end
    | (m, Err e) => ((d, m), Err e)
    | (m, Panic q) => ((d, m), Panic q)
    | (m, OutOfFuel) => ((d, m), OutOfFuel)
    end
  else
    match d_in d with
    | [] => ((d, m), Err EOF)
    | _ :: es => let '(m, r) := (if d_fresh d then params_set ps m else (m, Ok tt)) in ((next es, m), r)
    end.

Definition ideal_http : ServerStream dialogue := {|
  Context_ _ := ctx;
  SetHeader := d_SetHeader;
  SendHeader := d_SendHeader;
  SetTrailer := d_SetTrailer;
  SendMsg := d_SendMsg;
  RecvMsg := d_RecvMsg;
|}.

(** ** The simulation *)

(** What the body of a request holds for [RecvMsg]: all of it for a unary method; the
    frames of a client stream, and one more message of no bytes; for no body, one
    message. *)
Definition frame_sequence (c : Codec) (data : string) (es : list string) : Prop :=
  (0 < maxReceiveMessageSize o)%Z /\ exists sc (FR : Framing sc), streaming c = Some sc /\ data = frames sc es /\
    Forall (fun e => framed e /\ (Z.of_nat (String.length e) <= maxReceiveMessageSize o)%Z) es.

Context (codec : Codec).

Definition body_messages (data : string) (es : list string) : Prop :=
  if hasBody mt && with_body then
    if IsStreamingClient (desc mt) then exists fs, es = fs ++ [""] /\ frame_sequence codec data fs
    else es = [data] /\ (Z.of_nat (String.length data) <= maxReceiveMessageSize o)%Z
  else es = [""].

(** A handler that receives a client stream into messages of one codec. *)
Definition received_by_codec (m : Message) : Prop :=
  IsStreamingClient (desc mt) = true -> forall cur c, snd (mutable_path (body mt) m) = Ok cur ->
    getCodec o contentType cur = Ok c -> c = codec.

(** The response: the content type that was settled, the one that it began with, and
    what was written, on a writer with [base] before. *)
Context (base : list wevent).

Definition begins (w : response) (t : option (option string)) : Prop :=
  match t with
  | None => rs_sent w = false /\ rs_events w = base
  | Some t => rs_sent w = true /\ exists h evs, rs_events w = base ++ EvHeader 200 h :: evs /\
      forall ct, t = Some ct -> h !! "Content-Type" = Some [ct]
  end.

Record writer_at (w : response) (ty : option string) (t : option (option string)) (body : string) : Prop := {
  wa_up : w_up w;
  wa_type ct : ty = Some ct -> rs_header w !! "Content-Type" = Some [ct];
  wa_begun : begins w t;
  wa_body : sent_body w = (str_concat (event_body <$> base) ++ body)%string;
}.

Lemma writer_emit ev w ty t body :
  writer_at w ty t body -> writer_at (rs_emit ev (send_header w)) ty (Some (default ty t)) (body ++ event_body ev).
Proof.
  intros [[Ha Hf] Hty Ht Hb]. split.
  - split; cbn; [by rewrite send_header_answers|by rewrite send_header_flusher].
  - intros ct E. cbn. unfold send_header, WriteHeader. cbn. destruct (rs_sent w); by apply Hty.
  - destruct t as [t|]; cbn [default] in *.
    + destruct Ht as (Hs & h & evs & E & Hct). cbn. split; [by rewrite send_header_sent|].
      exists h, (evs ++ [ev]). split; [|done]. unfold send_header, WriteHeader. cbn. rewrite Hs. cbn. by rewrite E, <-app_assoc.
    + destruct Ht as (Hs & E). cbn. split; [by rewrite send_header_sent|]. unfold send_header, WriteHeader. cbn. rewrite Hs. cbn.
      exists (rs_header w), [ev]. by rewrite E, <-app_assoc.
  - by rewrite sent_body_emit, send_header_body, Hb, str_app_assoc.
Qed.

Lemma writer_set_header f w ty ty' t body :
  (forall ct, ty' = Some ct -> f (rs_header w) !! "Content-Type" = Some [ct]) ->
  writer_at w ty t body -> writer_at (rs_set_header f w) ty' t body.
Proof. by intros Hf []. Qed.

(** What is still to read. *)
Definition pending (s : stream) : string :=
  if IsStreamingClient (desc mt) then unread s else reader_data (h_r s).

Definition request_at (s : stream) (es : list string) (fresh : bool) : Prop :=
  (0 <= h_recvCount s)%Z /\ fresh = (h_recvCount s =? 0)%Z /\
  if h_rEOF s then es = [] /\ fresh = false
  else (hasBody mt && with_body = true -> no_error (h_r s)) /\ body_messages (pending s) es.

Record in_dialogue (s : stream) (d : dialogue) : Prop := {
  id_opts : h_opts s = o;
  id_ctx : h_ctx s = ctx;
  id_meth : h_meth s = mt;
  id_params : h_params s = ps;
  id_contentType : h_contentType s = contentType;
  id_accept : h_accept s = accept;
  id_hasBody : h_hasBody s = with_body;
  id_comp : h_comp s = None;
  id_sent : h_sentHeader s = d_sent d;
  id_header : h_header s = d_header d /\ lower_keys (d_header d);
  id_trailer : h_trailer s = d_trailer d /\ lower_keys (d_trailer d);
  id_count : (0 <= h_sendCount s)%Z /\ (h_sendCount s =? 0)%Z = match d_type d with Some _ => false | None => true end;
  id_opened : is_Some (d_type d) -> d_sent d = true;
  id_writer : writer_at (h_w s) (d_type d) (d_begun d) (str_concat (d_out d));
  id_request : request_at s (d_in d) (d_fresh d);
}.
Local Abbreviation sim := in_dialogue.

Lemma http_sim_SetHeader md : lower_keys md -> simulates sim (same_result sim) (http_SetHeader md) (d_SetHeader md).
Proof.
  intros Hmd s d H. unfold http_SetHeader, d_SetHeader. rewrite (id_sent _ _ H). destruct (d_sent d) eqn:E; [by split|]. split; [|done].
  destruct s, H as [? ? ? ? ? ? ? ? ? [? ?] ? ? Ho ? ?]. split; cbn in *; try done; try congruence.
  - split; [by f_equal|by apply lower_keys_Join].
  - intros Ht. by rewrite (Ho Ht) in E.
Qed.

Lemma http_sim_SetTrailer md : lower_keys md -> simulates sim sim (http_SetTrailer md) (d_SetTrailer md).
Proof.
  intros Hmd s d H. destruct s, H as [? ? ? ? ? ? ? ? ? ? [? ?] ? ? ? ?]. split; cbn in *; try done.
  split; [by f_equal|by apply lower_keys_Join].
Qed.

(** The statistics are not looked at. *)
Lemma sim_stats sts s d : sim s d -> sim (h_set_stats sts s) d.
Proof. intros H. destruct s, H. by split. Qed.

Lemma sim_stat x s d : sim s d -> sim (h_stat x s) d.
Proof. intros H. destruct (h_stat_stats x s) as [sts ->]. by apply sim_stats. Qed.

Lemma http_sim_SendHeader md : lower_keys md -> simulates sim (same_result sim) (http_SendHeader md) (d_SendHeader md).
Proof.
  intros Hmd s d H. unfold http_SendHeader, d_SendHeader. rewrite (id_sent _ _ H). destruct (d_sent d) eqn:E; [by split|].
  split; [|done]. cbn [fst]. apply sim_stat. destruct s, H as [? ? ? ? ? ? ? ? ? [? ?] ? ? Ho Hw ?]. split; cbn in *; try done.
  - subst. split; [done|by apply lower_keys_Join].
  - eapply writer_set_header; [|exact Hw]. intros ct Hct. specialize (Ho (ex_intro _ ct Hct)). congruence.
Qed.

(** The first message. *)
Lemma open_run ct s d : sim s d ->
  exists s1, ((if (h_sendCount s =? 0)%Z then
     modify (fun s => h_set_w (w_set_header (header_Set "Content-Type" ct) (h_w s)) s);;
     if h_sentHeader s then mret tt else http_SendHeader ∅
   else mret tt);; modify (fun s => h_set_sendCount (h_sendCount s + 1) s)) s = (s1, Ok tt) /\ sim s1 (d_open ct d).
Proof.
  intros H. pose proof (id_count _ _ H) as [Hpos Hn]. rewrite Hn. unfold d_open.
  assert (Hset : forall ct' : string, writer_at (rs_set_header (header_Set "Content-Type" ct) (h_w s)) (Some ct) (d_begun d) (str_concat (d_out d))).
  { intros _. eapply writer_set_header; [|apply (id_writer _ _ H)]. intros ? [= <-]. apply lookup_insert_eq. }
  specialize (Hset ct). destruct (d_type d) as [ty|] eqn:Ety.
  - eexists. split; [reflexivity|]. destruct s, H as [? ? ? ? ? ? ? ? ? ? ? [? ?] ? ? ?]. split; cbn in *; try done; rewrite Ety.
    split; [lia|]. apply Z.eqb_neq. lia.
  - rewrite (id_sent _ _ H). destruct (d_sent d) eqn:Es.
    + eexists. split; [reflexivity|]. destruct s, H as [? ? ? ? ? ? ? ? ? ? ? [? ?] ? ? ?]. split; cbn in *; try done; try congruence.
      split; [lia|]. apply Z.eqb_neq. lia.
    + set (s0 := h_set_w (w_set_header (header_Set "Content-Type" ct) (h_w s)) s).
      assert (Hs0 : h_sentHeader s0 = false) by (pose proof (id_sent _ _ H) as E; rewrite Es in E; by destruct s).
      assert (E : exists sts, (modify (fun s => h_set_w (w_set_header (header_Set "Content-Type" ct) (h_w s)) s);; http_SendHeader ∅) s =
        (h_set_stats sts (h_set_sentHeader true (h_set_w (w_set_header (setOutgoingHeader (Join (h_header s) ∅)) (h_w s0))
          (h_set_header (Join (h_header s) ∅) s0))), Ok tt)).
      { rewrite bind_modify. fold s0. unfold http_SendHeader. rewrite Hs0. match goal with |- context [h_stat ?x ?y] => destruct (h_stat_stats x y) as [sts ->] end.
        exists sts. by destruct s. }
      destruct E as [sts E]. rewrite (st_bind_run _ _ _ _ _ E).
      eexists. split; [reflexivity|]. destruct s, H as [? ? ? ? ? ? ? ? ? [? ?] ? [? ?] ? ? ?]. split; cbn in *; try done; try congruence.
      * subst. split; [done|]. by apply lower_keys_Join, lower_keys_empty.
      * split; [lia|]. apply Z.eqb_neq. lia.
      * eapply writer_set_header; [|exact Hset]. intros ? [= <-].
        rewrite setOutgoingHeader_reserved; [apply lookup_insert_eq| |done]. subst. by apply lower_keys_Join, lower_keys_empty.
Qed.

Lemma d_begin_twice d : d_begin (d_begin d) = d_begin d.
Proof. by destruct d as [? ? ? ? ? ? [] ?]. Qed.

Lemma d_begin_out ws d : d_begin (d_set_out ws d) = d_set_out ws (d_begin d).
Proof. done. Qed.

(** A write, and the flush. *)
Lemma sim_Write b s d : sim s d ->
  exists s', http_Write b s = (s', Ok (String.length b)) /\ sim s' (d_begin (d_set_out (d_out d ++ [b]) d)).
Proof.
  intros H. rewrite http_Write_plain; [|apply H|apply (wa_up _ _ _ _ (id_writer _ _ H))].
  eexists. split; [reflexivity|]. pose proof (writer_emit (EvBody b) _ _ _ _ (id_writer _ _ H)) as Hw.
  destruct s, H. split; cbn in *; try done. rewrite str_concat_app. cbn. by rewrite str_app_nil_r.
Qed.

Lemma sim_flush s d : sim s d -> sim (http_flush s) (d_begin d).
Proof.
  intros H. unfold http_flush. rewrite (id_comp _ _ H).
  assert (Hf : w_is_flusher (h_w s) = true) by apply (wa_up _ _ _ _ (id_writer _ _ H)). rewrite Hf.
  pose proof (writer_emit EvFlush _ _ _ _ (id_writer _ _ H)) as Hw. cbn [event_body] in Hw. rewrite str_app_nil_r in Hw.
  destruct s, H. by split.
Qed.

(** All writes of a message. *)
Definition writing (d : dialogue) (s : stream) (ws : list string) : Prop :=
  sim s (d_set_out ws d) \/ sim s (d_begin (d_set_out ws d)).

Lemma writing_Write d b s ws : writing d s ws -> exists s', http_Write b s = (s', Ok (String.length b)) /\ writing d s' (ws ++ [b]).
Proof.
  intros [H|H]; destruct (sim_Write b _ _ H) as (s' & E & H'); exists s'; (split; [exact E|]); right; [exact H'|].
  cbn [d_out d_begin d_set_out] in H'. by rewrite d_begin_out, d_begin_twice in H'.
Qed.

Lemma writing_reply c b (n : Z) s d : sim s d ->
  exists s' ws r, (if IsStreamingServer (desc mt) then sc ← stream_codec c; run_writes http_Write (WriteNext sc b);; mret n
    else writeAll o http_Write b;; mret n) s = (s', _ ← r; Ok n) /\ reply_writes c b (d_out d) = (ws, r) /\ writing d s' ws.
Proof.
  intros H. assert (H0 : writing d s (d_out d)) by (left; by destruct d). unfold reply_writes, stream_codec. destruct (IsStreamingServer (desc mt)).
  - destruct (streaming c) as [sc|]; [|by exists s, (d_out d), (Panic NilDereference)].
    destruct (run_writes_list (writing d) http_Write (fun b => writing_Write d b) (WriteNext sc b) s (d_out d) H0)
      as (s' & ws & r & E1 & E2 & H').
    exists s', ws, (_ ← r; Ok tt). rewrite (st_bind_run _ _ s s sc eq_refl), (st_bind_run _ _ (d_out d) (d_out d) sc eq_refl).
    unfold mbind, st_bind. rewrite E1, E2. by destruct r.
  - unfold writeAll. destruct (maxSendMessageSize o <? _)%Z.
    { exists s, (d_out d). eexists (Err _). by split_and!. }
    destruct (writing_Write d b s _ H0) as (s' & E & H'). exists s', (d_out d ++ [b]), (Ok tt).
    rewrite st_bind_assoc, (st_bind_run _ _ _ _ _ E). unfold list_Write, mbind, st_bind. by rewrite Nat.eqb_refl.
Qed.

Lemma writeMsg_run c b ct s d : sim s d ->
  exists s' ws r, writeMsg c b ct s = (s', _ ← r; Ok (h_sendCount s)) /\
    reply_writes c b (d_out (d_open ct d)) = (ws, r) /\ writing (d_open ct d) s' ws.
Proof.
  intros H. unfold writeMsg. rewrite bind_get. destruct (open_run ct s d H) as (s1 & E1 & H1).
  rewrite <-st_bind_assoc. rewrite (st_bind_run _ _ _ _ _ E1). rewrite (id_meth _ _ H), (id_opts _ _ H).
  by apply writing_reply.
Qed.

Lemma send_reply_run m s d : sim s d ->
  exists s' d' r, send_reply m s = (s', r) /\ sim s' d' /\ d_SendMsg m d = (d_begin d', r).
Proof.
  intros H. unfold send_reply, d_SendMsg, encoded. rewrite bind_get, (id_meth _ _ H), (id_opts _ _ H), (id_accept _ _ H).
  unfold from_message, mbind, st_bind, outcome_bind. destruct (mutable_path (resp mt) m) as [m' [cur|e|q|]]; cbn [snd]; [|by exists s, d; eexists..].
  unfold lift at 1. destruct (getCodec o accept cur) as [c|e|q|]; [|by exists s, d; eexists..].
  unfold lift. destruct (encode_reply cur c accept) as [[b ct]|e|q|]; [|by exists s, d; eexists..].
  destruct (writeMsg_run c b ct s d H) as (s1 & ws & r & E & Er & Hw). rewrite E, Er.
  destruct Hw as [Hw|Hw].
  - destruct r as [[]|e|q|]; (eexists _, (d_set_out ws (d_open ct d)), _; split; [reflexivity|]; split; [|reflexivity]); try exact Hw.
    by apply sim_stat.
  - assert (E2 : d_begin (d_begin (d_set_out ws (d_open ct d))) = d_begin (d_set_out ws (d_open ct d))) by apply d_begin_twice.
    destruct r as [[]|e|q|]; (eexists _, (d_begin (d_set_out ws (d_open ct d))), _; split; [reflexivity|]; split; [|by rewrite E2]); try exact Hw.
    by apply sim_stat.
Qed.

Lemma http_sim_SendMsg m : simulates sim (same_result sim) (http_SendMsg m) (d_SendMsg m).
Proof.
  intros s d H. unfold http_SendMsg. destruct (send_reply_run m s d H) as (s' & d' & r & -> & H' & ->).
  split; [by apply sim_flush|done].
Qed.

(** *** Receiving *)

Lemma on_args_fail {A B} (f : st Message error A) (k : A -> st (stream * Message) error B) (s : stream) m m' (r : go A) (r' : go B) :
  f m = (m', r) -> (match r with Ok _ => False | Err e => r' = Err e | Panic q => r' = Panic q | OutOfFuel => r' = OutOfFuel end) ->
  (on_args f ≫= k) (s, m) = ((s, m'), r').
Proof. intros E Hr. unfold mbind, st_bind, on_args. rewrite E. by destruct r; subst. Qed.

(** A call that fails before it reads leaves the stream alone. *)
Lemma RecvMsg_refused (s : stream) m :
  hasBody (h_meth s) && h_hasBody s = true ->
  match mutable_path (body (h_meth s)) m with
  | (m1, Ok cur) =>
      match getCodec (h_opts s) (h_contentType s) cur with
      | Ok _ => True
      | Err e => http_RecvMsg (s, m) = ((s, m1), Err e)
      | Panic q => http_RecvMsg (s, m) = ((s, m1), Panic q)
      | OutOfFuel => http_RecvMsg (s, m) = ((s, m1), OutOfFuel)
      end
  | (m1, Err e) => http_RecvMsg (s, m) = ((s, m1), Err e)
  | (m1, Panic q) => http_RecvMsg (s, m) = ((s, m1), Panic q)
  | (m1, OutOfFuel) => http_RecvMsg (s, m) = ((s, m1), OutOfFuel)
  end.
Proof.
  intros Hb. unfold http_RecvMsg. rewrite bind_get, Hb. unfold decodeRequestArgs.
  rewrite st_bind_assoc, bind_get, st_bind_assoc.
  destruct (mutable_path (body (h_meth s)) m) as [m1 [cur|e|q|]] eqn:Em; [|by eapply on_args_fail..].
  rewrite (st_bind_run _ _ _ _ _ (on_args_run _ s _ _ _ Em)), st_bind_assoc.
  by destruct (getCodec (h_opts s) (h_contentType s) cur).
Qed.

(** What receiving leaves alone. *)
Lemma sim_received (s s' : stream) d es fresh : sim s d -> same_request s s' -> same_reply s s' -> request_at s' es fresh ->
  sim s' (Dialogue (d_sent d) (d_header d) (d_trailer d) es fresh (d_type d) (d_begun d) (d_out d)).
Proof.
  intros H (Ho & Hm & Hct & Hps & Hb) (Hw & Hcz & Hh & Htr & Hn & Hsh & _ & _ & Ha & Hctx) Hr.
  destruct H. split; cbn; rewrite ?Ho, ?Hm, ?Hct, ?Hps, ?Hb, ?Hw, ?Hcz, ?Hh, ?Htr, ?Hn, ?Hsh, ?Ha, ?Hctx; try done.
Qed.

(** The next message of a body. *)
Lemma readMsg_next (s : stream) d c e es :
  sim s d -> hasBody mt && with_body = true -> d_in d = e :: es -> (IsStreamingClient (desc mt) = true -> c = codec) ->
  exists s', readMsg c s = (s', Ok (h_recvCount s, e)) /\ same_request s s' /\ request_at s' es false.
Proof.
  intros H Hb Hin Hc. pose proof (id_request _ _ H) as (Hn & Hf & Hr). pose proof (id_meth _ _ H) as Hm. pose proof (id_opts _ _ H) as Ho.
  destruct (h_rEOF s) eqn:He; [destruct Hr as [Hr _]; by rewrite Hin in Hr|]. destruct Hr as [Hne Hmsgs]. specialize (Hne Hb).
  unfold body_messages, pending in Hmsgs. rewrite Hb in Hmsgs. destruct (IsStreamingClient (desc mt)) eqn:Hst.
  - rewrite Hc by done. destruct Hmsgs as (fs & Hfs & Hmax & sc & FR & Hsc & Hun & Hall). rewrite Hin in Hfs.
    destruct fs as [|f fs].
    + injection Hfs as -> ->. destruct (readMsg_end codec sc Hsc s) as (s' & E & Hsame & Heof & Hcnt); [by rewrite Hm|done|done|by rewrite Ho|done|].
      exists s'. split_and!; [done|done|]. unfold request_at. rewrite Heof, Hcnt. split_and!; [lia|symmetry; apply Z.eqb_neq; lia|done|done].
    + injection Hfs as <- ->. apply Forall_cons in Hall as [[Hf1 Hl1] Hall].
      destruct (readMsg_frame codec sc Hsc s e (frames sc fs)) as (s' & E & Hsame & Hcnt & Heof & Hn' & Hun'); [by rewrite Hm|done|done|done|by rewrite Ho|done|].
      exists s'. split_and!; [done|done|]. unfold request_at. rewrite Heof, Hcnt. split_and!; [lia|symmetry; apply Z.eqb_neq; lia|done|].
      unfold body_messages, pending. rewrite Hb, Hst. exists fs. split; [done|]. split; [done|]. by exists sc, FR.
  - destruct Hmsgs as [Hes Hl]. rewrite Hin in Hes. injection Hes as -> ->.
    destruct (readMsg_unary s c) as (s' & Hsame & Hs'); [by rewrite Hm|done|done|]. rewrite Ho in Hs'.
    destruct (Z.ltb_spec (maxReceiveMessageSize o) (Z.of_nat (String.length (reader_data (h_r s))))); [lia|].
    destruct Hs' as (E & Heof & Hcnt). exists s'. split_and!; [done|done|]. unfold request_at. rewrite Heof, Hcnt.
    split_and!; [lia|symmetry; apply Z.eqb_neq; lia|done|done].
Qed.

Lemma request_at_stats sts (s : stream) es fresh : request_at s es fresh -> request_at (h_set_stats sts s) es fresh.
Proof. by destruct s. Qed.

Lemma same_request_stats sts (s s' : stream) : same_request s s' -> same_request s (h_set_stats sts s').
Proof. by destruct s'. Qed.

Lemma same_reply_stats sts (s s' : stream) : same_reply s s' -> same_reply s (h_set_stats sts s').
Proof. by destruct s'. Qed.

(** A message of a request without body. *)
Lemma RecvMsg_no_body (s : stream) d m : sim s d -> hasBody mt && with_body = false ->
  same_receipt sim (http_RecvMsg (s, m)) (d_RecvMsg (d, m)).
Proof.
  intros H Hb. unfold http_RecvMsg, d_RecvMsg. rewrite bind_get, (id_meth _ _ H), (id_hasBody _ _ H), Hb.
  pose proof (id_request _ _ H) as (Hn & Hf & Hr). pose proof (id_params _ _ H) as Hps.
  set (s1 := h_set_recvCount (h_recvCount s + 1) s).
  assert (H1 : on_stream no_body (s, m) = if h_rEOF s then ((s1, m), Err EOF) else ((h_set_rEOF true s1, m), Ok (h_recvCount s)))
    by (unfold on_stream, no_body; destruct s as [? ? ? ? ? ? ? ? ? ? ? ? ? ? ? ? ? [] ? ?]; done).
  destruct (h_rEOF s) eqn:He.
  - rewrite (st_bind_err _ _ _ _ _ H1). destruct Hr as [Hin Hfresh]. rewrite Hin. split_and!; [|done|done]. cbn [fst].
    assert (H2 : request_at s1 (d_in d) (d_fresh d)).
    { unfold request_at. replace (h_rEOF s1) with true by (by destruct s). replace (h_recvCount s1) with (h_recvCount s + 1)%Z by (by destruct s).
      rewrite Hfresh in Hf |- *. split_and!; [lia| |done|done]. symmetry. apply Z.eqb_neq. lia. }
    apply (sim_received s s1 d) in H2; [|exact H|by destruct s|by destruct s]. by destruct d.
  - destruct Hr as [_ Hmsgs]. unfold body_messages in Hmsgs. rewrite Hb in Hmsgs. rewrite Hmsgs.
    rewrite (st_bind_run _ _ _ _ _ H1), <-Hf, <-Hps.
    assert (H2 : request_at (h_set_rEOF true s1) [] false).
    { unfold request_at. replace (h_rEOF (h_set_rEOF true s1)) with true by (by destruct s).
      replace (h_recvCount (h_set_rEOF true s1)) with (h_recvCount s + 1)%Z by (by destruct s).
      split_and!; [lia| |done|done]. symmetry. apply Z.eqb_neq. lia. }
    apply (sim_received s _ d) in H2; [|exact H|by destruct s|by destruct s].
    destruct (d_fresh d); [|by split_and!]. unfold on_args. replace (h_params (h_set_rEOF true s1)) with (h_params s) by (by destruct s).
    destruct (params_set (h_params s) m) as [m' r]. by split_and!.
Qed.

Lemma http_sim_RecvMsg m : received_by_codec m ->
  simulates sim (same_receipt sim) (fun s : stream => http_RecvMsg (s, m)) (fun d => d_RecvMsg (d, m)).
Proof.
  intros Hcodec s d H. destruct (hasBody mt && with_body) eqn:Hb; [|by apply RecvMsg_no_body].
  assert (Hb' : hasBody (h_meth s) && h_hasBody s = true) by (by rewrite (id_meth _ _ H), (id_hasBody _ _ H)).
  pose proof (RecvMsg_refused s m Hb') as Href. pose proof (id_request _ _ H) as (Hn & Hf & Hr).
  unfold d_RecvMsg. rewrite Hb. unfold received_by_codec in Hcodec.
  rewrite (id_meth _ _ H), (id_opts _ _ H), (id_contentType _ _ H) in Href.
  destruct (mutable_path (body mt) m) as [m1 [cur|e|q|]] eqn:Em; [|by rewrite Href..].
  destruct (getCodec o contentType cur) as [c|e|q|] eqn:Ec; [|by rewrite Href..]. clear Href.
  destruct (d_in d) as [|e es] eqn:Hin.
  - assert (He : h_rEOF s = true).
    { destruct (h_rEOF s); [done|]. destruct Hr as [_ Hr]. unfold body_messages in Hr. rewrite Hb in Hr.
      destruct (IsStreamingClient (desc mt)); [|by destruct Hr]. destruct Hr as (fs & Hfs & _). by destruct fs. }
    rewrite (http_RecvMsg_err s s m m1 cur c EOF Hb'); [by split_and!| | |].
    + by rewrite (id_meth _ _ H).
    + by rewrite (id_opts _ _ H), (id_contentType _ _ H).
    + unfold readMsg. by rewrite bind_get, He.
  - destruct (readMsg_next s d c e es H Hb Hin) as (s' & E & Hsame & Hreq); [intros Hst; by apply (Hcodec Hst cur)|].
    assert (Hps : (if d_fresh d then ps else []) = if (h_recvCount s =? 0)%Z then h_params s else []) by (by rewrite Hf, (id_params _ _ H)).
    destruct (receive_into mt c contentType (if d_fresh d then ps else []) e m1) as [m2 r] eqn:Ein.
    destruct (http_RecvMsg_run s s' m m1 cur c (h_recvCount s) e m2 r Hb') as [sts E2].
    + by rewrite (id_meth _ _ H).
    + by rewrite (id_opts _ _ H), (id_contentType _ _ H).
    + exact E.
    + by rewrite <-Hps, (id_meth _ _ H), (id_contentType _ _ H).
    + rewrite E2. split_and!; [|done|done]. cbn [fst]. apply (sim_received s); [exact H|by apply same_request_stats| |by apply request_at_stats].
      by eapply http_RecvMsg_reply.
Qed.

(** Every handler does the same on both. *)
Lemma http_run_dialogue {A} (p : prog A) s d : sim s d -> calls_within lower_keys received_by_codec p ->
  exists s' d' r, run p s = (s', r) /\ run (H := ideal_http) p d = (d', r) /\ sim s' d'.
Proof.
  intros H Hp. pose proof (run_simulation_within (SS' := ideal_http) sim lower_keys received_by_codec) as Hs.
  destruct (Hs (fun s d H => id_ctx s d H) http_sim_SetHeader http_sim_SendHeader http_sim_SetTrailer http_sim_SendMsg http_sim_RecvMsg A p Hp s d H) as [H1 H2].
  destruct (run p s) as [s' r], (run p d) as [d' r']. cbn in *. subst r'. by exists s', d', r.
Qed.

(** The writes of a reply on a stream are the frame of its encoding. *)
Lemma reply_frame c sc `{FR : !Framing sc} b ws :
  IsStreamingServer (desc mt) = true -> streaming c = Some sc -> framed b ->
  exists ws', reply_writes c b ws = (ws ++ ws', Ok tt) /\ str_concat ws' = frame b.
Proof.
  intros Hst Hsc Hf. unfold reply_writes, stream_codec. rewrite Hst, Hsc, (st_bind_run _ _ ws ws sc eq_refl).
  destruct (run_writes_list (fun t l => exists l', l = ws ++ l' /\ t = str_concat l') buffer_Write) with (p := WriteNext sc b) (t := "") (ws := ws)
    as (t & ws1 & r & E1 & E2 & ws' & -> & Ht).
  - intros b' t l (l' & -> & ->). eexists. split; [reflexivity|]. exists (l' ++ [b']). split; [by rewrite app_assoc|].
    rewrite str_concat_app. cbn. by rewrite str_app_nil_r.
  - exists []. by rewrite app_nil_r.
  - destruct (frame_write b "" Hf) as [Hw Hok]. rewrite E1 in Hw, Hok. cbn in Hw, Hok. unfold mbind, st_bind. rewrite E2.
    destruct r as [n|e|q|]; try done. exists ws'. split; [done|]. by rewrite <-Ht.
Qed.
End Dialogue.

(** ** The call *)

Section Call.
Context `{U : Unicode} `{P : Protoreflect} {M : Messages} `{MA : @Marshaling P} `{R : GoRange} `{F : Fmt} `{GA : GoAppend}
  `{GS : !GrpcStatus} `{MDJ : Metadata} `{WS : WebSocket} `{TW : Twirp} `{ST : StatsTag} `{BR : Base64Reader}.

(** A response from [w] on: its status, its content type when there is one, its body. *)
Definition answered (w w' : response) (status : Z) (ct : option string) (body : string) : Prop :=
  (exists h evs, rs_events w' = rs_events w ++ EvHeader status h :: evs /\ forall t, ct = Some t -> h !! "Content-Type" = Some [t]) /\
  sent_body w' = (sent_body w ++ body)%string.

(** An error after the header was sent: only its bytes are added. *)
Lemma encError_late m r r' err (w : response) st accept b :
  req_Header r' = req_Header r -> error_bytes m r err st accept b -> rs_answers w = [] -> rs_sent w = true ->
  exists w', encError m r' err w = (w', Ok tt) /\ rs_events w' = rs_events w ++ [EvBody b].
Proof.
  intros Hr (Ht & Hn & Hc & c & Hl & Hm) Ha Hs. destruct w as [h sent evs answers fl]. cbn in Ha, Hs. subst answers sent.
  set (w := Response h true evs [] fl). unfold encError. rewrite Hr, Ht. cbn [String.eqb negb]. rewrite Hn, (st_bind_run _ _ w w accept eq_refl), bind_modify.
  set (w1 := w_set_header _ w). rewrite Hc, (st_bind_run _ _ w1 w1 st eq_refl).
  pose proof (HTTPStatusCode_range _ _ Hc) as Hst.
  assert (Hw : w_WriteHeader st w1 = (w1, Ok tt)).
  { unfold w_WriteHeader, response_writer, WriteHeader. destruct (Z.ltb_spec st 100), (Z.ltb_spec 999 st); try lia. done. }
  rewrite (st_bind_run _ _ _ _ _ Hw), Hl, (st_bind_run _ _ w1 w1 b) by (unfold must; by rewrite Hm).
  eexists. by split.
Qed.

(** After the handler: the header map is set, and the error of the handler is sent. *)
Lemma finish_http_run m r (s : streamHTTP (W := response)) herr (x : exchange response) :
  exists f sts, finish_http m r s herr x =
    match herr with
    | None => (Exchange (rs_set_header f (x_w x)) (x_conn x) sts, Ok tt)
    | Some e => let '(w, o) := encError m r e (rs_set_header f (x_w x)) in (Exchange w (x_conn x) sts, o)
    end.
Proof.
  assert (E : forall w : response, rs_set_header (fun h => h) w = w) by (by intros []).
  unfold finish_http, tell. destruct (statsHandler (opts m)), herr as [e|].
  - destruct (h_sentHeader s).
    + by exists (setOutgoingHeader (h_trailer s)), (x_stats x ++ end_stats (h_trailer s) (Some e)).
    + by exists (fun h => header_Set "Content-Encoding" "identity" (setOutgoingHeader (h_trailer s) h)), (x_stats x ++ end_stats (h_trailer s) (Some e)).
  - by exists (setOutgoingHeader (h_trailer s)), (x_stats x ++ end_stats (h_trailer s) None).
  - destruct (h_sentHeader s).
    + exists (fun h => h), (x_stats x). rewrite E. by destruct x.
    + exists (header_Set "Content-Encoding" "identity"), (x_stats x). by destruct x.
  - exists (fun h => h), (x_stats x). rewrite E. by destruct x.
Qed.

(** C8 A call over HTTP, unary or of any streaming kind, is the run of its handler on
    an ideal stream: the body of the request is the messages it receives, in
    whatever pieces it arrives, and the body of the response is the messages that it
    sent, in order.  The response begins, with status 200 and the content type of
    the first message, when the handler first tries to send one; the error of a
    handler that fails before is the response, with its own status, and the error of
    one that fails later is added to the body, where the status is 200. *)
Theorem http_serves m e up r (x : exchange response) mt ps hd accept codec es d o :
  http_call m e r mt ps hd accept -> rs_answers (x_w x) = [] -> rs_flusher (x_w x) = true -> rs_sent (x_w x) = false ->
  calls_within lower_keys (received_by_codec (opts m) mt (content_type r) codec) (h_handler hd (opts m)) ->
  no_error (req_Body r) -> body_messages (opts m) mt (has_body r) codec (reader_data (req_Body r)) es ->
  run (H := ideal_http (opts m) (call_context m r hd) mt ps (content_type r) accept (has_body r)) (h_handler hd (opts m))
    (Dialogue false ∅ ∅ es true None None []) = (d, o) ->
  (o = Ok tt -> exists x', ServeHTTP m e up r x = (x', Ok tt) /\
     match d_begun d with
     | Some ct => answered (x_w x) (x_w x') 200 ct (str_concat (d_out d))
     | None => rs_events (x_w x') = rs_events (x_w x)
     end) /\
  (forall err st acceptErr b, o = Err err -> error_bytes m r err st acceptErr b -> exists x', ServeHTTP m e up r x = (x', Ok tt) /\
     let '(status, ct) := match d_begun d with Some ct => (200%Z, ct) | None => (st, Some acceptErr) end in
     answered (x_w x) (x_w x') status ct (str_concat (d_out d) ++ b)) /\
  (forall q, o = Panic q -> exists x', ServeHTTP m e up r x = (x', Panic q) /\
     sent_body (x_w x') = (sent_body (x_w x) ++ str_concat (d_out d))%string).
Proof.
  intros Hcall Ha Hf Hs Hp Hn Hes Hrun. destruct (ServeHTTP_call m e up r x _ _ _ _ Hcall) as (ae & sts & _ & ->).
  set (s := StreamHTTP _ _ _ _ _ _ _ _ _ _ _ _ _ _ _ _ _ _ _ _). set (r' := with_path _ r).
  assert (H0 : in_dialogue (opts m) (call_context m r hd) mt ps (content_type r) accept (has_body r) codec (rs_events (x_w x)) s
    (Dialogue false ∅ ∅ es true None None [])).
  { split; try done.
    - by intros [? [=]].
    - split; [by split|done|by split|]. cbn [d_out str_concat]. by rewrite str_app_nil_r.
    - split_and!; [done|done|]. cbn. split; [done|]. unfold pending. by destruct (IsStreamingClient (desc mt)). }
  destruct (http_run_dialogue _ _ _ _ _ _ _ codec _ _ _ _ H0 Hp) as (s1 & d' & o' & Es & Ed & H1).
  rewrite Hrun in Ed. injection Ed as <- <-. unfold call_http. rewrite Es. unfold close_compressor. rewrite (id_comp _ _ _ _ _ _ _ _ _ _ _ H1).
  pose proof (id_writer _ _ _ _ _ _ _ _ _ _ _ H1) as [[Hu1 Hu2] _ Hb Hbody]. fold (sent_body (x_w x)) in Hbody. cbn [x_conn].
  set (x1 := Exchange (h_w s1) (x_conn x) (h_stats s1)). split_and!.
  - intros ->. cbn [returned]. destruct (finish_http_run m r' s1 None x1) as (f & sts1 & ->). eexists. split; [reflexivity|]. cbn [x_w].
    destruct (d_begun d) as [ct|]; [|by destruct Hb]. destruct Hb as (_ & h & evs & E & Hct). split; [|exact Hbody]. by exists h, evs.
  - intros err st acceptErr b -> Herr. cbn [returned]. destruct (finish_http_run m r' s1 (Some err) x1) as (f & sts1 & ->). cbn [x_w x_conn x1].
    destruct (d_begun d) as [ct|].
    + destruct Hb as (Hsent & h & evs & E & Hct).
      destruct (encError_late m r r' err (rs_set_header f (h_w s1)) st acceptErr b eq_refl Herr Hu1 Hsent) as (w' & -> & Ev).
      eexists. split; [reflexivity|]. cbn [x_w]. cbn [rs_events rs_set_header] in Ev. split.
      * exists h, (evs ++ [EvBody b]). by rewrite Ev, E, <-app_assoc.
      * unfold sent_body at 1. rewrite Ev, fmap_app, str_concat_app. fold (sent_body (h_w s1)). rewrite Hbody. cbn. by rewrite str_app_nil_r, str_app_assoc.
    + destruct Hb as (Hsent & E).
      destruct (encError_run m r r' err (rs_set_header f (h_w s1)) st acceptErr b eq_refl Herr Hu1 Hsent) as (w' & h & -> & Hct & Ev).
      eexists. split; [reflexivity|]. cbn [x_w]. cbn [rs_events rs_set_header] in Ev. split.
      * exists h, [EvBody b]. rewrite Ev, E. split; [done|]. by intros t [= <-].
      * unfold sent_body at 1. rewrite Ev, fmap_app, str_concat_app. fold (sent_body (h_w s1)). rewrite Hbody. cbn. by rewrite str_app_nil_r, str_app_assoc.
  - intros q ->. eexists. split; [reflexivity|]. exact Hbody.
Qed.
End Call.

(** ** Witness

    A method of both streams, whose handler answers every message with itself. *)
Module SampleTalk.
Import SampleServe.
Definition talk : @MethodDescriptor plain_proto := XMethod "pkg.S.Talk" Sample.request Sample.request true true None.
Definition talk_files : @Files plain_proto := [XFile "talk.proto" [XService "pkg.S" [talk]]].
Fixpoint echo (n : nat) : @prog plain_proto unit :=
  match n with
  | O => PReturn tt
  | S n => PRecvMsg req0 (fun m err =>
      match err with
      | Some EOF => PReturn tt
      | Some e => PError e
      | None => PSendMsg m (fun err => on_nil err (echo n))
      end)
  end.
Definition service : @ServiceDesc plain_proto := MkServiceDesc "pkg.S" [] [MkStreamDesc "Talk" (echo 5) true true].
Definition mux : @Mux plain_proto :=
  fst (registerService service (MkMux (with_defaults (defaultMuxOptions (talk_files : @Files plain_proto) (tt : @Types plain_proto))) None 0)).
Definition hd : @handler plain_proto :=
  MkHandler 0 talk (snd (stream_entry (MkStreamDesc "Talk" (echo 5) true true)) "/pkg.S/Talk") "/pkg.S/Talk".
Definition method : @method plain_proto := Method talk "/pkg.S/Talk" [] [] [] true.
Definition post : Request := SampleServe.request "POST" "/pkg.S/Talk" "application/json" [Chunk "{a}{" None; Chunk "b}" None].
End SampleTalk.

Lemma talk_frames : body_messages (opts SampleTalk.mux) SampleTalk.method true codecJSON "{a}{b}" ["{a}"; "{b}"; ""].
Proof.
  exists ["{a}"; "{b}"]. split; [reflexivity|]. split; [vm_compute; reflexivity|]. exists json_stream, json_framing. split; [reflexivity|].
  split; [reflexivity|].
  assert (H : forall x, plain x = true -> json_object (String "{" (String x "}"))).
  { intros x Hx. exists (String x ""). split; [|done]. by repeat constructor. }
  rewrite !Forall_cons. split_and!; [by apply H|vm_compute; discriminate|by apply H|vm_compute; discriminate|constructor].
Qed.

Lemma talk_calls o (Q : @Message plain_proto -> Prop) :
  streamInterceptor o = None -> Q SampleServe.req0 -> calls_within lower_keys Q (h_handler SampleTalk.hd o).
Proof.
  intros Ho HQ. cbn [h_handler SampleTalk.hd stream_entry snd sd_Handler]. unfold opts_stream. rewrite Ho.
  generalize 5. intros n. induction n as [|n IH]; [exact I|]. split; [exact HQ|]. intros ? [[]|]; try exact I. by intros [?|].
Qed.

Lemma http_serves_witness :
  exists x', ServeHTTP SampleTalk.mux SampleServe.e0 SampleServe.no_upgrade SampleTalk.post SampleServe.start = (x', Ok tt) /\
    answered new_response (x_w x') 200 (Some "application/json") "{a}{b}".
Proof.
  destruct (http_serves SampleTalk.mux SampleServe.e0 SampleServe.no_upgrade SampleTalk.post SampleServe.start SampleTalk.method [] SampleTalk.hd
    "application/json" codecJSON ["{a}"; "{b}"; ""]
    (Dialogue true ∅ ∅ [] false (Some "application/json") (Some (Some "application/json")) ["{a}"; "{b}"; ""]) (Ok tt)) as [H _].
  - split; try reflexivity.
    + exists [], []. split_and!; vm_compute; reflexivity.
    + exists "identity". split; vm_compute; reflexivity.
  - reflexivity.
  - reflexivity.
  - reflexivity.
  - apply talk_calls; [vm_compute; reflexivity|]. intros _ cur c [= <-] E. vm_compute in E. vm_compute. congruence.
  - repeat constructor.
  - exact talk_frames.
  - vm_compute. reflexivity.
  - destruct (H eq_refl) as (x' & E & Hb). exists x'. split; [exact E|exact Hb].
Defined.

(** A unary call whose reply is over the limit for messages to send: the flush that
    [SendMsg] defers sends the header with status 200 before the error of the handler
    can set its own, 500, and the body is the error. *)
Example refused_reply_is_200 :
  match NewMux SampleMux.library tt [MaxSendMessageSizeOption 3] with
  | Ok m => map (fun ev => match ev with EvHeader st _ => inl st | EvBody b => inr b | EvFlush => inr "flush" end)
      (rs_events (x_w (fst (ServeHTTP (fst (registerService SampleMux.service m)) SampleServe.e0 SampleServe.no_upgrade
        (SampleServe.post [Chunk "hello" None]) SampleServe.start))))
  | _ => []
  end = [inl 200%Z; inr "flush"; inr "{}"] /\ HTTPStatusCode codes.Unknown = Ok 500%Z.
Proof. split; vm_compute; reflexivity. Qed.
