(* ===== verification/WebSpec.v ===== *)
(** What gRPC-Web guarantees: [webWriter] is a response writer like any other, so a
    stream on it sends whole frames, and a call ends with its status in the last
    frame of the body, or in the header of a response without a body. *)

#[local] Set Warnings "-register-all".
From S2P Require Import Prelude Status Runes IO Http Negotiate Base64 Proto Lexer Params Metadata Compress Codec Selector Stream Routes RouteSearch GrpcStream GrpcSpec Mux MuxSpec HttpStream WsStream Web Serve ServeSpec.

(** ** The writer *)

(** The bytes in whole groups of three, and the others. *)
Definition groups (s : string) : nat := 3 * (String.length s / 3).
Definition whole (s : string) : string := str_take (groups s) s.

Lemma groups_bound s : groups s <= String.length s < groups s + 3.
Proof. unfold groups. pose proof (Nat.div_mod_eq (String.length s) 3). pose proof (Nat.mod_upper_bound (String.length s) 3). lia. Qed.

Lemma whole_length s : String.length (whole s) = groups s.
Proof. unfold whole. rewrite str_length_take. pose proof (groups_bound s). lia. Qed.

Lemma whole_groups s : (String.length (whole s) mod 3 = 0)%nat.
Proof. rewrite whole_length. unfold groups. rewrite Nat.mul_comm. apply Nat.Div0.mod_mul. Qed.

(** Whole groups and fewer than three bytes are the groups of their concatenation. *)
Lemma whole_app s t : (String.length s mod 3 = 0)%nat -> String.length t < 3 -> whole (s ++ t) = s.
Proof.
  intros Hs Ht. unfold whole, groups. rewrite str_length_app.
  replace (3 * _)%nat with (String.length s); [apply str_take_app|].
  apply Nat.Div0.div_exact in Hs. set (a := (String.length s / 3)%nat) in *.
  rewrite Hs, (Nat.mul_comm 3 a), Nat.div_add_l, (Nat.div_small (String.length t)) by done. lia.
Qed.

Section Writer.
Context {W : Type} `{RW : ResponseWriter W} `{WL : !WriterLaws W}.

(** What an encoder was given: the groups that it wrote, and what waits. *)
Definition encoder_ok (w : W) (e : encoder) (s : string) : Prop :=
  enc_err e = None /\ String.length (enc_pending e) < 3 /\
  exists t, (String.length t mod 3 = 0)%nat /\ w_body w = EncodeToString StdEncoding t /\ s = (t ++ enc_pending e)%string.

Lemma encoder_written w e s b :
  w_up w -> encoder_ok w e s ->
  exists w' e', encoder_Write w_Write b (w, e) = ((w', e'), Ok (String.length b)) /\ w_up w' /\ encoder_ok w' e' (s ++ b).
Proof.
  intros Hw (He & Hp & t & Ht & Hb & ->). unfold encoder_Write. rewrite He. set (d := (enc_pending e ++ b)%string).
  change (3 * (String.length d / 3)) with (groups d). pose proof (groups_bound d) as Hg.
  assert (Hok : forall w', w_body w' = (w_body w ++ EncodeToString StdEncoding (whole d))%string ->
    encoder_ok w' (Encoder (str_drop (groups d) d) None) ((t ++ enc_pending e) ++ b)).
  { intros w' Hb'. split_and!; [done|simpl; rewrite str_length_drop; lia|]. exists (t ++ whole d)%string. split_and!.
    - rewrite str_length_app, Nat.Div0.add_mod, Ht, whole_groups. done.
    - by rewrite Hb', Hb, EncodeToString_app.
    - simpl. unfold whole. by rewrite !str_app_assoc, str_take_drop. }
  destruct (Nat.eqb_spec (groups d) 0) as [E|E].
  - eexists w, _. split_and!; [done|done|]. apply Hok. unfold whole. rewrite E, str_take_0. cbn. by rewrite str_app_nil_r.
  - destruct (up_Write (EncodeToString StdEncoding (whole d)) w Hw) as (w' & E' & Hw' & Hb').
    unfold whole in E'. rewrite E'. eexists w', _. split_and!; [done|done|]. by apply Hok.
Qed.

Lemma encoder_new w : w_body w = "" -> encoder_ok w (Encoder "" None) "".
Proof. intros Hw. split_and!; [done|simpl; lia|]. exists "". by rewrite Hw. Qed.

(** The body of a response: what was written to it, decoded and still waiting. *)
Definition ww_body (x : webWriter W) : string :=
  match ww_enc64 x with
  | None => w_body (ww_w x)
  | Some e => (default "" (DecodeString StdEncoding (w_body (ww_w x))) ++ enc_pending e)%string
  end.

Definition ww_up (x : webWriter W) : Prop :=
  w_up (ww_w x) /\ match ww_enc64 x with None => True | Some e => encoder_ok (ww_w x) e (ww_body x) end.

(** Whether the format is the text one. *)
Definition text_format (x : webWriter W) : bool := match ww_enc64 x with Some _ => true | None => false end.

Lemma encoder_ok_body w e s : encoder_ok w e s -> (default "" (DecodeString StdEncoding (w_body w)) ++ enc_pending e)%string = s.
Proof. intros (_ & _ & t & _ & -> & ->). by rewrite base64_roundtrip. Qed.

(** [encoder_ok] is of the body of the writer alone. *)
Lemma encoder_ok_same w w' e s : w_body w' = w_body w -> encoder_ok w e s -> encoder_ok w' e s.
Proof. unfold encoder_ok. by intros ->. Qed.

Lemma ww_up_same (x y : webWriter W) :
  ww_enc64 y = ww_enc64 x -> w_body (ww_w y) = w_body (ww_w x) -> (w_up (ww_w x) -> w_up (ww_w y)) ->
  (ww_up x -> ww_up y) /\ ww_body y = ww_body x.
Proof.
  intros He Hb Hu. assert (Hbody : ww_body y = ww_body x) by (unfold ww_body; by rewrite He, Hb). split; [|done].
  unfold ww_up. rewrite He, Hbody. intros [Hw Hx]. split; [by apply Hu|]. destruct (ww_enc64 x); [by eapply encoder_ok_same|done].
Qed.

Lemma seeHeaders_same (x : webWriter W) : (ww_up x -> ww_up (seeHeaders x)) /\ ww_body (seeHeaders x) = ww_body x.
Proof. apply ww_up_same; [done|apply body_set_header|apply up_set_header]. Qed.

Lemma resp_Write_up b (x : webWriter W) :
  ww_up x -> exists y, resp_Write b x = (y, Ok (String.length b)) /\ ww_up y /\ ww_body y = (ww_body x ++ b)%string /\
    text_format y = text_format x /\ ww_seenHeaders y = ww_seenHeaders x /\ ww_wroteHeader y = ww_wroteHeader x /\ ww_wroteResp y = ww_wroteResp x.
Proof.
  intros [Hw He]. unfold resp_Write. destruct (ww_enc64 x) as [e|] eqn:E.
  - destruct (encoder_written (ww_w x) e (ww_body x) b Hw He) as (w' & e' & -> & Hw' & He').
    eexists. split; [done|]. pose proof (encoder_ok_body _ _ _ He') as Hb.
    split_and!; [|done|by unfold text_format; rewrite E|done..].
    split; [done|]. unfold ww_body. cbn. by rewrite Hb.
  - destruct (up_Write b (ww_w x) Hw) as (w' & -> & Hw' & Hb'). eexists. split; [done|].
    split_and!; try done; [by split; cbn; rewrite ?E|]. unfold ww_body. cbn. by rewrite E.
Qed.

#[export] Instance web_laws : WriterLaws (webWriter W).
Proof using WL.
  refine {| w_up := ww_up; w_body := ww_body |}.
  - intros b x Hx. cbn. unfold web_Write. destruct (ww_wroteHeader x).
    + destruct (resp_Write_up b x Hx) as (y & ? & ? & ? & _). by exists y.
    + destruct (seeHeaders_same x) as [H1 H2]. destruct (resp_Write_up b (seeHeaders x) (H1 Hx)) as (y & ? & ? & Hb & _).
      exists y. by rewrite <-H2.
  - intros f x. apply ww_up_same; [done|exact (body_set_header f (ww_w x))|exact (up_set_header f (ww_w x))].
  - intros f x. apply ww_up_same; [done|exact (body_set_header f (ww_w x))|exact (up_set_header f (ww_w x))].
  - intros f x. exact (header_set_header f (ww_w x)).
  - done.
  - intros x. cbn. unfold web_Flush. destruct (_ && _); [|done]. apply ww_up_same; [done|exact (body_Flush (ww_w x))|exact (up_Flush (ww_w x))].
  - intros x. cbn. unfold web_Flush. destruct (_ && _); [|done].
    apply (proj2 (ww_up_same x (ww_set_w (w_Flush (ww_w x)) x) eq_refl (body_Flush _) (up_Flush _))).
  - intros x. cbn. unfold web_Flush. destruct (_ && _); [apply header_Flush|done].
Defined.
End Writer.
#[local] Existing Instance web_laws.

(** ** Header names *)

(** A name as [Set], [Add] and [setOutgoingHeader] make one. *)
Definition clean_key (K : string) : Prop := exists k, ToLower k = k /\ K = CanonicalMIMEHeaderKey k.
Definition clean (h : Header) : Prop := forall K vs, h !! K = Some vs -> clean_key K.

Lemma clean_lower K : clean_key K -> K = CanonicalMIMEHeaderKey (ToLower K).
Proof. intros (k & Hk & ->). by rewrite ToLower_CanonicalMIMEHeaderKey, Hk. Qed.

Lemma clean_no_prefix K : clean_key K -> HasPrefix K TrailerPrefix = false.
Proof.
  intros (k & Hk & ->). apply not_true_is_false. intros [t Ht]%HasPrefix_spec.
  assert (Hl : k = ToLower (TrailerPrefix ++ t)) by (by rewrite <-Ht, ToLower_CanonicalMIMEHeaderKey).
  unfold CanonicalMIMEHeaderKey in Ht. rewrite Hl in Ht. discriminate Ht.
Qed.

Lemma clean_set key v h : ToLower (ToLower key) = ToLower key -> CanonicalMIMEHeaderKey key = CanonicalMIMEHeaderKey (ToLower key) ->
  clean h -> clean (<[CanonicalMIMEHeaderKey key := v]> h).
Proof. intros H1 H2 Hh K vs. rewrite lookup_insert_Some. intros [[<- _]|[_ H]]; [|by eapply Hh]. by exists (ToLower key). Qed.

Lemma clean_outgoing `{R : GoRange} md h : lower_keys md -> clean h -> clean (setOutgoingHeader md h).
Proof. intros Hmd Hh K vs [H|(k & ws & H & _ & ->)]%setOutgoingHeader_inv; [by eapply Hh|]. exists k. split; [by eapply Hmd|done]. Qed.

(** What was not seen is a trailer under its name in lower case. *)
Lemma web_trailers_lookup `{R : GoRange} seen h K vs :
  clean h -> h !! K = Some vs -> K ∉ seen -> web_trailers seen h !! ToLower K = Some vs.
Proof.
  intros Hh HK Hs.
  assert (E : web_trailers seen h = foldl (fun m '(k, vs) => put m
    ((fun k vs => if decide (k ∈ seen) then None else Some (ToLower (TrimPrefix k TrailerPrefix), vs)) k vs)) ∅ (range h)).
  { unfold web_trailers. generalize (∅ : Header). induction (range h) as [|[k ws] l IH]; intros acc; [done|].
    cbn [foldl]. rewrite IH. by destruct (decide (k ∈ seen)). }
  rewrite E. apply puts_range.
  - intros k1 k2 vs1 vs2 ws1 ws2 H1 H2. destruct (decide (k1 ∈ seen)), (decide (k2 ∈ seen)); try done.
    unfold TrimPrefix. rewrite !clean_no_prefix by (by eapply Hh). intros [= E1 _] [= E2 _].
    rewrite (clean_lower k1), (clean_lower k2) by (by eapply Hh). congruence.
  - exists K, vs. split; [done|]. rewrite decide_False by done. unfold TrimPrefix. by rewrite clean_no_prefix by (by eapply Hh).
Qed.

Section Web.
Context `{U : Unicode} `{P : Protoreflect} {M : Messages} `{MA : @Marshaling P} `{R : GoRange} `{F : Fmt} `{GA : GoAppend}
  `{GS : !GrpcStatus} `{MDJ : Metadata} `{WS : WebSocket} `{TW : Twirp} `{ST : StatsTag} `{BR : Base64Reader}.

(** ** The writer of a call *)

(** The names of a status. *)
Definition status_key (K : string) : Prop := K = "Grpc-Status" \/ K = "Grpc-Message".

(** The writer while the handler runs: no status in the header map, nor seen there,
    and the header is sent when there is something in the body. *)
Record calm_web (text : bool) (x : webWriter response) : Prop := {
  cw_up : ww_up x;
  cw_clean : clean (rs_header (ww_w x));
  cw_status K : status_key K -> rs_header (ww_w x) !! K = None /\ K ∉ ww_seenHeaders x;
  cw_wrote : ww_wroteHeader x = negb (String.eqb (ww_body x) "");
  cw_resp : ww_wroteResp x = false;
  cw_text : text_format x = text;
}.

Lemma status_key_reserved md h K : lower_keys md -> status_key K -> setOutgoingHeader md h !! K = h !! K.
Proof. intros Hmd [->| ->]; by apply setOutgoingHeader_reserved. Qed.

Lemma calm_new typ enc : calm_web (String.eqb typ grpcWebText) (newWebWriter new_response typ enc).
Proof.
  unfold newWebWriter. destruct (String.eqb typ grpcWebText); split; try done.
  - split; [done|]. split_and!; [done|simpl; lia|]. by exists "".
Qed.

Lemma resp_Write_header b (x : webWriter response) : rs_header (ww_w (fst (resp_Write b x))) = rs_header (ww_w x).
Proof.
  assert (Hw : forall b w, rs_header (fst (w_Write b w)) = rs_header w).
  { intros b' w. cbn. unfold response_Write. rewrite send_header_answers.
    assert (rs_header (send_header w) = rs_header w) by (unfold send_header, WriteHeader; cbn; by destruct (rs_sent w)).
    by destruct (rs_answers w) as [|[n err] rest]. }
  unfold resp_Write. destruct (ww_enc64 x) as [e|].
  - unfold encoder_Write. destruct (enc_err e); [done|]. destruct (_ =? 0); [done|].
    pose proof (Hw (EncodeToString StdEncoding (str_take (3 * (String.length (enc_pending e ++ b) / 3)) (enc_pending e ++ b))) (ww_w x)) as H.
    by destruct (w_Write _ (ww_w x)) as [w []].
  - specialize (Hw b (ww_w x)). by destruct (w_Write b (ww_w x)) as [w o].
Qed.

Lemma clean_content_type v h : clean h -> clean (header_Set "Content-Type" v h).
Proof. by apply clean_set. Qed.

(** After a write the header is sent. *)
Lemma calm_resp_Write text b (x : webWriter response) :
  5 <= String.length b -> ww_up x -> ww_wroteHeader x = true -> ww_wroteResp x = false -> text_format x = text -> clean (rs_header (ww_w x)) ->
  (forall K, status_key K -> rs_header (ww_w x) !! K = None /\ K ∉ ww_seenHeaders x) ->
  calm_web text (fst (resp_Write b x)).
Proof.
  intros Hl Hu Hw Hr <- Hc Hs. pose proof (resp_Write_header b x) as Hh.
  destruct (resp_Write_up b x Hu) as (y & E & Hu' & Hb & Ht & Hseen & Hw' & Hr'). rewrite E in *. cbn [fst] in *. split.
  - done.
  - by rewrite Hh.
  - rewrite Hh, Hseen. done.
  - rewrite Hw', Hb, Hw. destruct (String.eqb_spec (ww_body x ++ b) "") as [E0|]; [|done].
    apply (f_equal String.length) in E0. rewrite str_length_app in E0. simpl in E0. lia.
  - by rewrite Hr'.
  - done.
Qed.

Lemma calm_stable text : stable (calm_web text).
Proof.
  split.
  - intros b x Hl [Hu Hc Hs Hw Hr Ht]. cbn. unfold web_Write. destruct (ww_wroteHeader x) eqn:E; [by apply calm_resp_Write|].
    apply calm_resp_Write; [done|by apply seeHeaders_same|done|done|done|by apply clean_content_type|].
    intros K HK. destruct (Hs K HK) as [Hn _]. assert (Hn' : header_Set "Content-Type" (ww_typ x ++ "+" ++ ww_enc x)%string (rs_header (ww_w x)) !! K = None)
      by (destruct HK as [->| ->]; unfold header_Set; rewrite lookup_insert_ne; done).
    split; [exact Hn'|]. cbn. intros [_ Hd]%elem_of_filter. apply elem_of_dom in Hd as [vs Hd].
    change (header_Set "Content-Type" (ww_typ x ++ "+" ++ ww_enc x)%string (rs_header (ww_w x)) !! K = Some vs) in Hd. congruence.
  - intros x [Hu Hc Hs Hw Hr Ht]. pose proof (up_Flush x Hu) as Hu'. pose proof (body_Flush x) as Hb. pose proof (header_Flush x) as Hh.
    change (ww_up (w_Flush x)) in Hu'. change (ww_body (w_Flush x) = ww_body x) in Hb. change (rs_header (ww_w (w_Flush x)) = rs_header (ww_w x)) in Hh.
    split; [done|by rewrite Hh| | | |].
    + intros K HK. rewrite Hh. cbn. unfold web_Flush. destruct (_ && _); by apply Hs.
    + rewrite Hb, <-Hw. cbn. unfold web_Flush. by destruct (_ && _).
    + rewrite <-Hr. cbn. unfold web_Flush. by destruct (_ && _).
    + rewrite <-Ht. cbn. unfold web_Flush. by destruct (_ && _).
  - intros ct me md x Hmd [Hu Hc Hs Hw Hr Ht].
    pose proof (body_set_header (grpc_headers ct me md) x) as Hb. change (ww_body (w_set_header (grpc_headers ct me md) x) = ww_body x) in Hb.
    pose proof (up_set_header (grpc_headers ct me md) x Hu) as Hu'. split; [exact Hu'| | |by rewrite Hb|done|done].
    + apply clean_outgoing; [done|]. unfold header_Add, header_Set. repeat (apply clean_set; [done..|]).
      destruct (String.eqb me ""); cbn [negb]; repeat (apply clean_set; [done..|]); exact Hc.
    + intros K HK. destruct (Hs K HK) as [Hn Hseen]. split; [|done]. cbn. unfold grpc_headers. rewrite status_key_reserved by done.
      unfold header_Add, header_Set. destruct (String.eqb me ""), HK as [->| ->]; cbn [negb]; by rewrite !lookup_insert_ne.
Qed.

(** ** The end of a call *)

(** The trailers are the last frame. *)
Lemma flushWithTrailer_run text (x : webWriter response) :
  ww_up x -> text_format x = text -> ww_wroteHeader x = true ->
  exists y, flushWithTrailer x = (y, Ok tt) /\ ww_up y /\ text_format y = text /\
    ww_body y = (ww_body x ++ trailer_frame (Header_Write (web_trailers (ww_seenHeaders x) (rs_header (ww_w x)))))%string.
Proof.
  intros Hx Ht Hw. unfold flushWithTrailer. rewrite Hw. cbn [orb]. unfold writeTrailer. rewrite bind_get. cbv zeta.
  set (buf := Header_Write _). set (head := String "128" _).
  destruct (resp_Write_up head x Hx) as (y & E & Hy & Hb & Ht' & _ & Hw' & _).
  rewrite (st_bind_run _ _ x y (String.length head)) by (unfold web_Write; by rewrite Hw).
  destruct (resp_Write_up buf y Hy) as (z & E' & Hz & Hb' & Ht'' & _).
  rewrite (st_bind_run _ _ y z (String.length buf)) by (unfold web_Write; by rewrite Hw', Hw).
  exists (web_Flush z). split; [done|]. pose proof (up_Flush z Hz) as H1. pose proof (body_Flush z) as H2.
  change (ww_up (web_Flush z)) in H1. change (ww_body (web_Flush z) = ww_body z) in H2.
  split_and!; [exact H1| |].
  - rewrite <-Ht, <-Ht', <-Ht''. unfold web_Flush. by destruct (_ && _).
  - rewrite H2, Hb', Hb. unfold trailer_frame, head. rewrite str_app_assoc. done.
Qed.

(** The bytes that the client gets of the body. *)
Lemma sent_format (y : webWriter response) : ww_up y ->
  sent_body (ww_w y) = if text_format y then EncodeToString StdEncoding (whole (ww_body y)) else ww_body y.
Proof.
  intros [Hw He]. unfold text_format. destruct (ww_enc64 y) as [e|] eqn:E; [|unfold ww_body; by rewrite E].
  destruct He as (_ & Hp & t & Ht & Hb & ->). by rewrite whole_app.
Qed.

(** The outcome of a call, under the names of its status. *)
Definition status_in (h : Header) (name : string -> string) (o : go unit) : Prop :=
  h !! name "Grpc-Status" = Some [FormatInt (FromError (returned o))] /\
  forall err, o = Err err -> status_Message err <> "" -> h !! name "Grpc-Message" = Some [encodeGrpcMessage (status_Message err)].

Lemma clean_status_headers herr h : clean h -> clean (status_headers herr h).
Proof.
  intros Hh. assert (H1 : clean (header_Set "Grpc-Status" (FormatInt (FromError herr)) h)) by by apply clean_set.
  unfold status_headers. destruct herr as [e|]; [|done].
  destruct (negb _), (status_Details e); unfold header_Set in *; repeat (apply clean_set; [reflexivity..|]); done.
Qed.

Lemma set_headers_web fs (x : webWriter response) :
  ww_seenHeaders (set_headers fs x) = ww_seenHeaders x /\ ww_wroteHeader (set_headers fs x) = ww_wroteHeader x /\
  ww_wroteResp (set_headers fs x) = ww_wroteResp x /\ text_format (set_headers fs x) = text_format x.
Proof. by induction fs. Qed.

Lemma up_set_headers fs (x : webWriter response) : ww_up x -> ww_up (set_headers fs x).
Proof. intros Hx. induction fs as [|f fs IH]; [done|]. exact (up_set_header f (set_headers fs x) IH). Qed.

Lemma wire_frames_nonempty frames : Forall wire_frame frames -> str_concat frames = "" -> frames = [].
Proof. intros [|f fs (flag & b & -> & _) _]; done. Qed.

(** C10 A gRPC-Web call that reaches its handler, over HTTP/1.1 and whatever the
    handler does: when the handler sent messages, the body is their frames and one
    more, whose trailers have the status of what the handler returned; in the text
    format it is base64 of the whole groups of three bytes of that.  When it sent
    none, there is no body, and the status is in the header map. *)
Theorem grpc_web_trailers m e r (x : exchange response) typ enc hd codec comp ctx s1 o :
  isWebRequest r = (typ, enc, true) -> EqualFold (header_Get (req_Header r) "Upgrade") "websocket" = false ->
  grpc_call m e (web_request r typ enc) hd codec comp ctx -> x_w x = new_response -> lower_metadata (h_handler hd (opts m)) ->
  let s0 := grpc_stream_of m e (web_request r typ enc) hd codec comp ctx (newWebWriter (x_w x) typ enc)
              (grpc_begin m (web_request r typ enc) hd (x_stats x)) in
  codec_ok s0 -> run (h_handler hd (opts m)) s0 = (s1, o) -> (o = Ok tt \/ exists err, o = Err err) ->
  g_sentHeader s1 = true \/ ctx_errs (g_ctx s1) = [] ->
  exists x' frames, serveGRPCWeb m e r x = (x', Ok tt) /\ Forall wire_frame frames /\
    match frames with
    | [] => sent_body (x_w x') = "" /\ status_in (rs_header (x_w x')) id o
    | _ => exists trailers, status_in trailers ToLower o /\
        let body := (str_concat frames ++ trailer_frame (Header_Write trailers))%string in
        sent_body (x_w x') = if String.eqb typ grpcWebText then EncodeToString StdEncoding (whole body) else body
    end.
Proof.
  intros Hreq Hup Hcall Hw Hl s0 Hcod Hrun Ho Hs. set (ww0 := newWebWriter (x_w x) typ enc) in *.
  set (text := String.eqb typ grpcWebText).
  assert (Hc0 : calm_web text ww0) by (unfold ww0; rewrite Hw; apply calm_new).
  pose proof (cw_up _ _ Hc0) as Hu0. set (x0 := Exchange ww0 (x_conn x) (x_stats x)).
  assert (Hfr : frames_since s0 s1).
  { change s1 with (fst (s1, o)). rewrite <-Hrun. exact (run_frames _ s0 Hcod Hu0). }
  destruct Hfr as (_ & _ & frames & Hf & Hb).
  change (ww_body (g_w s1) = (ww_body ww0 ++ str_concat frames)%string) in Hb.
  assert (Hb0 : ww_body ww0 = "") by (unfold ww0; rewrite Hw; unfold newWebWriter; by destruct (String.eqb typ grpcWebText)).
  rewrite Hb0 in Hb.
  destruct (serveGRPC_run (WL := web_laws) (calm_web text) m e (web_request r typ enc) hd codec comp ctx x0 s1 o (calm_stable text) Hcall Hu0 Hc0 Hl Hrun Ho Hs)
    as (x1 & w & fs & E & Hx1 & [Hu Hc Hst Hwr Hrs Htx] & Hbw & Hh & Htr).
  destruct (status_headers_spec (g_trailer s1) (returned o) (w_header w) Htr) as [Hs1 Hs2]. rewrite <-Hh in Hs1, Hs2.
  assert (Hin : status_in (rs_header (ww_w (x_w x1))) id o).
  { split; [exact Hs1|]. intros err -> Hne. unfold id. etransitivity; [exact Hs2|]. cbn [returned].
    by destruct (String.eqb_spec (status_Message err) ""). }
  assert (Hclean : clean (rs_header (ww_w (x_w x1)))).
  { change (clean (w_header (x_w x1))). rewrite Hh. apply clean_outgoing; [done|]. by apply clean_status_headers. }
  destruct (set_headers_web fs w) as (Hseen & Hwrote & Hresp & Htext). rewrite <-Hx1 in Hseen, Hwrote, Hresp, Htext.
  pose proof (up_set_headers fs w Hu) as Hu1. rewrite <-Hx1 in Hu1.
  assert (Hb1 : ww_body (x_w x1) = str_concat frames).
  { rewrite Hx1. transitivity (ww_body w); [exact (body_set_headers fs w)|]. etransitivity; [exact Hbw|exact Hb]. }
  unfold serveGRPCWeb. rewrite Hreq. cbn [negb]. rewrite Hup. fold ww0 x0. rewrite E.
  assert (Hbw' : ww_body w = str_concat frames) by (etransitivity; [exact Hbw|exact Hb]).
  rewrite Hbw' in Hwr. destruct (String.eqb_spec (str_concat frames) "") as [E0|E0]; cbn [negb] in Hwr.
  - assert (Ef : frames = []) by by apply wire_frames_nonempty.
    unfold flushWithTrailer, web_Flush. rewrite Hwrote, Hresp, Hwr, Hrs. cbn [orb andb].
    eexists _, []. split_and!; [done|done| |done]. cbn [x_w]. rewrite (sent_format _ Hu1), Hb1, E0. by case (text_format (x_w x1)).
  - destruct (flushWithTrailer_run text (x_w x1) Hu1 ltac:(congruence) ltac:(congruence)) as (y & Ey & Huy & Hty & Hby).
    rewrite Ey. eexists _, frames. split_and!; [done|done|]. destruct frames as [|f fs']; [done|].
    set (tr := web_trailers _ _) in Hby. exists tr. split.
    + assert (Htl : forall K vs, status_key K -> rs_header (ww_w (x_w x1)) !! K = Some vs -> tr !! ToLower K = Some vs).
      { intros K vs HK Hv. apply web_trailers_lookup; [done|done|]. rewrite Hseen. by apply Hst. }
      split; [apply Htl; [by left|apply Hin]|]. intros err Ho' Hne. apply Htl; [by right|]. by apply (proj2 Hin).
    + cbn [x_w]. rewrite (sent_format _ Huy), Hty, Hby, Hb1. done.
Qed.
End Web.

(** ** Witnesses *)

(** The mux of the other samples, with a codec whose encodings have a bound. *)
Module SampleWeb.
Import SampleMux SampleServe.
Definition json : @Codec plain_proto := SampleGRPC.codec.
Definition web_mux : @Mux plain_proto :=
  let o := opts mux1 in
  MkMux (MuxOptions (types o) (statsHandler o) (files o) (serviceConfig o) (unaryInterceptor o) (streamInterceptor o) (codecs o)
    {["json" := json]} (compressors o) (httprules o) (contentTypeOffers o) (encodingTypeOffers o) (maxReceiveMessageSize o)
    (maxSendMessageSize o) (connectionTimeout o)) (loadState mux1) (next_handler mux1).
Definition web_post (ct : string) (body : reader) : Request :=
  MkRequest "POST" "/pkg.Library/GetShelf" ∅ 1 1 {["Content-Type" := [ct]]} body (-1) "" (MkContext None [] []).
Definition hello : string := String "000" (PutUint32 5 ++ "hello").
Definition web_post_text : Request := web_post "application/grpc-web-text+json" [Chunk (EncodeToString StdEncoding hello) None].
End SampleWeb.
Import SampleMux SampleServe SampleWeb.

Lemma sample_codec_ok (s : stream (P := plain_proto) (Wr := webWriter response)) : g_codec s = json -> g_comp s = None -> codec_ok s.
Proof.
  intros Hc Hn. split; [|intros c e z H; congruence]. rewrite Hc. intros m b. cbn [MarshalAppend json SampleGRPC.codec].
  destruct (Nat.ltb_spec (String.length (SampleGRPC.text m)) 1000) as [Hl|]; [|discriminate]. intros [= <-].
  exists (SampleGRPC.text m). split; [done|lia].
Qed.

Lemma grpc_web_trailers_witness :
  exists x', serveGRPCWeb web_mux e0 web_post_text start = (x', Ok tt) /\
    sent_body (x_w x') = EncodeToString StdEncoding (whole (hello ++ trailer_frame ("grpc-status: 0" ++ crlf))).
Proof.
  set (r := web_post_text). set (ctx := fst (fst (grpc_context (web_request r "application/grpc-web-text" "json")))).
  set (s := grpc_stream_of web_mux e0 (web_request r "application/grpc-web-text" "json") shelf_handler json None ctx
    (newWebWriter (x_w start) "application/grpc-web-text" "json") []).
  destruct (run (h_handler shelf_handler (opts web_mux)) s) as [s1 o] eqn:E.
  assert (Ho : o = Ok tt) by (change o with (snd (s1, o)); rewrite <-E; vm_compute; reflexivity).
  assert (Hs : g_sentHeader s1 = true) by (change s1 with (fst (s1, o)); rewrite <-E; vm_compute; reflexivity).
  destruct (grpc_web_trailers web_mux e0 r start "application/grpc-web-text" "json" shelf_handler json None ctx s1 o)
    as (x' & frames & H & _).
  - reflexivity.
  - vm_compute. reflexivity.
  - split; try reflexivity. exists (snd (fst (grpc_context (web_request r "application/grpc-web-text" "json")))). reflexivity.
  - reflexivity.
  - exact (shelf_lower _).
  - apply sample_codec_ok; reflexivity.
  - exact E.
  - by left.
  - by left.
  - exists x'. split; [exact H|]. change x' with (fst (x', Ok (E := error) tt)). rewrite <-H. vm_compute. reflexivity.
Defined.

(** The last byte of the status is not sent: the text ends in the middle of a line. *)
Example grpc_web_text_truncated :
  let body := (hello ++ trailer_frame ("grpc-status: 0" ++ crlf))%string in
  whole body <> body /\ exists t, body = (whole body ++ t)%string /\ String.length t = 1.
Proof. split; [vm_compute; discriminate|]. exists (String "010" ""). split; vm_compute; reflexivity. Qed.

(** A call that fails without a message: the status is in the header map, which is
    not a part of gRPC-Web's body, and the content type is one of gRPC. *)
Example grpc_web_no_message :
  let x := fst (serveGRPCWeb mux1 e0 (web_post "application/grpc-web+json" [Chunk "" (Some (External "reset"))]) start) in
  rs_events (x_w x) = [] /\ rs_header (x_w x) !! "Content-Type" = Some ["application/grpc+json"] /\
  is_Some (rs_header (x_w x) !! "Grpc-Status").
Proof. split_and!; [vm_compute; reflexivity..|]. eexists. vm_compute. reflexivity. Qed.
