(* ===== verification/Conn.v ===== *)
(** The connections of larking/mux.go: descriptors that a backend reflects
    ([RegisterConn], [addConnHandler], [resolver]), and the handlers that forward
    calls to it ([createConnHandler]).  The reflection client, the descriptor
    builder and the calls of a [grpc.ClientConn] are the classes [Reflection] and
    [Backend]. *)

#[local] Set Warnings "-register-all".
From S2P Require Import Prelude Status Runes IO Http Proto Params Metadata Compress Codec Selector Stream Routes GrpcStream Mux.

(** ** The reflection service, as its client sees it *)

Inductive ServerReflectionRequest :=
  | ListServices
  | FileContainingSymbol (symbol : string)
  | FileByFilename (path : string).

(** What the getters of a response return, empty lists when it is another response. *)
Record ServerReflectionResponse := MkReflectionResponse {
  GetService : list string;
  GetFileDescriptorProto : list string;
}.

(** A builder that asks a [protodesc.Resolver] for files and names. *)
Inductive resolve `{P : Protoreflect} (A : Type) :=
  | RsReturn (a : A)
  | RsError (e : error)
  | RsFile (path : string) (k : FileDescriptor + error -> resolve A)
  | RsName (name : string) (k : found_descriptor ServiceDescriptor OtherDescriptor -> resolve A).
#[global] Arguments RsReturn {P A} a.
#[global] Arguments RsError {P A} e.
#[global] Arguments RsFile {P A} path k.
#[global] Arguments RsName {P A} name k.

Class Reflection `{P : Protoreflect} := {
  ReflectionClient : Type;
  ServerReflectionInfo : nat -> go ReflectionClient;
  rs_Send : ServerReflectionRequest -> st ReflectionClient error unit;
  rs_Recv : st ReflectionClient error ServerReflectionResponse;
  CloseSend : st ReflectionClient error unit;

  FileDescriptorProto : Type;
  Unmarshal_file : string -> go FileDescriptorProto;
  FileName : FileDescriptorProto -> string;
  (** [protodesc.NewFile] *)
  NewFile : FileDescriptorProto -> resolve FileDescriptor;
  emptyFiles : Files;
  (** google/api/annotations.proto, http.proto and httpbody.proto *)
  googleapis : list FileDescriptor;
  (** [sha256.New], the sum of all that was written *)
  Sum256 : string -> string;
}.

(** ** The resolver *)

Section Resolver.
Context `{P : Protoreflect} `{RF : @Reflection P}.

Record resolver := Resolver { rv_stream : ReflectionClient; rv_files : Files }.

Definition on_client {A} (f : st ReflectionClient error A) : st resolver error A := fun r =>
  let '(c, o) := f (rv_stream r) in (Resolver c (rv_files r), o).

Definition rv_RegisterFile (fd : FileDescriptor) : st resolver error unit := fun r =>
  match RegisterFile (rv_files r) fd with
  | Ok fs => (Resolver (rv_stream r) fs, Ok tt)
  | Err e => (r, Err e)
  | Panic p => (r, Panic p)
  | OutOfFuel => (r, OutOfFuel)
  end.

Fixpoint register_all (fds : list FileDescriptor) : st resolver error unit :=
  match fds with
  | [] => mret tt
  | fd :: fds => rv_RegisterFile fd;; register_all fds
  end.

(** On the stream of the client; the files are its own. *)
Definition newResolver (c : ReflectionClient) : go resolver :=
  let '(r, o) := register_all googleapis (Resolver c emptyFiles) in o;; Ok r.

Definition resolver_FindDescriptorByName (r : resolver) (name : string) : found_descriptor ServiceDescriptor OtherDescriptor :=
  FindDescriptorByName (rv_files r) name.

(** A builder with the resolver. *)
Fixpoint run_resolve {A} (FindFile : string -> st resolver error FileDescriptor) (p : resolve A) : st resolver error A := fun r =>
  match p with
  | RsReturn a => (r, Ok a)
  | RsError e => (r, Err e)
  | RsFile path k =>
      match FindFile path r with
      | (r, Ok fd) => run_resolve FindFile (k (inl fd)) r
      | (r, Err e) => run_resolve FindFile (k (inr e)) r
      | (r, Panic q) => (r, Panic q)
      | (r, OutOfFuel) => (r, OutOfFuel)
      end
  | RsName name k => run_resolve FindFile (k (resolver_FindDescriptorByName r name)) r
  end.

(** The files of a response, built and registered in order: the one with the path. *)
Fixpoint register_files (FindFile : string -> st resolver error FileDescriptor) (path : string)
    (fdbs : list string) (f : option FileDescriptor) : st resolver error (option FileDescriptor) :=
  match fdbs with
  | [] => mret f
  | fdb :: fdbs =>
      fdp ← lift (Unmarshal_file fdb);
      file ← run_resolve FindFile (NewFile fdp);
      rv_RegisterFile file;;
      register_files FindFile path fdbs (if String.eqb (FilePath file) path then Some file else f)
  end.

(** The fuel bounds how deep imports nest. *)
Fixpoint resolver_FindFileByPath (fuel : nat) (path : string) : st resolver error FileDescriptor := fun r =>
  match FindFileByPath (rv_files r) path with
  | Some fd => (r, Ok fd)
  | None =>
      match fuel with
      | O => (r, OutOfFuel)
      | S fuel =>
          (on_client (rs_Send (FileByFilename path));;
           fdr ← on_client rs_Recv;
           f ← register_files (resolver_FindFileByPath fuel) path (GetFileDescriptorProto fdr) None;
           match f with
           | Some f => mret f
           | None => throw (Errorf "missing file descriptor %s" [AStr path])
           end) r
      end
  end.
End Resolver.

(** ** Calls to a backend *)

(** [Invoke] and [NewStream] of a [grpc.ClientConn] get the context with the outgoing
    metadata.  [RecvMsg] of a stream waits when there is nothing to receive yet and
    the call has not ended.  [schedule] is the order in which Go's scheduler runs the
    two goroutines of a call, true for the one that reads from the client. *)
Class Backend `{P : Protoreflect} := {
  ClientStream : Type;
  Invoke : nat -> context -> option MD -> string -> Message -> MessageDescriptor -> go Message;
  NewStream : nat -> context -> option MD -> bool -> bool -> string -> go ClientStream;
  cs_SendMsg : Message -> st ClientStream error unit;
  cs_RecvMsg : ClientStream -> option (ClientStream * go Message);
  cs_Trailer : ClientStream -> MD;
  schedule : context -> list bool;
}.

(** The outcome of a call that is not one of the stream. *)
Definition lift_prog `{P : Protoreflect} {A} (o : go A) : prog A :=
  match o with
  | Ok a => PReturn a
  | Err e => PError e
  | Panic q => PPanic q
  | OutOfFuel => PStuck
  end.

Section Forward.
Context `{P : Protoreflect} {M : Messages} `{BK : @Backend P}.

(** *** Streams

    One goroutine reads from the client and sends to the backend; the call's own
    reads from the backend and sends to the client. *)

Inductive in_state := InRecv | InSend (m : Message) | InDone (e : error).
Inductive out_state := OutRecv | OutSend (m : Message) | OutDone (e : option error).

Record proxy := Proxy { px_in : in_state; px_out : out_state; px_cs : ClientStream }.

Definition in_after (x : proxy) (m : Message) (err : option error) : proxy :=
  Proxy (match err with Some e => InDone e | None => InSend m end) (px_out x) (px_cs x).

(** One call of the goroutine, none when it has ended. *)
Definition in_action (argsDesc : MessageDescriptor) (x : proxy) : option (prog proxy) :=
  match px_in x with
  | InRecv => Some (PRecvMsg (NewMessage argsDesc) (fun m err => PReturn (in_after x m err)))
  | InSend m =>
      let '(cs, o) := cs_SendMsg m (px_cs x) in
      Some (match o with
            | Ok _ => PReturn (Proxy InRecv (px_out x) cs)
            | Err e => PReturn (Proxy (InDone e) (px_out x) cs)
            | Panic q => PPanic q
            | OutOfFuel => PStuck
            end)
  | InDone _ => None
  end.

Definition out_after (ServerStreams : bool) (x : proxy) (err : option error) : proxy :=
  Proxy (px_in x)
    (match err with
     | Some e => OutDone (Some e)
     | None => if ServerStreams then OutRecv else OutDone None
     end) (px_cs x).

(** One call of the loop, none when it has ended or waits for the backend. *)
Definition out_action (ServerStreams : bool) (x : proxy) : option (prog proxy) :=
  match px_out x with
  | OutRecv =>
      match cs_RecvMsg (px_cs x) with
      | None => None
      | Some (cs, o) =>
          Some (match o with
                | Ok m => PReturn (Proxy (px_in x) (OutSend m) cs)
                | Err e => PReturn (Proxy (px_in x) (OutDone (Some e)) cs)
                | Panic q => PPanic q
                | OutOfFuel => PStuck
                end)
      end
  | OutSend m => Some (PSendMsg m (fun err => PReturn (out_after ServerStreams x err)))
  | OutDone _ => None
  end.

(** [if isStreamError(err) { return err }] *)
Definition stream_error (err : option error) : option error := if isStreamError err then err else None.

(** What follows the loop; none when it is not over, or waits for the goroutine. *)
Definition proxy_result (ClientStreams : bool) (x : proxy) : option (prog unit) :=
  let finish := PSetTrailer (cs_Trailer (px_cs x)) (PReturn tt) in
  match px_out x with
  | OutDone outErr =>
      match stream_error outErr with
      | Some e => Some (PError e)
      | None =>
          if ClientStreams then
            match px_in x with
            | InDone inErr =>
                Some (match stream_error (Some inErr) with Some e => PError e | None => finish end)
            | _ => None
            end
          else Some finish
      end
  | _ => None
  end.

Section Proxy.
Context (md : MethodDescriptor).

Definition proxy_action (who : bool) (x : proxy) : option (prog proxy) :=
  if who then (if IsStreamingClient md then in_action (Input md) x else None)
  else out_action (IsStreamingServer md) x.

(** The rest of a call in the order of a schedule.  A goroutine that waits or has
    ended is passed over. *)
Fixpoint forward (sched : list bool) (x : proxy) : prog unit :=
  match proxy_result (IsStreamingClient md) x with
  | Some p => p
  | None =>
      match sched with
      | [] => PStuck
      | who :: sched =>
          match proxy_action who x with
          | Some p => pbind p (forward sched)
          | None => forward sched x
          end
      end
  end.

(** The handler of a streaming method: the first message is received and sent before
    there are two goroutines. *)
Definition proxy_stream (cc : nat) (method : string) : prog unit :=
  PContext (fun ctx =>
  PRecvMsg (NewMessage (Input md)) (fun args err => on_nil err (
    pbind (lift_prog (NewStream cc ctx (incoming ctx) (IsStreamingClient md) (IsStreamingServer md) method)) (fun cs =>
    let '(cs, o) := cs_SendMsg args cs in
    pbind (lift_prog o) (fun _ => forward (schedule ctx) (Proxy InRecv OutRecv cs)))))).

(** *** Unary calls *)

Definition proxy_unary (cc : nat) (method : string) : UnaryHandler := fun ctx args =>
  lift_prog (Invoke cc ctx (incoming ctx) method args (Output md)).

Definition createConnHandler (id cc : nat) (sd : ServiceDescriptor) : handler :=
  let method := method_path (ServiceFullName sd) (MethodName md) in
  let h := if IsStreamingClient md || IsStreamingServer md then fun o =>
      opts_stream o (MkStreamServerInfo method (IsStreamingClient md) (IsStreamingServer md)) (proxy_stream cc method)
    else fun o =>
      PContext (fun ctx =>
      PRecvMsg (NewMessage (Input md)) (fun args err => on_nil err (
        pbind (opts_unary o ctx args method (proxy_unary cc method)) (fun reply =>
        PSendMsg reply (fun err => on_nil err (PReturn tt)))))) in
  MkHandler id md h method.
End Proxy.
End Forward.

(** ** Registration of a connection *)

Section Register.
Context `{U : Unicode} `{P : Protoreflect} {M : Messages} `{R : GoRange} `{RF : @Reflection P} `{BK : @Backend P}.

(** The methods of a file, in order, with their services. *)
Definition file_methods (fd : FileDescriptor) : list (ServiceDescriptor * MethodDescriptor) :=
  sd ← FileServices fd; md ← ServiceMethods sd; [(sd, md)].

(** The state that is changed, and the number of the next handler. *)
Fixpoint process_methods (o : muxOptions) (cc : nat) (ms : list (ServiceDescriptor * MethodDescriptor)) :
    st (state * nat) error (list handler) :=
  match ms with
  | [] => mret []
  | (sd, md) :: ms => fun '(s, n) =>
      let hd := createConnHandler md n cc sd in
      match appendHandler o md hd s with
      | (s, Ok _) => (hs ← process_methods o cc ms; mret (hd :: hs)) (s, S n)
      | (s, Err e) => ((s, S n), Err e)
      | (s, Panic q) => ((s, S n), Panic q)
      | (s, OutOfFuel) => ((s, S n), OutOfFuel)
      end
  end.

Definition processFile (o : muxOptions) (cc : nat) (fd : FileDescriptor) : st (state * nat) error (list handler) :=
  process_methods o cc (file_methods fd).

(** The files of the services that the backend lists, by name, and all their bytes. *)
Fixpoint unmarshal_files (fdbb : list string) (fds : gmap string FileDescriptorProto) (h : string) :
    go (gmap string FileDescriptorProto * string) :=
  match fdbb with
  | [] => Ok (fds, h)
  | fdb :: fdbb => fd ← Unmarshal_file fdb; unmarshal_files fdbb (<[FileName fd := fd]> fds) (h ++ fdb)%string
  end.

Fixpoint fetch_files (svcs : list string) (fds : gmap string FileDescriptorProto) (h : string) :
    st ReflectionClient error (gmap string FileDescriptorProto * string) :=
  match svcs with
  | [] => mret (fds, h)
  | svc :: svcs =>
      rs_Send (FileContainingSymbol svc);;
      fdr ← rs_Recv;
      '(fds, h) ← lift (unmarshal_files (GetFileDescriptorProto fdr) fds h);
      fetch_files svcs fds h
  end.

(** Each file is built with the resolver, and its methods are registered. *)
Fixpoint process_files (fuel : nat) (o : muxOptions) (cc : nat) (fds : list FileDescriptorProto) :
    st (resolver * (state * nat)) error (list handler) :=
  match fds with
  | [] => mret []
  | fd :: fds => fun '(r, sn) =>
      match run_resolve (resolver_FindFileByPath fuel) (NewFile fd) r with
      | (r, Ok file) =>
          match processFile o cc file sn with
          | (sn, Ok hs) => (hs' ← process_files fuel o cc fds; mret (hs ++ hs')) (r, sn)
          | (sn, Err e) => ((r, sn), Err e)
          | (sn, Panic q) => ((r, sn), Panic q)
          | (sn, OutOfFuel) => ((r, sn), OutOfFuel)
          end
      | (r, Err e) => ((r, sn), Err e)
      | (r, Panic q) => ((r, sn), Panic q)
      | (r, OutOfFuel) => ((r, sn), OutOfFuel)
      end
  end.

(** The client is returned as it is left, with the state and the next number. *)
Definition addConnHandler (fuel : nat) (o : muxOptions) (cc : nat) (c : ReflectionClient) :
    st (state * nat) error ReflectionClient := fun '(s, n) =>
  match (rs_Send ListServices;; r ← rs_Recv; fetch_files (GetService r) ∅ "") c with
  | (c, Ok (fds, h)) =>
      let hash := Sum256 h in
      let unchanged := match st_conns s !! cc with Some cl => String.eqb (fdHash cl) hash | None => false end in
      if unchanged then ((s, n), Ok c)
      else
        let s := match st_conns s !! cc with Some _ => fst (removeHandler cc s) | None => s end in
        match newResolver c with
        | Ok rslvr =>
            match process_files fuel o cc (snd <$> range fds) (rslvr, (s, n)) with
            | ((r, (s, n)), Ok hs) => ((set_conns <[cc := ConnList hs hash]> s, n), Ok (rv_stream r))
            | ((_, sn), Err e) => (sn, Err e)
            | ((_, sn), Panic q) => (sn, Panic q)
            | ((_, sn), OutOfFuel) => (sn, OutOfFuel)
            end
        | Err e => ((s, n), Err e)
        | Panic q => ((s, n), Panic q)
        | OutOfFuel => ((s, n), OutOfFuel)
        end
  | (_, Err e) => ((s, n), Err e)
  | (_, Panic q) => ((s, n), Panic q)
  | (_, OutOfFuel) => ((s, n), OutOfFuel)
  end.

(** The state is stored before [CloseSend], whose error is returned. *)
Definition RegisterConn (fuel : nat) (cc : nat) (m : Mux) : Mux * go unit :=
  match ServerReflectionInfo cc with
  | Ok c =>
      match addConnHandler fuel (opts m) cc c (state_clone (loadState m), next_handler m) with
      | ((s, n), Ok c) => (MkMux (opts m) (Some s) n, snd (CloseSend c))
      | ((_, n), Err e) => (MkMux (opts m) (loadState m) n, Err e)
      | ((_, n), Panic q) => (MkMux (opts m) (loadState m) n, Panic q)
      | ((_, n), OutOfFuel) => (MkMux (opts m) (loadState m) n, OutOfFuel)
      end
  | Err e => (m, Err e)
  | Panic q => (m, Panic q)
  | OutOfFuel => (m, OutOfFuel)
  end.
End Register.
