(* ===== verification/ProxySpec.v ===== *)
(** The calls that are forwarded to a backend: a transition system with the two
    goroutines of a stream, which the handler refines under every schedule; no
    message is lost, reordered or made up; when a call ends, and when it never does. *)

#[local] Set Warnings "-register-all".
From S2P Require Import Prelude Status IO Http Proto Params Metadata Compress Codec Selector Stream Routes GrpcStream Mux Conn.

Section Proxy.
Context `{P : Protoreflect} {M : Messages} `{BK : @Backend P} {S : Type} `{SS : !ServerStream S}.
Context (md : MethodDescriptor).

(** ** The transition system *)

Inductive event :=
  | Received (m : Message)  (* from the client *)
  | Forwarded (m : Message) (* to the backend *)
  | Replied (m : Message)   (* from the backend *)
  | Sent (m : Message).     (* to the client *)

Definition config : Type := S * proxy.

(** A step of the goroutine that reads from the client, or of the loop. *)
Inductive proxy_step : bool -> config -> list event -> config -> Prop :=
  | step_receive s s' m out cs :
      IsStreamingClient md = true -> RecvMsg (s, NewMessage (Input md)) = ((s', m), Ok tt) ->
      proxy_step true (s, Proxy InRecv out cs) [Received m] (s', Proxy (InSend m) out cs)
  | step_receive_end s s' m out cs e :
      IsStreamingClient md = true -> RecvMsg (s, NewMessage (Input md)) = ((s', m), Err e) ->
      proxy_step true (s, Proxy InRecv out cs) [] (s', Proxy (InDone e) out cs)
  | step_forward s m out cs cs' :
      IsStreamingClient md = true -> cs_SendMsg m cs = (cs', Ok tt) ->
      proxy_step true (s, Proxy (InSend m) out cs) [Forwarded m] (s, Proxy InRecv out cs')
  | step_forward_end s m out cs cs' e :
      IsStreamingClient md = true -> cs_SendMsg m cs = (cs', Err e) ->
      proxy_step true (s, Proxy (InSend m) out cs) [] (s, Proxy (InDone e) out cs')
  | step_reply s m inp cs cs' :
      cs_RecvMsg cs = Some (cs', Ok m) ->
      proxy_step false (s, Proxy inp OutRecv cs) [Replied m] (s, Proxy inp (OutSend m) cs')
  | step_reply_end s inp cs cs' e :
      cs_RecvMsg cs = Some (cs', Err e) ->
      proxy_step false (s, Proxy inp OutRecv cs) [] (s, Proxy inp (OutDone (Some e)) cs')
  | step_send s s' m inp cs :
      SendMsg m s = (s', Ok tt) ->
      proxy_step false (s, Proxy inp (OutSend m) cs) [Sent m]
        (s', Proxy inp (if IsStreamingServer md then OutRecv else OutDone None) cs)
  | step_send_end s s' m inp cs e :
      SendMsg m s = (s', Err e) ->
      proxy_step false (s, Proxy inp (OutSend m) cs) [] (s', Proxy inp (OutDone (Some e)) cs).

(** Steps from left to right, with what happened. *)
Inductive proxy_trace : config -> list event -> config -> Prop :=
  | trace_nil c : proxy_trace c [] c
  | trace_cons who c1 c2 c3 es tr : proxy_step who c1 es c2 -> proxy_trace c2 tr c3 -> proxy_trace c1 (es ++ tr) c3.

(** ** Refinement *)

Lemma run_pbind {A B} (p : prog A) (f : A -> prog B) (s : S) :
  run (pbind p f) s = match run p s with
                      | (s, Ok a) => run (f a) s
                      | (s, Err e) => (s, Err e)
                      | (s, Panic q) => (s, Panic q)
                      | (s, OutOfFuel) => (s, OutOfFuel)
                      end.
Proof.
  revert s. induction p; intros s0; cbn [pbind run]; try done; repeat (case_match; auto; try done).
Qed.

(** An action of a goroutine is a step. *)
Lemma proxy_action_step who x p (s s' : S) o :
  proxy_action md who x = Some p -> run p s = (s', o) ->
  (exists x' es, o = Ok x' /\ proxy_step who (s, x) es (s', x')) \/ is_panic o \/ o = OutOfFuel.
Proof.
  unfold proxy_action. destruct who.
  - destruct (IsStreamingClient md) eqn:Ec; [|done]. unfold in_action. destruct x as [[|m|e] out cs]; cbn [px_in px_cs px_out]; [| |done].
    + intros [= <-]. cbn [run]. destruct (RecvMsg (s, NewMessage (Input md))) as [[s1 m] [[]|e|q|]] eqn:E; cbn; intros [= <- <-]; [| |by right; left|by right; right];
        left; (do 2 eexists; split; [done|]); by econstructor.
    + destruct (cs_SendMsg m cs) as [cs' [[]|e|q|]] eqn:E; intros [= <-]; cbn; intros [= <- <-]; [| |by right; left|by right; right];
        left; (do 2 eexists; split; [done|]); by econstructor.
  - unfold out_action. destruct x as [inp [|m|e] cs]; cbn [px_in px_cs px_out]; [| |done].
    + destruct (cs_RecvMsg cs) as [[cs' [m|e|q|]]|] eqn:E; intros [= <-]; cbn; intros [= <- <-]; [| |by right; left|by right; right];
        left; (do 2 eexists; split; [done|]); by econstructor.
    + intros [= <-]. cbn [run]. destruct (SendMsg m s) as [s1 [[]|e|q|]] eqn:E; cbn; intros [= <- <-]; [| |by right; left|by right; right];
        left; (do 2 eexists; split; [done|]); by econstructor.
Qed.

Lemma forward_unfold sched x :
  forward md sched x =
    match proxy_result (IsStreamingClient md) x with
    | Some p => p
    | None =>
        match sched with
        | [] => PStuck
        | who :: sched =>
            match proxy_action md who x with
            | Some p => pbind p (forward md sched)
            | None => forward md sched x
            end
        end
    end.
Proof. by destruct sched. Qed.

(** A call that returns has gone through the transition system to its end. *)
Lemma forward_trace sched x (s s' : S) o :
  run (forward md sched x) s = (s', o) -> (o = Ok tt \/ exists e, o = Err e) ->
  exists tr s1 x1 p, proxy_trace (s, x) tr (s1, x1) /\
    proxy_result (IsStreamingClient md) x1 = Some p /\ run p s1 = (s', o).
Proof.
  intros Hrun Ho. revert x s Hrun. induction sched as [|who sched IH]; intros x s; rewrite forward_unfold;
    (destruct (proxy_result _ x) as [p|] eqn:Er; [intros; by exists [], s, x, p; split_and!; [constructor|..]|]).
  { intros [= <- <-]. by destruct Ho as [|[]]. }
  destruct (proxy_action md who x) as [p|] eqn:Ea; [|by apply IH].
  rewrite run_pbind. destruct (run p s) as [s1 o1] eqn:E1.
  destruct (proxy_action_step _ _ _ _ _ _ Ea E1) as [(x1 & es & -> & Hs)|[Hp| ->]].
  - intros (tr & s2 & x2 & p2 & Ht & ? & ?)%IH. exists (es ++ tr), s2, x2, p2. split_and!; [by econstructor|done..].
  - destruct o1; [done..| |done]. intros [= <- <-]. by destruct Ho as [|[]].
  - intros [= <- <-]. by destruct Ho as [|[]].
Qed.

(** ** What a call does to messages *)

Definition received (tr : list event) : list Message := omap (fun e => match e with Received m => Some m | _ => None end) tr.
Definition forwarded (tr : list event) : list Message := omap (fun e => match e with Forwarded m => Some m | _ => None end) tr.
Definition replied (tr : list event) : list Message := omap (fun e => match e with Replied m => Some m | _ => None end) tr.
Definition sent (tr : list event) : list Message := omap (fun e => match e with Sent m => Some m | _ => None end) tr.

(** The message that a goroutine holds. *)
Definition in_hand (x : proxy) : list Message := match px_in x with InSend m => [m] | _ => [] end.
Definition out_hand (x : proxy) : list Message := match px_out x with OutSend m => [m] | _ => [] end.

(** The goroutine may end with a message that the backend did not take, and so may the
    loop with one that the client did not. *)
Lemma trace_messages c tr c' :
  proxy_trace c tr c' ->
  (exists lost, in_hand c.2 ++ received tr = forwarded tr ++ in_hand c'.2 ++ lost /\
     (lost <> [] -> exists e, px_in c'.2 = InDone e)) /\
  (exists lost, out_hand c.2 ++ replied tr = sent tr ++ out_hand c'.2 ++ lost /\
     (lost <> [] -> exists e, px_out c'.2 = OutDone (Some e))).
Proof.
  assert (Hin : forall c tr c', proxy_trace c tr c' -> forall e, px_in c.2 = InDone e -> px_in c'.2 = InDone e /\ received tr = [] /\ forwarded tr = []).
  { clear. induction 1 as [|who c1 c2 c3 es tr Hs _ IH]; [by intros|]. intros e He.
    destruct Hs; simpl in *; try congruence; destruct (IH e He) as (? & ? & ?); try done. }
  assert (Hout : forall c tr c', proxy_trace c tr c' -> forall e, px_out c.2 = OutDone e -> px_out c'.2 = OutDone e /\ replied tr = [] /\ sent tr = []).
  { clear. induction 1 as [|who c1 c2 c3 es tr Hs _ IH]; [by intros|]. intros e He.
    destruct Hs; simpl in *; try congruence; destruct (IH e He) as (? & ? & ?); try done. }
  induction 1 as [c|who c1 c2 c3 es tr Hs Ht [(l1 & E1 & L1) (l2 & E2 & L2)]].
  { split; exists []; simpl; by rewrite ?app_nil_r. }
  unfold in_hand, out_hand in *. destruct Hs; simpl in *;
    try match type of Ht with context [IsStreamingServer md] => destruct (IsStreamingServer md) end; simpl in *;
    (split; [try (exists l1; split; [first [exact E1|simpl; congruence]|exact L1])
            |try (exists l2; split; [first [exact E2|simpl; congruence]|exact L2])]).
  - destruct (Hin _ _ _ Ht e eq_refl) as (Hi & -> & ->). exists [m]. rewrite Hi. split; [done|by eexists].
  - destruct (Hout _ _ _ Ht _ eq_refl) as (Hi & -> & ->). exists [m]. rewrite Hi. split; [done|by eexists].
Qed.

Lemma proxy_result_out x p : proxy_result (IsStreamingClient md) x = Some p -> exists e, px_out x = OutDone e.
Proof. unfold proxy_result. destruct (px_out x); [done..|by eexists]. Qed.

(** How a call ends: the error of a side, or the backend's trailer and nil. *)
Lemma proxy_result_run x p (s s' : S) o :
  proxy_result (IsStreamingClient md) x = Some p -> run p s = (s', o) ->
  (exists e, o = Err e /\ s' = s /\ isStreamError (Some e) = true /\ (px_out x = OutDone (Some e) \/ px_in x = InDone e)) \/
  (o = Ok tt /\ s' = SetTrailer (cs_Trailer (px_cs x)) s /\
   (exists e, px_out x = OutDone e /\ isStreamError e = false) /\
   (IsStreamingClient md = true -> exists e, px_in x = InDone e /\ isStreamError (Some e) = false)).
Proof.
  unfold proxy_result. destruct (px_out x) as [| |oe] eqn:Eo; [done..|]. unfold stream_error.
  destruct (isStreamError oe) eqn:Es.
  { destruct oe as [e|]; [|done]. intros [= <-] [= <- <-]. left. exists e. by split_and!; [..|left]. }
  destruct (IsStreamingClient md).
  - destruct (px_in x) as [| |e] eqn:Ei; [done..|]. destruct (isStreamError (Some e)) eqn:Ee; intros [= <-] [= <- <-].
    + left. exists e. by split_and!; [..|right].
    + right. split_and!; [done|done|by eexists|by eexists].
  - intros [= <-] [= <- <-]. right. split_and!; [done|done|by eexists|done].
Qed.

(** C14 A forwarded stream, under every order in which its two goroutines run: what
    the backend gets are the client's messages, and what the client gets are the
    backend's replies, each in order, none made up or repeated, none left out but
    possibly the last one before an error.  The call fails with the error of a side;
    it succeeds when each side has ended, and then the client gets every reply that it
    took and the backend's trailer. *)
Theorem proxy_forwards sched cs (s s' : S) o :
  run (forward md sched (Proxy InRecv OutRecv cs)) s = (s', o) -> (o = Ok tt \/ exists e, o = Err e) ->
  exists tr s1 x1, proxy_trace (s, Proxy InRecv OutRecv cs) tr (s1, x1) /\
    forwarded tr `prefix_of` received tr /\ sent tr `prefix_of` replied tr /\
    (exists oe, px_out x1 = OutDone oe /\ (oe = None -> sent tr = replied tr)) /\
    ((exists e, o = Err e /\ s' = s1 /\ (px_out x1 = OutDone (Some e) \/ px_in x1 = InDone e)) \/
     (o = Ok tt /\ s' = SetTrailer (cs_Trailer (px_cs x1)) s1 /\
      (IsStreamingClient md = true -> exists e, px_in x1 = InDone e /\ isStreamError (Some e) = false))).
Proof.
  intros Hrun Ho. destruct (forward_trace _ _ _ _ _ Hrun Ho) as (tr & s1 & x1 & p & Ht & Hp & Hr).
  exists tr, s1, x1. destruct (trace_messages _ _ _ Ht) as [(l1 & E1 & _) (l2 & E2 & L2)]. simpl in *.
  destruct (proxy_result_out _ _ Hp) as [oe Eo]. split_and!.
  - done.
  - rewrite E1. by apply prefix_app_r.
  - rewrite E2. by apply prefix_app_r.
  - exists oe. split; [done|]. intros ->. rewrite E2. unfold out_hand. rewrite Eo.
    destruct l2 as [|? ?]; [by rewrite app_nil_r|]. destruct (L2 ltac:(done)) as [? ?]. congruence.
  - destruct (proxy_result_run _ _ _ _ _ Hp Hr) as [(e & ? & ? & _ & ?)|(? & ? & _ & ?)]; [left; by exists e|by right].
Qed.

(** ** Calls that end *)

Definition turns (who : bool) (sched : list bool) : nat := length (filter (fun b => b = who) sched).

Lemma turns_cons who b sched : turns who (b :: sched) = (if eqb b who then 1 else 0) + turns who sched.
Proof. unfold turns. rewrite filter_cons. by destruct b, who. Qed.

Section Ends.
(** A client with at most [mS s] more messages, a backend with at most [mC cs] more
    replies, of which a message it gets adds at most [g]; every call returns. *)
Context (mS : S -> nat) (mC : ClientStream -> nat) (g : nat).
Hypothesis client_recv : forall s m s' m' o, RecvMsg (s, m) = ((s', m'), o) -> o <> OutOfFuel /\ (o = Ok tt -> mS s' < mS s).
Hypothesis client_send : forall s m s' o, SendMsg m s = (s', o) -> o <> OutOfFuel /\ mS s' <= mS s.
Hypothesis backend_recv : forall cs, exists cs' o, cs_RecvMsg cs = Some (cs', o) /\ o <> OutOfFuel /\ (forall m, o = Ok m -> mC cs' < mC cs).
Hypothesis backend_send : forall cs m cs' o, cs_SendMsg m cs = (cs', o) -> o <> OutOfFuel /\ mC cs' <= mC cs + g.

(** The turns that a goroutine still takes. *)
Definition in_work (c : config) : nat :=
  match px_in c.2 with InRecv => 2 * mS c.1 + 1 | InSend _ => 2 * mS c.1 + 2 | InDone _ => 0 end.
Definition sends (c : config) : nat :=
  match px_in c.2 with InRecv => mS c.1 | InSend _ => mS c.1 + 1 | InDone _ => 0 end.
Definition out_work (c : config) : nat :=
  match px_out c.2 with
  | OutRecv => 2 * (mC (px_cs c.2) + g * sends c) + 1
  | OutSend _ => 2 * (mC (px_cs c.2) + g * sends c) + 2
  | OutDone _ => 0
  end.

Lemma step_work who c es c' :
  proxy_step who c es c' ->
  (if who then in_work c' < in_work c /\ out_work c' <= out_work c
   else in_work c' <= in_work c /\ out_work c' < out_work c).
Proof using client_recv client_send backend_recv backend_send.
  unfold in_work, out_work, sends. intros [s s' m out cs Hc E|s s' m out cs e Hc E|s m out cs cs' Hc E|s m out cs cs' e Hc E
    |s m inp cs cs' E|s inp cs cs' e E|s s' m inp cs E|s s' m inp cs e E]; simpl.
  - destruct (client_recv _ _ _ _ _ E) as [_ Hl]. specialize (Hl eq_refl). destruct out; nia.
  - destruct out; nia.
  - destruct (backend_send _ _ _ _ E) as [_ Hl]. destruct out; nia.
  - destruct (backend_send _ _ _ _ E) as [_ Hl]. destruct out; nia.
  - destruct (backend_recv cs) as (? & ? & E' & _ & Hl). rewrite E in E'. injection E' as <- <-.
    specialize (Hl _ eq_refl). destruct inp; nia.
  - destruct inp; nia.
  - destruct (client_send _ _ _ _ E) as [_ Hl]. destruct inp, (IsStreamingServer md); simpl; nia.
  - destruct (client_send _ _ _ _ E) as [_ Hl]. destruct inp; nia.
Qed.

(** No turn of a goroutine is without an outcome. *)
Lemma action_returns who x p (s : S) : proxy_action md who x = Some p -> snd (run p s) <> OutOfFuel.
Proof using client_recv client_send backend_recv backend_send.
  unfold proxy_action, in_action, out_action. destruct who.
  - destruct (IsStreamingClient md); [|done]. destruct (px_in x) as [|m|e]; [| |done].
    + intros [= <-]. cbn [run]. destruct (RecvMsg _) as [[s' m] o] eqn:E. destruct (client_recv _ _ _ _ _ E) as [Ho _].
      by destruct o as [[]|e|q|].
    + destruct (cs_SendMsg _ _) as [cs o] eqn:E. destruct (backend_send _ _ _ _ E) as [Ho _].
      intros [= <-]. by destruct o as [[]|e|q|].
  - destruct (px_out x) as [|m|e]; [| |done].
    + destruct (backend_recv (px_cs x)) as (cs & o & -> & Ho & _). intros [= <-]. by destruct o as [m|e|q|].
    + intros [= <-]. cbn [run]. destruct (SendMsg m s) as [s' o] eqn:E. destruct (client_send _ _ _ _ E) as [Ho _].
      by destruct o as [[]|e|q|].
Qed.

(** A goroutine that has no turn has ended. *)
Lemma action_none who (s : S) x :
  proxy_action md who x = None ->
  (if who then IsStreamingClient md = false \/ in_work (s, x) = 0 else out_work (s, x) = 0).
Proof using backend_recv.
  unfold proxy_action, in_action, out_action, in_work, out_work. destruct who; simpl.
  - destruct (IsStreamingClient md); [|by left]. right. destruct (px_in x) as [|m|e]; [done| |done].
    by destruct (cs_SendMsg _ _).
  - destruct (px_out x) as [|m|e]; [|done..]. destruct (backend_recv (px_cs x)) as (cs & o & -> & _). done.
Qed.

(** C27 A forwarded stream ends: with a client of finitely many messages and a backend
    of finitely many replies, none of whose calls waits for ever, every schedule with
    enough turns for both goroutines brings the call to its end. *)
Theorem forward_ends sched (s : S) x :
  (IsStreamingClient md = true -> in_work (s, x) <= turns true sched) -> out_work (s, x) <= turns false sched ->
  snd (run (forward md sched x) s) <> OutOfFuel.
Proof using client_recv client_send backend_recv backend_send.
  revert x s. induction sched as [|who sched IH]; intros x s Hin Hout; rewrite forward_unfold;
    (destruct (proxy_result _ x) as [p|] eqn:Er;
     [destruct (run p s) as [s' o] eqn:E; destruct (proxy_result_run _ _ _ _ _ Er E) as [(e & -> & _)|[-> _]]; done|]).
  - exfalso. unfold proxy_result, in_work, out_work, turns in *. simpl in *.
    destruct (px_out x) as [| |oe]; [lia..|]. destruct (stream_error oe); [done|].
    destruct (IsStreamingClient md); [|done]. specialize (Hin eq_refl). destruct (px_in x); [lia..|done].
  - destruct (proxy_action md who x) as [p|] eqn:Ea.
    + rewrite run_pbind. pose proof (action_returns _ _ _ s Ea) as Hne. destruct (run p s) as [s1 o1] eqn:E1.
      destruct (proxy_action_step _ _ _ _ _ _ Ea E1) as [(x1 & es & -> & Hs)|[Hp| ->]]; [|by destruct o1|done].
      apply step_work in Hs. rewrite !turns_cons in Hin, Hout.
      apply IH; destruct who; cbn [eqb] in *; intros; try specialize (Hin ltac:(done)); lia.
    + pose proof (action_none _ s _ Ea) as Hn. rewrite !turns_cons in Hin, Hout.
      apply IH; destruct who; cbn [eqb] in *; intros;
        try (destruct Hn as [Hn|Hn]; [congruence|]); try specialize (Hin ltac:(done)); lia.
Qed.
End Ends.

(** ** Calls that do not end *)

(** The client's side of a forwarded stream is never closed: a backend that waits
    for the end of the client's messages before it answers, as a client-streaming
    method does, waits for ever, and so does the call, although its client has ended. *)
Theorem forward_never_half_closes (waiting : ClientStream -> Prop) cc name (s s1 : S) m cs cs1 :
  (forall cs, waiting cs -> cs_RecvMsg cs = None) ->
  (forall cs m cs' o, waiting cs -> cs_SendMsg m cs = (cs', o) -> waiting cs') ->
  IsStreamingClient md = true ->
  RecvMsg (s, NewMessage (Input md)) = ((s1, m), Ok tt) ->
  NewStream cc (Context_ s) (incoming (Context_ s)) true (IsStreamingServer md) name = Ok cs ->
  cs_SendMsg m cs = (cs1, Ok tt) -> waiting cs1 ->
  forall s' o, run (proxy_stream md cc name) s = (s', o) -> o <> Ok tt /\ forall e, o <> Err e.
Proof.
  intros Hw Hsend Hc Hr Hn Hs Hcs s' o. unfold proxy_stream. cbn [run]. rewrite Hr. cbn [returned on_nil].
  rewrite Hc, Hn. cbn [lift_prog pbind]. rewrite Hs. cbn [lift_prog pbind]. intros Hrun.
  assert (H : ~ (o = Ok tt \/ exists e, o = Err e)).
  { intros Ho. destruct (forward_trace _ _ _ _ _ Hrun Ho) as (tr & s2 & x2 & p & Ht & Hp & _).
    assert (Hinv : forall c tr c', proxy_trace c tr c' -> px_out c.2 = OutRecv /\ waiting (px_cs c.2) ->
      px_out c'.2 = OutRecv /\ waiting (px_cs c'.2)).
    { clear -Hw Hsend. induction 1 as [|who c1 c2 c3 es tr Hs _ IH]; [done|]. intros [Ho Hc]. apply IH.
      destruct Hs; simpl in *; try done; try (split; [done|by eapply Hsend]);
        match goal with H : cs_RecvMsg _ = _ |- _ => by rewrite (Hw _ Hc) in H end. }
    destruct (Hinv _ _ _ Ht (conj eq_refl Hcs)) as [Hout _]. destruct (proxy_result_out _ _ Hp) as [e He]. simpl in *. congruence. }
  split; [intros ->|intros e ->]; apply H; [by left|right; by eexists].
Qed.
End Proxy.

(** ** Witnesses *)

(** A client and a backend that send the messages of a list; the backend then ends the
    call, or waits for the end of the client's messages. *)
Module SampleProxy.
Record script := Script { sp_in : list (@Message plain_proto); sp_out : list (@Message plain_proto); sp_trailer : MD }.
#[export] Instance script_stream : @ServerStream plain_proto script := {|
  Context_ _ := MkContext None [] [];
  SetHeader _ s := (s, Ok tt);
  SendHeader _ s := (s, Ok tt);
  SetTrailer md s := Script (sp_in s) (sp_out s) md;
  SendMsg m s := (Script (sp_in s) (sp_out s ++ [m]) (sp_trailer s), Ok tt);
  RecvMsg '(s, m) := match sp_in s with
                     | [] => ((s, m), Err EOF)
                     | m :: ms => ((Script ms (sp_out s) (sp_trailer s), m), Ok tt)
                     end;
|}.

Record call := Call { cl_replies : list (@Message plain_proto); cl_got : list (@Message plain_proto) }.
Definition script_backend (waits : bool) (replies : list (@Message plain_proto)) (sched : list bool) : @Backend plain_proto := {|
  ClientStream := call;
  Invoke _ _ _ _ m _ := Ok m;
  NewStream _ _ _ _ _ _ := Ok (Call replies []);
  cs_SendMsg m c := (Call (cl_replies c) (cl_got c ++ [m]), Ok tt);
  cs_RecvMsg c := match cl_replies c with
                  | [] => if waits then None else Some (c, Err EOF)
                  | m :: ms => Some (Call ms (cl_got c), Ok m)
                  end;
  cs_Trailer _ := ∅;
  schedule _ := sched;
|}.

Definition msg (t : string) : @Message plain_proto := XText (XMessage "pkg.M" []) t.
Definition bidi : @MethodDescriptor plain_proto := XMethod "pkg.S.Talk" (XMessage "pkg.M" []) (XMessage "pkg.M" []) true true None.
Definition client : script := Script [msg "b"; msg "c"] [] ∅.
(** the goroutines take turns *)
Definition turn_by_turn : list bool := [true; false; true; false; true; false; true; false; true; false].
Definition backend := script_backend false [msg "x"; msg "y"] turn_by_turn.
End SampleProxy.
Import SampleProxy.

Lemma proxy_forwards_witness :
  let cs : @ClientStream _ backend := Call [msg "x"; msg "y"] [msg "a"] in
  exists s' o, run (forward (BK := backend) bidi turn_by_turn (Proxy (BK := backend) InRecv OutRecv cs)) client = (s', o) /\
    o = Ok tt /\ sp_out s' = [msg "x"; msg "y"] /\
    exists tr s1 x1, proxy_trace (BK := backend) bidi (client, Proxy (BK := backend) InRecv OutRecv cs) tr (s1, x1) /\
      forwarded tr `prefix_of` received tr /\ sent tr `prefix_of` replied tr.
Proof.
  intros cs. eexists _, _. split; [vm_compute; reflexivity|]. split; [done|]. split; [done|].
  edestruct (proxy_forwards (BK := backend) bidi turn_by_turn cs client) as (tr & s1 & x1 & Ht & H1 & H2 & _);
    [vm_compute; reflexivity|by left|]. by exists tr, s1, x1.
Defined.

Lemma forward_ends_witness :
  let cs : @ClientStream _ backend := Call [msg "x"; msg "y"] [msg "a"] in
  snd (run (forward (BK := backend) bidi turn_by_turn (Proxy (BK := backend) InRecv OutRecv cs)) client) <> OutOfFuel.
Proof.
  intros cs. apply (forward_ends (BK := backend) bidi (fun s => length (sp_in s)) (fun c => length (cl_replies c)) 0).
  - intros [[|m ms] out t] m0 s' m' o; simpl; intros [= <- _ <-]; (split; [done|]); simpl; intros; [done|lia].
  - intros [ins out t] m s' o; simpl. by intros [= <- <-].
  - intros [[|m ms] got]; simpl; eexists _, _; (split; [reflexivity|]); (split; [done|]); simpl; intros; [done|lia].
  - intros [rs got] m cs' o; simpl. intros [= <- <-]. split; [done|simpl; lia].
  - vm_compute. lia.
  - vm_compute. lia.
Defined.

(** A backend of a client-streaming method, and a client that ends after one message. *)
Lemma forward_never_half_closes_witness :
  let B := script_backend true [] (repeat true 5 ++ repeat false 5) in
  run (proxy_stream (BK := B) bidi 0 "/pkg.S/Talk") client <> (Script [] [] ∅, Ok tt) /\
  snd (run (proxy_stream (BK := B) bidi 0 "/pkg.S/Talk") client) = OutOfFuel.
Proof.
  intros B. split; [|vm_compute; reflexivity]. intros H.
  apply (forward_never_half_closes (BK := B) bidi (fun c => cl_replies c = []) 0 "/pkg.S/Talk" client
    (Script [msg "c"] [] ∅) (msg "b") (Call [] []) (Call [] [msg "b"])) in H; [by destruct H|..]; try reflexivity.
  - intros [rs got] Hr. simpl in *. by rewrite Hr.
  - intros [rs got] m cs' o Hr [= <- _]. exact Hr.
Defined.
