(* ===== verification/ConnSpec.v ===== *)
(** The theorems of connections: what [RegisterConn] leaves in the mux of the files that
    a backend reflects, when the resolution of imports ends, which handlers a removed
    connection takes with it, and the invariant of every mux that registrations make,
    those that replace a known connection among them. *)

#[local] Set Warnings "-register-all".
From S2P Require Import Prelude Status Runes IO Http Base64 Proto Lexer Params Metadata Compress Codec Selector Stream Routes RouteTree RouteRules RouteWalk RouteAdd RouteSearch RouteDelete RouteNames GrpcStream Mux MuxSpec Conn ProxySpec.

(** ** The resolution of imports *)

Section Resolve.
Context `{P : Protoreflect} `{RF : @Reflection P}.

(** A builder that asks for files of a lower rank only. *)
Fixpoint asks_below {A} (rank : string -> nat) (n : nat) (p : resolve A) : Prop :=
  match p with
  | RsReturn _ | RsError _ => True
  | RsFile path k => rank path < n /\ forall x, asks_below rank n (k x)
  | RsName _ k => forall x, asks_below rank n (k x)
  end.

Lemma run_resolve_ends {A} rank n FindFile (p : resolve A) r :
  asks_below rank n p -> (forall path r, rank path < n -> snd (FindFile path r) <> OutOfFuel) ->
  snd (run_resolve FindFile p r) <> OutOfFuel.
Proof.
  intros Hp HF. revert r Hp. induction p as [a|e|path k IH|name k IH]; intros r Hp; cbn [run_resolve]; [done|done| |].
  - destruct Hp as [Hr Hk]. specialize (HF path r Hr). destruct (FindFile path r) as [r' [fd|e|q|]]; simpl in *; auto.
  - apply IH, Hp.
Qed.

Context (rank : string -> nat).
Hypothesis answers : forall req c, snd (rs_Send req c) <> OutOfFuel /\ snd (rs_Recv c) <> OutOfFuel.
Hypothesis builds : forall b, Unmarshal_file b <> OutOfFuel.
Hypothesis registers : forall fs fd, RegisterFile fs fd <> OutOfFuel.
(** What the backend sends for a path imports files of a lower rank. *)
Hypothesis imports : forall path c c' c'' fdr fdb fdp,
  rs_Send (FileByFilename path) c = (c', Ok tt) -> rs_Recv c' = (c'', Ok fdr) ->
  fdb ∈ GetFileDescriptorProto fdr -> Unmarshal_file fdb = Ok fdp -> asks_below rank (rank path) (NewFile fdp).

Lemma register_files_ends n FindFile path fdbs f r :
  (forall path r, rank path < n -> snd (FindFile path r) <> OutOfFuel) ->
  (forall fdb fdp, fdb ∈ fdbs -> Unmarshal_file fdb = Ok fdp -> asks_below rank n (NewFile fdp)) ->
  snd (register_files FindFile path fdbs f r) <> OutOfFuel.
Proof using builds registers.
  intros HF. revert f r. induction fdbs as [|fdb fdbs IH]; intros f r Hb; cbn [register_files]; [done|].
  unfold mbind, st_bind, lift. pose proof (builds fdb) as Hfdb. destruct (Unmarshal_file fdb) as [fdp|e|q|] eqn:E; try done.
  pose proof (run_resolve_ends rank n FindFile (NewFile fdp) r (Hb _ _ ltac:(left) E) HF) as Hrun.
  destruct (run_resolve FindFile (NewFile fdp) r) as [r1 [file|e|q|]]; try done.
  unfold rv_RegisterFile. pose proof (registers (rv_files r1) file) as Hreg.
  destruct (RegisterFile (rv_files r1) file) as [fs|e|q|]; try done.
  apply IH. intros b p Hin. apply Hb. by right.
Qed.

(** C39 The resolution of an import ends when the files that the backend sends import
    files of a lower rank: it goes as deep as the rank of the path, and no deeper. *)
Theorem resolver_ends fuel path (r : resolver) :
  rank path < fuel -> snd (resolver_FindFileByPath fuel path r) <> OutOfFuel.
Proof using answers builds registers imports.
  revert path r. induction fuel as [|fuel IH]; intros path r Hf; [lia|]. cbn [resolver_FindFileByPath].
  destruct (FindFileByPath (rv_files r) path); [done|]. unfold mbind, st_bind, on_client.
  destruct (rs_Send (FileByFilename path) (rv_stream r)) as [c' o1] eqn:E1.
  pose proof (proj1 (answers (FileByFilename path) (rv_stream r))) as H1. rewrite E1 in H1.
  destruct o1 as [[]|e|q|]; try done. cbn [rv_stream].
  destruct (rs_Recv c') as [c'' o2] eqn:E2. pose proof (proj2 (answers (FileByFilename path) c')) as H2. rewrite E2 in H2.
  destruct o2 as [fdr|e|q|]; try done.
  match goal with |- context [register_files ?F path ?l None ?r0] =>
    pose proof (register_files_ends (rank path) F path l None r0) as H3;
    destruct (register_files F path l None r0) as [r1 o3]
  end.
  assert (Ho3 : o3 <> OutOfFuel).
  { apply H3; [intros p r2 Hp; apply IH; lia|]. intros fdb fdp Hin Hfdp. by eapply imports. }
  destruct o3 as [[f|]|e|q|]; done.
Qed.
End Resolve.

Section Cycle.
Context `{P : Protoreflect} `{RF : @Reflection P}.

(** A backend whose files import each other in a circle makes the resolution recur
    without end: at any depth it still has a file to ask for. *)
Theorem resolver_cycle (cycle : string -> Prop) :
  (forall path c, cycle path -> exists c' c'' svcs fdb fdbs fdp path' k,
     rs_Send (FileByFilename path) c = (c', Ok tt) /\ rs_Recv c' = (c'', Ok (MkReflectionResponse svcs (fdb :: fdbs))) /\
     Unmarshal_file fdb = Ok fdp /\ NewFile fdp = RsFile path' k /\ cycle path') ->
  forall fuel path (r : resolver),
    cycle path -> (forall path, cycle path -> FindFileByPath (rv_files r) path = None) ->
    snd (resolver_FindFileByPath fuel path r) = OutOfFuel.
Proof.
  intros Hcyc. induction fuel as [|fuel IH]; intros path r Hp Hnew; cbn [resolver_FindFileByPath]; rewrite (Hnew path Hp); [done|].
  destruct (Hcyc path (rv_stream r) Hp) as (c' & c'' & svcs & fdb & fdbs & fdp & path' & k & E1 & E2 & E3 & E4 & Hp').
  unfold mbind, st_bind, on_client. rewrite E1. cbn [rv_stream]. rewrite E2. cbn [rv_stream rv_files register_files GetFileDescriptorProto].
  unfold mbind, st_bind, lift. rewrite E3, E4. cbn [run_resolve].
  pose proof (IH path' (Resolver c'' (rv_files r)) Hp' Hnew) as H.
  destruct (resolver_FindFileByPath fuel path' _) as [r1 o]. simpl in H. by subst o.
Qed.
End Cycle.

(** ** Removal *)

Section Remove.
Context `{U : Unicode} `{P : Protoreflect}.

(** The handlers of a name that are none of a connection's. *)
Definition others (cl : list handler) (name : string) (hds : list handler) : list handler :=
  filter (fun hd => ~ Exists (fun h => h_method h = name /\ h_id h = h_id hd) cl) hds.

Definition served (s : state) (name : string) : list handler := default [] (st_handlers s !! name).

Lemma remove_one_served s hd name :
  served (remove_one s hd) name = filter (fun h => ~ (h_method hd = name /\ h_id hd = h_id h)) (served s name).
Proof.
  unfold remove_one, served. set (hds := filter (fun mhd => h_id mhd <> h_id hd) _).
  destruct (decide (h_method hd = name)) as [Hn|Hn].
  - assert (E : filter (fun h => ~ (h_method hd = name /\ h_id hd = h_id h)) (default [] (st_handlers s !! name)) = hds).
    { unfold hds. rewrite Hn. apply list_filter_iff. intros h. split; [intros H E; apply H; by rewrite E|intros H [_ E]; congruence]. }
    rewrite E. clearbody hds. destruct hds as [|h l]; simpl; rewrite Hn.
    + by rewrite lookup_delete_eq.
    + by rewrite lookup_insert_eq.
  - assert (E : filter (fun h => ~ (h_method hd = name /\ h_id hd = h_id h)) (default [] (st_handlers s !! name)) = default [] (st_handlers s !! name)).
    { apply list_filter_all. apply Forall_forall. by intros h _ [? _]. }
    rewrite E. destruct hds as [|h l]; simpl; [by rewrite lookup_delete_ne|by rewrite lookup_insert_ne].
Qed.

Lemma remove_all_served cl s name : served (foldl remove_one s cl) name = others cl name (served s name).
Proof.
  unfold others. revert s. induction cl as [|hd cl IH]; intros s; simpl.
  - symmetry. apply list_filter_all, Forall_forall. intros h _ H. by inversion H.
  - rewrite IH, remove_one_served, list_filter_filter. apply list_filter_iff. intros h.
    rewrite Exists_cons. tauto.
Qed.

Lemma remove_all_conns cl s : st_conns (foldl remove_one s cl) = st_conns s.
Proof.
  revert s. induction cl as [|hd cl IH]; intros s; simpl; [done|]. rewrite IH. unfold remove_one. by case_match.
Qed.

(** Removing a connection takes its handlers and no other: of every name the
    handlers of other connections stay, in their order, and a name without a handler
    is gone; only that connection is forgotten. *)
Theorem removeHandler_spec cc s s' b :
  removeHandler cc s = (s', b) ->
  b = bool_decide (is_Some (st_conns s !! cc)) /\ st_conns s' = delete cc (st_conns s) /\
  forall name, served s' name = match st_conns s !! cc with Some cl => others (cl_handlers cl) name (served s name) | None => served s name end.
Proof.
  unfold removeHandler. destruct (st_conns s !! cc) as [cl|] eqn:E; intros [= <- <-].
  - split_and!; [by rewrite bool_decide_eq_true_2 by by eexists| |].
    + simpl. by rewrite remove_all_conns.
    + intros name. apply (remove_all_served (cl_handlers cl) s name).
  - split_and!; [by rewrite bool_decide_eq_false_2 by by intros []|by rewrite delete_id|done].
Qed.
End Remove.

(** ** Registration of a connection *)

Section RegisterConn.
Context `{U : Unicode} `{P : Protoreflect} {M : Messages} `{R : GoRange} `{RF : @Reflection P} `{BK : @Backend P}.

(** A method whose names the lexer takes and whose annotation is good. *)
Definition reflected_ok (x : ServiceDescriptor * MethodDescriptor) : Prop :=
  names_ok (ServiceFullName x.1) (MethodName x.2) /\ annotation_ok x.2.

(** What the handlers of a connection are: one for each method, in order. *)
Definition conn_handlers (cc n : nat) (ms : list (ServiceDescriptor * MethodDescriptor)) : list handler :=
  imap (fun i '(sd, md) => createConnHandler md (n + i) cc sd) ms.

Lemma conn_handlers_cons cc n sd md ms :
  conn_handlers cc n ((sd, md) :: ms) = createConnHandler md n cc sd :: conn_handlers cc (S n) ms.
Proof.
  unfold conn_handlers. rewrite imap_cons, Nat.add_0_r. f_equal. apply imap_ext. intros i [sd' md'] _. simpl.
  by rewrite Nat.add_succ_r.
Qed.

Lemma conn_handlers_app cc n ms ms' :
  conn_handlers cc n (ms ++ ms') = conn_handlers cc n ms ++ conn_handlers cc (n + length ms) ms'.
Proof.
  unfold conn_handlers. rewrite imap_app. f_equal. apply imap_ext. intros i [sd md] _. simpl.
  by rewrite (Nat.add_assoc n), (Nat.add_comm n).
Qed.

Lemma conn_handlers_at cc n ms sd md : (sd, md) ∈ ms -> exists i, createConnHandler md i cc sd ∈ conn_handlers cc n ms.
Proof.
  intros [i Hi]%list_elem_of_lookup. exists (n + i). apply list_elem_of_lookup. exists i. unfold conn_handlers.
  by rewrite list_lookup_imap, Hi.
Qed.

Lemma conn_handlers_elem cc n ms hd :
  hd ∈ conn_handlers cc n ms -> exists i sd md, (sd, md) ∈ ms /\ hd = createConnHandler md i cc sd.
Proof.
  intros [i Hi]%list_elem_of_lookup. unfold conn_handlers in Hi. rewrite list_lookup_imap in Hi.
  destruct (ms !! i) as [[sd md]|] eqn:E; [|done]. injection Hi as <-. exists (n + i), sd, md.
  split; [by eapply list_elem_of_lookup_2|done].
Qed.

Lemma files_methods_elem files sd md : (sd, md) ∈ files ≫= file_methods <->
  exists file, file ∈ files /\ sd ∈ FileServices file /\ md ∈ ServiceMethods sd.
Proof.
  unfold file_methods. rewrite list_elem_of_bind. split.
  - intros (file & (sd' & (md' & E & Hm)%list_elem_of_bind & Hs)%list_elem_of_bind & Hf).
    apply list_elem_of_singleton in E. injection E as -> ->. by exists file.
  - intros (file & Hf & Hs & Hm). exists file. split; [|done]. apply list_elem_of_bind. exists sd. split; [|done].
    apply list_elem_of_bind. exists md. split; [left|done].
Qed.

(** What registering handlers keeps and adds. *)
Definition adds (s s' : state) (hs : list handler) : Prop :=
  state_ok s' /\ st_conns s' = st_conns s /\
  (forall hd, hd ∈ hs -> st_handlers s' !! h_method hd = Some [hd]) /\
  (forall name hds, st_handlers s !! name = Some hds -> st_handlers s' !! name = Some hds).

Lemma adds_refl s : state_ok s -> adds s s [].
Proof. intros H. split_and!; [done|done|by intros hd ?%elem_of_nil|done]. Qed.

Lemma adds_trans s1 s2 s3 hs hs' : adds s1 s2 hs -> adds s2 s3 hs' -> adds s1 s3 (hs ++ hs').
Proof.
  intros (_ & C1 & H1 & K1) (O2 & C2 & H2 & K2). split_and!; [done|congruence| |auto].
  intros hd [Hin|Hin]%elem_of_app; [by apply K2, H1|by apply H2].
Qed.

Lemma process_methods_ok o cc ms s n s' n' hs :
  config_ok o -> Forall reflected_ok ms -> state_ok s ->
  process_methods o cc ms (s, n) = ((s', n'), Ok hs) ->
  adds s s' hs /\ hs = conn_handlers cc n ms /\ n' = n + length ms.
Proof.
  intros Hcfg Hms. revert s n hs. induction Hms as [|[sd md] ms [Hn Ha] Hms IH]; intros s n hs Hs; cbn [process_methods].
  { intros [= <- <- <-]. split_and!; [by apply adds_refl|done|simpl; lia]. }
  destruct (appendHandler o md (createConnHandler md n cc sd) s) as [s1 [[]|e|q|]] eqn:E1; [|intros [=]..].
  destruct (appendHandler_ok o Hcfg md (createConnHandler md n cc sd) _ _ s s1 Hn Ha eq_refl Hs E1) as (Hs1 & _ & Hc1 & Hnew & Hh1).
  unfold mbind, st_bind. destruct (process_methods o cc ms (s1, S n)) as [[s2 n2] [hs2|e|q|]] eqn:E2; [|intros [=]..].
  intros [= <- <- <-]. destruct (IH s1 (S n) hs2 Hs1 E2) as (Hadd & -> & ->).
  rewrite conn_handlers_cons. split_and!; [|done|simpl; lia].
  apply (adds_trans s s1 s2 [createConnHandler md n cc sd]); [|exact Hadd]. split_and!; [done|done| |].
  - intros hd ->%list_elem_of_singleton. rewrite Hh1. apply lookup_insert_eq.
  - intros name hds Hl. rewrite Hh1. destruct (decide (name = h_method (createConnHandler md n cc sd))) as [->|Hne]; [congruence|].
    by rewrite lookup_insert_ne.
Qed.

Lemma process_methods_wf D o cc ms s n s' n' hs :
  config_ok o -> Forall reflected_ok ms -> state_wf D s ->
  process_methods o cc ms (s, n) = ((s', n'), Ok hs) -> state_wf D s' /\ st_conns s' = st_conns s.
Proof.
  intros Hcfg Hms. revert s n hs. induction Hms as [|[sd md] ms [Hn Ha] Hms IH]; intros s n hs Hs; cbn [process_methods].
  { by intros [= <- <- <-]. }
  destruct (appendHandler o md (createConnHandler md n cc sd) s) as [s1 [[]|e|q|]] eqn:E1; [|intros [=]..].
  destruct (appendHandler_wf D o md (createConnHandler md n cc sd) _ _ s s1 Hcfg Hn Ha eq_refl Hs E1) as [Hs1 Hc1].
  unfold mbind, st_bind. destruct (process_methods o cc ms (s1, S n)) as [[s2 n2] [hs2|e|q|]] eqn:E2; [|intros [=]..].
  intros [= <- <- <-]. destruct (IH s1 (S n) hs2 Hs1 E2) as [? ?]. split; [done|congruence].
Qed.

Lemma process_methods_app o cc ms ms' sn sn1 sn2 hs hs' :
  process_methods o cc ms sn = (sn1, Ok hs) -> process_methods o cc ms' sn1 = (sn2, Ok hs') ->
  process_methods o cc (ms ++ ms') sn = (sn2, Ok (hs ++ hs')).
Proof.
  revert sn hs. induction ms as [|[sd md] ms IH]; intros [s n] hs; cbn [process_methods app]; [by intros [= <- <-]|].
  destruct (appendHandler o md (createConnHandler md n cc sd) s) as [s1 [[]|e|q|]]; [|intros [=]..].
  unfold mbind, st_bind. destruct (process_methods o cc ms (s1, S n)) as [sn3 [hs3|e|q|]] eqn:E; [|intros [=]..].
  intros [= <- <-] E2. by rewrite (IH _ _ E E2).
Qed.

(** *** What a backend reflects *)

(** It answers for each service with some bytes, one string for each file. *)
Inductive answered : ReflectionClient -> list string -> list string -> ReflectionClient -> Prop :=
  | answered_nil c : answered c [] [] c
  | answered_cons c svc svcs c1 c2 fdr bytes c3 :
      rs_Send (FileContainingSymbol svc) c = (c1, Ok tt) -> rs_Recv c1 = (c2, Ok fdr) -> answered c2 svcs bytes c3 ->
      answered c (svc :: svcs) (GetFileDescriptorProto fdr ++ bytes) c3.

(** One file of each name, the last. *)
Definition by_name (protos : list FileDescriptorProto) : gmap string FileDescriptorProto :=
  foldl (fun m fd => <[FileName fd := fd]> m) ∅ protos.

(** The files are built one after the other, with the imports that are resolved then. *)
Inductive builds (fuel : nat) : resolver -> list FileDescriptorProto -> list FileDescriptor -> Prop :=
  | builds_nil r : builds fuel r [] []
  | builds_cons r fdp fdps r' file files :
      run_resolve (resolver_FindFileByPath fuel) (NewFile fdp) r = (r', Ok file) -> builds fuel r' fdps files ->
      builds fuel r (fdp :: fdps) (file :: files).

(** The hash and the files that the backend of a connection reflects: it lists its
    services, and the bytes that it sends for them are those of the files. *)
Definition reflects (fuel cc : nat) (hash : string) (files : list FileDescriptor) : Prop :=
  exists c c1 c2 resp bytes c3 protos r,
    ServerReflectionInfo cc = Ok c /\ rs_Send ListServices c = (c1, Ok tt) /\ rs_Recv c1 = (c2, Ok resp) /\
    answered c2 (GetService resp) bytes c3 /\ Forall2 (fun b fd => Unmarshal_file b = Ok fd) bytes protos /\
    hash = Sum256 (str_concat bytes) /\ newResolver c3 = Ok r /\ builds fuel r (snd <$> range (by_name protos)) files.

Definition reflects_ok (fuel cc : nat) : Prop :=
  forall hash files, reflects fuel cc hash files -> Forall reflected_ok (files ≫= file_methods).

Lemma unmarshal_files_ok fdbb fds h fds' h' :
  unmarshal_files fdbb fds h = Ok (fds', h') ->
  exists protos, Forall2 (fun b fd => Unmarshal_file b = Ok fd) fdbb protos /\
    fds' = foldl (fun m fd => <[FileName fd := fd]> m) fds protos /\ h' = (h ++ str_concat fdbb)%string.
Proof.
  revert fds h. induction fdbb as [|fdb fdbb IH]; intros fds h; cbn [unmarshal_files str_concat].
  { intros [= <- <-]. exists []. by rewrite str_app_nil_r. }
  unfold mbind, outcome_bind. destruct (Unmarshal_file fdb) as [fd| | |] eqn:E; try done.
  intros (protos & HF & -> & ->)%IH. exists (fd :: protos). split_and!; [by constructor|done|by rewrite str_app_assoc].
Qed.

Lemma fetch_files_ok svcs fds h c c' fds' h' :
  fetch_files svcs fds h c = (c', Ok (fds', h')) ->
  exists bytes protos, answered c svcs bytes c' /\ Forall2 (fun b fd => Unmarshal_file b = Ok fd) bytes protos /\
    fds' = foldl (fun m fd => <[FileName fd := fd]> m) fds protos /\ h' = (h ++ str_concat bytes)%string.
Proof.
  revert fds h c. induction svcs as [|svc svcs IH]; intros fds h c; cbn [fetch_files].
  { intros [= <- <- <-]. exists [], []. split_and!; [constructor|done|done|by rewrite str_app_nil_r]. }
  intros (c1 & [] & E1 & (c2 & fdr & E2 & (c3 & [fds1 h1] & E3 & E4)%st_bind_ok)%st_bind_ok)%st_bind_ok.
  unfold lift in E3. injection E3 as <- E3. apply unmarshal_files_ok in E3 as (protos1 & HF1 & -> & ->).
  apply IH in E4 as (bytes & protos & Ha & HF & -> & ->). exists (GetFileDescriptorProto fdr ++ bytes), (protos1 ++ protos).
  split_and!; [by eapply answered_cons|by apply Forall2_app|by rewrite foldl_app|by rewrite str_concat_app, str_app_assoc].
Qed.

Lemma process_files_run fuel o cc fds r s n r' s' n' hs :
  process_files fuel o cc fds (r, (s, n)) = ((r', (s', n')), Ok hs) ->
  exists files, builds fuel r fds files /\ process_methods o cc (files ≫= file_methods) (s, n) = ((s', n'), Ok hs).
Proof.
  revert r s n hs. induction fds as [|fdp fds IH]; intros r s n hs; cbn [process_files].
  { intros [= <- <- <- <-]. exists []. split; [constructor|done]. }
  destruct (run_resolve _ (NewFile fdp) r) as [r1 [file|e|q|]] eqn:E0; [|intros [=]..].
  unfold processFile. destruct (process_methods o cc (file_methods file) (s, n)) as [[s1 n1] [hs1|e|q|]] eqn:E1; [|intros [=]..].
  unfold mbind, st_bind. destruct (process_files fuel o cc fds (r1, (s1, n1))) as [[r2 [s2 n2]] [hs2|e|q|]] eqn:E2; [|intros [=]..].
  intros [= <- <- <- <-]. destruct (IH _ _ _ _ E2) as (files & HB & HP). exists (file :: files).
  split; [by eapply builds_cons|]. rewrite bind_cons. by eapply process_methods_app.
Qed.

Lemma state_ok_conns f s : state_ok s -> state_ok (set_conns f s).
Proof. by intros [? ? ?]. Qed.

(** The connections of a mux. *)
Definition conns_of (m : Mux) : gmap nat connList := st_conns (state_clone (loadState m)).

(** What a call does: nothing, when it fails or the backend reflects the files that it
    had; else the handlers that the connection had are removed, and those of the files
    added. *)
Lemma RegisterConn_run fuel cc m m' r :
  RegisterConn fuel cc m = (m', r) ->
  opts m' = opts m /\
  ((loadState m' = loadState m /\ r <> Ok tt) \/
   (is_Some (conns_of m !! cc) /\ loadState m' = Some (state_clone (loadState m))) \/
   exists hash files s hs, reflects fuel cc hash files /\
     (forall cl, conns_of m !! cc = Some cl -> fdHash cl <> hash) /\
     process_methods (opts m) cc (files ≫= file_methods) (fst (removeHandler cc (state_clone (loadState m))), next_handler m) =
       ((s, next_handler m'), Ok hs) /\
     loadState m' = Some (set_conns <[cc := ConnList hs hash]> s)).
Proof.
  unfold RegisterConn. destruct (ServerReflectionInfo cc) as [c|e|q|] eqn:Ec; [|intros [= <- <-]; split; [done|by left]..].
  unfold addConnHandler. fold (conns_of m).
  destruct ((rs_Send ListServices;; resp ← rs_Recv; fetch_files (GetService resp) ∅ "") c) as [c1 [[fds h]|e|q|]] eqn:Ef;
    [|intros [= <- <-]; split; [done|by left]..].
  apply st_bind_ok in Ef as (c2 & [] & E1 & (c3 & resp & E2 & E3)%st_bind_ok).
  apply fetch_files_ok in E3 as (bytes & protos & Ha & HF & -> & ->). cbn [append].
  assert (Hs1 : match conns_of m !! cc with Some _ => fst (removeHandler cc (state_clone (loadState m))) | None => state_clone (loadState m) end
    = fst (removeHandler cc (state_clone (loadState m)))).
  { unfold conns_of, removeHandler. by destruct (st_conns _ !! cc). }
  assert (Hun : (match conns_of m !! cc with Some cl => String.eqb (fdHash cl) (Sum256 (str_concat bytes)) | None => false end) = false ->
    forall cl, conns_of m !! cc = Some cl -> fdHash cl <> Sum256 (str_concat bytes)).
  { intros Hf cl Hcl. rewrite Hcl in Hf. by apply String.eqb_neq. }
  unfold conns_of in *. rewrite Hs1.
  destruct (match st_conns _ !! cc with Some cl => String.eqb (fdHash cl) _ | None => false end) eqn:Eu.
  { intros [= <- <-]. split; [done|]. right. left. split; [|done]. by destruct (st_conns _ !! cc). }
  specialize (Hun eq_refl). destruct (newResolver c1) as [rslvr|e|q|] eqn:Er; [|intros [= <- <-]; split; [done|by left]..].
  destruct (process_files fuel (opts m) cc _ _) as [[r2 [s2 n2]] [hs|e|q|]] eqn:Ep; [|intros [= <- <-]; split; [done|by left]..].
  intros [= <- <-]. split; [done|]. right. right. apply process_files_run in Ep as (files & HB & HP).
  exists (Sum256 (str_concat bytes)), files, s2, hs. split_and!; [|done|done|done].
  exists c, c2, c3, resp, bytes, c1, protos, rslvr. split_and!; done.
Qed.

Lemma removeHandler_new cc s : st_conns s !! cc = None -> fst (removeHandler cc s) = s.
Proof. unfold removeHandler. by intros ->. Qed.

(** The names whose handlers a call has removed: those of a known connection that
    reflects other files than before. *)
Definition lost (cc : nat) (m m' : Mux) : list string :=
  match conns_of m !! cc, conns_of m' !! cc with
  | Some cl, Some cl' => if String.eqb (fdHash cl) (fdHash cl') then [] else h_method <$> cl_handlers cl
  | _, _ => []
  end.

Lemma lost_nil cc m m' : conns_of m !! cc = conns_of m' !! cc -> lost cc m m' = [].
Proof. unfold lost. intros <-. destruct (conns_of m !! cc); [by rewrite String.eqb_refl|done]. Qed.

Lemma conns_of_load m m' : loadState m' = loadState m \/ loadState m' = Some (state_clone (loadState m)) -> conns_of m' = conns_of m.
Proof. unfold conns_of. intros [->| ->]; [done|by rewrite state_clone_some]. Qed.

(** *** What a call keeps *)

Lemma RegisterConn_wf D fuel cc m m' r :
  config_ok (opts m) -> mux_wf D m -> reflects_ok fuel cc -> RegisterConn fuel cc m = (m', r) ->
  opts m' = opts m /\ mux_wf (lost cc m m' ++ D) m'.
Proof.
  intros Hcfg Hwf Hb Hreg. destruct (RegisterConn_run _ _ _ _ _ Hreg) as [Ho H]. split; [done|].
  destruct H as [[Hl _]|[[_ Hl]|(hash & files & s & hs & Hr & Hne & Hp & Hl)]].
  - rewrite lost_nil by (by rewrite (conns_of_load m m'); [|left]). unfold mux_wf. by rewrite Hl.
  - rewrite lost_nil by (by rewrite (conns_of_load m m'); [|right]). unfold mux_wf. by rewrite Hl, state_clone_some.
  - unfold mux_wf. rewrite Hl, state_clone_some. apply state_wf_conns.
    eapply (process_methods_wf _ _ _ _ _ _ _ _ _ Hcfg (Hb _ _ Hr)); [|exact Hp].
    unfold lost, conns_of at 2. rewrite Hl, state_clone_some. cbn [st_conns set_conns]. rewrite lookup_insert_eq.
    unfold removeHandler. fold (conns_of m). destruct (conns_of m !! cc) as [cl|]; cbn [fst]; [|exact Hwf].
    cbn [fdHash]. destruct (String.eqb_spec (fdHash cl) hash) as [E|_]; [by destruct (Hne cl)|].
    apply state_wf_conns, remove_all_wf, Hwf.
Qed.

Lemma RegisterConn_ok fuel cc m m' r :
  config_ok (opts m) -> mux_ok m -> reflects_ok fuel cc -> RegisterConn fuel cc m = (m', r) -> lost cc m m' = [] -> mux_ok m'.
Proof.
  intros Hcfg Hok Hb Hreg Hlost. destruct (RegisterConn_run _ _ _ _ _ Hreg) as [_ [[Hl _]|[[_ Hl]|(hash & files & s & hs & Hr & Hne & Hp & Hl)]]].
  - unfold mux_ok. by rewrite Hl.
  - unfold mux_ok. by rewrite Hl, state_clone_some.
  - unfold mux_ok. rewrite Hl, state_clone_some. apply state_ok_conns.
    eapply (process_methods_ok _ _ _ _ _ _ _ _ Hcfg (Hb _ _ Hr)); [|exact Hp].
    unfold lost, conns_of at 2 in Hlost. rewrite Hl, state_clone_some in Hlost. cbn [st_conns set_conns] in Hlost. rewrite lookup_insert_eq in Hlost.
    unfold removeHandler. fold (conns_of m). destruct (conns_of m !! cc) as [cl|]; cbn [fst]; [|exact Hok].
    cbn [fdHash] in Hlost. destruct (String.eqb_spec (fdHash cl) hash) as [E|_]; [by destruct (Hne cl)|].
    apply fmap_nil_inv in Hlost. rewrite Hlost. by apply state_ok_conns.
Qed.

(** C12 A new connection that is registered is served: when [RegisterConn] has stored
    the state, it knows the connection, with the hash of the files that the backend
    reflects (the bytes that it sends for each service that it lists), and every
    method of every service of these files has exactly one handler, of the connection,
    made for it; what was served stays served.  When it fails before that, the state is
    the one it was. *)
Theorem RegisterConn_spec fuel cc m m' r :
  config_ok (opts m) -> mux_ok m -> conns_of m !! cc = None -> reflects_ok fuel cc ->
  RegisterConn fuel cc m = (m', r) ->
  opts m' = opts m /\ mux_ok m' /\
  ((loadState m' = loadState m /\ r <> Ok tt) \/
   exists hash files hs, reflects fuel cc hash files /\
     conns_of m' = <[cc := ConnList hs hash]> (conns_of m) /\
     (forall hd, hd ∈ hs -> exists file sd md i, file ∈ files /\ sd ∈ FileServices file /\ md ∈ ServiceMethods sd /\
        hd = createConnHandler md i cc sd) /\
     (forall file sd md, file ∈ files -> sd ∈ FileServices file -> md ∈ ServiceMethods sd ->
        exists i, createConnHandler md i cc sd ∈ hs /\
          forall pick, pickMethodHandler pick (loadState m') (method_path (ServiceFullName sd) (MethodName md)) =
            Ok (createConnHandler md i cc sd))) /\
  (forall pick name hd, pickMethodHandler pick (loadState m) name = Ok hd ->
     forall pick', pickMethodHandler pick' (loadState m') name = Ok hd).
Proof.
  intros Hcfg Hok Hnew Hb Hreg.
  assert (Hlost : lost cc m m' = []) by (unfold lost; by rewrite Hnew).
  pose proof (RegisterConn_ok _ _ _ _ _ Hcfg Hok Hb Hreg Hlost) as Hok'.
  destruct (RegisterConn_run _ _ _ _ _ Hreg) as [Ho [[Hl Hr]|[[[cl Hcl] _]|(hash & files & s & hs & Hr & _ & Hp & Hl)]]]; [| congruence |].
  - split_and!; [done|done|by left|]. rewrite Hl. intros pick name hd Hpk pick'. apply pick_one. by eapply pick_inv.
  - rewrite removeHandler_new in Hp by exact Hnew.
    destruct (process_methods_ok _ _ _ _ _ _ _ _ Hcfg (Hb _ _ Hr) Hok Hp) as ((_ & Hc & Hh & Hk) & -> & _).
    split_and!; [done|done| |].
    + right. exists hash, files, (conn_handlers cc (next_handler m) (files ≫= file_methods)).
      assert (Hin : forall sd md, (sd, md) ∈ files ≫= file_methods <->
        exists file, file ∈ files /\ sd ∈ FileServices file /\ md ∈ ServiceMethods sd) by apply files_methods_elem.
      split_and!; [done| | |].
      * unfold conns_of at 1. rewrite Hl, state_clone_some. cbn [st_conns set_conns]. by rewrite Hc.
      * intros hd (i & sd & md & Hsd & ->)%conn_handlers_elem. apply Hin in Hsd as (file & ? & ? & ?). by exists file, sd, md, i.
      * intros file sd md Hf Hsd Hmd. assert (Hmem : (sd, md) ∈ files ≫= file_methods) by (apply Hin; by exists file).
        destruct (conn_handlers_at cc (next_handler m) _ _ _ Hmem) as [i Hi]. exists i. split; [done|]. intros pick. rewrite Hl.
        apply pick_state. exact (Hh _ Hi).
    + rewrite Hl. intros pick name hd Hpk pick'. apply pick_state. apply (Hk name [hd]).
      rewrite handlers_clone. exact (pick_inv _ _ _ _ Hok Hpk).
Qed.
End RegisterConn.


(** ** Every mux that registrations make *)

Section Reachable.
Context `{U : Unicode} `{P : Protoreflect} {M : Messages} `{MA : @Marshaling P} `{GZ : Gzip} `{G : GoAppend} `{W : Protowire}
  `{R : GoRange} `{BK : @Backend P}.

(** The muxes that the calls make of [m0], on services and files whose names the lexer
    takes and whose annotations are good, with the names whose handlers were removed by
    the registration of a connection that was known.  What a backend reflects is its own
    at each call: it may have changed since the connection was registered. *)
Inductive reachable (m0 : Mux) : list string -> Mux -> Prop :=
  | reachable_new : reachable m0 [] m0
  | reachable_register D gsd m m' r :
      reachable m0 D m -> service_ok (opts m) gsd -> registerService gsd m = (m', r) -> reachable m0 D m'
  | reachable_connect (RF : @Reflection P) D fuel cc m m' r :
      reachable m0 D m -> reflects_ok fuel cc -> RegisterConn fuel cc m = (m', r) -> reachable m0 (lost cc m m' ++ D) m'
  | reachable_drop D cc m : reachable m0 D m -> reachable m0 D (fst (DropConn cc m)).

Lemma registerService_opts gsd m m' r : registerService gsd m = (m', r) -> opts m' = opts m.
Proof.
  unfold registerService. destruct (FindDescriptorByName _ _) as [sd|od|e]; [|by intros [= <- _]..].
  destruct (register_entries _ _ _ _ _ _) as [s' [[]|e|q|]]; unfold commit; by intros [= <- _].
Qed.

(** What every reachable mux is; while no handler was removed, each name has one. *)
Definition mux_inv (D : list string) (m : Mux) : Prop := mux_wf D m /\ (D = [] -> mux_ok m).

Lemma mux_ok_inv m : mux_ok m -> mux_inv [] m.
Proof. intros H. split; [by apply state_ok_wf|done]. Qed.

Lemma inv_register D gsd m m' r :
  config_ok (opts m) -> service_ok (opts m) gsd -> mux_inv D m -> registerService gsd m = (m', r) -> mux_inv D m'.
Proof.
  intros Hcfg Hs [Hwf Hok] E. split; [by eapply registerService_wf|]. intros HD. by eapply registerService_keeps; [..|exact (Hok HD)|].
Qed.

Lemma inv_connect {RF : @Reflection P} D fuel cc m m' r :
  config_ok (opts m) -> reflects_ok fuel cc -> mux_inv D m -> RegisterConn fuel cc m = (m', r) ->
  opts m' = opts m /\ mux_inv (lost cc m m' ++ D) m'.
Proof.
  intros Hcfg Hb [Hwf Hok] E. destruct (RegisterConn_wf D _ _ _ _ _ Hcfg Hwf Hb E) as [Ho Hwf']. split; [done|]. split; [done|].
  intros [Hl HD]%app_eq_nil. by eapply (RegisterConn_ok _ _ _ _ _ Hcfg (Hok HD)).
Qed.

Lemma reachable_inv m0 D m : config_ok (opts m0) -> mux_ok m0 -> reachable m0 D m -> opts m = opts m0 /\ mux_inv D m.
Proof.
  intros Hcfg H0. induction 1 as [|D gsd m m' r _ [Ho IH] Hs E|RF D fuel cc m m' r _ [Ho IH] Hb E|D cc m _ IH].
  - split; [done|by apply mux_ok_inv].
  - split; [by rewrite (registerService_opts _ _ _ _ E)|]. eapply inv_register; [|done..]. by rewrite Ho.
  - rewrite <-Ho in Hcfg. destruct (inv_connect D fuel cc m m' r Hcfg Hb IH E) as [-> ?]. done.
  - exact IH.
Qed.

Lemma new_mux_ok gf gt os m : NewMux gf gt os = Ok m -> mux_ok m.
Proof.
  unfold NewMux. destruct (apply_options _ _) as [o|e|q|]; [|intros [=]..]. intros E. injection E as <-. exact state_ok_empty.
Qed.

(** The method of a matched request has a handler, or its handlers were removed. *)
Lemma dispatch_inv D m route verb mt ps :
  (forall fd, FieldKind fd = MessageKind -> FieldMessage fd <> None) -> mux_inv D m ->
  state_match (loadState m) route verb = Ok (mt, ps) ->
  ((forall pick, exists hd, h_method hd = method_name mt /\ pickMethodHandler pick (loadState m) (method_name mt) = Ok hd) \/
   method_name mt ∈ D /\ handlers_of m (method_name mt) = None) /\
  (D = [] -> exists hd, h_method hd = method_name mt /\ forall pick, pickMethodHandler pick (loadState m) (method_name mt) = Ok hd).
Proof.
  intros Hmd [Hwf Hok] Hmatch. unfold mux_wf, mux_ok, handlers_of in *. destruct (loadState m) as [s|] eqn:Es; [|done].
  rewrite state_clone_some in Hwf, Hok. pose proof Hwf as [Ht Hall _].
  destruct (match_routes Hmd (st_path s) route verb mt ps Ht Hmatch) as (parts & caps & _ & Hr & _). split.
  - pose proof (all_methods_routes _ verb (st_path s) parts mt caps Hr Hall) as H. cbn beta in H.
    destruct (st_handlers s !! method_name mt) as [hds|] eqn:El; [left|right; by destruct H as [[]|?]].
    intros pick. by apply (pick_wf D).
  - intros HD. destruct (Hok HD) as [_ Hall' Hh].
    destruct (all_methods_routes (fun m => is_Some (st_handlers s !! method_name m)) verb (st_path s) parts mt caps Hr Hall') as [hds Hs].
    destruct (Hh _ _ Hs) as [(hd & -> & Hn) _]. exists hd. split; [done|]. intros pick. by apply pick_state.
Qed.

(** C4 In every mux that registrations of services and connections make of a new one,
    in any order and whether they fail or not, the method of a matched request has a
    handler, whichever is picked: dispatch after a match never answers that the method
    is unimplemented.  The one exception are the names whose handlers were removed when
    a known connection was registered again and reflected other files: of these a
    route may be left without a handler.  While there was no such registration each
    method has exactly one handler. *)
Theorem reachable_dispatch gf gt os m0 D m route verb mt ps :
  (forall fd, FieldKind fd = MessageKind -> FieldMessage fd <> None) ->
  NewMux gf gt os = Ok m0 -> config_ok (opts m0) -> reachable m0 D m ->
  state_match (loadState m) route verb = Ok (mt, ps) ->
  ((forall pick, exists hd, h_method hd = method_name mt /\ pickMethodHandler pick (loadState m) (method_name mt) = Ok hd) \/
   method_name mt ∈ D /\ handlers_of m (method_name mt) = None) /\
  (D = [] -> exists hd, h_method hd = method_name mt /\ forall pick, pickMethodHandler pick (loadState m) (method_name mt) = Ok hd).
Proof.
  intros Hmd Hnew Hcfg Hm Hmatch. eapply dispatch_inv; [done| |done].
  by apply (reachable_inv m0 D m Hcfg (new_mux_ok _ _ _ _ Hnew)).
Qed.
End Reachable.

(** ** Witnesses *)

(** A backend that reflects the files of a table, with the paths they import; a file
    is sent as its path. *)
Module SampleConn.
Import SampleMux.
Definition table := list (string * (xfile * list string)).

Fixpoint ask (imports : list string) (file : xfile) : @resolve plain_proto (@FileDescriptor plain_proto) :=
  match imports with
  | [] => RsReturn (file : @FileDescriptor plain_proto)
  | p :: ps => RsFile p (fun x => match x with inl _ => ask ps file | inr e => RsError e end)
  end.

Definition reflection (t : table) : @Reflection plain_proto := {|
  ReflectionClient := option ServerReflectionRequest;
  ServerReflectionInfo _ := Ok None;
  rs_Send req c := (Some req, Ok tt);
  rs_Recv c := (None, match c with
                      | Some ListServices => Ok (MkReflectionResponse ["pkg.Library"] [])
                      | Some (FileContainingSymbol _) => Ok (MkReflectionResponse [] ["library.proto"])
                      | Some (FileByFilename p) => Ok (MkReflectionResponse [] [p])
                      | None => Err EOF
                      end);
  CloseSend c := (c, Ok tt);
  FileDescriptorProto := string;
  Unmarshal_file b := Ok b;
  FileName p := p;
  NewFile p := match assoc t p with Some (file, imports) => ask imports file | None => RsError (External "no such file") end;
  emptyFiles := [] : @Files plain_proto;
  googleapis := [XFile "google/api/annotations.proto" []] : list (@FileDescriptor plain_proto);
  Sum256 h := h;
|}.

Definition library_file : xfile := XFile "library.proto" [XService "pkg.Library" [getShelf]].
Definition library_table : table :=
  [("library.proto", (library_file, ["google/api/annotations.proto"; "base.proto"])); ("base.proto", (XFile "base.proto" [], []))].
Definition circle : table :=
  [("a.proto", (XFile "a.proto" [], ["b.proto"])); ("b.proto", (XFile "b.proto" [], ["a.proto"]))].
Definition rank (p : string) : nat := if String.eqb p "library.proto" then 1 else 0.
Definition empty_mux : @Mux plain_proto := MkMux (opts mux0) None 0.

Definition connected : @Mux plain_proto := fst (RegisterConn (RF := reflection library_table) (BK := SampleProxy.backend) 5 7 mux0).
End SampleConn.
Import SampleMux SampleConn.

Lemma ask_below t p : (forall q file imports, assoc t q = Some (file, imports) -> Forall (fun i => rank i < rank q) imports) ->
  asks_below rank (rank p) (NewFile (Reflection := reflection t) p).
Proof.
  intros Ht. simpl. destruct (assoc t p) as [[file imports]|] eqn:E; [|done].
  pose proof (Ht _ _ _ E) as Hi. clear E. induction Hi as [|i imports Hi _ IH]; [done|]. split; [done|]. by intros [fd|e].
Qed.

Lemma resolver_ends_witness :
  let t := [("library.proto", (library_file, ["base.proto"])); ("base.proto", (XFile "base.proto" [], []))] in
  snd (resolver_FindFileByPath (RF := reflection t) 2 "library.proto" (Resolver (RF := reflection t) None ([] : @Files plain_proto))) <> OutOfFuel.
Proof.
  intros t. apply (resolver_ends (RF := reflection t) rank); [by intros ? [[]|]|done|done| |vm_compute; lia].
  intros path c c' c'' fdr fdb fdp [= <-] [= <- <-] ->%list_elem_of_singleton [= <-].
  apply ask_below. intros q file imports. cbn [assoc t]. destruct (String.eqb_spec "library.proto" q) as [<-|_].
  - intros [= <- <-]. repeat constructor.
  - destruct (String.eqb_spec "base.proto" q) as [<-|_]; [|done]. intros [= <- <-]. constructor.
Defined.

Lemma resolver_cycle_witness :
  snd (resolver_FindFileByPath (RF := reflection circle) 100 "a.proto" (Resolver (RF := reflection circle) None ([] : @Files plain_proto))) = OutOfFuel.
Proof.
  apply (resolver_cycle (RF := reflection circle) (fun p => p = "a.proto" \/ p = "b.proto")); [|by left|done].
  intros path c Hp. eexists _, _, [], path, [], path.
  destruct Hp as [-> | ->]; [eexists "b.proto", _|eexists "a.proto", _];
    (split; [reflexivity|]); (split; [reflexivity|]); (split; [reflexivity|]); (split; [reflexivity|]); [by right|by left].
Defined.

Lemma ask_built {RF : @Reflection plain_proto} F imports f (r r' : resolver (RF := RF)) file :
  run_resolve F (ask imports f) r = (r', Ok file) -> file = f.
Proof.
  revert r. induction imports as [|i imports IH]; intros r; cbn [ask run_resolve]; [by intros [= _ <-]|].
  destruct (F i r) as [r1 [fd|e|q|]]; [apply IH|done..].
Qed.

(** Every file that is built is one of a table with good methods. *)
Lemma table_reflected (RF : @Reflection plain_proto) fuel cc (find : FileDescriptorProto -> option (xfile * list string)) :
  (forall fdp, NewFile fdp = match find fdp with Some (file, imports) => ask imports file | None => RsError (External "no such file") end) ->
  (forall fdp file imports, find fdp = Some (file, imports) -> Forall reflected_ok (file_methods (file : @FileDescriptor plain_proto))) ->
  reflects_ok (RF := RF) fuel cc.
Proof.
  intros Hn Hok hash files (c & c1 & c2 & resp & bytes & c3 & protos & r & _ & _ & _ & _ & _ & _ & _ & HB).
  induction HB as [r|r fdp fdps r' file files E HB IH]; [constructor|].
  rewrite bind_cons. apply Forall_app. split; [|exact IH]. rewrite Hn in E.
  destruct (find fdp) as [[f imports]|] eqn:Ef; [|done]. apply ask_built in E as ->. exact (Hok _ _ _ Ef).
Qed.

Lemma sample_reflected fuel cc : reflects_ok (RF := reflection library_table) fuel cc.
Proof.
  apply (table_reflected (reflection library_table) _ _ (assoc library_table)); [done|]. intros fdp file imports. cbn [assoc library_table].
  destruct (String.eqb_spec "library.proto" fdp) as [_|_]; [intros [= <- _]|
    destruct (String.eqb_spec "base.proto" fdp) as [_|_]; [by intros [= <- _]|done]].
  constructor; [|constructor]. split; [decide_it|].
  destruct sample_service_ok as [_ Hs]. exact (Hs _ eq_refl "GetShelf" _ eq_refl).
Qed.

(** The files that it reflects. *)
Lemma sample_reflects fuel cc hash files : reflects (RF := reflection library_table) fuel cc hash files -> files = [library_file].
Proof.
  intros (c & c1 & c2 & resp & bytes & c3 & protos & r & Hc & Hs & Hr & Ha & HF & _ & _ & HB).
  injection Hc as <-. injection Hs as <-. injection Hr as <- <-. cbn [GetService] in Ha.
  inversion Ha as [|? ? ? ? ? fdr bytes' ? H1 H2 H3]; subst. inversion H3; subst. injection H1 as <-. injection H2 as <- <-.
  cbn [GetFileDescriptorProto app] in HF. apply Forall2_cons_inv_l in HF as (fd & protos' & Hfd & HF' & ->).
  apply Forall2_nil_inv_l in HF' as ->. injection Hfd as <-.
  match type of HB with builds _ _ ?l _ => assert (Ef : l = ["library.proto"]) by (vm_compute; reflexivity) end.
  rewrite Ef in HB. inversion HB as [|? ? ? ? file files' E HB']; subst. inversion HB'; subst.
  by apply ask_built in E as ->.
Qed.

Lemma sample_connected : RegisterConn (RF := reflection library_table) (BK := SampleProxy.backend) 5 7 mux0 = (connected, Ok tt).
Proof.
  unfold connected.
  assert (H : snd (RegisterConn (RF := reflection library_table) (BK := SampleProxy.backend) 5 7 mux0) = Ok tt) by (vm_compute; reflexivity).
  rewrite <-H. apply surjective_pairing.
Qed.

Lemma RegisterConn_spec_witness :
  mux_ok connected /\ is_Some (conns_of connected !! 7) /\
  (exists i, forall pick, pickMethodHandler pick (loadState connected) "/pkg.Library/GetShelf" =
     Ok (createConnHandler (BK := SampleProxy.backend) getShelf i 7 (XService "pkg.Library" [getShelf]))) /\
  (forall pick name hd, pickMethodHandler pick (loadState mux0) name = Ok hd ->
     forall pick', pickMethodHandler pick' (loadState connected) name = Ok hd).
Proof.
  destruct (RegisterConn_spec (RF := reflection library_table) (BK := SampleProxy.backend) 5 7 mux0 connected (Ok tt)
    sample_config_ok state_ok_empty eq_refl (sample_reflected 5 7) sample_connected) as (_ & Hok & [[_ Hn]|H] & Hkeep).
  - by destruct Hn.
  - destruct H as (hash & files & hs & Hr & Hc & _ & Hs). apply sample_reflects in Hr as ->. split_and!.
    + exact Hok.
    + rewrite Hc. eexists. apply lookup_insert_eq.
    + destruct (Hs library_file (XService "pkg.Library" [getShelf]) getShelf) as (i & _ & Hp); [left|left|left|].
      exists i. exact Hp.
    + exact Hkeep.
Defined.

Lemma removeHandler_spec_witness :
  let s := state_clone (loadState connected) in
  exists s', removeHandler 7 s = (s', true) /\ st_conns s' = delete 7 (st_conns s) /\
    served s "/pkg.Library/GetShelf" <> [] /\ served s' "/pkg.Library/GetShelf" = [].
Proof.
  intros s. assert (Hb : snd (removeHandler 7 s) = true) by (vm_compute; reflexivity).
  destruct (removeHandler 7 s) as [s' b] eqn:E. simpl in Hb. subst b. exists s'.
  destruct (removeHandler_spec 7 s s' true E) as (_ & Hc & Hs). split_and!; [done|exact Hc|vm_compute; discriminate|].
  rewrite Hs. vm_compute. reflexivity.
Defined.

(** A backend that reflects another service than it did. *)
Definition other_method : @MethodDescriptor plain_proto :=
  XMethod "pkg.Other.Get" Sample.request Sample.request false false None.
Definition other_table : table :=
  [("library.proto", (XFile "library.proto" [XService "pkg.Other" [other_method]], ["base.proto"]));
   ("base.proto", (XFile "base.proto" [], []))].
Definition replaced : @Reflection plain_proto :=
  let r := reflection other_table in
  {| ReflectionClient := @ReflectionClient _ r; ServerReflectionInfo := @ServerReflectionInfo _ r; rs_Send := @rs_Send _ r;
     rs_Recv := @rs_Recv _ r; CloseSend := @CloseSend _ r; FileDescriptorProto := @FileDescriptorProto _ r;
     Unmarshal_file := @Unmarshal_file _ r; FileName := @FileName _ r; NewFile := @NewFile _ r;
     emptyFiles := @emptyFiles _ r; googleapis := @googleapis _ r; Sum256 h := (h ++ "other")%string |}.

Lemma replaced_reflected fuel cc : reflects_ok (RF := replaced) fuel cc.
Proof.
  apply (table_reflected replaced _ _ (assoc other_table)); [done|]. intros fdp file imports. cbn [assoc other_table].
  destruct (String.eqb_spec "library.proto" fdp) as [_|_]; [intros [= <- _]|
    destruct (String.eqb_spec "base.proto" fdp) as [_|_]; [by intros [= <- _]|done]].
  constructor; [|constructor]. split; [decide_it|done].
Qed.

(** A backend is registered, and again when it reflects another service: the method of
    the first has its routes still, the path of its name among them, and no handler. *)
Definition moved : @Mux plain_proto := fst (RegisterConn (RF := replaced) (BK := SampleProxy.backend) 5 7 connected).

Lemma sample_moved : RegisterConn (RF := replaced) (BK := SampleProxy.backend) 5 7 connected = (moved, Ok tt).
Proof.
  unfold moved.
  assert (H : snd (RegisterConn (RF := replaced) (BK := SampleProxy.backend) 5 7 connected) = Ok tt) by (vm_compute; reflexivity).
  rewrite <-H. apply surjective_pairing.
Qed.

Lemma reachable_connected : reachable (BK := SampleProxy.backend) mux0 [] connected.
Proof.
  assert (E : lost 7 mux0 connected ++ [] = []) by (vm_compute; reflexivity).
  rewrite <-E. eapply (reachable_connect _ (reflection library_table)); [constructor|exact (sample_reflected 5 7)|exact sample_connected].
Qed.

Lemma reachable_moved : reachable (BK := SampleProxy.backend) mux0 ["/pkg.Library/GetShelf"] moved.
Proof.
  assert (E : lost 7 connected moved ++ [] = ["/pkg.Library/GetShelf"]) by (vm_compute; reflexivity).
  rewrite <-E. eapply (reachable_connect _ replaced); [exact reachable_connected|exact (replaced_reflected 5 7)|exact sample_moved].
Qed.

Lemma sample_matches m : m = connected \/ m = moved ->
  exists mt, state_match (loadState m) "/pkg.Library/GetShelf" "POST" = Ok (mt, []) /\ method_name mt = "/pkg.Library/GetShelf".
Proof. intros [-> | ->]; (eexists; split; vm_compute; reflexivity). Qed.

Lemma reachable_dispatch_witness :
  (exists mt hd, state_match (loadState connected) "/pkg.Library/GetShelf" "POST" = Ok (mt, []) /\
    h_method hd = "/pkg.Library/GetShelf" /\ forall pick, pickMethodHandler pick (loadState connected) "/pkg.Library/GetShelf" = Ok hd) /\
  (exists mt, state_match (loadState moved) "/pkg.Library/GetShelf" "POST" = Ok (mt, []) /\
    method_name mt = "/pkg.Library/GetShelf" /\ handlers_of moved (method_name mt) = None).
Proof.
  assert (Hnew : NewMux (library : @Files plain_proto) (tt : @Types plain_proto) [] = Ok mux0) by reflexivity.
  split.
  - destruct (sample_matches connected ltac:(by left)) as (mt & Hm & Hn).
    destruct (reachable_dispatch (BK := SampleProxy.backend) (library : @Files plain_proto) (tt : @Types plain_proto) [] mux0 [] connected
      "/pkg.Library/GetShelf" "POST" mt [] plain_message_descriptor Hnew sample_config_ok reachable_connected Hm) as (_ & H).
    destruct (H eq_refl) as (hd & Hh & Hp). exists mt, hd. rewrite Hn in Hh, Hp. by split_and!.
  - destruct (sample_matches moved ltac:(by right)) as (mt & Hm & Hn). exists mt. split; [exact Hm|]. split; [exact Hn|].
    destruct (reachable_dispatch (BK := SampleProxy.backend) (library : @Files plain_proto) (tt : @Types plain_proto) [] mux0 _ moved
      "/pkg.Library/GetShelf" "POST" mt [] plain_message_descriptor Hnew sample_config_ok reachable_moved Hm) as ([H|[_ H]] & _); [|exact H].
    destruct (H 0) as (hd & _ & Hp). rewrite Hn in Hp.
    assert (E : pickMethodHandler 0 (loadState moved) "/pkg.Library/GetShelf" = Ok hd -> False) by (vm_compute; discriminate).
    destruct (E Hp).
Defined.

(** A second backend of the same service, and a backend whose files have changed since
    it was registered: both panic on the path of a method that is already there. *)
Definition changed : @Reflection plain_proto :=
  let r := reflection library_table in
  {| ReflectionClient := @ReflectionClient _ r; ServerReflectionInfo := @ServerReflectionInfo _ r; rs_Send := @rs_Send _ r;
     rs_Recv := @rs_Recv _ r; CloseSend := @CloseSend _ r; FileDescriptorProto := @FileDescriptorProto _ r;
     Unmarshal_file := @Unmarshal_file _ r; FileName := @FileName _ r; NewFile := @NewFile _ r;
     emptyFiles := @emptyFiles _ r; googleapis := @googleapis _ r; Sum256 h := (h ++ "changed")%string |}.

Lemma second_backend_panics :
  snd (RegisterConn (RF := reflection library_table) (BK := SampleProxy.backend) 5 8 connected) = Panic NilDereference.
Proof. vm_compute. reflexivity. Qed.

Lemma changed_backend_panics :
  snd (RegisterConn (RF := reflection library_table) (BK := SampleProxy.backend) 5 7 connected) = Ok tt /\
  snd (RegisterConn (RF := changed) (BK := SampleProxy.backend) 5 7 connected) = Panic NilDereference.
Proof. split; vm_compute; reflexivity. Qed.
