(* ===== verification/Concurrent.v ===== *)
(** Registrations and requests at the same time: the mutex [mu] and the atomic
    pointer [state] of a [Mux], larking/mux.go and larking/handler.go.  A call that
    changes the mux takes the mutex, loads the state, works on a copy, stores it, and
    gives the mutex back; a request loads the state once and takes no mutex.  The
    steps of the calls interleave in any way; every execution is shown to have the
    results of one in which each call happens at one moment, between its start and
    its end. *)

#[local] Set Warnings "-register-all".
From S2P Require Import Prelude Status Runes IO Http Negotiate Base64 Proto Lexer Params Metadata Compress Codec Selector Stream Routes RouteSearch GrpcStream Mux MuxSpec HttpStream WsStream Web Serve ServeSpec Conn ProxySpec ConnSpec.

Section Concurrent.
Context `{U : Unicode} `{P : Protoreflect} {M : Messages} `{MA : @Marshaling P} `{GZ : Gzip} `{R : GoRange} `{F : Fmt} `{GA : GoAppend}
  `{PW : Protowire} `{GS : !GrpcStatus} `{MDJ : Metadata} `{WS : WebSocket} `{TW : Twirp} `{ST : StatsTag} `{BR : Base64Reader}
  `{BK : @Backend P} {W : Type} `{RW : ResponseWriter W}.

(** ** The calls *)

(** What a backend reflects is its own at each call: it may change between two. *)
Inductive operation :=
  | OpRegister (gsd : ServiceDesc)
  | OpConnect (RF : @Reflection P) (fuel cc : nat)
  | OpDrop (cc : nat).

(** What a call returns: an error or nil, or the boolean of [DropConn]. *)
Definition answer : Type := go unit + bool.

(** A call on its own, as the other files have it. *)
Definition apply (o : operation) (m : Mux) : Mux * answer :=
  match o with
  | OpRegister gsd => let '(m, r) := registerService gsd m in (m, inl r)
  | OpConnect RF fuel cc => let '(m, r) := RegisterConn fuel cc m in (m, inl r)
  | OpDrop cc => let '(m, b) := DropConn cc m in (m, inr b)
  end.

Definition run_all (os : list operation) (m : Mux) : Mux := foldl (fun m o => fst (apply o m)) m os.

(** What a call does before it takes the mutex: [RegisterConn] opens the stream of
    the reflection client, and returns when that fails. *)
Inductive ready :=
  | RdRegister (gsd : ServiceDesc)
  | RdConnect (RF : @Reflection P) (fuel cc : nat) (c : ReflectionClient)
  | RdDrop (cc : nat).

Definition prepare (o : operation) : go ready :=
  match o with
  | OpRegister gsd => Ok (RdRegister gsd)
  | OpConnect RF fuel cc => c ← ServerReflectionInfo cc; Ok (RdConnect RF fuel cc c)
  | OpDrop cc => Ok (RdDrop cc)
  end.

(** What it does with the state that it loaded: the state that it stores, if it
    stores one, the number of the next handler, and the answer. *)
Definition body (o : muxOptions) (rd : ready) (s : option state) (n : nat) : option state * nat * answer :=
  match rd with
  | RdRegister gsd =>
      match FindDescriptorByName (files o) (ServiceName gsd) with
      | FoundNothing e => (None, n, inl (Err e))
      | FoundOther od => (None, n, inl (Err (Errorf "invalid method descriptor %T" [AStr (OtherType od)])))
      | FoundService sd =>
          let n' := n + length (entries gsd) in
          match register_entries o sd (ServiceName gsd) n (entries gsd) (state_clone s) with
          | (s', Ok _) => (Some s', n', inl (Ok tt))
          | (_, r) => (None, n', inl r)
          end
      end
  | RdConnect RF fuel cc c =>
      match addConnHandler fuel o cc c (state_clone s, n) with
      | ((s', n'), Ok c) => (Some s', n', inl (snd (CloseSend c)))
      | ((_, n'), Err e) => (None, n', inl (Err e))
      | ((_, n'), Panic q) => (None, n', inl (Panic q))
      | ((_, n'), OutOfFuel) => (None, n', inl OutOfFuel)
      end
  | RdDrop cc => (None, n, inr (snd (removeHandler cc (state_clone s))))
  end.

(** The answer of a call that does not come to the mutex. *)
Definition refused (r : go ready) : option answer :=
  match r with
  | Ok _ => None
  | Err e => Some (inl (Err e))
  | Panic q => Some (inl (Panic q))
  | OutOfFuel => Some (inl OutOfFuel)
  end.

(** A request with what it is served with, and its response. *)
Record arrival := MkRq { rq_env : env; rq_up : Request -> W -> W * outcome error Conn; rq_r : Request; rq_x : exchange W }.

Definition serve (rq : arrival) (m : Mux) : exchange W * go unit := ServeHTTP m (rq_env rq) (rq_up rq) (rq_r rq) (rq_x rq).

(** ** The system

    A thread is a call and how far it is.  [cf_done] lists the calls that have
    taken effect; the numbers in a thread, and the list, are there to state the
    theorems, and no step looks at them: [since] is how many calls had taken effect when
    the thread started, and [at_] how many when it took effect itself. *)
Inductive thread :=
  | TCalled (since : nat) (o : operation)
  | TReady (since : nat) (o : operation) (rd : ready)
  | TLocked (since : nat) (o : operation) (rd : ready)
  | TLoaded (since : nat) (o : operation) (rd : ready) (s : option state)
  | TStored (since : nat) (o : operation) (at_ : nat) (a : answer)
  | TReturned (since : nat) (o : operation) (at_ : nat) (a : answer)
  | TRequest (since : nat) (rq : arrival)
  | TServing (since : nat) (rq : arrival) (at_ : nat) (s : option state)
  | TAnswered (since : nat) (rq : arrival) (at_ : nat) (response : exchange W * go unit).

Record config := Config {
  cf_mux : Mux;
  cf_lock : option nat;
  cf_threads : gmap nat thread;
  cf_done : list operation;
}.

Definition initial (m : Mux) : config := Config m None ∅ [].

Definition set_thread (t : nat) (th : thread) (c : config) : config :=
  Config (cf_mux c) (cf_lock c) (<[t := th]> (cf_threads c)) (cf_done c).
Definition set_lock (l : option nat) (c : config) : config :=
  Config (cf_mux c) l (cf_threads c) (cf_done c).

(** The mux after a store, with the state it had when there was none. *)
Definition stored (s : option state) (n : nat) (m : Mux) : Mux :=
  MkMux (opts m) (match s with Some s => Some s | None => loadState m end) n.

(** The mux that a request sees. *)
Definition seen (s : option state) (m : Mux) : Mux := MkMux (opts m) s (next_handler m).

Inductive step (c : config) : config -> Prop :=
  | step_call t o :
      cf_threads c !! t = None -> step c (set_thread t (TCalled (length (cf_done c)) o) c)
  | step_prepare t k o rd :
      cf_threads c !! t = Some (TCalled k o) -> prepare o = Ok rd ->
      step c (set_thread t (TReady k o rd) c)
  | step_refuse t k o a :
      cf_threads c !! t = Some (TCalled k o) -> refused (prepare o) = Some a ->
      step c (Config (cf_mux c) (cf_lock c) (<[t := TReturned k o (length (cf_done c)) a]> (cf_threads c)) (cf_done c ++ [o]))
  | step_lock t k o rd :
      cf_threads c !! t = Some (TReady k o rd) -> cf_lock c = None ->
      step c (set_lock (Some t) (set_thread t (TLocked k o rd) c))
  | step_load t k o rd :
      cf_threads c !! t = Some (TLocked k o rd) ->
      step c (set_thread t (TLoaded k o rd (loadState (cf_mux c))) c)
  | step_store t k o rd s s' n a :
      cf_threads c !! t = Some (TLoaded k o rd s) ->
      body (opts (cf_mux c)) rd s (next_handler (cf_mux c)) = (s', n, a) ->
      step c (Config (stored s' n (cf_mux c)) (cf_lock c)
                (<[t := TStored k o (length (cf_done c)) a]> (cf_threads c)) (cf_done c ++ [o]))
  | step_unlock t k o i a :
      cf_threads c !! t = Some (TStored k o i a) ->
      step c (set_lock None (set_thread t (TReturned k o i a) c))
  | step_request t rq :
      cf_threads c !! t = None -> step c (set_thread t (TRequest (length (cf_done c)) rq) c)
  | step_snapshot t k rq :
      cf_threads c !! t = Some (TRequest k rq) ->
      step c (set_thread t (TServing k rq (length (cf_done c)) (loadState (cf_mux c))) c)
  | step_answer t k rq i s :
      cf_threads c !! t = Some (TServing k rq i s) ->
      step c (set_thread t (TAnswered k rq i (serve rq (seen s (cf_mux c)))) c).

(** ** One call at a time *)

Lemma apply_opts o m : opts (fst (apply o m)) = opts m.
Proof.
  destruct o as [gsd|RF fuel cc|cc]; simpl.
  - destruct (registerService gsd m) as [m' r] eqn:E. exact (registerService_opts _ _ _ _ E).
  - unfold RegisterConn. repeat case_match; by simplify_eq.
  - done.
Qed.

Lemma run_all_opts os m : opts (run_all os m) = opts m.
Proof.
  revert m. induction os as [|o os IH]; intros m; [done|]. unfold run_all in *. simpl. by rewrite IH, apply_opts.
Qed.

Lemma run_all_snoc os o m : run_all (os ++ [o]) m = fst (apply o (run_all os m)).
Proof. unfold run_all. by rewrite foldl_app. Qed.

(** A call is its preparation and its body. *)
Lemma apply_body o rd m s n a :
  prepare o = Ok rd -> body (opts m) rd (loadState m) (next_handler m) = (s, n, a) -> apply o m = (stored s n m, a).
Proof.
  destruct o as [gsd|RF fuel cc|cc]; simpl.
  - intros [= <-]. simpl. unfold registerService.
    destruct (FindDescriptorByName _ _) as [sd|od|e]; [|by intros [= <- <- <-]; destruct m..].
    destruct (register_entries _ _ _ _ _ _) as [s' [[]|e|q|]]; unfold commit; by intros [= <- <- <-].
  - unfold mbind, outcome_bind, RegisterConn. destruct (ServerReflectionInfo cc) as [c|e|q|]; [|by intros [=]..].
    intros [= <-]. cbn [body].
    destruct (addConnHandler fuel (opts m) cc c (state_clone (loadState m), next_handler m)) as [[s' n'] [c'|e|q|]];
      by intros [= <- <- <-].
  - intros [= <-] [= <- <- <-]. unfold DropConn. by destruct m.
Qed.

Lemma apply_refused o a m : refused (prepare o) = Some a -> apply o m = (m, a).
Proof.
  destruct o as [gsd|RF fuel cc|cc]; simpl; [done| |done]. unfold RegisterConn.
  destruct (ServerReflectionInfo cc) as [c|e|q|]; simpl; [done|by intros [= <-]..].
Qed.

(** The number of the next handler is not for requests. *)
Lemma serve_seen rq s m m' : opts m = opts m' -> loadState m' = s -> serve rq (seen s m) = serve rq m'.
Proof. destruct m' as [o s' n']. simpl. intros Ho <-. unfold seen. rewrite Ho. reflexivity. Qed.

(** ** The invariant *)

(** The threads that have the mutex. *)
Definition holds (th : thread) : Prop :=
  match th with TLocked _ _ _ | TLoaded _ _ _ _ | TStored _ _ _ _ => True | _ => False end.

Section Invariant.
Context (m0 : Mux).

(** The mux after the first [i] calls. *)
Definition after (c : config) (i : nat) : Mux := run_all (take i (cf_done c)) m0.

Definition thread_ok (c : config) (th : thread) : Prop :=
  match th with
  | TCalled k _ | TRequest k _ => k <= length (cf_done c)
  | TReady k o rd | TLocked k o rd => k <= length (cf_done c) /\ prepare o = Ok rd
  | TLoaded k o rd s => k <= length (cf_done c) /\ prepare o = Ok rd /\ s = loadState (cf_mux c)
  | TStored k o i a | TReturned k o i a => k <= i /\ cf_done c !! i = Some o /\ a = snd (apply o (after c i))
  | TServing k rq i s => k <= i <= length (cf_done c) /\ s = loadState (after c i)
  | TAnswered k rq i ans => k <= i <= length (cf_done c) /\ ans = serve rq (after c i)
  end.

Record inv (c : config) : Prop := {
  inv_mux : cf_mux c = run_all (cf_done c) m0;
  inv_lock t : (exists th, cf_threads c !! t = Some th /\ holds th) <-> cf_lock c = Some t;
  inv_threads : map_Forall (fun _ => thread_ok c) (cf_threads c);
}.

Lemma after_app c c' l i : cf_done c' = cf_done c ++ l -> i <= length (cf_done c) -> after c' i = after c i.
Proof. intros E Hi. unfold after. by rewrite E, take_app_le. Qed.

(** What a thread knows stays true: calls are only added, and the mux changes only
    for those that have not loaded its state. *)
Lemma thread_ok_grows c c' l th :
  cf_done c' = cf_done c ++ l -> cf_mux c' = cf_mux c \/ ~ holds th -> thread_ok c th -> thread_ok c' th.
Proof.
  intros E Hm. assert (Hlen : length (cf_done c') = length (cf_done c) + length l) by (by rewrite E, length_app).
  destruct th as [k o|k o rd|k o rd|k o rd s|k o i a|k o i a|k rq|k rq i s|k rq i a]; simpl; rewrite ?Hlen.
  - lia.
  - intros [? ?]. split; [lia|done].
  - intros [? ?]. split; [lia|done].
  - intros (? & ? & ->). split_and!; [lia|done|]. destruct Hm as [->|[]]; done.
  - intros (? & Ho & ->). pose proof (lookup_lt_Some _ _ _ Ho). rewrite (after_app c c' l) by (done || lia).
    split_and!; [done| |done]. rewrite E. by apply lookup_app_l_Some.
  - intros (? & Ho & ->). pose proof (lookup_lt_Some _ _ _ Ho). rewrite (after_app c c' l) by (done || lia).
    split_and!; [done| |done]. rewrite E. by apply lookup_app_l_Some.
  - lia.
  - intros [? ->]. rewrite (after_app c c' l) by (done || lia). split; [lia|done].
  - intros [? ->]. rewrite (after_app c c' l) by (done || lia). split; [lia|done].
Qed.

(** A step of one thread. *)
Lemma inv_step c c' t th l :
  inv c -> cf_threads c' = <[t := th]> (cf_threads c) -> cf_done c' = cf_done c ++ l ->
  cf_mux c' = run_all (cf_done c') m0 -> cf_mux c' = cf_mux c \/ cf_lock c = Some t ->
  (holds th <-> cf_lock c' = Some t) -> (forall u, u <> t -> cf_lock c' = Some u <-> cf_lock c = Some u) ->
  thread_ok c' th -> inv c'.
Proof.
  intros [Hmux Hlock Hth] Et Ed Em Hm Ht Hu Hok. split.
  - done.
  - intros u. rewrite Et. destruct (decide (u = t)) as [->|Hne].
    + rewrite <-Ht. split; [intros (th' & Hl & ?); rewrite lookup_insert_eq in Hl; by simplify_eq|].
      intros ?. exists th. by rewrite lookup_insert_eq.
    + rewrite lookup_insert_ne by done. rewrite Hlock. by rewrite Hu.
  - intros u th'. rewrite Et, lookup_insert_Some. intros [[<- <-]|[Hne Hl]]; [done|].
    apply (thread_ok_grows c c' l); [done| |by eapply Hth]. destruct Hm as [?|Hm]; [by left|right].
    intros Hh. assert (Hc : cf_lock c = Some u) by (apply Hlock; by exists th'). congruence.
Qed.

Lemma inv_initial : inv (initial m0).
Proof.
  split; [done| |apply map_Forall_empty]. intros t. simpl. split; [|done]. intros (th & Hl & _). by rewrite lookup_empty in Hl.
Qed.

(** The mutex is held by at most one thread, and the thread that holds it. *)
Lemma lock_of c t : inv c -> cf_lock c = Some t <-> match cf_threads c !! t with Some th => holds th | None => False end.
Proof.
  intros [_ Hl _]. rewrite <-Hl. destruct (cf_threads c !! t) as [th|]; split; [|by exists th| |done].
  - by intros (th' & [= ->] & ?).
  - by intros (th' & [=] & _).
Qed.

(** A step that changes its thread only. *)
Lemma inv_move c t th :
  inv c -> (holds th <-> match cf_threads c !! t with Some th => holds th | None => False end) ->
  thread_ok c th -> inv (set_thread t th c).
Proof.
  intros Hc Hh Hok. apply (inv_step c _ t th []); [done|done|by rewrite app_nil_r| |by left| |done|].
  - by destruct Hc.
  - rewrite Hh. symmetry. exact (lock_of c t Hc).
  - apply (thread_ok_grows c _ []); [by rewrite app_nil_r|by left|done].
Qed.

(** A step that takes effect, as the call of a thread that has the mutex, or one that
    leaves the mux. *)
Lemma inv_effect c t th o m a :
  inv c -> apply o (cf_mux c) = (m, a) -> m = cf_mux c \/ cf_lock c = Some t -> (holds th <-> cf_lock c = Some t) ->
  (forall c', cf_done c' = cf_done c ++ [o] -> after c' (length (cf_done c)) = cf_mux c -> thread_ok c' th) ->
  inv (Config m (cf_lock c) (<[t := th]> (cf_threads c)) (cf_done c ++ [o])).
Proof.
  intros Hc Ha Hm Hh Hok. apply (inv_step c _ t th [o]); [done|done|done| |done|done|done|].
  - simpl. rewrite run_all_snoc. destruct Hc as [<- _ _]. by rewrite Ha.
  - apply Hok; [done|]. unfold after. simpl. rewrite take_app_length. by destruct Hc as [<- _ _].
Qed.

Lemma inv_lock_step c t th l :
  inv c -> cf_lock c = None \/ cf_lock c = Some t -> (l = Some t /\ holds th \/ l = None /\ ~ holds th) ->
  thread_ok c th -> inv (set_lock l (set_thread t th c)).
Proof.
  intros Hc Hl Hth Hok. apply (inv_step c _ t th []); [done|done|by rewrite app_nil_r|by destruct Hc|by left| | |].
  - simpl. destruct Hth as [[-> ?]|[-> ?]]; split; try done; by intros [=].
  - intros u Hu. simpl. destruct Hl as [->| ->], Hth as [[-> _]|[-> _]]; split; congruence.
  - apply (thread_ok_grows c _ []); [by rewrite app_nil_r|by left|done].
Qed.

Lemma step_inv c c' : inv c -> step c c' -> inv c'.
Proof.
  intros Hc Hst. assert (Hall : forall t th, cf_threads c !! t = Some th -> thread_ok c th) by (intros; by eapply inv_threads).
  destruct Hst as [t o Ht|t k o rd Ht Hp|t k o a Ht Hr|t k o rd Ht Hl|t k o rd Ht|t k o rd s s' n a Ht Hb
    |t k o i a Ht|t rq Ht|t k rq Ht|t k rq i s Ht]; try (pose proof (Hall _ _ Ht) as Hok; simpl in Hok).
  - apply inv_move; [done|by rewrite Ht|simpl; lia || done].
  - apply inv_move; [done|by rewrite Ht|simpl; lia || done].
  - apply (inv_effect c t _ o _ a Hc); [by apply apply_refused|by left| |].
    + rewrite (lock_of c t Hc), Ht. done.
    + intros c' E Ha. simpl. rewrite E, Ha. split_and!; [done|by rewrite lookup_app_r, Nat.sub_diag|].
      by rewrite (apply_refused _ _ _ Hr).
  - apply inv_lock_step; [done|by left|by left|done].
  - apply inv_move; [done|by rewrite Ht|]. by destruct Hok.
  - destruct Hok as (Hk & Hp & ->). pose proof (apply_body _ _ _ _ _ _ Hp Hb) as Ha.
    assert (Hlk : cf_lock c = Some t) by (rewrite (lock_of c t Hc), Ht; done).
    apply (inv_effect c t _ o _ a Hc Ha); [by right|done|].
    intros c' E Hn. simpl. rewrite E, Hn, Ha. split_and!; [done|by rewrite lookup_app_r, Nat.sub_diag|done].
  - apply inv_lock_step; [done| |by right; split; [|intros []]|done]. right. rewrite (lock_of c t Hc), Ht. done.
  - apply inv_move; [done|by rewrite Ht|simpl; lia || done].
  - apply inv_move; [done|by rewrite Ht|]. split; [lia|]. unfold after. rewrite take_ge by done. by destruct Hc as [<- _ _].
  - destruct Hok as [Hi ->]. apply inv_move; [done|by rewrite Ht|]. split; [done|].
    apply serve_seen; [|done]. destruct Hc as [-> _ _]. unfold after. by rewrite !run_all_opts.
Qed.

Lemma steps_inv c c' : inv c -> rtc step c c' -> inv c'.
Proof. intros H. induction 1 as [|c1 c2 c3 Hs _ IH]; [done|]. apply IH. by eapply step_inv. Qed.
End Invariant.

(** ** Theorems *)

(** C5 Every execution has the results of one call after the other: the calls that
    change the mux take effect in one order, each with the answer it has on the mux
    that the ones before it left and not before it was made, no store is lost, and
    each response is the one of a mux between the request and its response. *)
Theorem serializable m0 c :
  rtc step (initial m0) c ->
  cf_mux c = run_all (cf_done c) m0 /\
  (forall t k o i a, cf_threads c !! t = Some (TReturned k o i a) ->
     k <= i /\ cf_done c !! i = Some o /\ a = snd (apply o (run_all (take i (cf_done c)) m0))) /\
  (forall t k rq i ans, cf_threads c !! t = Some (TAnswered k rq i ans) ->
     k <= i <= length (cf_done c) /\ ans = serve rq (run_all (take i (cf_done c)) m0)).
Proof.
  intros [Hm _ Hth]%(steps_inv m0 _ _ (inv_initial m0)). split_and!; [done| |].
  - intros t k o i a Ht. exact (Hth _ _ Ht).
  - intros t k rq i ans Ht. exact (Hth _ _ Ht).
Qed.

Definition since (th : thread) : nat :=
  match th with
  | TCalled k _ | TReady k _ _ | TLocked k _ _ | TLoaded k _ _ _ | TStored k _ _ _ | TReturned k _ _ _
  | TRequest k _ | TServing k _ _ _ | TAnswered k _ _ _ => k
  end.

(** Calls are added at the end of the order, and a thread keeps its start. *)
Lemma step_since c c' u :
  step c c' -> cf_done c `prefix_of` cf_done c' /\
  forall th', cf_threads c' !! u = Some th' ->
    match cf_threads c !! u with Some th => since th' = since th | None => since th' = length (cf_done c) end.
Proof.
  intros Hst; destruct Hst; simpl; (split; [try done; by apply prefix_app_r|]);
    intros th'; rewrite lookup_insert_Some; intros [[<- <-]|[_ Hl]]; rewrite ?Hl;
    match goal with H : cf_threads c !! _ = _ |- _ => rewrite ?H end; done.
Qed.

Lemma steps_since c c' u th' :
  rtc step c c' -> cf_threads c !! u = None -> cf_threads c' !! u = Some th' ->
  cf_done c `prefix_of` cf_done c' /\ length (cf_done c) <= since th'.
Proof.
  intros Hs Hn Ht. enough (H : cf_done c `prefix_of` cf_done c' /\
    forall th, cf_threads c' !! u = Some th -> length (cf_done c) <= since th) by (destruct H; auto).
  clear th' Ht. revert c' Hs. apply rtc_ind_r; [split; [done|congruence]|].
  intros c1 c2 _ Hst [Hp Hk]. destruct (step_since _ _ u Hst) as [Hp' Hth]. split; [by etransitivity|].
  intros th Ht. specialize (Hth _ Ht). destruct (cf_threads c1 !! u) as [th1|].
  - rewrite Hth. by apply Hk.
  - rewrite Hth. by apply prefix_length.
Qed.

(** C25 A registration that has returned is visible to every request that is made
    afterwards, and to every later registration: the response is the one of a mux
    after a sequence of calls in which the registration is. *)
Theorem returned_visible m0 c c' t k o i a u :
  rtc step (initial m0) c -> cf_threads c !! t = Some (TReturned k o i a) ->
  rtc step c c' -> cf_threads c !! u = None ->
  cf_done c' !! i = Some o /\
  (forall k' rq j ans, cf_threads c' !! u = Some (TAnswered k' rq j ans) ->
     i < j /\ ans = serve rq (run_all (take j (cf_done c')) m0)) /\
  (forall k' o' j b, cf_threads c' !! u = Some (TReturned k' o' j b) ->
     i < j /\ cf_done c' !! j = Some o' /\ b = snd (apply o' (run_all (take j (cf_done c')) m0))).
Proof.
  intros H0 Ht Hs Hn. pose proof (steps_inv m0 _ _ (inv_initial m0) H0) as Hi.
  destruct (steps_inv m0 _ _ Hi Hs) as [_ _ Hth]. destruct (inv_threads m0 c Hi _ _ Ht) as (_ & Ho & _).
  pose proof (lookup_lt_Some _ _ _ Ho) as Hlt. split_and!.
  - assert (Hp : cf_done c `prefix_of` cf_done c').
    { revert Hs. clear. revert c'. apply rtc_ind_r; [done|]. intros c1 c2 _ Hst IH. etransitivity; [exact IH|].
      by destruct (step_since _ _ 0 Hst). }
    destruct Hp as [l ->]. by apply lookup_app_l_Some.
  - intros k' rq j ans Hu. destruct (steps_since _ _ _ _ Hs Hn Hu) as [_ Hk]. destruct (Hth _ _ Hu) as [Hj ->].
    simpl in Hk. split; [lia|done].
  - intros k' o' j b Hu. destruct (steps_since _ _ _ _ Hs Hn Hu) as [_ Hk]. destruct (Hth _ _ Hu) as (Hj & Ho' & ->).
    simpl in Hk. split_and!; [lia|done|done].
Qed.

(** *** Dispatch while registrations run *)

(** Good services and files. *)
Definition operation_ok (o : muxOptions) (op : operation) : Prop :=
  match op with
  | OpRegister gsd => service_ok o gsd
  | OpConnect RF fuel cc => reflects_ok fuel cc
  | OpDrop _ => True
  end.

(** The names whose handlers the calls have removed: those of the connections that were
    registered again and reflected other files. *)
Definition op_lost (o : operation) (m : Mux) : list string :=
  match o with OpConnect RF fuel cc => lost cc m (fst (apply o m)) | _ => [] end.

Fixpoint run_lost (os : list operation) (m : Mux) : list string :=
  match os with
  | [] => []
  | o :: os => run_lost os (fst (apply o m)) ++ op_lost o m
  end.

Lemma apply_inv D o m :
  config_ok (opts m) -> operation_ok (opts m) o -> mux_inv D m -> mux_inv (op_lost o m ++ D) (fst (apply o m)).
Proof.
  intros Hcfg Ho Hm. destruct o as [gsd|RF fuel cc|cc]; [| |exact Hm].
  - cbn [apply op_lost app]. destruct (registerService gsd m) as [m' r] eqn:E. by eapply inv_register.
  - unfold op_lost. cbn [apply]. destruct (RegisterConn fuel cc m) as [m' r] eqn:E. by eapply inv_connect.
Qed.

Lemma run_all_inv D os m :
  config_ok (opts m) -> Forall (operation_ok (opts m)) os -> mux_inv D m -> mux_inv (run_lost os m ++ D) (run_all os m).
Proof.
  revert D m. induction os as [|o os IH]; intros D m Hcfg Hos Hm; [exact Hm|].
  apply Forall_cons in Hos as [Ho Hos]. cbn [run_lost]. rewrite <-app_assoc.
  apply (IH _ (fst (apply o m))); rewrite ?apply_opts; [done..|by apply apply_inv].
Qed.

(** C24 Whatever registrations run while a request is served, of new connections or known,
    the method that it matched has a handler in the state that the request has loaded,
    whichever is picked.  The one exception are names whose handlers one of the
    registrations that took effect before has removed, because a known connection
    reflected other files.  When none did, the method has exactly one handler: it is
    never answered that a method with a route is not implemented. *)
Theorem concurrent_dispatch gf gt os m0 c t k rq i s route verb mt ps :
  (forall fd, FieldKind fd = MessageKind -> FieldMessage fd <> None) ->
  NewMux gf gt os = Ok m0 -> config_ok (opts m0) ->
  rtc step (initial m0) c -> Forall (operation_ok (opts m0)) (cf_done c) ->
  cf_threads c !! t = Some (TServing k rq i s) -> state_match s route verb = Ok (mt, ps) ->
  ((forall pick, exists hd, h_method hd = method_name mt /\ pickMethodHandler pick s (method_name mt) = Ok hd) \/
   method_name mt ∈ run_lost (take i (cf_done c)) m0 /\ handlers_of (seen s (cf_mux c)) (method_name mt) = None) /\
  (run_lost (take i (cf_done c)) m0 = [] ->
   exists hd, h_method hd = method_name mt /\ forall pick, pickMethodHandler pick s (method_name mt) = Ok hd).
Proof.
  intros Hmd Hnew Hcfg Hs Hos Ht Hmatch. pose proof (steps_inv m0 _ _ (inv_initial m0) Hs) as Hi.
  destruct (inv_threads m0 c Hi _ _ Ht) as [_ ->].
  apply (dispatch_inv _ (after m0 c i) route verb mt ps Hmd); [|done].
  rewrite <-(app_nil_r (run_lost _ _)). apply run_all_inv; [done|by apply Forall_take|].
  by eapply mux_ok_inv, new_mux_ok.
Qed.
End Concurrent.

(** ** Witnesses *)

(** A service is registered; a request that loaded the state before is answered that
    there is no route, one that is made afterwards is served. *)
#[local] Instance sample_backend : @Backend plain_proto := SampleProxy.backend.

Module SampleConcurrent.
Import SampleMux SampleServe SampleConn.
Abbreviation conf := (@config plain_proto _ response).
Definition rq : arrival (P := plain_proto) := MkRq e0 no_upgrade (post [Chunk "hello" None]) start.
Definition registration : @operation plain_proto := OpRegister service.
Definition loaded : conf :=
  set_thread 2 (TServing 0 rq 0 None) (set_thread 2 (TRequest 0 rq)
  (set_thread 1 (TLoaded 0 registration (RdRegister service) None)
  (set_lock (Some 1) (set_thread 1 (TLocked 0 registration (RdRegister service))
  (set_thread 1 (TReady 0 registration (RdRegister service)) (set_thread 1 (TCalled 0 registration) (initial mux0))))))).
Definition built : option (@state plain_proto) * nat * answer := body (opts mux0) (RdRegister service) None 0.
Definition returned : conf :=
  set_lock None (set_thread 1 (TReturned 0 registration 0 (snd built))
    (Config (stored built.1.1 built.1.2 mux0) (Some 1)
       (<[1 := TStored 0 registration 0 (snd built)]> (cf_threads loaded)) [registration])).
Definition answered : conf :=
  set_thread 2 (TAnswered 0 rq 0 (serve rq (seen None (cf_mux returned))))
  (set_thread 3 (TAnswered 1 rq 1 (serve rq (seen (loadState (cf_mux returned)) (cf_mux returned))))
  (set_thread 3 (TServing 1 rq 1 (loadState (cf_mux returned)))
  (set_thread 3 (TRequest 1 rq) returned))).
End SampleConcurrent.
Import SampleMux SampleServe SampleConn SampleConcurrent.

Lemma triple_eta {A B C} (x : A * B * C) : x = (x.1.1, x.1.2, x.2).
Proof. by destruct x as [[? ?] ?]. Qed.

Lemma sample_returned : rtc step (initial mux0) returned.
Proof.
  eapply rtc_l; [by apply (step_call _ 1 registration)|].
  eapply rtc_l; [by eapply (step_prepare _ 1)|].
  eapply rtc_l; [by eapply (step_lock _ 1)|].
  eapply rtc_l; [by eapply (step_load _ 1)|].
  eapply rtc_l; [by apply (step_request _ 2 rq)|].
  eapply rtc_l; [by eapply (step_snapshot _ 2)|].
  eapply rtc_l; [eapply (step_store _ 1); [reflexivity|apply triple_eta]|].
  eapply rtc_once. by eapply (step_unlock _ 1).
Qed.

Lemma sample_answered : rtc step returned answered.
Proof.
  eapply rtc_l; [by apply (step_request _ 3 rq)|].
  eapply rtc_l; [by eapply (step_snapshot _ 3)|].
  eapply rtc_l; [by eapply (step_answer _ 3)|].
  apply rtc_once. by refine (step_answer _ 2 0 rq 0 None _).
Qed.

Lemma run_registration : run_all [registration] mux0 = mux1.
Proof.
  unfold run_all, mux1. cbn [foldl apply]. unfold registration. cbn [apply].
  by destruct (registerService service mux0) as [m r].
Qed.

Lemma serializable_witness :
  snd built = snd (apply registration mux0) /\
  serve rq (seen None (cf_mux returned)) = serve rq mux0 /\
  serve rq (seen (loadState (cf_mux returned)) (cf_mux returned)) = serve rq mux1.
Proof.
  destruct (serializable mux0 answered) as (_ & H1 & H2); [etransitivity; [exact sample_returned|exact sample_answered]|].
  destruct (H1 1 0 registration 0 (snd built) eq_refl) as (_ & _ & E1).
  destruct (H2 2 0 rq 0 _ eq_refl) as [_ E2]. destruct (H2 3 1 rq 1 _ eq_refl) as [_ E3].
  change (cf_done answered) with [registration] in E1, E2, E3. cbn [take] in E1, E2, E3. rewrite run_registration in E3.
  split_and!; [exact E1|exact E2|exact E3].
Defined.

Lemma returned_visible_witness :
  serve rq (seen (loadState (cf_mux returned)) (cf_mux returned)) = serve rq mux1.
Proof.
  destruct (returned_visible mux0 returned answered 1 0 registration 0 (snd built) 3 sample_returned eq_refl sample_answered eq_refl)
    as (_ & H & _).
  destruct (H 1 rq 1 _ eq_refl) as [_ E].
  change (cf_done answered) with [registration] in E. cbn [take] in E. rewrite run_registration in E. exact E.
Defined.

(** The two responses: no route, and the message. *)
Example concurrent_example :
  rs_events (x_w (fst (serve rq mux0))) = [EvHeader 404 {["Content-Type" := ["application/json"]]}; EvBody "{}"] /\
  exists h, rs_events (x_w (fst (serve rq mux1))) = [EvHeader 200 h; EvBody "hello"; EvFlush].
Proof. split; [vm_compute; reflexivity|eexists; vm_compute; reflexivity]. Qed.

Lemma sample_match : exists mt, state_match (loadState (cf_mux returned)) "/pkg.Library/GetShelf" "POST" = Ok (mt, []).
Proof. eexists. vm_compute. reflexivity. Qed.

Lemma concurrent_dispatch_witness :
  exists mt hd, state_match (loadState (cf_mux returned)) "/pkg.Library/GetShelf" "POST" = Ok (mt, []) /\
    forall pick, pickMethodHandler pick (loadState (cf_mux returned)) (method_name mt) = Ok hd.
Proof.
  set (c := set_thread 3 (TServing 1 rq 1 (loadState (cf_mux returned))) (set_thread 3 (TRequest 1 rq) returned)).
  assert (Hs : rtc step (initial mux0) c).
  { eapply rtc_r; [eapply rtc_r; [apply sample_returned|by apply (step_request _ 3 rq)]|by refine (step_snapshot _ 3 1 rq _)]. }
  destruct sample_match as [mt Hm].
  destruct (concurrent_dispatch (library : @Files plain_proto) (tt : @Types plain_proto) [] mux0 c 3 1 rq 1 (loadState (cf_mux returned))
    "/pkg.Library/GetShelf" "POST" mt [] plain_message_descriptor eq_refl sample_config_ok Hs) as (_ & H).
  - constructor; [exact sample_service_ok|constructor].
  - reflexivity.
  - exact Hm.
  - destruct (H eq_refl) as (hd & _ & Hp). exists mt, hd. split; [exact Hm|exact Hp].
Defined.
