(* ===== verification/WsSpec.v ===== *)
(** The WebSocket transport: every handler runs on a connection as on an ideal stream,
    whose input is the list of the client's messages and whose output the list of the
    replies; after the replies one close frame is sent, and the connection is closed.
    Control frames with which the library answers those of the client stand between. *)

#[local] Set Warnings "-register-all".
From S2P Require Import Prelude Status Runes IO Http Negotiate Base64 Proto Lexer Params Metadata Compress Codec Selector Stream Routes RouteSearch GrpcStream Mux MuxSpec HttpStream WsStream Web Serve ServeSpec.

(** ** What a connection promises

    A connection whose writes succeed: the messages of the client that are to be read,
    the errors that reading ends with, one for each call, what was written, and whether
    it is closed.  Reading answers the control frames of the client, a ping or a close,
    with control frames. *)
Class Connection `{WS : WebSocket} := {
  inbox : Conn -> list string;
  hangup : Conn -> nat -> error;
  wire : Conn -> list sent;
  closed : Conn -> bool;
  read_message c : exists c' answers, inbox c' = tail (inbox c) /\
    hangup c' = match inbox c with _ :: _ => hangup c | [] => fun i => hangup c (S i) end /\
    wire c' = wire c ++ (SentControl <$> answers) /\ closed c' = closed c /\
    ReadClientData c = (c', match inbox c with b :: _ => Ok b | [] => Err (hangup c 0) end);
  write_message b c : exists c', inbox c' = inbox c /\ hangup c' = hangup c /\ wire c' = wire c ++ [SentText b] /\ closed c' = closed c /\
    WriteServerText b c = (c', Ok tt);
  write_frame b c : exists c' n, wire c' = wire c ++ [SentFrame b] /\ conn_Write b c = (c', Ok n);
  close_connection c : wire (conn_Close c) = wire c /\ closed (conn_Close c) = true;
}.

(** What the program has written. *)
Definition own (l : list sent) : list sent := omap (fun x => match x with SentControl _ => None | _ => Some x end) l.

Lemma own_app l l' : own (l ++ l') = own l ++ own l'.
Proof. apply omap_app. Qed.

Lemma own_controls answers : own (SentControl <$> answers) = [].
Proof. by induction answers. Qed.

(** The messages of a script, and the errors after them. *)
Fixpoint script_data (fs : list client_frame) : list string :=
  match fs with
  | [] | CloseByClient _ :: _ => []
  | Data b :: fs => b :: script_data fs
  | Ping _ :: fs => script_data fs
  end.

Fixpoint script_hangup (fs : list client_frame) : nat -> error :=
  match fs with
  | [] => fun _ => EOF
  | CloseByClient b :: _ => fun i => match i with O => External ("closed: " ++ b)%string | S _ => EOF end
  | _ :: fs => script_hangup fs
  end.

Lemma script_read_message fs out : exists fs' answers,
  script_data fs' = tail (script_data fs) /\
  script_hangup fs' = match script_data fs with _ :: _ => script_hangup fs | [] => fun i => script_hangup fs (S i) end /\
  script_read fs out = (fs', out ++ (SentControl <$> answers), match script_data fs with b :: _ => Ok b | [] => Err (script_hangup fs 0) end).
Proof.
  revert out. induction fs as [|[b|b|b] fs IH]; intros out; cbn [script_data script_hangup script_read].
  - exists [], []. by rewrite app_nil_r.
  - exists fs, []. by rewrite app_nil_r.
  - destruct (IH (out ++ [SentControl ("pong " ++ b)%string])) as (fs' & answers & Hd & Hh & Hr).
    exists fs', (("pong " ++ b)%string :: answers). rewrite Hr, <-app_assoc. by split_and!.
  - exists [], [("close " ++ b)%string]. by split_and!.
Qed.

#[export] Instance script_connection : Connection (WS := script_websocket).
Proof.
  refine {| inbox := fun c : @Conn script_websocket => script_data (sc_in c); hangup c := script_hangup (sc_in c);
            wire := sc_out; closed := sc_closed |}.
  - intros [fs out cl]. destruct (script_read_message fs out) as (fs' & answers & Hd & Hh & Hr).
    exists (ScriptConn fs' (out ++ (SentControl <$> answers)) cl), answers. cbn [sc_in sc_out sc_closed ReadClientData script_websocket].
    by rewrite Hr.
  - intros b c. eexists. (split_and!; [| | | |reflexivity]); done.
  - intros b c. eexists _, _. split; [|reflexivity]. done.
  - by intros c.
Defined.

Section WS.
Context `{U : Unicode} `{P : Protoreflect} {M : Messages} `{MA : @Marshaling P} `{R : GoRange} `{F : Fmt} `{GA : GoAppend}
  `{GS : !GrpcStatus} `{MDJ : Metadata} `{WS : WebSocket} `{TW : Twirp} `{ST : StatsTag} `{BR : Base64Reader} `{CN : !Connection}.

(** ** The ideal stream

    The messages of the client, the errors after them, the replies, and whether no
    message was asked for yet. *)
Record dialogue := Dialogue { d_fresh : bool; d_in : list string; d_end : nat -> error; d_out : list string }.

Section Ideal.
Context (ctx : context) (mt : method) (ps : list param) (base : list sent).

(** A reply is its part that the rule names, as JSON. *)
Definition d_SendMsg (m : Message) : st dialogue error unit := fun d =>
  match snd (mutable_path (resp mt) m) ≫= protojson_Marshal with
  | Ok b => (Dialogue (d_fresh d) (d_in d) (d_end d) (d_out d ++ [b]), Ok tt)
  | Err e => (d, Err e)
  | Panic q => (d, Panic q)
  | OutOfFuel => (d, OutOfFuel)
  end.

(** A message is one of the client's in the part that the rule names, and nothing for
    a rule without body; the parameters are set in the first. *)
Definition d_decode (fresh : bool) (b : string) : st Message error unit :=
  (if hasBody mt then at_message (body mt) (protojson_UnmarshalMessage b) else mret tt);;
  if fresh then params_set ps else mret tt.

Definition d_RecvMsg : st (dialogue * Message) error unit := fun '(d, m) =>
  let next := Dialogue false (if hasBody mt then tail (d_in d) else d_in d) (d_end d) (d_out d) in
  let old := Dialogue false (d_in d) (d_end d) (d_out d) in
  let ended := Dialogue false [] (fun i => d_end d (S i)) (d_out d) in
  match (if hasBody mt then mutable_path (body mt) m else (m, Ok m)) with
  | (m, Ok _) =>
      match (if hasBody mt then d_in d else [""]) with
      | [] => ((ended, m), Err (d_end d 0))
      | b :: _ => let '(m, o) := d_decode (d_fresh d) b m in ((next, m), o)
      end
  | (m, Err e) => ((old, m), Err e)
  | (m, Panic q) => ((old, m), Panic q)
  | (m, OutOfFuel) => ((old, m), OutOfFuel)
  end.

(** Headers and trailers do not reach the client. *)
Definition ideal_stream : ServerStream dialogue := {|
  Context_ _ := ctx;
  SetHeader _ := mret tt;
  SendHeader _ := mret tt;
  SetTrailer _ d := d;
  SendMsg := d_SendMsg;
  RecvMsg := d_RecvMsg;
|}.

(** The stream of the code and the ideal one, on a connection that the program wrote
    [base] to before; the control frames of the library are not the program's. *)
Definition is_dialogue (s : streamWS) (d : dialogue) : Prop :=
  ws_ctx s = ctx /\ ws_meth s = mt /\ ws_params s = ps /\ (0 <= ws_recvN s)%Z /\ d_fresh d = (ws_recvN s =? 0)%Z /\
  inbox (ws_conn s) = d_in d /\ hangup (ws_conn s) = d_end d /\ own (wire (ws_conn s)) = base ++ (SentText <$> d_out d).

Lemma sim_SendMsg m : simulates is_dialogue (same_result is_dialogue) (ws_SendMsg m) (d_SendMsg m).
Proof.
  intros s d (Hc & Hm & Hps & Hn & Hf & Hi & He & Hw). unfold ws_SendMsg, d_SendMsg. rewrite bind_modify, bind_get.
  set (s1 := ws_set_counts _ _ s).
  assert (H1 : is_dialogue s1 d) by (by split_and!). change (ws_meth s1) with (ws_meth s). rewrite Hm.
  destruct (snd (mutable_path (resp mt) m)) as [cur|e|q|]; cbn [mbind outcome_bind lift]; [|by split..].
  rewrite (st_bind_run _ _ s1 s1 cur eq_refl).
  destruct (protojson_Marshal cur) as [b|e|q|]; [|by split..]. rewrite (st_bind_run _ _ s1 s1 b eq_refl).
  unfold on_conn. destruct (write_message b (ws_conn s1)) as (c' & Hi' & He' & Hw' & _ & ->).
  split; [|done]. unfold is_dialogue. simpl. rewrite Hi', He', Hw', own_app. simpl. rewrite Hw, fmap_app, <-app_assoc. by split_and!.
Qed.

Definition both (x : streamWS * Message) (y : dialogue * Message) : Prop := is_dialogue x.1 y.1 /\ x.2 = y.2.

Lemma ws_args_run {A} (f : st Message error A) s m : ws_args f (s, m) = (let '(m, o) := f m in ((s, m), o)).
Proof. done. Qed.

(** What is left of [RecvMsg] when the body is decoded. *)
Lemma recv_params (n : Z) (s : streamWS) d m :
  is_dialogue s d ->
  same_result both ((if (n =? 1)%Z then ws_args (params_set (ws_params s)) else mret tt) (s, m))
    (let '(m, o) := (if (n =? 1)%Z then params_set ps else mret tt) m in ((d, m), o)).
Proof.
  intros Hd. assert (Hps : ws_params s = ps) by apply Hd. rewrite Hps. destruct (n =? 1)%Z; [|by split].
  rewrite ws_args_run. by destruct (params_set ps m) as [m' o].
Qed.

Lemma sim_RecvMsg : simulates both (same_result both) ws_RecvMsg d_RecvMsg.
Proof.
  intros [s m] [d m'] [Hd E]. simpl in E. subst m'. unfold ws_RecvMsg, d_RecvMsg.
  set (s1 := ws_set_counts (ws_recvN s + 1) (ws_sendN s) s).
  rewrite (st_bind_run _ _ (s, m) (s1, m) tt eq_refl), bind_get. cbn beta iota zeta.
  cbn [fst] in Hd. destruct Hd as (Hc & Hm & Hps & Hn & Hf & Hi & He & Hw). change (ws_meth s1) with (ws_meth s). rewrite Hm.
  assert (Hfresh : d_fresh d = (ws_recvN s1 =? 1)%Z) by (rewrite Hf; simpl; destruct (Z.eqb_spec (ws_recvN s) 0), (Z.eqb_spec (ws_recvN s + 1) 1); lia).
  assert (Hold : is_dialogue s1 (Dialogue false (d_in d) (d_end d) (d_out d))).
  { unfold is_dialogue. simpl. split_and!; try done; [lia|]. symmetry. apply Z.eqb_neq. lia. }
  unfold d_decode. rewrite Hfresh. destruct (hasBody mt).
  2:{ rewrite (st_bind_run _ _ (s1, m) (s1, m) tt eq_refl), (st_bind_run _ _ m m tt eq_refl).
      change (ws_params s1) with (ws_params s1). exact (recv_params _ _ _ m Hold). }
  destruct (mutable_path (body mt) m) as [m1 [cur|e|q|]] eqn:Ep.
  2-4: unfold mbind, st_bind; rewrite ws_args_run, Ep; by split.
  destruct (read_message (ws_conn s1)) as (c' & answers & Hi' & He' & Hw' & _ & Hread).
  assert (Hr : ws_stream_ (on_conn ReadClientData) (s1, m1) = ((ws_set_conn c' s1, m1), match inbox (ws_conn s) with b :: _ => Ok b | [] => Err (hangup (ws_conn s) 0) end)).
  { unfold ws_stream_, on_conn. by rewrite Hread. }
  rewrite st_bind_assoc. rewrite (st_bind_run _ _ (s1, m) (s1, m1) cur) by (by rewrite ws_args_run, Ep).
  rewrite st_bind_assoc. rewrite Hi in Hr. set (s2 := ws_set_conn c' s1) in *.
  change (ws_conn s1) with (ws_conn s) in *. rewrite Hi, He in He'.
  assert (H2 : is_dialogue s2 (Dialogue false (tail (d_in d))
    (match d_in d with _ :: _ => d_end d | [] => fun i => d_end d (S i) end) (d_out d))).
  { unfold is_dialogue. simpl. rewrite Hi', He', Hw', own_app, own_controls, app_nil_r, Hi. split_and!; try done; [lia|].
    symmetry. apply Z.eqb_neq. lia. }
  destruct (d_in d) as [|b bs].
  { unfold mbind, st_bind. rewrite Hr. split; [|by rewrite He]. split; [exact H2|done]. }
  rewrite (st_bind_run _ _ _ _ b Hr). unfold mbind at 1, st_bind at 1. rewrite ws_args_run. unfold mbind, st_bind.
  destruct (at_message (body mt) (protojson_UnmarshalMessage b) m1) as [m2 [[]|e|q|]]; [|by split..].
  exact (recv_params _ _ _ m2 H2).
Qed.

Lemma sim_run {A} (p : prog A) :
  simulates is_dialogue (same_result is_dialogue) (run (S := streamWS) p) (run (H := ideal_stream) p).
Proof.
  apply run_simulation.
  - intros s d Hd. apply Hd.
  - intros md s d Hd. split; [|done]. unfold SetHeader, ws_stream, ws_SetHeader. by destruct (ws_sentHeader s).
  - intros md s d Hd. by split.
  - by intros md s d Hd.
  - exact sim_SendMsg.
  - exact sim_RecvMsg.
Qed.
End Ideal.

(** ** Serving a WebSocket *)

(** A request for a WebSocket, for a method that is found, which is upgraded. *)
Record ws_call {W} `{RW : ResponseWriter W} (m : Mux) (e : env) (up : Request -> W -> W * outcome error Conn) (r : Request)
    (w w' : W) (conn : Conn) (mt : method) (ps : list param) (hd : handler) : Prop := {
  wc_http : HasPrefix (header_Get (req_Header r) "Content-Type") "application/grpc" = false;
  wc_ws : isWebsocketRequest r = true;
  wc_match : exists ps1 qs, state_match (loadState m) (clean_path (URL_Path r)) kindWebsocket = Ok (mt, ps1) /\
    parseQueryParams (Fields (Input (desc mt))) (range (URL_Query r)) = Ok qs /\ ps = ps1 ++ qs;
  wc_handler : pickMethodHandler (e_pick e) (loadState m) (method_name mt) = Ok hd;
  wc_upgrade : up (with_path (clean_path (URL_Path r)) r) w = (w', Ok conn);
}.

(** C13 Whatever its handler does, what the program writes to a WebSocket are the replies
    of the handler on the ideal stream, each as one text message in their order, then,
    when the handler has returned, one close frame with the code and the message of what
    it returned, and nothing else; the library adds only the control frames with which
    it answers those of the client (a pong, the reply to a close), while messages are
    read.  In the end the connection is closed, also when the handler panics. *)
Theorem ws_serves {W} `{RW : ResponseWriter W} m e up r (x : exchange W) w' conn mt ps hd d o :
  ws_call m e up r (x_w x) w' conn mt ps hd ->
  run (H := ideal_stream (call_context m r hd) mt ps) (h_handler hd (opts m)) (Dialogue true (inbox conn) (hangup conn) []) = (d, o) ->
  (forall frame, o = Ok tt \/ (exists err, o = Err err) -> close_frame (returned o) = Ok frame ->
     exists x' c, ServeHTTP m e up r x = (x', Ok tt) /\ x_conn x' = Some c /\ closed c = true /\
       own (wire c) = own (wire conn) ++ (SentText <$> d_out d) ++ [SentFrame frame]) /\
  (forall q, o = Panic q ->
     exists x' c, ServeHTTP m e up r x = (x', Panic q) /\ x_conn x' = Some c /\ closed c = true /\
       own (wire c) = own (wire conn) ++ (SentText <$> d_out d)).
Proof.
  intros [Hg Hw (ps1 & qs & Hm & Hq & ->) Hp Hup] Hrun.
  set (s0 := StreamWS (call_context m r hd) conn mt ∅ ∅ (ps1 ++ qs) 0 0 false).
  assert (H0 : is_dialogue (call_context m r hd) mt (ps1 ++ qs) (own (wire conn)) s0 (Dialogue true (inbox conn) (hangup conn) []))
    by (unfold is_dialogue; simpl; by rewrite app_nil_r).
  destruct (sim_run _ _ _ _ (h_handler hd (opts m)) _ _ H0) as [Hd Ho]. rewrite Hrun in Hd, Ho.
  destruct (run (h_handler hd (opts m)) s0) as [s1 o1] eqn:E. simpl in Hd, Ho. subst o1.
  assert (Hwire : own (wire (ws_conn s1)) = own (wire conn) ++ (SentText <$> d_out d)) by apply Hd.
  destruct (ServeHTTP_matched m e up r x mt ps1 qs hd Hg) as [sts ->]; [by rewrite Hw|done|done|].
  rewrite Hw. unfold serve_websocket. cbn [x_w]. rewrite Hup. fold s0. rewrite E.
  split.
  - intros frame Hret Hf. destruct (write_frame frame (ws_conn s1)) as (c & n & Hwc & Hwr).
    destruct (close_connection c) as [Hcw Hcl]. destruct Hret as [->|[err ->]]; rewrite Hf, Hwr;
      unfold tell; destruct (statsHandler (opts m)); eexists _, (conn_Close c);
      (split; [reflexivity|]); (split; [reflexivity|]); (split; [exact Hcl|]); by rewrite Hcw, Hwc, own_app, Hwire, <-app_assoc.
  - intros q ->. destruct (close_connection (ws_conn s1)) as [Hcw Hcl]. eexists _, (conn_Close (ws_conn s1)).
    split; [reflexivity|]. split; [reflexivity|]. split; [exact Hcl|]. by rewrite Hcw.
Qed.

(** ** Handlers that receive until an error *)

Fixpoint receive_until_error (n : nat) (m : Message) : prog unit :=
  match n with
  | O => PStuck
  | S n => PRecvMsg m (fun _ err => match err with Some _ => PReturn tt | None => receive_until_error n m end)
  end.

(** A call that returns, with or without an error. *)
Definition settles {A} (o : go A) : Prop := match o with Ok _ | Err _ => True | _ => False end.

Section Receive.
Context (ctx : context) (mt : method) (ps : list param) (m0 : Message).

Lemma receive_with_body n d :
  hasBody mt = true -> body mt = [] -> (forall b m, settles (snd (protojson_UnmarshalMessage b m))) ->
  (forall m, settles (snd (params_set ps m))) -> length (d_in d) < n ->
  snd (run (H := ideal_stream ctx mt ps) (receive_until_error n m0) d) = Ok tt.
Proof.
  intros Hb He Hun Hps. revert d. induction n as [|n IH]; intros d Hn; [lia|]. cbn [receive_until_error run].
  change (RecvMsg (d, m0)) with (d_RecvMsg mt ps (d, m0)). unfold d_RecvMsg. rewrite Hb, He. cbn [mutable_path at_message get].
  destruct (d_in d) as [|b bs] eqn:Ed; [done|]. unfold d_decode. rewrite Hb, He. cbn [at_message]. unfold mbind, st_bind.
  specialize (Hun b m0). destruct (protojson_UnmarshalMessage b m0) as [m1 [[]|e|q|]]; try done.
  destruct (d_fresh d).
  - specialize (Hps m1). destruct (params_set ps m1) as [m2 [[]|e|q|]]; try done. cbn [returned tail]. apply IH. simpl in *. lia.
  - cbn [mret st_ret returned tail]. apply IH. simpl in *. lia.
Qed.

Lemma receive_without_body n d :
  hasBody mt = false -> (exists m, params_set ps m0 = (m, Ok tt)) ->
  snd (run (H := ideal_stream ctx mt ps) (receive_until_error n m0) d) = OutOfFuel.
Proof.
  intros Hb [m1 Hps]. revert d. induction n as [|n IH]; intros d; [done|]. cbn [receive_until_error run].
  change (RecvMsg (d, m0)) with (d_RecvMsg mt ps (d, m0)). unfold d_RecvMsg, d_decode. rewrite Hb. unfold mbind, st_bind, mret, st_ret.
  destruct (d_fresh d); [rewrite Hps|]; cbn [returned]; apply IH.
Qed.
End Receive.

End WS.

(** ** Witnesses *)

Module SampleWs.
Import SampleMux SampleServe.
(** [GET] with an upgrade, and a client that sends one message. *)
Definition upgrade_request : Request :=
  MkRequest "GET" "/pkg.Library/GetShelf" ∅ 1 1 {["Upgrade" := ["websocket"]]} [] 0 "10.0.0.1:80" (MkContext None [] []).
Definition client (fs : list client_frame) : script_conn := ScriptConn fs [] false.
Definition accept_upgrade (fs : list client_frame) (r : Request) (w : response) : response * outcome error (@Conn script_websocket) :=
  (w, Ok (client fs)).
Definition ws_method (withBody : bool) : @method plain_proto := Method getShelf "/pkg.Library/GetShelf" [] [] [] withBody.
Definition ws_sample (withBody : bool) (fs : list client_frame) : streamWS (WS := script_websocket) :=
  StreamWS (MkContext None [] []) (client fs : @Conn script_websocket) (ws_method withBody) ∅ ∅ [] 0 0 false.
End SampleWs.
Import SampleMux SampleServe SampleWs.

(** The client pings, sends a message and closes: the ping is answered, the message
    comes back, then the close frame. *)
Lemma ws_serves_witness :
  exists x' c, ServeHTTP (WS := script_websocket) mux1 e0 (accept_upgrade [Ping "1"; Data "hello"; CloseByClient ""]) upgrade_request start = (x', Ok tt) /\
    x_conn x' = Some c /\ closed c = true /\ own (wire c) = [SentText "hello"; SentFrame "close"].
Proof.
  destruct (ws_serves (WS := script_websocket) mux1 e0 (accept_upgrade [Ping "1"; Data "hello"; CloseByClient ""]) upgrade_request start new_response
    (client [Ping "1"; Data "hello"; CloseByClient ""])
    shelf_method [] shelf_handler (Dialogue false [] (script_hangup [CloseByClient ""]) ["hello"]) (Ok tt)) as [H _].
  - split; try reflexivity. exists [], []. split_and!; vm_compute; reflexivity.
  - vm_compute. reflexivity.
  - exact (H "close" ltac:(by left) eq_refl).
Defined.

(** With all that is written: a handler that reads until an error has the close of the
    client answered. *)
Example control_frames_example :
  wire (ws_conn (fst (run (receive_until_error 2 (text "")) (ws_sample true [Ping "1"; Data "hello"; CloseByClient ""])))) =
    [SentControl "pong 1"; SentControl "close "].
Proof. vm_compute. reflexivity. Qed.

