(* ===== verification/Reflection.v ===== *)
(** The reflection service of larking/proxy.go: the lookups in the registries of the
    program, and the loop that answers a stream of requests.  The registries are
    those of google.golang.org/protobuf/reflect/protoregistry, the class
    [Registries]; what is said of the lookups holds of every registry that keeps the
    laws [RegistryLaws]. *)

#[local] Set Warnings "-register-all".
From S2P Require Import Prelude Status Runes IO Http Proto Params Metadata Compress Codec Selector Stream Routes GrpcStream Mux MuxSpec Conn ProxySpec ConnSpec.

(** ** The registries

    [protoregistry.GlobalFiles] and [GlobalTypes]; a field number is an int32.
    [extensions] is the order in which [RangeExtensionsByMessage] visits, which Go
    does not fix. *)
Class Registries `{P : Protoreflect} := {
  Descriptor_ : Type;
  ParentFile : Descriptor_ -> FileDescriptor;
  GlobalFiles_FindFileByPath : string -> go FileDescriptor;
  GlobalFiles_FindDescriptorByName : string -> go Descriptor_;

  ExtensionType : Type;
  ExtensionFullName : ExtensionType -> string;
  ExtensionNumber : ExtensionType -> Z;
  FindExtensionByNumber : string -> Z -> go ExtensionType;
  NumExtensionsByMessage : string -> nat;
  extensions : string -> list ExtensionType;

  (** [protodesc.ToFileDescriptorProto], and [proto.Marshal] of its result *)
  FileProto : Type;
  ToFileDescriptorProto : FileDescriptor -> FileProto;
  proto_Marshal : FileProto -> go string;
}.

(** A descriptor that is found is one of a registered file, and the extensions of a
    message are found by their numbers. *)
Class RegistryLaws `{P : Protoreflect} `{RG : @Registries P} := {
  found_in_file name d : GlobalFiles_FindDescriptorByName name = Ok d ->
    GlobalFiles_FindFileByPath (FilePath (ParentFile d)) = Ok (ParentFile d);
  extension_by_number name n e : FindExtensionByNumber name n = Ok e <-> e ∈ extensions name /\ ExtensionNumber e = n;
  extensions_counted name : NumExtensionsByMessage name = length (extensions name);
}.

(** ** The lookups *)

Section Lookups.
Context `{P : Protoreflect} `{RG : @Registries P}.

Definition fileDescEncodingByFilename (name : string) : go string :=
  fd ← GlobalFiles_FindFileByPath name;
  proto_Marshal (ToFileDescriptorProto fd).

Definition fileDescEncodingContainingSymbol (name : string) : go string :=
  d ← GlobalFiles_FindDescriptorByName name;
  let fd := ParentFile d in
  proto_Marshal (ToFileDescriptorProto fd).

Definition fileDescEncodingContainingExtension (typeName : string) (extNum : Z) : go string :=
  ext ← FindExtensionByNumber typeName extNum;
  d ← GlobalFiles_FindDescriptorByName (ExtensionFullName ext);
  let fd := ParentFile d in
  proto_Marshal (ToFileDescriptorProto fd).

(** [RangeExtensionsByMessage]: until the callback returns false. *)
Fixpoint range_extensions {A} (f : ExtensionType -> A -> A * bool) (es : list ExtensionType) (a : A) : A :=
  match es with
  | [] => a
  | e :: es => match f e a with (a, true) => range_extensions f es a | (a, false) => a end
  end.

Definition allExtensionNumbersForTypeName (name : string) : go (list Z) :=
  GlobalFiles_FindDescriptorByName name;;
  if NumExtensionsByMessage name =? 0 then Ok []
  else Ok (range_extensions (fun et extNums => (extNums ++ [ExtensionNumber et], true)) (extensions name) []).

Lemma range_extensions_all {A} (f : ExtensionType -> A) es acc :
  range_extensions (fun e l => (l ++ [f e], true)) es acc = acc ++ (f <$> es).
Proof.
  revert acc. induction es as [|e es IH]; intros acc; cbn [range_extensions]; [by rewrite app_nil_r|].
  rewrite IH, <-app_assoc. done.
Qed.
End Lookups.

(** ** The service *)

(** A request with its host, and a response; [X] is what its oneof holds, which is
    nil in every response that is made here. *)
Record Request (Q : Type) := MkRequest { Host : string; MessageRequest : Q }.
Record Response (Q X : Type) := MkResponse { ValidHost : string; OriginalRequest : Request Q; MessageResponse : option X }.
#[global] Arguments MkRequest {Q}.
#[global] Arguments Host {Q}.
#[global] Arguments MessageRequest {Q}.
#[global] Arguments MkResponse {Q X}.
#[global] Arguments ValidHost {Q X}.
#[global] Arguments OriginalRequest {Q X}.
#[global] Arguments MessageResponse {Q X}.

(** The stream that the server is given. *)
Class ReflectionStream (Q X S : Type) := {
  rfl_Recv : st S error (Request Q);
  rfl_Send : Response Q X -> st S error unit;
}.

(** The mux and the server are pointers; none of the methods uses them. *)
Record serverReflectionServer (M G : Type) := MkReflectionServer { rfl_m : M; rfl_s : G }.
#[global] Arguments MkReflectionServer {M G}.

(** [register] is [RegisterServerReflectionServer] on a [grpc.Server]. *)
Definition RegisterReflectionServer {M G} (register : G -> serverReflectionServer M G -> G) (m : M) (s : G) : G :=
  register s (MkReflectionServer m s).

Section Service.
Context {Q X S : Type} `{RS : ReflectionStream Q X S}.

Definition answer (in_ : Request Q) : Response Q X := MkResponse (Host in_) in_ None.

(** The fuel bounds how many requests there are. *)
Fixpoint reflection_loop (fuel : nat) : st S error unit := fun s =>
  match fuel with
  | O => (s, OutOfFuel)
  | Datatypes.S fuel =>
      match rfl_Recv s with
      | (s, Err EOF) => (s, Ok tt)
      | (s, Err err) => (s, Err err)
      | (s, Panic p) => (s, Panic p)
      | (s, OutOfFuel) => (s, OutOfFuel)
      | (s, Ok in_) =>
          match rfl_Send (answer in_) s with
          | (s, Ok _) => reflection_loop fuel s
          | r => r
          end
      end
  end.
End Service.

(** ** What a stream promises

    The requests that are to be received and the error after them; the responses
    sent, and how many more the client takes before a send fails. *)
Class ReflectionScript (Q X S : Type) `{RS : ReflectionStream Q X S} := {
  rfl_todo : S -> list (Request Q);
  rfl_end : S -> error;
  rfl_sent : S -> list (Response Q X);
  rfl_room : S -> nat;
  rfl_broken : S -> error;
  rfl_recv_spec s : exists s', rfl_Recv s = (s', match rfl_todo s with r :: _ => Ok r | [] => Err (rfl_end s) end) /\
    rfl_todo s' = tail (rfl_todo s) /\ rfl_end s' = rfl_end s /\ rfl_sent s' = rfl_sent s /\ rfl_room s' = rfl_room s /\ rfl_broken s' = rfl_broken s;
  rfl_send_spec out s : exists s', rfl_todo s' = rfl_todo s /\ rfl_end s' = rfl_end s /\ rfl_broken s' = rfl_broken s /\
    match rfl_room s with
    | O => rfl_Send out s = (s', Err (rfl_broken s)) /\ rfl_sent s' = rfl_sent s
    | Datatypes.S n => rfl_Send out s = (s', Ok tt) /\ rfl_sent s' = rfl_sent s ++ [out] /\ rfl_room s' = n
    end;
}.

(** A stream that is its script. *)
Record rfl_script (Q X : Type) := RflScript {
  rs_todo : list (Request Q); rs_end : error; rs_sent : list (Response Q X); rs_room : nat; rs_broken : error;
}.
#[global] Arguments RflScript {Q X}.
#[global] Arguments rs_todo {Q X}.
#[global] Arguments rs_end {Q X}.
#[global] Arguments rs_sent {Q X}.
#[global] Arguments rs_room {Q X}.
#[global] Arguments rs_broken {Q X}.

#[export] Instance rfl_script_stream {Q X} : ReflectionStream Q X (rfl_script Q X) := {|
  rfl_Recv s := (RflScript (tail (rs_todo s)) (rs_end s) (rs_sent s) (rs_room s) (rs_broken s),
                 match rs_todo s with r :: _ => Ok r | [] => Err (rs_end s) end);
  rfl_Send out s :=
    match rs_room s with
    | O => (s, Err (rs_broken s))
    | Datatypes.S n => (RflScript (rs_todo s) (rs_end s) (rs_sent s ++ [out]) n (rs_broken s), Ok tt)
    end;
|}.

#[export] Instance rfl_script_spec {Q X} : ReflectionScript Q X (rfl_script Q X).
Proof.
  refine {| rfl_todo := rs_todo; rfl_end := rs_end; rfl_sent := rs_sent; rfl_room := rs_room; rfl_broken := rs_broken |}.
  - intros s. eexists. split; [reflexivity|]. by split_and!.
  - intros out s. cbn. destruct (rs_room s) eqn:E; eexists; (split_and!; [| | |reflexivity|..]); try done; by cbn.
Defined.

(** ** A larking backend, as a larking mux sees it

    The client of a reflection stream whose server is the loop above: a request that
    is sent waits until the next [Recv], which runs the server on it. *)

Section Mirror.
Context `{P : Protoreflect} {X : Type} (getters : X -> ServerReflectionResponse).

(** The getters of a response are nil-safe. *)
Definition reflected {Q} (r : Response Q X) : ServerReflectionResponse :=
  match MessageResponse r with
  | Some x => getters x
  | None => MkReflectionResponse [] []
  end.

Definition served (r : ServerReflectionRequest) : rfl_script ServerReflectionRequest X :=
  fst (reflection_loop 2 (RflScript [MkRequest "" r] EOF [] 1 EOF)).

Definition mirror (RF : @Reflection P) : @Reflection P := {|
  ReflectionClient := list ServerReflectionRequest;
  ServerReflectionInfo _ := Ok [];
  rs_Send r c := (c ++ [r], Ok tt);
  rs_Recv c :=
    match c with
    | [] => ([], OutOfFuel)
    | r :: c =>
        (c, match rs_sent (served r) with
            | out :: _ => Ok (reflected out)
            | [] => OutOfFuel
            end)
    end;
  CloseSend c := (c, Ok tt);
  FileDescriptorProto := FileDescriptorProto (Reflection := RF);
  Unmarshal_file := Unmarshal_file (Reflection := RF);
  FileName := FileName (Reflection := RF);
  NewFile := NewFile (Reflection := RF);
  emptyFiles := emptyFiles (Reflection := RF);
  googleapis := googleapis (Reflection := RF);
  Sum256 := Sum256 (Reflection := RF);
|}.
End Mirror.

(** ** Theorems *)

Section Theorems.
Context `{P : Protoreflect} `{RG : @Registries P} `{RL : @RegistryLaws P RG}.

(** The three ways to a file agree, and the numbers of the extensions of a message
    are complete: a symbol has the encoding of its file by its path, a message that is
    found has all the numbers that a lookup by number finds, once each, and for each
    of them the encoding of the file of the extension; a name that is not found is an
    error in all of them. *)
Theorem lookups_agree name :
  match GlobalFiles_FindDescriptorByName name with
  | Ok d =>
      fileDescEncodingContainingSymbol name = fileDescEncodingByFilename (FilePath (ParentFile d)) /\
      exists ns, allExtensionNumbersForTypeName name = Ok ns /\ length ns = NumExtensionsByMessage name /\
        (NoDup (extensions name) -> NoDup ns) /\
        forall n, n ∈ ns <-> exists e, FindExtensionByNumber name n = Ok e /\
          fileDescEncodingContainingExtension name n = fileDescEncodingContainingSymbol (ExtensionFullName e)
  | Err err => fileDescEncodingContainingSymbol name = Err err /\ allExtensionNumbersForTypeName name = Err err
  | _ => True
  end.
Proof.
  destruct (GlobalFiles_FindDescriptorByName name) as [d|err|q|] eqn:E; [|split|done..].
  2:{ unfold fileDescEncodingContainingSymbol. by rewrite E. }
  2:{ unfold allExtensionNumbersForTypeName. by rewrite E. }
  split.
  { unfold fileDescEncodingContainingSymbol, fileDescEncodingByFilename. by rewrite E, (found_in_file name d E). }
  exists (ExtensionNumber <$> extensions name). split_and!.
  - unfold allExtensionNumbersForTypeName. rewrite E. cbn [mbind outcome_bind].
    rewrite extensions_counted. destruct (Nat.eqb_spec (length (extensions name)) 0) as [H0|_].
    + apply length_zero_iff_nil in H0. by rewrite H0.
    + by rewrite range_extensions_all.
  - by rewrite length_fmap, extensions_counted.
  - intros Hnd. apply NoDup_fmap_2_strong; [|done]. intros e e' He He' Hn.
    assert (H1 : FindExtensionByNumber name (ExtensionNumber e) = Ok e) by by apply extension_by_number.
    assert (H2 : FindExtensionByNumber name (ExtensionNumber e) = Ok e') by by apply extension_by_number. congruence.
  - intros n. rewrite list_elem_of_fmap. split.
    + intros (e & -> & He). exists e. assert (H : FindExtensionByNumber name (ExtensionNumber e) = Ok e) by by apply extension_by_number.
      split; [done|]. unfold fileDescEncodingContainingExtension. by rewrite H.
    + intros (e & He & _). exists e. apply extension_by_number in He as [Hin <-]. done.
Qed.
End Theorems.

Section Loop.
Context {Q X S : Type} `{RS : ReflectionStream Q X S} `{SC : !ReflectionScript Q X S}.

(** The service answers each request in order with its host and itself, and with no
    message, until the stream ends or a send fails; it returns nil at the end of the
    stream and any other error as it is.  One round for each request is enough. *)
Theorem reflection_answers s fuel :
  length (rfl_todo s) < fuel ->
  exists s', reflection_loop fuel s =
      (s', if rfl_room s <? length (rfl_todo s) then Err (rfl_broken s)
           else match rfl_end s with EOF => Ok tt | e => Err e end) /\
    rfl_sent s' = rfl_sent s ++ (answer <$> take (rfl_room s) (rfl_todo s)).
Proof using SC.
  remember (rfl_todo s) as todo eqn:Et. revert s fuel Et. induction todo as [|r todo IH]; intros s [|fuel] Et Hf; cbn [length] in Hf; try lia;
    cbn [reflection_loop]; destruct (rfl_recv_spec s) as (s1 & -> & Ht & He & Hs & Hr & Hb); rewrite <-Et.
  - exists s1. rewrite take_nil, app_nil_r. split; [|done]. by destruct (rfl_end s).
  - destruct (rfl_send_spec (answer r) s1) as (s2 & Ht2 & He2 & Hb2 & Hsend). rewrite Hr in Hsend.
    destruct (rfl_room s) as [|room].
    + destruct Hsend as [-> Hs2]. exists s2. rewrite Hb, app_nil_r. split; [done|congruence].
    + destruct Hsend as (-> & Hs2 & Hr2). destruct (IH s2 fuel) as (s' & E & Hs'); [by rewrite Ht2, Ht, <-Et|lia|].
      exists s'. rewrite E, He2, He, Hr2, Hb2, Hb. split; [done|].
      rewrite Hs', Hs2, Hs, <-app_assoc, Hr2. done.
Qed.
End Loop.

Lemma range_empty `{R : GoRange} {A} : range (∅ : gmap string A) = [].
Proof. apply Permutation_nil_r. by rewrite range_perm, map_to_list_empty. Qed.

Section Mirror.
Context `{U : Unicode} `{P : Protoreflect} {M : Messages} `{R : GoRange} `{RF : @Reflection P} `{BK : @Backend P} {X : Type}.
Context (getters : X -> ServerReflectionResponse).

(** C36 A mux whose backend has the reflection service of another mux registers nothing
    and returns nil: the responses list no service, so the connection is recorded
    without handlers, and the routes and the handlers are those from before. *)
Theorem mirrored_connection fuel cc (m : Mux) fs :
  let s := state_clone (loadState m) in
  st_conns s !! cc = None ->
  newResolver (RF := mirror getters RF) [] = Ok (Resolver (RF := mirror getters RF) [] fs) ->
  RegisterConn (RF := mirror getters RF) fuel cc m =
    (MkMux (opts m) (Some (set_conns <[cc := ConnList [] (Sum256 "")]> s)) (next_handler m), Ok tt).
Proof.
  intros s Hcc Hr. unfold RegisterConn. cbn [ServerReflectionInfo mirror]. unfold addConnHandler.
  assert (E : (rs_Send (Reflection := mirror getters RF) ListServices;;
               r ← rs_Recv (Reflection := mirror getters RF); fetch_files (RF := mirror getters RF) (GetService r) ∅ "") [] = ([], Ok (∅, "")))
    by reflexivity.
  rewrite E. fold s. cbv beta iota zeta. rewrite Hcc, Hr.
  change (FileDescriptorProto (Reflection := mirror getters RF)) with (FileDescriptorProto (Reflection := RF)).
  rewrite range_empty. reflexivity.
Qed.
End Mirror.

(** ** Sample *)

Module SampleReflection.
Import SampleConn.

Definition shelf_file : xfile := XFile "library.proto" [XService "pkg.Library" []].
Definition options_file : xfile := XFile "options.proto" [].

(** A symbol is the path of its file, an extension the number of its field; the message
    "pkg.Book" is extended in another file. *)
#[export] Instance registries : @Registries plain_proto.
Proof.
  refine (Build_Registries plain_proto (xfile : Type) (fun f => f)
    (fun path => if String.eqb path "library.proto" then Ok shelf_file
                 else if String.eqb path "options.proto" then Ok options_file else Err (External "not found"))
    (fun name => if String.eqb name "pkg.Book" then Ok shelf_file
                 else if String.eqb name "pkg.label" then Ok options_file else Err (External "not found"))
    Z (fun _ => "pkg.label") (fun n => n)
    (fun name n => if String.eqb name "pkg.Book" && bool_decide (n ∈ [100; 200]%Z) then Ok n else Err (External "not found"))
    (fun name => if String.eqb name "pkg.Book" then 2 else 0)
    (fun name => if String.eqb name "pkg.Book" then [100; 200]%Z else [])
    string (fun f => xfl_path f) (fun p => Ok p)).
Defined.
End SampleReflection.
Import SampleConn SampleReflection.

#[local] Instance sample_laws : RegistryLaws.
Proof.
  split.
  - intros name d. cbn. repeat case_match; by intros [= <-].
  - intros name n e. cbn. destruct (String.eqb name "pkg.Book"); cbn; [|by rewrite elem_of_nil; split; [|intros []]].
    destruct (bool_decide (n ∈ [100; 200]%Z)) eqn:En.
    + apply bool_decide_eq_true in En. split; [by intros [= <-]|by intros [_ <-]].
    + apply bool_decide_eq_false in En. split; [done|by intros [? <-]].
  - intros name. cbn. by destruct (String.eqb name "pkg.Book").
Qed.

Lemma lookups_agree_witness :
  fileDescEncodingContainingSymbol "pkg.Book" = Ok "library.proto" /\
  exists ns, allExtensionNumbersForTypeName "pkg.Book" = Ok ns /\ 200%Z ∈ ns.
Proof.
  destruct (lookups_agree "pkg.Book") as (E & ns & Hns & _ & _ & Hn). split; [rewrite E; reflexivity|].
  exists ns. split; [exact Hns|]. apply Hn. exists 200%Z. split; reflexivity.
Defined.

Lemma reflection_answers_witness :
  let s := RflScript (X := unit) [MkRequest "a" ListServices; MkRequest "b" (FileByFilename "x.proto"); MkRequest "c" ListServices] EOF [] 2 (External "gone") in
  exists s', reflection_loop 4 s = (s', Err (External "gone")) /\
    (ValidHost <$> rfl_sent s') = ["a"; "b"].
Proof.
  intros s. destruct (reflection_answers s 4) as (s' & E & Hs); [vm_compute; lia|]. exists s'.
  split; [exact E|]. rewrite Hs. reflexivity.
Defined.

Lemma mirrored_connection_witness :
  let m := @MkMux plain_proto (opts SampleMux.mux0) None 0 in
  snd (RegisterConn (RF := mirror (fun _ : unit => MkReflectionResponse ["pkg.Library"] []) (reflection library_table)) (BK := SampleProxy.backend) 5 7 m) = Ok tt.
Proof.
  intros m. rewrite (mirrored_connection (RF := reflection library_table) (BK := SampleProxy.backend) (fun _ : unit => MkReflectionResponse ["pkg.Library"] []) 5 7 m
    (googleapis (Reflection := reflection library_table))); [reflexivity|reflexivity|reflexivity].
Defined.
