(* ===== verification/Signal.v ===== *)
(** [NewOSSignalContext] of larking/server.go: a context that an interrupt of the
    operating system cancels.  Its goroutine, the signals, the parent context and the
    calls of the returned function are a transition system. *)

#[local] Set Warnings "-register-all".
From stdpp Require Import relations.
From S2P Require Import Prelude.

(** ** The state

    The goroutine waits in its select, has received a signal and is to call [cancel],
    or has returned.  [signal.Notify] delivers an interrupt to the channel, whose
    buffer holds one, without waiting, until [signal.Stop].  A call of the returned
    function is at its first or at its second line. *)
Inductive waiter := Waiting | Received | Returned.
Inductive stopper := NotCalled | StopSignal | Cancel | Stopped.

Record signal_ctx := SignalCtx {
  sc_done : bool;        (* ctx.Done() of the derived context *)
  sc_parent : bool;      (* of the parent *)
  sc_chan : bool;        (* a signal in c *)
  sc_notified : bool;    (* signal.Notify is in effect *)
  sc_waiter : waiter;
  sc_stopper : stopper;
}.

(** When the function returns; [parent] is whether the parent is done already. *)
Definition NewOSSignalContext (parent : bool) : signal_ctx := SignalCtx parent parent false true Waiting NotCalled.

Definition cancel (c : signal_ctx) : signal_ctx :=
  SignalCtx true (sc_parent c) (sc_chan c) (sc_notified c) (sc_waiter c) (sc_stopper c).
Definition set_waiter (w : waiter) (c : signal_ctx) : signal_ctx :=
  SignalCtx (sc_done c) (sc_parent c) (sc_chan c) (sc_notified c) w (sc_stopper c).
Definition set_chan (b : bool) (c : signal_ctx) : signal_ctx :=
  SignalCtx (sc_done c) (sc_parent c) b (sc_notified c) (sc_waiter c) (sc_stopper c).
Definition set_stopper (s : stopper) (c : signal_ctx) : signal_ctx :=
  SignalCtx (sc_done c) (sc_parent c) (sc_chan c) (sc_notified c) (sc_waiter c) s.

(** The goroutine: a select takes any of its cases that is ready. *)
Inductive wait_step : signal_ctx -> signal_ctx -> Prop :=
  | wait_signal c : sc_waiter c = Waiting -> sc_chan c = true -> wait_step c (set_waiter Received (set_chan false c))
  | wait_cancel c : sc_waiter c = Received -> wait_step c (set_waiter Returned (cancel c))
  | wait_done c : sc_waiter c = Waiting -> sc_done c = true -> wait_step c (set_waiter Returned c).

(** What goes on around it. *)
Inductive event := Interrupt | ParentDone | StopCalled | SignalStop | CancelCalled.

Inductive env_step : event -> signal_ctx -> signal_ctx -> Prop :=
  (** a signal that finds the buffer full is dropped *)
  | env_interrupt c : sc_notified c = true -> env_step Interrupt c (set_chan true c)
  | env_parent c : env_step ParentDone c
      (SignalCtx true true (sc_chan c) (sc_notified c) (sc_waiter c) (sc_stopper c))
  | env_call c : sc_stopper c = NotCalled \/ sc_stopper c = Stopped -> env_step StopCalled c (set_stopper StopSignal c)
  | env_stop c : sc_stopper c = StopSignal -> env_step SignalStop c
      (SignalCtx (sc_done c) (sc_parent c) (sc_chan c) false (sc_waiter c) Cancel)
  | env_cancel c : sc_stopper c = Cancel -> env_step CancelCalled c (set_stopper Stopped (cancel c)).

(** The events so far and the state they lead to. *)
Inductive reaches (parent : bool) : list event -> signal_ctx -> Prop :=
  | reaches_new : reaches parent [] (NewOSSignalContext parent)
  | reaches_wait es c c' : reaches parent es c -> wait_step c c' -> reaches parent es c'
  | reaches_env es e c c' : reaches parent es c -> env_step e c c' -> reaches parent (es ++ [e]) c'.

(** ** What cancels the context *)

Definition caused (parent : bool) (es : list event) : Prop :=
  parent = true \/ exists e, e ∈ es /\ e ∈ [Interrupt; ParentDone; CancelCalled].

(** An interrupt that is on its way. *)
Definition pending (c : signal_ctx) : Prop := sc_chan c = true \/ sc_waiter c = Received.

Record signal_ok (parent : bool) (es : list event) (c : signal_ctx) : Prop := SignalOk {
  ok_returned : sc_waiter c = Returned -> sc_done c = true;
  ok_sound : sc_done c = true \/ pending c -> caused parent es;
  ok_complete : caused parent es -> sc_done c = true \/ pending c;
}.

Lemma caused_snoc parent es e :
  caused parent (es ++ [e]) <-> caused parent es \/ e ∈ [Interrupt; ParentDone; CancelCalled].
Proof.
  unfold caused. split.
  - intros [?|(e' & Hin & He)]; [by left; left|]. apply elem_of_app in Hin as [Hin| ->%list_elem_of_singleton]; [left; right; eauto|by right].
  - intros [[?|(e' & Hin & He)]|He]; [by left|right; exists e'; split; [apply elem_of_app; by left|done]|right].
    exists e. split; [apply elem_of_app; right; by left|done].
Qed.

Lemma wait_step_ok parent es c c' : wait_step c c' -> signal_ok parent es c -> signal_ok parent es c'.
Proof.
  intros Hs []. unfold pending in *. destruct Hs as [c Hw Hc|c Hw|c Hw Hd]; split; unfold pending in *; cbn; try tauto; try (intros; congruence).
Qed.

Lemma env_step_ok parent es e c c' : env_step e c c' -> signal_ok parent es c -> signal_ok parent (es ++ [e]) c'.
Proof.
  intros Hs []. destruct Hs; split; unfold pending in *; rewrite ?caused_snoc, ?elem_of_cons, ?elem_of_nil; cbn;
    try tauto; try (intros; congruence); intuition congruence.
Qed.

Lemma reaches_ok parent es c : reaches parent es c -> signal_ok parent es c.
Proof.
  induction 1 as [|es c c' _ IH Hs|es e c c' _ IH Hs]; [|by eapply wait_step_ok|by eapply env_step_ok].
  unfold pending. split; cbn; [done|..].
  - intros [?|[?|?]]; [by left|done..].
  - intros [?|(e & ?%elem_of_nil & _)]; [by left|done].
Qed.

(** How many steps the goroutine has left. *)
Definition waits (c : signal_ctx) : nat := match sc_waiter c with Waiting => 2 | Received => 1 | Returned => 0 end.

Lemma wait_step_waits c c' : wait_step c c' -> waits c' < waits c.
Proof. unfold waits. destruct 1; cbn; repeat match goal with H : sc_waiter _ = _ |- _ => rewrite H end; cbn; lia. Qed.

Lemma wait_steps_bounded n c c' : nsteps wait_step n c c' -> n + waits c' <= waits c.
Proof. induction 1 as [|n c c1 c' Hs _ IH]; [lia|]. apply wait_step_waits in Hs. lia. Qed.

Lemma wait_steps_ok parent es n c c' : nsteps wait_step n c c' -> signal_ok parent es c -> signal_ok parent es c'.
Proof. induction 1; [done|]. intros. eauto using wait_step_ok. Qed.

(** A goroutine that cannot go on has returned, or waits for what did not happen. *)
Lemma stuck_waiter c : nf wait_step c -> sc_waiter c = Returned \/ sc_waiter c = Waiting /\ sc_chan c = false /\ sc_done c = false.
Proof.
  intros Hnf. destruct (sc_waiter c) eqn:Ew; [right|destruct Hnf; eexists; by apply wait_cancel|by left].
  split; [done|]. split.
  - destruct (sc_chan c) eqn:Ec; [|done]. destruct Hnf. eexists. by apply wait_signal.
  - destruct (sc_done c) eqn:Ed; [|done]. destruct Hnf. eexists. by apply wait_done.
Qed.

(** C35 The context is cancelled by an interrupt, by its parent and by the function that
    is returned with it, and by nothing else; and the goroutine does not outlive it.
    After any events, in any order with its steps, the goroutine has at most two steps
    left, and when it cannot go on, then it has returned with the context cancelled if
    one of the three happened, and otherwise it waits and the context is not done. *)
Theorem signal_context parent es c n c' :
  reaches parent es c -> nsteps wait_step n c c' ->
  n <= 2 /\ (sc_done c = true -> caused parent es) /\
  (nf wait_step c' ->
     (caused parent es -> sc_done c' = true /\ sc_waiter c' = Returned) /\
     (~ caused parent es -> sc_done c' = false /\ sc_waiter c' = Waiting)).
Proof.
  intros Hr Hn. apply reaches_ok in Hr. pose proof (wait_steps_ok _ _ _ _ _ Hn Hr) as [Hret Hs Hc].
  split_and!.
  - apply wait_steps_bounded in Hn. unfold waits in Hn. destruct (sc_waiter c); lia.
  - intros Hd. apply Hr. by left.
  - unfold pending in *. intros [Hw|(Hw & Hch & Hd)]%stuck_waiter; (split; [intros H|intros H]).
    + split; [by apply Hret|done].
    + destruct H. apply Hs. left. by apply Hret.
    + destruct (Hc H) as [?|[?|?]]; congruence.
    + done.
Qed.

(** An interrupt after the function was called but before [signal.Stop]: the goroutine
    receives it and returns. *)
Lemma signal_context_witness :
  exists c c', reaches false [StopCalled; Interrupt] c /\ nsteps wait_step 2 c c' /\ sc_done c' = true /\ sc_waiter c' = Returned.
Proof.
  set (c := SignalCtx false false true true Waiting StopSignal).
  set (c' := SignalCtx true false false true Returned StopSignal).
  assert (Hr : reaches false [StopCalled; Interrupt] c).
  { apply (reaches_env false [StopCalled] Interrupt (SignalCtx false false false true Waiting StopSignal)); [|by apply (env_interrupt (SignalCtx false false false true Waiting StopSignal))].
    apply (reaches_env false [] StopCalled (NewOSSignalContext false)); [constructor|]. apply (env_call (NewOSSignalContext false)). by left. }
  assert (Hn : nsteps wait_step 2 c c').
  { eapply nsteps_l; [by apply (wait_signal c)|]. eapply nsteps_l; [by apply (wait_cancel (set_waiter Received (set_chan false c)))|]. constructor. }
  exists c, c'. split; [exact Hr|]. split; [exact Hn|].
  destruct (signal_context false [StopCalled; Interrupt] c 2 c' Hr Hn) as (_ & _ & H).
  apply H; [intros [c1 H1]; inversion H1; discriminate|]. right. exists Interrupt. split; [right; left|left].
Defined.
