(* ===== verification/Server.v ===== *)
(** The [http.Server] around a mux, larking/server.go, and the health endpoint of
    health/health.go. *)

#[local] Set Warnings "-register-all".
From S2P Require Import Prelude Status IO Http Proto Selector.

(** ** net/http's ServeMux *)

(** A handler: the mux, the mux behind [http.StripPrefix], or another one. *)
Inductive http_handler := HMux | HStripPrefix (prefix : string) | HOther (id : nat).

Abbreviation ServeMux := (gmap string http_handler).

(** [Handle] panics for the empty pattern and for one that is there. *)
Definition Handle (pattern : string) (h : http_handler) (s : ServeMux) : go ServeMux :=
  if String.eqb pattern "" then Panic (PanicCall "http: invalid pattern")
  else match s !! pattern with
       | Some _ => Panic (PanicCall "http: multiple registrations for pattern")
       | None => Ok (<[pattern := h]> s)
       end.

(** ** NewServer *)

(** A [tls.Config] is a pointer. *)
Record serverOptions := ServerOptions {
  tlsConfig : option nat;
  serveMux : option ServeMux;
  muxPatterns : option (list string);
}.

Definition ServerOption : Type := serverOptions -> go serverOptions.

Definition TLSCredsOption (c : option nat) : ServerOption := fun o =>
  Ok (ServerOptions c (serveMux o) (muxPatterns o)).

(** Without patterns the variadic slice is nil. *)
Definition MuxHandleOption (patterns : list string) : ServerOption := fun o =>
  match muxPatterns o with
  | Some _ => Err (Errorf "duplicate mux patterns registered" [])
  | None => Ok (ServerOptions (tlsConfig o) (serveMux o) (match patterns with [] => None | _ => Some patterns end))
  end.

Definition HTTPHandlerOption (pattern : string) (h : http_handler) : ServerOption := fun o =>
  s ← Handle pattern h (default ∅ (serveMux o));
  Ok (ServerOptions (tlsConfig o) (Some s) (muxPatterns o)).

Fixpoint apply_server_options (opts : list ServerOption) (o : serverOptions) : go serverOptions :=
  match opts with
  | [] => Ok o
  | f :: opts => o ← f o; apply_server_options opts o
  end.

Record http_Server := HttpServer {
  ReadHeaderTimeout : Z;
  MaxHeaderBytes : Z;
  srv_Handler : ServeMux;
  TLSConfig : option nat;
}.

(** The pattern that the mux is registered with, and its handler. *)
Definition mux_pattern (pattern : string) : string := (TrimSuffix pattern "/" ++ "/")%string.
Definition mux_handler (pattern : string) : http_handler :=
  let prefix := TrimSuffix pattern "/" in
  if 0 <? String.length prefix then HStripPrefix prefix else HMux.

Fixpoint handle_patterns (patterns : list string) (s : ServeMux) : go ServeMux :=
  match patterns with
  | [] => Ok s
  | pattern :: patterns =>
      s ← Handle (mux_pattern pattern) (mux_handler pattern) s;
      handle_patterns patterns s
  end.

Definition second : Z := 1000000000.

(** [mux] is whether the mux is not nil, [ConfigureServer] is http2's. *)
Definition NewServer (mux : bool) (ConfigureServer : http_Server -> option error) (opts : list ServerOption) : go http_Server :=
  if negb mux then Err (Errorf "invalid mux must not be nil" []) else
  o ← apply_server_options opts (ServerOptions None None None);
  let patterns := default ["/"] (muxPatterns o) in
  h ← handle_patterns patterns (default ∅ (serveMux o));
  let hs := HttpServer (10 * second) (2 ^ 20) h (tlsConfig o) in
  match ConfigureServer hs with
  | Some err => Err err
  | None => Ok hs
  end.

(** ** health *)

Definition health_check : HttpRule := Rule "grpc.health.v1.Health.Check" (HttpRule_Get "/v1/healthz") "" "" [].
Definition health_watch : HttpRule := Rule "grpc.health.v1.Health.Watch" (HttpRule_Custom (Some (MkCustomHttpPattern "WEBSOCKET" "/v1/healthz"))) "" "" [].

(** [proto.Merge] appends the rules to those of the service. *)
Definition AddHealthz (dst : list HttpRule) : list HttpRule := dst ++ [health_check; health_watch].

(** ** Theorems *)

Lemma mux_pattern_nonempty p : String.eqb (mux_pattern p) "" = false.
Proof. unfold mux_pattern. by destruct (TrimSuffix p "/"). Qed.

Lemma handle_patterns_spec ps s s' :
  handle_patterns ps s = Ok s' ->
  NoDup (mux_pattern <$> ps) /\ (forall p, p ∈ ps -> s !! mux_pattern p = None) /\
  forall k h, s' !! k = Some h <-> s !! k = Some h \/ exists p, p ∈ ps /\ k = mux_pattern p /\ h = mux_handler p.
Proof.
  revert s. induction ps as [|p ps IH]; intros s; cbn [handle_patterns].
  { intros [= <-]. split_and!; [constructor|by intros p ?%elem_of_nil|]. intros k h. split; [by left|].
    intros [?|(p & ?%elem_of_nil & _)]; done. }
  unfold Handle. rewrite mux_pattern_nonempty. destruct (s !! mux_pattern p) as [h0|] eqn:E; [done|].
  intros (Hnd & Hnew & Hl)%IH. split_and!.
  - simpl. constructor; [|done]. intros (q & Hq & Hin)%list_elem_of_fmap.
    specialize (Hnew q Hin). apply lookup_insert_None in Hnew as [_ Hne]. congruence.
  - intros q [->|Hin]%elem_of_cons; [done|]. specialize (Hnew q Hin). by apply lookup_insert_None in Hnew as [? _].
  - intros k h. rewrite Hl, lookup_insert_Some. split.
    + intros [[[<- <-]|[_ ?]]|(q & ? & ? & ?)]; [right; exists p; by split_and!; [left|..]|by left|right; exists q; by split_and!; [right|..]].
    + intros [Hk|(q & [->|Hin]%elem_of_cons & -> & ->)].
      * left. destruct (decide (k = mux_pattern p)) as [->|Hne]; [congruence|]. by right.
      * left. by left.
      * right. by exists q.
Qed.

(** A server routes to the mux exactly the subtrees of its patterns, "/" when there
    are none, with the prefix stripped that the pattern has, beside the handlers it
    was given; two patterns for one subtree are never accepted. *)
Theorem NewServer_routes ConfigureServer opts o srv :
  apply_server_options opts (ServerOptions None None None) = Ok o ->
  NewServer true ConfigureServer opts = Ok srv ->
  let patterns := default ["/"] (muxPatterns o) in
  NoDup (mux_pattern <$> patterns) /\ TLSConfig srv = tlsConfig o /\
  forall k h, srv_Handler srv !! k = Some h <->
    (exists s, serveMux o = Some s /\ s !! k = Some h) \/
    exists p, p ∈ patterns /\ k = mux_pattern p /\ h = mux_handler p.
Proof.
  intros Ho. unfold NewServer. cbn [negb]. rewrite Ho. unfold mbind, outcome_bind.
  destruct (handle_patterns _ _) as [s| | |] eqn:E; try done. destruct (ConfigureServer _); [done|]. intros [= <-].
  apply handle_patterns_spec in E as (Hnd & _ & Hl). split_and!; [done|done|]. intros k h. simpl. rewrite Hl.
  destruct (serveMux o) as [s0|]; simpl.
  - split; (intros [Hk|?]; [left|by right]); [by exists s0|by destruct Hk as (? & [= <-] & ?)].
  - rewrite lookup_empty. split; (intros [Hk|?]; [|by right]); [done|by destruct Hk as (? & [=] & _)].
Qed.

Lemma NewServer_routes_witness :
  let opts := [MuxHandleOption ["/api/"; "/v2"]; HTTPHandlerOption "/metrics" (HOther 1)] in
  exists srv, NewServer true (fun _ => None) opts = Ok srv /\
    srv_Handler srv !! "/api/" = Some (HStripPrefix "/api") /\ srv_Handler srv !! "/metrics" = Some (HOther 1).
Proof.
  intros opts. eexists. split; [reflexivity|].
  destruct (NewServer_routes (fun _ => None) opts _ _ eq_refl eq_refl) as (_ & _ & Hl).
  split; apply Hl; [right|left]; [|by eexists]. exists "/api/". split_and!; [by left|reflexivity..].
Defined.

Lemma rules_at_app rules rules' tags : rules_at (rules ++ rules') tags = rules_at rules tags ++ rules_at rules' tags.
Proof. apply filter_app. Qed.

Lemma selected_iff rules name rule :
  rule ∈ selected rules name <-> rule ∈ rules /\ before_star (components (Selector rule)) `prefix_of` components name.
Proof.
  unfold selected. rewrite list_elem_of_join. split.
  - intros (l & Hin & (n & -> & _)%list_elem_of_fmap). apply list_elem_of_filter in Hin as [Hs Hin]. split; [done|].
    rewrite Hs. apply prefix_take.
  - intros (Hin & rest & Hr). set (tags := before_star _) in Hr. exists (rules_at rules tags). split; [by apply list_elem_of_filter|].
    apply list_elem_of_fmap. exists (length tags). rewrite Hr, take_app_length. split; [done|]. apply elem_of_seq. rewrite length_app. lia.
Qed.

(** With [AddHealthz] a configuration gives the method Check, and only it, the rule
    that serves GET /v1/healthz, and the method Watch the one that serves the
    WebSocket; every other rule selects the methods that it selected before. *)
Theorem AddHealthz_rules rules r name rule :
  setRules (AddHealthz rules) emptySelector = Ok r ->
  rule ∈ getRules r name <->
    rule ∈ selected rules name \/
    (rule = health_check /\ ["grpc"; "health"; "v1"; "Health"; "Check"] `prefix_of` components name) \/
    (rule = health_watch /\ ["grpc"; "health"; "v1"; "Health"; "Watch"] `prefix_of` components name).
Proof.
  intros E. rewrite (setRules_getRules_ok _ _ _ name E), !selected_iff.
  unfold AddHealthz. rewrite elem_of_app, elem_of_cons, list_elem_of_singleton. split.
  - intros ([Hin|[->| ->]] & Hp); [by left|right; left|right; right]; by split.
  - intros [[Hin Hp]|[[-> Hp]|[-> Hp]]]; (split; [tauto|done]).
Qed.

Lemma AddHealthz_rules_witness :
  exists r, setRules (AddHealthz []) emptySelector = Ok r /\ health_check ∈ getRules r "grpc.health.v1.Health.Check".
Proof.
  eexists. split; [vm_compute; reflexivity|].
  apply (AddHealthz_rules [] _ "grpc.health.v1.Health.Check" health_check ltac:(vm_compute; reflexivity)).
  right. left. split; [done|]. by exists [].
Defined.
