(* ===== verification/Docs.v ===== *)
(** The program of docs/main.go: the health service behind a mux and a server.  It
    puts the parts together: the rules of health/health.go, the options and the
    registration of larking/mux.go, the server of larking/server.go. *)

#[local] Set Warnings "-register-all".
From S2P Require Import Prelude Status Runes IO Http Proto Lexer Params Metadata Compress Codec Selector Stream Routes RouteTree RouteRules RouteSearch GrpcStream Mux MuxSpec Server.

Section Main.
Context `{U : Unicode} `{P : Protoreflect} `{MA : @Marshaling P} `{GZ : Gzip} `{G : GoAppend} `{W : Protowire} `{R : GoRange}.

(** What [main] makes before it listens.  An error or a panic ends the program.
    [desc] is [Health_ServiceDesc] of google.golang.org/grpc, which
    [RegisterHealthServer] registers with the server of grpc/health. *)
Definition docs_main (globalFiles : Files) (globalTypes : Types) (desc : ServiceDesc)
    (ConfigureServer : http_Server -> option error) : go (Mux * http_Server) :=
  let serviceConfig := AddHealthz [] in
  mux ← NewMux globalFiles globalTypes [ServiceConfigOption serviceConfig];
  match RegisterService desc (Some true) mux with
  | (mux, Ok _) => svr ← NewServer true ConfigureServer []; Ok (mux, svr)
  | (_, Err e) => Err e
  | (_, Panic q) => Panic q
  | (_, OutOfFuel) => OutOfFuel
  end.
End Main.

(** ** What it serves *)

(** A request with the verb and the path, without parameters, goes to the method with
    the descriptor, and to the handler that was registered for it. *)
Definition serves `{U : Unicode} `{P : Protoreflect} (s : option state) (verb route : string) (d : MethodDescriptor)
    (body : bool) (handler : muxOptions -> prog unit) : Prop :=
  exists mt hd, state_match s route verb = Ok (mt, []) /\ desc mt = d /\ hasBody mt = body /\
    (forall pick, pickMethodHandler pick s (method_name mt) = Ok hd) /\ h_desc hd = d /\ h_handler hd = handler.

(** A server without options. *)
Lemma default_server ConfigureServer :
  (forall hs, ConfigureServer hs = None) ->
  NewServer true ConfigureServer [] = Ok (HttpServer (10 * second) (2 ^ 20) {["/" := HMux]} None).
Proof.
  intros Hcfg. unfold NewServer. cbn [negb apply_server_options mbind outcome_bind muxPatterns serveMux tlsConfig default].
  assert (E : handle_patterns ["/"] ∅ = Ok {["/" := HMux]}) by (vm_compute; reflexivity).
  cbn [from_option id]. rewrite E. cbn [mbind outcome_bind]. by rewrite Hcfg.
Qed.

Section Serves.
Context `{P : Protoreflect} `{MA : @Marshaling P} `{GZ : Gzip} `{G : GoAppend} `{W : Protowire} `{R : GoRange}.
Context (globalFiles : Files) (globalTypes : Types) (sd : ServiceDescriptor) (check watch : MethodDescriptor).
Context (handle_check : context -> option UnaryServerInterceptor -> prog Message) (handle_watch : prog unit).
Context (find_service : FindDescriptorByName globalFiles "grpc.health.v1.Health" = FoundService sd).
Context (find_check : MethodByName sd "Check" = Some check) (check_name : MethodFullName check = "grpc.health.v1.Health.Check").
Context (find_watch : MethodByName sd "Watch" = Some watch) (watch_name : MethodFullName watch = "grpc.health.v1.Health.Watch").
Context (check_rule : MethodHTTP check = None) (watch_rule : MethodHTTP watch = None).

Definition health_desc : ServiceDesc :=
  MkServiceDesc "grpc.health.v1.Health" [MkMethodDesc "Check" handle_check] [MkStreamDesc "Watch" handle_watch true false].

Definition check_handler : muxOptions -> prog unit :=
  snd (unary_entry (MkMethodDesc "Check" handle_check)) "/grpc.health.v1.Health/Check".
Definition watch_handler : muxOptions -> prog unit :=
  snd (stream_entry (MkStreamDesc "Watch" handle_watch true false)) "/grpc.health.v1.Health/Watch".

(** The state that the registration makes. *)
Lemma health_entries o :
  getRules (httprules o) "grpc.health.v1.Health.Check" = [health_check] ->
  getRules (httprules o) "grpc.health.v1.Health.Watch" = [health_watch] ->
  exists s, register_entries o sd "grpc.health.v1.Health" 0 (entries health_desc) (State newPath ∅ ∅) = (s, Ok tt) /\
    serves (Some s) "GET" "/v1/healthz" check false check_handler /\
    serves (Some s) "WEBSOCKET" "/v1/healthz" watch false watch_handler /\
    serves (Some s) "POST" "/grpc.health.v1.Health/Check" check true check_handler /\
    serves (Some s) "POST" "/grpc.health.v1.Health/Watch" watch true watch_handler /\
    state_match (Some s) "/v1/healthz" "POST" = Err errNotFound.
Proof using find_check check_name find_watch watch_name check_rule watch_rule.
  intros Hrc Hrw. unfold entries, health_desc, register_entries, findMethod. cbn [Methods Streams fmap list_fmap app unary_entry stream_entry md_MethodName sd_StreamName].
  rewrite find_check, find_watch. unfold appendHandler. rewrite check_name, watch_name, check_rule, watch_rule, Hrc, Hrw.
  eexists. split; [vm_compute; reflexivity|].
  split_and!; [..|vm_compute; reflexivity].
  all: eexists _, _; (split; [vm_compute; reflexivity|]); do 2 (split; [reflexivity|]);
    (split; [intros pick; apply pick_state; vm_compute; reflexivity|]); split; reflexivity.
Qed.

(** C34 The program of the documentation serves its health service: the mux and the
    server are made without an error or a panic, every path of the server leads to
    the mux, and there the path of health/health.go reaches Check with GET and Watch
    over a WebSocket, without a body, the paths of the two methods reach them with
    one, each with the handler that was registered; with another verb the health path
    is not found. *)
Theorem docs_main_serves ConfigureServer :
  (forall hs, ConfigureServer hs = None) ->
  exists m srv, docs_main globalFiles globalTypes health_desc ConfigureServer = Ok (m, srv) /\
    srv_Handler srv = {["/" := HMux]} /\
    serves (loadState m) "GET" "/v1/healthz" check false check_handler /\
    serves (loadState m) "WEBSOCKET" "/v1/healthz" watch false watch_handler /\
    serves (loadState m) "POST" "/grpc.health.v1.Health/Check" check true check_handler /\
    serves (loadState m) "POST" "/grpc.health.v1.Health/Watch" watch true watch_handler /\
    state_match (loadState m) "/v1/healthz" "POST" = Err errNotFound.
Proof using find_service find_check check_name find_watch watch_name check_rule watch_rule.
  intros Hcfg.
  assert (E : exists mux, NewMux globalFiles globalTypes [ServiceConfigOption (AddHealthz [])] = Ok mux /\
    files (opts mux) = globalFiles /\ loadState mux = None /\ next_handler mux = 0 /\
    getRules (httprules (opts mux)) "grpc.health.v1.Health.Check" = [health_check] /\
    getRules (httprules (opts mux)) "grpc.health.v1.Health.Watch" = [health_watch]).
  { eexists. split; [reflexivity|]. split_and!; vm_compute; reflexivity. }
  destruct E as (mux & E & Hf & Hl & Hn & Hrc & Hrw). destruct (health_entries (opts mux) Hrc Hrw) as (s & Es & Hs).
  exists (MkMux (opts mux) (Some s) 2). eexists. split; [|split; [|exact Hs]].
  - unfold docs_main, RegisterService, registerService. cbv zeta. rewrite E. cbn [mbind outcome_bind].
    change (ServiceName health_desc) with "grpc.health.v1.Health". rewrite Hf, Hl, Hn, find_service.
    change (state_clone None) with (State newPath ∅ ∅).
    rewrite Es. cbn [commit storeState opts loadState next_handler]. by rewrite (default_server ConfigureServer Hcfg).
  - reflexivity.
Qed.
End Serves.

(** The descriptors of the health service. *)
Module SampleHealth.
Definition request : xmessage := XMessage "grpc.health.v1.HealthCheckRequest" [].
Definition check : @MethodDescriptor plain_proto := XMethod "grpc.health.v1.Health.Check" request request false false None.
Definition watch : @MethodDescriptor plain_proto := XMethod "grpc.health.v1.Health.Watch" request request false true None.
Definition service : xservice := XService "grpc.health.v1.Health" [check; watch].
Definition files : @Files plain_proto := [XFile "grpc/health/v1/health.proto" [service]].
Definition handle_check : context -> option UnaryServerInterceptor -> @prog plain_proto (@Message plain_proto) := fun _ _ => PReturn (XText request "ok").
Definition handle_watch : @prog plain_proto unit := PReturn tt.
End SampleHealth.
Import SampleHealth.

Lemma docs_main_serves_witness :
  exists m srv, docs_main (P := plain_proto) SampleHealth.files tt (health_desc handle_check handle_watch) (fun _ => None) = Ok (m, srv) /\
    serves (loadState m) "GET" "/v1/healthz" check false (check_handler handle_check).
Proof.
  destruct (docs_main_serves (P := plain_proto) SampleHealth.files tt service check watch handle_check handle_watch
    eq_refl eq_refl eq_refl eq_refl eq_refl eq_refl eq_refl (fun _ => None) (fun _ => eq_refl)) as (m & srv & E & _ & Hs & _).
  exists m, srv. split; [exact E|exact Hs].
Defined.
